(* ===== verification/_CoqProject ===== *)
-Q . S2P
Prelude.v
Monad.v
Protocol.v
Error.v
Config.v
Engine.v
Output.v
Send.v
Recv.v
Ack.v
Input.v
Flush.v
Frame.v
Safety.v
Actor.v
Stream.v
Listener.v
History.v
Link.v
Progress.v
Delivery.v
Duplex.v
EndToEnd.v
Server.v
Echo.v
Perf.v
Client.v
Bench.v
Interop.v
Measure.v
