(* ===== verification/Prelude.v ===== *)
(** * The KCP library, verified

    rust-kcp is a reliable transport over datagrams: [kcp-core] is the protocol
    engine, a state machine without I/O, and [kcp] runs it in an asynchronous
    task per connection, with streams and a listener on top.  This development
    models both in one state-and-error monad and proves that they do what they
    are for: what one application writes, the other reads, whole and in order,
    over a network that loses, duplicates and reorders.

    ** The files and what they model

    - [Prelude]: lists, wrap-around arithmetic, record update, hint databases.
    - [Monad]: the effect of the Rust code (mutable state, [Result], panics), its
      arithmetic (checked or wrapping, by build profile), and a weakest
      precondition calculus.  A [wp] fact is total: it says that the run ends,
      does not run out of fuel, and panics only as its first argument allows.
    - [Protocol] (kcp-core/src/protocol.rs): constants, header and segment with
      their codec, the clock, wrapping comparisons, statistics.
    - [Error] (kcp-core/src/error.rs, kcp/error.rs) and [Config]
      (kcp-core/src/config.rs, kcp/config.rs): errors, their conversion and
      predicates; configurations, presets, validation.
    - The engine, kcp-core/src/engine.rs: [Engine] has the state ([KcpEngine] with
      the Rust fields, [Inv] its invariant), the constructor and accessors;
      [Output] packs segments into datagrams; [Send] is [send]; [Recv] is
      [recv], [peek_size], [parse_data] and [move_to_recv_queue]; [Ack] is the
      handling of acknowledgements, the RTT estimator and the congestion window;
      [Input] is [input]; [Flush] is [flush], [check] and [update].
    - [Frame]: what no operation changes.  [Safety]: the public operations as one
      step relation, and what is reachable.
    - [Actor] (kcp/actor.rs): the task that owns an engine; one [turn] is one
      iteration of its [select!] loop.  [Stream] (kcp/stream.rs): setting up,
      connecting, [send]/[recv], the [AsyncRead] and [AsyncWrite] polls, closing.
      [Listener] (kcp/listener.rs): making a listener, routing, admission, accept,
      cleanup and closing, as a step relation that interleaves the two tasks at
      their critical sections, and lets each end where it awaits.
    - The composition: [History] relates one engine to the histories of both
      ends; [Link] is two engines over a network; [Progress] is what a round trip
      without loss achieves, [Delivery] what enough of them do; [Duplex] is two
      actors, each shown to be an end of a link; [EndToEnd] is two streams with
      their actors; [Server] is a listener with all its clients and the streams it
      accepts, each client and its stream shown to be such a pair.
    - The programs around the library.  [Echo] is the application loop of the
      example servers at the end of such a pair, and [Client] the clients of
      examples/simple_echo.rs and issue5_repro.rs at the other end.  [Perf] and
      [Measure] (examples/perf_test_client.rs, perf_test_server.rs) are what the
      measuring tools count, and their tests and accept loops.  [Bench]
      (benches/kcp_bench.rs) and [Interop] (examples/interop_client_simple.rs) are
      programs on the engine itself: two engines in one thread, and three tasks
      that share one; each is shown to be a link.

    State and operations keep their Rust names, a field [f] of the engine being
    [e_f]; a block of a long function that has a name here is named after what
    it does ([push_segment], [ack_segment] in [input]; [move_to_send_one],
    [mark_one] in [flush]; [on_timer], [on_packet], [on_send] in the actor).

    ** What the theorems show

    - Composition.  Reading is a prefix of writing, from application to
      application ([end_to_end]), and all of it once both sides have nothing left
      ([end_to_end_complete]), for the streams the library opens
      ([streams_open]) and for all clients of a server at once
      ([server_delivers], [accepted_connected]); a client of the echo server reads
      back what it wrote ([echo_round_trip]), and the example clients, which compare
      message by message, never see a difference ([echo_verified]); the same for
      two actors, message by message ([actors_deliver]), one of which, when it is
      closed, ends only if it gives up, its deadline has passed or all it took has
      arrived ([close_loses_nothing]); for two engines, messages arrive whole and
      in order ([messages_in_order]), no segment leaves the send buffer before the
      peer has it ([nothing_lost]), and the receiver cannot wedge
      ([full_queue_is_readable]).  One round trip without loss clears what is due
      ([round_trip]); as many of them as there are segments outstanding, and
      three, deliver everything, through a closed window too
      ([eventual_delivery]), and they can be had as long as neither end has a
      segment at its last transmission ([round_possible]).  Three of these ask
      that the reader's receive window is at least the writer's, as [send] assumes
      of the peer it cannot ask: [end_to_end_complete], [eventual_delivery] and
      [full_queue_is_readable].
    - Safety.  From [new], whatever calls are made with whatever bytes, the engine
      keeps its invariant and does not panic but for a checked overflow
      ([engine_never_panics]), and so does the actor ([actor_safe]).
    - Each operation on each branch: sending, reassembly, acknowledgements, RTT
      and windows, retransmission, probing, deadlines, dead-link detection,
      errors; the codec and the packing of datagrams round-trip; the actor's
      backpressure and closing; the stream's reads and writes; the listener's
      bookkeeping; validation.
    - The programs on the engine get what its theorems promise: the
      interoperability client reads the server's messages and ends
      ([interop_answers]), the benchmarks count what was sent ([benchmark_counts]),
      and the figures of the measuring tools add up ([latency_test_adds_up],
      [throughput_test_adds_up], [latency_figures]).

    ** How it is modelled

    - Integers are [Z] within their width; [uadd], [usub], [umul] wrap or panic
      with the build profile, a parameter ([Profile]), so each theorem is about
      the debug and the release build.
    - Code that is not in the repository is a parameter.  The bytes crate is the
      class [BytesApi] with its documented laws [BytesApiSpec] ([bytes_le] is an
      instance).  The clock is any sequence of readings ([Clock], [Instants]),
      so time passes between and within calls as it likes.  The hasher and the
      random numbers are sequences of draws.  Channels, sockets and futures answer
      through arguments and events, and what is given to them is logged.
      [DashMap] is any finite map.  [f32] is abstract.
    - Loops are structural, or take a fuel that is proved to be enough: one more
      than the queue for moving data into the send buffer, than the receive
      buffer for filling the receive queue, than the bytes of a datagram for
      parsing it, than the send buffer for the binary search.
    - The network of [Link], [Duplex] and [EndToEnd] may deliver any datagram the
      peer ever put out, at any time and any number of times, and any datagram
      without a segment of the conversation.  It does not forge; in [Server] this
      is about addresses too.  The ends have their own clocks and build profiles.
    - A handle of the listener is the index of a session in [Server]; input and
      data channels may delay and drop, as [try_send] does.
    - A sequence number stands for one segment as long as fewer than 2^31 were
      numbered ([bounded]; for actors and streams, 2^31 bytes written, as no
      segment is empty), since old datagrams may turn up at any time.  Within one
      engine the numbers wrap freely.
    - Actors run one turn at a time between deliveries.  A turn sees at most one
      datagram, at its start, so a finer interleaving would reach nothing more.

    ** What the modelling showed

    A stream-mode [send] that fails has queued part of its data
    ([stream_error_keeps_data]); an empty data segment blocks [recv] for good
    ([recv_blocked_by_empty]); a reader with a smaller receive window than the
    writer's wedges on a message that was acknowledged in full
    ([narrow_reader_wedges]), and the pairs in the examples are such; deadlines overflow at the wrap of the clock in a
    checked build ([debug_panics_at_clock_wrap]); the idle time reads 0 for up
    to 49.7 days after it ([idle_ms_zero_after_wrap]); one retry is none
    ([one_retry_is_lost]); an abandoned write is sent in place of the next
    ([abandoned_write_is_sent]); [KcpStream::recv] overtakes a partial read
    ([recv_overtakes_read]); listener limits of 0 pass validation
    ([zero_limits_validate]) and make a listener that panics or is deaf
    ([with_transport_spec]); a closed listener's [accept] waits for ever
    ([accept_after_stop]); [accept] is not cancel safe
    ([cancelled_accept_bars_peer]); the measuring server counts messages several
    times ([monitor_total]) and the measuring client takes the server's time stamp
    for its own ([sample_ignores_own_stamp]), the end of the stream for an error at
    every turn ([latency_turn]), and reads of a byte stream for answers
    ([planned_tests_fit]).

    ** Not modelled

    transport.rs only calls the operating system; its answers are arguments.
    Logging and the crate roots carry no logic.  Of the examples, the arguments of
    the command line, what is printed and the [f64] figures computed for it are
    left out, and issue5_tokio_kcp_client.rs, which is a program of another library.
    Tests are tests of what is proved here.  Reuse of sequence numbers, or of a client's
    address by a second connection, under a bound on the life of a datagram is not
    treated. *)
From stdpp Require Export prelude gmap list sorting pretty strings.
From Stdlib Require Export ZArith Lia Sorted.
From Stdlib Require Export Init.Byte.

#[global] Open Scope Z_scope.

(** * Record update

    [r <| f := v |>] is Rust's [r.f = v], and [r <| f ::= g |>] its
    [r.f = g(r.f)], on a value.  A field is settable when its record type
    declares its eta expansion. *)

Class Eta (R : Type) := eta : R → R.

Class Setter {R T : Type} (proj : R → T) := set_field : (T → T) → R → R.
Arguments set_field {R T} proj {_} _ _ : simpl nomatch.

(** The head of an application: the eta expansion of a record with parameters is
    one. *)
Ltac head_of t := lazymatch t with ?f _ => head_of f | _ => t end.

Ltac build_setter :=
  lazymatch goal with
  | |- @Setter ?R ?T ?proj =>
      let inst := eval cbv beta delta [eta] in (@eta R _) in
      let head := head_of inst in
      let body := eval unfold head in inst in
      lazymatch eval pattern proj in body with
      | ?abs _ => exact (fun f => abs (fun r => f (proj r)))
      end
  end.

#[export] Hint Extern 1 (Setter _) => build_setter : typeclass_instances.

Declare Scope kcp_scope.
Delimit Scope kcp_scope with kcp.
#[global] Open Scope kcp_scope.

Notation "x <| proj := v |>" := (set_field proj (λ _, v) x)
  (at level 1, left associativity) : kcp_scope.
Notation "x <| proj ::= f |>" := (set_field proj f x)
  (at level 1, left associativity) : kcp_scope.

(** * Machine integers

    A Rust integer is a [Z]; its width is written out where a value is made.
    [wrap w] is reduction modulo [2^w]; [as_u8], [as_u16], [as_u32] and
    [as_i32] are the casts of the same name; [in_u w z] says that [z] is a
    value of the unsigned type of [w] bits. *)

Abbreviation B32 := 4294967296 (only parsing).
Abbreviation H31 := 2147483648 (only parsing).

Definition wrap (w z : Z) : Z := z mod 2 ^ w.
Definition in_u (w z : Z) : Prop := 0 ≤ z < 2 ^ w.

Definition as_u8 (z : Z) : Z := wrap 8 z.
Definition as_u16 (z : Z) : Z := wrap 16 z.
Definition as_u32 (z : Z) : Z := wrap 32 z.
Definition as_i32 (z : Z) : Z :=
  let m := wrap 32 z in if m <? H31 then m else m - B32.

Definition u32_MAX : Z := 4294967295.
Definition u16_MAX : Z := 65535.

(** Rust's [a.wrapping_sub(b)] and [a.saturating_sub(b)] on [u32]. *)
Definition wrapping_sub (a b : Z) : Z := wrap 32 (a - b).
Definition saturating_sub (a b : Z) : Z := Z.max 0 (a - b).

(** [n.div_ceil(d)] for [0 < d]. *)
Definition div_ceil (n d : Z) : Z := (n + d - 1) / d.

(** Rust's [x.clamp(lo, hi)]. *)
Definition clamp (lo hi x : Z) : Z := Z.min hi (Z.max lo x).

Lemma pow8 : 2 ^ 8 = 256. Proof. reflexivity. Qed.
Lemma pow16 : 2 ^ 16 = 65536. Proof. reflexivity. Qed.
Lemma pow32 : 2 ^ 32 = B32. Proof. reflexivity. Qed.
Lemma pow64 : 2 ^ 64 = 18446744073709551616. Proof. reflexivity. Qed.

Create Rewrite HintDb kcp_pow.
#[export] Hint Rewrite pow8 pow16 pow32 pow64 : kcp_pow.

(** [zlia] is [lia] after unfolding the machine-integer layer. *)
Ltac zunfold :=
  unfold in_u, as_u8, as_u16, as_u32, as_i32, wrapping_sub, saturating_sub,
    div_ceil, clamp, wrap, u32_MAX, u16_MAX in *;
  autorewrite with kcp_pow in *.
Ltac zcases :=
  repeat match goal with
  | |- context [?a <? ?b] => destruct (Z.ltb_spec a b)
  | H : context [?a <? ?b] |- _ => destruct (Z.ltb_spec a b)
  | |- context [?a <=? ?b] => destruct (Z.leb_spec a b)
  | H : context [?a <=? ?b] |- _ => destruct (Z.leb_spec a b)
  | |- context [?a =? ?b] => destruct (Z.eqb_spec a b)
  | H : context [?a =? ?b] |- _ => destruct (Z.eqb_spec a b)
  end.
Ltac zmod := Z.div_mod_to_equations.
Ltac zlia := zunfold; zcases; zmod; lia.

Lemma wrap_small w z : in_u w z → wrap w z = z.
Proof. intros H. by apply Z.mod_small. Qed.

Lemma wrap_in_u w z : 0 ≤ w → in_u w (wrap w z).
Proof. intros H. apply Z.mod_pos_bound. by apply Z.pow_pos_nonneg. Qed.

Lemma as_u32_range z : in_u 32 (as_u32 z).
Proof. apply wrap_in_u; lia. Qed.
Lemma as_u16_range z : in_u 16 (as_u16 z).
Proof. apply wrap_in_u; lia. Qed.
Lemma as_u8_range z : in_u 8 (as_u8 z).
Proof. apply wrap_in_u; lia. Qed.
Lemma as_i32_range z : - H31 ≤ as_i32 z < H31.
Proof. pose proof (wrap_in_u 32 z ltac:(lia)). zlia. Qed.
Lemma as_u32_small z : in_u 32 z → as_u32 z = z.
Proof. apply wrap_small. Qed.
Lemma as_u16_small z : in_u 16 z → as_u16 z = z.
Proof. apply wrap_small. Qed.
Lemma as_i32_small z : - H31 ≤ z < H31 → as_i32 z = z.
Proof. intros. zlia. Qed.

Create HintDb kcp.
#[global] Arguments wrap : simpl never.
#[global] Arguments as_u32 : simpl never.
#[global] Arguments as_u16 : simpl never.
#[global] Arguments as_u8 : simpl never.
#[global] Arguments as_i32 : simpl never.
#[global] Arguments wrapping_sub : simpl never.
#[global] Arguments clamp : simpl never.
#[global] Arguments div_ceil : simpl never.

#[export] Hint Resolve as_u32_range as_u16_range as_u8_range : kcp.

(** * Bytes and lists *)

Abbreviation bytes := (list byte).

#[export] Instance byte_eq_dec : EqDecision byte := Byte.byte_eq_dec.

Definition len {A} (l : list A) : Z := Z.of_nat (length l).

#[global] Arguments len : simpl never.

Lemma len_nonneg {A} (l : list A) : 0 ≤ len l.
Proof. unfold len. lia. Qed.
Lemma len_nil {A} : len (@nil A) = 0.
Proof. reflexivity. Qed.
Lemma len_cons {A} (x : A) l : len (x :: l) = len l + 1.
Proof. unfold len. cbn. lia. Qed.
Lemma len_app {A} (l k : list A) : len (l ++ k) = len l + len k.
Proof. unfold len. rewrite length_app. lia. Qed.
Lemma len_zero {A} (l : list A) : len l = 0 → l = [].
Proof. destruct l; [done|]. rewrite len_cons. pose proof (len_nonneg l). lia. Qed.

Create Rewrite HintDb kcp_len.
#[export] Hint Rewrite @len_nil @len_cons @len_app : kcp_len.

Lemma len_take {A} n (l : list A) : len (take n l) = Z.min (Z.of_nat n) (len l).
Proof. unfold len. rewrite length_take. lia. Qed.
Lemma len_drop {A} n (l : list A) : len (drop n l) = Z.max 0 (len l - Z.of_nat n).
Proof. unfold len. rewrite length_drop. lia. Qed.
#[export] Hint Rewrite @len_take @len_drop : kcp_len.

(** [Bytes::is_empty], [VecDeque::is_empty]. *)
Definition is_empty {A} (l : list A) : bool := match l with [] => true | _ => false end.

Lemma is_empty_true {A} (l : list A) : is_empty l = true ↔ l = [].
Proof. by destruct l. Qed.
Lemma is_empty_false {A} (l : list A) : is_empty l = false ↔ l ≠ [].
Proof. by destruct l. Qed.
Lemma is_empty_len {A} (l : list A) : is_empty l = (len l =? 0).
Proof. destruct l; [done|]. rewrite len_cons. pose proof (len_nonneg l). cbn [is_empty]. symmetry. apply Z.eqb_neq. lia. Qed.

(** ** Little-endian integers *)

Definition byte_of_Z (z : Z) : byte :=
  match Byte.of_N (Z.to_N (wrap 8 z)) with Some b => b | None => x00 end.
Definition Z_of_byte (b : byte) : Z := Z.of_N (Byte.to_N b).

Lemma Z_of_byte_range b : in_u 8 (Z_of_byte b).
Proof. unfold Z_of_byte. pose proof (Byte.to_N_bounded b). zlia. Qed.

Lemma Z_of_byte_of_Z z : Z_of_byte (byte_of_Z z) = wrap 8 z.
Proof.
  unfold Z_of_byte, byte_of_Z. pose proof (wrap_in_u 8 z ltac:(lia)) as Hw.
  destruct (Byte.of_N _) eqn:E.
  - apply Byte.to_of_N in E. rewrite E. zlia.
  - apply Byte.of_N_None_iff in E. zlia.
Qed.

Lemma byte_of_Z_of_byte b : byte_of_Z (Z_of_byte b) = b.
Proof.
  unfold byte_of_Z. rewrite wrap_small by apply Z_of_byte_range.
  unfold Z_of_byte. by rewrite N2Z.id, Byte.of_to_N.
Qed.

Lemma byte_of_Z_congr z z' : wrap 8 z = wrap 8 z' → byte_of_Z z = byte_of_Z z'.
Proof. unfold byte_of_Z. by intros ->. Qed.

Fixpoint le_bytes (n : nat) (v : Z) : bytes :=
  match n with O => [] | S n => byte_of_Z v :: le_bytes n (v / 256) end.
Fixpoint le_val (bs : bytes) : Z :=
  match bs with [] => 0 | b :: bs => Z_of_byte b + 256 * le_val bs end.

Lemma length_le_bytes n v : length (le_bytes n v) = n.
Proof. revert v. induction n; intros; cbn; congruence. Qed.

Lemma le_val_le_bytes n v : 0 ≤ v < 256 ^ Z.of_nat n → le_val (le_bytes n v) = v.
Proof.
  revert v. induction n as [|n IH]; intros v Hv; cbn [le_bytes le_val]; [lia|].
  rewrite Nat2Z.inj_succ, Z.pow_succ_r in Hv by lia.
  assert (0 ≤ v / 256 < 256 ^ Z.of_nat n).
  { split; [apply Z.div_pos; lia | apply Z.div_lt_upper_bound; lia]. }
  rewrite Z_of_byte_of_Z, IH by done. zlia.
Qed.

Lemma le_val_range bs : 0 ≤ le_val bs < 256 ^ len bs.
Proof.
  induction bs as [|b bs IH]; [done|].
  cbn [le_val]. rewrite len_cons, Z.pow_add_r, Z.pow_1_r by (pose proof (len_nonneg bs); lia).
  pose proof (Z_of_byte_range b). zunfold. lia.
Qed.

Lemma le_bytes_le_val bs : le_bytes (length bs) (le_val bs) = bs.
Proof.
  induction bs as [|b bs IH]; [done|]. cbn [length le_bytes le_val].
  pose proof (Z_of_byte_range b). f_equal.
  - rewrite <- (byte_of_Z_of_byte b) at 2. apply byte_of_Z_congr. zlia.
  - transitivity (le_bytes (length bs) (le_val bs)); [|done]. f_equal. zlia.
Qed.

(** ** Sublists *)

Lemma Forall_sublist {A} (P : A → Prop) l l' : sublist l l' → Forall P l' → Forall P l.
Proof. induction 1; intros Hl; [done|..]; inversion_clear Hl; auto. Qed.

Lemma StronglySorted_sublist {A} (R : A → A → Prop) l l' :
  sublist l l' → StronglySorted R l' → StronglySorted R l.
Proof.
  induction 1 as [|x l l' Hl IH|x l l' Hl IH]; intros Hs; [done|..]; inversion_clear Hs; [|auto].
  constructor; [auto|]. by eapply Forall_sublist.
Qed.

Lemma filter_all {A} (P : A → Prop) `{!∀ x, Decision (P x)} l : Forall P l → filter P l = l.
Proof.
  induction 1 as [|x l Hx Hl IH]; [done|]. by rewrite filter_cons_True, IH.
Qed.

Lemma StronglySorted_lookup {A} (R : A → A → Prop) l i j x y :
  StronglySorted R l → l !! i = Some x → l !! j = Some y → (i < j)%nat → R x y.
Proof.
  intros Hs Hi Hj Hij. apply list_elem_of_split_length in Hi as (l1 & l2 & -> & ->).
  apply StronglySorted_app_1_r in Hs. apply StronglySorted_cons in Hs as [Hx _].
  rewrite Forall_forall in Hx. apply Hx.
  rewrite lookup_app_r in Hj by lia. destruct (j - length l1)%nat eqn:E; [lia|].
  by eapply list_elem_of_lookup_2.
Qed.

Lemma StronglySorted_from_lookup {A} (R : A → A → Prop) l :
  (∀ i j x y, l !! i = Some x → l !! j = Some y → (i < j)%nat → R x y) → StronglySorted R l.
Proof.
  induction l as [|x l IH]; intros H; constructor.
  - apply IH. intros i j y z Hi Hj Hij. apply (H (S i) (S j)); [done..|lia].
  - apply Forall_lookup. intros i y Hi. apply (H O (S i)); [done..|lia].
Qed.

(** Mapping over an indexed map. *)
Lemma map_imap_elem {A B C} (g : B → C) (f : nat → A → B) (h : A → C) l :
  (∀ i x, g (f i x) = h x) → map g (imap f l) = map h l.
Proof.
  intros H. rewrite <- (imap_const h). change (map g (imap f l)) with (g <$> imap f l).
  rewrite fmap_imap. apply imap_ext. intros i x _. apply H.
Qed.
Lemma map_imap_index {A B C} (g : B → C) (f : nat → A → B) (h : nat → C) l :
  (∀ i x, g (f i x) = h i) → map g (imap f l) = map h (seq 0 (length l)).
Proof.
  intros H. transitivity (imap (λ i (_ : A), h i) l); [|apply imap_seq_0].
  change (map g (imap f l)) with (g <$> imap f l). rewrite fmap_imap. apply imap_ext. intros i x _. apply H.
Qed.
