(* ===== verification/Monad.v ===== *)
(** The effect the Rust code has, as a monad: a mutable state, an error result
    and a panic.

    [M S E A] is a computation over a state [S] that returns an [A], fails
    with an [E] ([Result::Err]) or panics.  A failing call keeps the state it
    had reached, as [&mut self] does.  Arithmetic on machine integers is
    checked or wraps according to the build profile ([overflow-checks]): one
    definition stands for the debug and for the release build.

    The second half is a weakest-precondition calculus.  [wp K m Q R s] says
    that running [m] in [s] returns a value and a state in [Q], or an error and
    a state in [R], or panics for a reason that [K] allows; [K] never allows
    running out of fuel, so a [wp] fact is also a termination fact. *)
From S2P Require Import Prelude.

Inductive panic :=
  | OverflowPanic   (** arithmetic overflow, in a build that checks it *)
  | BoundsPanic     (** slice or index out of range *)
  | DivZeroPanic    (** division by zero *)
  | AssertPanic     (** a failed assertion of the standard library *)
  | OutOfFuel.      (** not a panic: a loop that did not end within its fuel *)

Inductive outcome (E A : Type) :=
  | Ok (a : A)
  | Err (e : E)
  | Panicked (p : panic).
Arguments Ok {E A} a.
Arguments Err {E A} e.
Arguments Panicked {E A} p.

#[export] Instance panic_eq_dec : EqDecision panic.
Proof. solve_decision. Defined.

Definition M (S E A : Type) : Type := S → outcome E A * S.

#[export] Instance M_ret {S E} : MRet (M S E) := λ A a s, (Ok a, s).
#[export] Instance M_bind {S E} : MBind (M S E) := λ A B k m s,
  match m s with
  | (Ok a, s') => k a s'
  | (Err e, s') => (Err e, s')
  | (Panicked p, s') => (Panicked p, s')
  end.

Definition gets {S E A} (f : S → A) : M S E A := λ s, (Ok (f s), s).
Definition modify {S E} (f : S → S) : M S E () := λ s, (Ok tt, f s).
Definition fail {S E A} (e : E) : M S E A := λ s, (Err e, s).
Definition panicM {S E A} (p : panic) : M S E A := λ s, (Panicked p, s).

(** [if c { m }]. *)
Definition whenM {S E} (c : bool) (m : M S E ()) : M S E () :=
  if c then m else mret tt.

(** [for a in l { b = f(b, a)? }]. *)
Fixpoint foldM {S E A B} (f : B → A → M S E B) (b : B) (l : list A) : M S E B :=
  match l with
  | [] => mret b
  | a :: l => b' ← f b a; foldM f b' l
  end.

Definition forM {S E A} (l : list A) (f : A → M S E ()) : M S E () :=
  foldM (λ _ a, f a) tt l.

(** [loop { match body(b)? { inl b' => b = b', inr r => break r } }]: the
    locals a loop carries are its argument. *)
Fixpoint iterM {S E B C} (fuel : nat) (body : B → M S E (B + C)) (b : B) : M S E C :=
  match fuel with
  | O => panicM OutOfFuel
  | Datatypes.S fuel =>
      r ← body b;
      match r with inl b' => iterM fuel body b' | inr c => mret c end
  end.

(** ** Build profile and checked arithmetic *)

Class Profile := overflow_checks : bool.
Definition debug_build : Profile := true.
Definition release_build : Profile := false.

Section Arith.
Context {prof : Profile} {S E : Type}.

(** The result [z] of an operation on the unsigned type of [w] bits. *)
Definition arith (w z : Z) : M S E Z :=
  if (0 <=? z) && (z <? 2 ^ w) then mret z
  else if overflow_checks then panicM OverflowPanic else mret (wrap w z).

Definition uadd (w a b : Z) : M S E Z := arith w (a + b).
Definition usub (w a b : Z) : M S E Z := arith w (a - b).
Definition umul (w a b : Z) : M S E Z := arith w (a * b).

(** [a - b] on [i32]. *)
Definition isub32 (a b : Z) : M S E Z :=
  if (- H31 <=? a - b) && (a - b <? H31) then mret (a - b)
  else if overflow_checks then panicM OverflowPanic else mret (as_i32 (a - b)).

Definition udiv (a b : Z) : M S E Z :=
  if b =? 0 then panicM DivZeroPanic else mret (a / b).
Definition udiv_ceil (a b : Z) : M S E Z :=
  if b =? 0 then panicM DivZeroPanic else mret (div_ceil a b).

(** [Ord::clamp] asserts that its bounds are in order. *)
Definition clampM (lo hi x : Z) : M S E Z :=
  if lo <=? hi then mret (clamp lo hi x) else panicM AssertPanic.

(** [buf[lo..hi]] and [Bytes::slice(lo..hi)]. *)
Definition slice (lo hi : Z) (buf : bytes) : M S E bytes :=
  if (0 <=? lo) && (lo <=? hi) && (hi <=? len buf)
  then mret (take (Z.to_nat (hi - lo)) (drop (Z.to_nat lo) buf))
  else panicM BoundsPanic.

(** [v[i]] on a [VecDeque]. *)
Definition index {A} (v : list A) (i : nat) : M S E A :=
  match v !! i with Some a => mret a | None => panicM BoundsPanic end.
End Arith.

(** * Weakest preconditions *)

Definition wp {S E A} (K : panic → Prop) (m : M S E A)
    (Q : A → S → Prop) (R : E → S → Prop) (s : S) : Prop :=
  match m s with
  | (Ok a, s') => Q a s'
  | (Err e, s') => R e s'
  | (Panicked p, _) => K p
  end.

(** [no_panic]: none at all.  [checked_overflow]: only arithmetic overflow, and
    only in a build that checks it; in a release build it is [no_panic]. *)
Definition no_panic : panic → Prop := λ _, False.
Definition checked_overflow `{!Profile} : panic → Prop :=
  λ p, p = OverflowPanic ∧ overflow_checks = true.

Section WP.
Context {S E : Type} (K : panic → Prop).
Implicit Types R : E → S → Prop.

Lemma wp_ret {A} (a : A) (Q : A → S → Prop) R s : Q a s → wp K (mret a) Q R s.
Proof. done. Qed.

Lemma wp_bind {A B} (m : M S E A) (k : A → M S E B) (Q : B → S → Prop) R s :
  wp K m (λ a s', wp K (k a) Q R s') R s → wp K (m ≫= k) Q R s.
Proof.
  unfold wp. unfold mbind, M_bind. by destruct (m s) as [[] ?].
Qed.

Lemma wp_bind_inv {A B} (m : M S E A) (k : A → M S E B) (Q : B → S → Prop) R s :
  wp K (m ≫= k) Q R s → wp K m (λ a s', wp K (k a) Q R s') R s.
Proof.
  unfold wp. unfold mbind, M_bind. by destruct (m s) as [[] ?].
Qed.

Lemma bind_ok {A B} (m : M S E A) (k : A → M S E B) b s s' :
  (m ≫= k) s = (Ok b, s') → ∃ a s1, m s = (Ok a, s1) ∧ k a s1 = (Ok b, s').
Proof. unfold mbind, M_bind. destruct (m s) as [[a| |] s1]; [|done..]. eauto. Qed.

Lemma wp_mono {A} (m : M S E A) (Q Q' : A → S → Prop) (R R' : E → S → Prop) s :
  wp K m Q R s →
  (∀ a s', Q a s' → Q' a s') → (∀ e s', R e s' → R' e s') → wp K m Q' R' s.
Proof. unfold wp. destruct (m s) as [[] ?]; auto. Qed.

Lemma wp_post {A} (m : M S E A) (Q Q' : A → S → Prop) R s :
  wp K m Q R s → (∀ a s', Q a s' → Q' a s') → wp K m Q' R s.
Proof. intros. eapply wp_mono; eauto. Qed.

Lemma wp_and {A} (m : M S E A) (Q Q' : A → S → Prop) R R' s :
  wp K m Q R s → wp K m Q' R' s →
  wp K m (λ a s', Q a s' ∧ Q' a s') (λ err s', R err s' ∧ R' err s') s.
Proof. unfold wp. destruct (m s) as [[] ?]; auto. Qed.

Lemma wp_gets {A} (f : S → A) (Q : A → S → Prop) R s :
  Q (f s) s → wp K (gets f) Q R s.
Proof. done. Qed.

Lemma wp_modify (f : S → S) (Q : () → S → Prop) R s :
  Q tt (f s) → wp K (modify f) Q R s.
Proof. done. Qed.

Lemma wp_fail {A} (e : E) (Q : A → S → Prop) R s : R e s → wp K (fail e) Q R s.
Proof. done. Qed.

Lemma wp_panic {A} p (Q : A → S → Prop) R s : K p → wp K (panicM p) Q R s.
Proof. done. Qed.

Lemma wp_when c (m : M S E ()) (Q : () → S → Prop) R s :
  (c = true → wp K m Q R s) → (c = false → Q tt s) → wp K (whenM c m) Q R s.
Proof. destruct c; cbn; auto. Qed.

Lemma wp_if {A} (c : bool) (m n : M S E A) (Q : A → S → Prop) R s :
  (c = true → wp K m Q R s) → (c = false → wp K n Q R s) →
  wp K (if c then m else n) Q R s.
Proof. destruct c; auto. Qed.

(** Anything is allowed. *)
Lemma wp_true {A} (m : M S E A) s : wp (λ _, True) m (λ _ _, True) (λ _ _, True) s.
Proof. unfold wp. by destruct (m s) as [[] ?]. Qed.

Lemma wp_weaken_K (K' : panic → Prop) {A} (m : M S E A) (Q : A → S → Prop) R s :
  (∀ p, K' p → K p) → wp K' m Q R s → wp K m Q R s.
Proof. unfold wp. destruct (m s) as [[] ?]; auto. Qed.

(** Loops.  The invariant of [foldM] sees the part of the list done. *)
Lemma wp_foldM {A B} (f : B → A → M S E B) (I : list A → B → S → Prop)
    (Q : B → S → Prop) R l : ∀ b s,
  I [] b s →
  (∀ done a b s, I done b s → (∃ rest, l = done ++ a :: rest) →
     wp K (f b a) (λ b' s', I (done ++ [a]) b' s') R s) →
  (∀ b s, I l b s → Q b s) →
  wp K (foldM f b l) Q R s.
Proof.
  intros b s HI Hstep HQ.
  cut (∀ rest done b s, l = done ++ rest → I done b s → wp K (foldM f b rest) Q R s).
  { intros Hcut. by apply (Hcut l []). }
  clear b s HI. induction rest as [|a rest IH]; intros done b s -> HI; cbn [foldM].
  - apply wp_ret. rewrite app_nil_r in HQ. auto.
  - apply wp_bind. eapply wp_post; [apply Hstep; eauto|].
    intros b' s' HI'. apply (IH (done ++ [a])); [|done].
    by rewrite <- app_assoc.
Qed.

Lemma wp_forM {A} (f : A → M S E ()) (I : S → Prop) R l s :
  I s → (∀ a s, a ∈ l → I s → wp K (f a) (λ _ s', I s') R s) →
  wp K (forM l f) (λ _ s', I s') R s.
Proof.
  intros HI Hstep. unfold forM.
  apply (wp_foldM _ (λ _ _ s, I s)); [done| |done].
  intros done a b s' HI' [rest ->]. apply Hstep; [set_solver|done].
Qed.

(** [iterM] ends because a measure decreases. *)
Lemma wp_iterM {B C} (body : B → M S E (B + C)) (I : B → S → Prop)
    (measure : B → S → nat) (Q : C → S → Prop) R :
  (∀ b s, I b s → wp K (body b) (λ r s',
     match r with
     | inl b' => I b' s' ∧ (measure b' s' < measure b s)%nat
     | inr c => Q c s'
     end) R s) →
  ∀ fuel b s, I b s → (measure b s < fuel)%nat → wp K (iterM fuel body b) Q R s.
Proof.
  intros Hbody fuel. induction fuel as [|fuel IH]; intros b s HI Hm; [lia|].
  cbn [iterM]. apply wp_bind. eapply wp_post; [by apply Hbody|].
  intros [b'|c] s' H; [|by apply wp_ret].
  destruct H as [HI' Hlt]. apply IH; [done|lia].
Qed.

(** Reading a [wp] back as a fact about a run. *)
Lemma wp_run {A} (m : M S E A) Q R s :
  wp K m Q R s →
  match m s with
  | (Ok a, s') => Q a s'
  | (Err e, s') => R e s'
  | (Panicked p, _) => K p
  end.
Proof. done. Qed.
Lemma wp_ok {A} (m : M S E A) Q R s a s' :
  wp K m Q R s → m s = (Ok a, s') → Q a s'.
Proof. unfold wp. intros H Hr. by rewrite Hr in H. Qed.
Lemma wp_err {A} (m : M S E A) Q R s e s' :
  wp K m Q R s → m s = (Err e, s') → R e s'.
Proof. unfold wp. intros H Hr. by rewrite Hr in H. Qed.
End WP.

Section WPArith.
Context {prof : Profile} {S E : Type}.
Implicit Types R : E → S → Prop.

(** Whatever the profile, a result that is returned is the wrapped one. *)
Lemma wp_arith w z Q R s :
  0 ≤ w → Q (wrap w z) s → wp checked_overflow (arith w z) Q R s.
Proof.
  intros Hw HQ. unfold arith.
  destruct ((0 <=? z) && (z <? 2 ^ w)) eqn:E1.
  - apply andb_prop in E1 as [?%Z.leb_le ?%Z.ltb_lt].
    apply wp_ret. by rewrite wrap_small in HQ.
  - destruct overflow_checks eqn:Ec; [by apply wp_panic | by apply wp_ret].
Qed.

(** In range there is no difference between the profiles, and no panic. *)
Lemma wp_arith_exact K w z Q R s : in_u w z → Q z s → wp K (arith w z) Q R s.
Proof.
  intros [H1 H2] HQ. unfold arith.
  by rewrite (proj2 (Z.leb_le _ _) H1), (proj2 (Z.ltb_lt _ _) H2).
Qed.

Lemma arith_exact w z s : in_u w z → @arith _ S E w z s = (Ok z, s).
Proof.
  intros [H1 H2]. unfold arith.
  by rewrite (proj2 (Z.leb_le _ _) H1), (proj2 (Z.ltb_lt _ _) H2).
Qed.

Lemma wp_isub32_exact K a b Q R s :
  - H31 ≤ a - b < H31 → Q (a - b) s → wp K (isub32 a b) Q R s.
Proof.
  intros [H1 H2] HQ. unfold isub32.
  by rewrite (proj2 (Z.leb_le _ _) H1), (proj2 (Z.ltb_lt _ _) H2).
Qed.

Lemma wp_clamp K lo hi x Q R s :
  lo ≤ hi → Q (clamp lo hi x) s → wp K (clampM lo hi x) Q R s.
Proof. intros H HQ. unfold clampM. by rewrite (proj2 (Z.leb_le _ _) H). Qed.

Lemma wp_udiv K a b Q R s : b ≠ 0 → Q (a / b) s → wp K (udiv a b) Q R s.
Proof. intros H HQ. unfold udiv. by rewrite (proj2 (Z.eqb_neq b 0) H). Qed.

Lemma wp_udiv_ceil K a b Q R s : b ≠ 0 → Q (div_ceil a b) s → wp K (udiv_ceil a b) Q R s.
Proof. intros H HQ. unfold udiv_ceil. by rewrite (proj2 (Z.eqb_neq b 0) H). Qed.

Lemma wp_slice K lo hi buf Q R s :
  0 ≤ lo ≤ hi → hi ≤ len buf →
  Q (take (Z.to_nat (hi - lo)) (drop (Z.to_nat lo) buf)) s →
  wp K (slice lo hi buf) Q R s.
Proof.
  intros [H1 H2] H3 HQ. unfold slice.
  by rewrite (proj2 (Z.leb_le _ _) H1), (proj2 (Z.leb_le _ _) H2), (proj2 (Z.leb_le _ _) H3).
Qed.

Lemma slice_run lo hi buf s :
  0 ≤ lo ≤ hi → hi ≤ len buf →
  @slice S E lo hi buf s = (Ok (take (Z.to_nat (hi - lo)) (drop (Z.to_nat lo) buf)), s).
Proof.
  intros [H1 H2] H3. unfold slice.
  by rewrite (proj2 (Z.leb_le _ _) H1), (proj2 (Z.leb_le _ _) H2), (proj2 (Z.leb_le _ _) H3).
Qed.

Lemma wp_index {A} K (v : list A) i a Q R s :
  v !! i = Some a → Q a s → wp K (index v i) Q R s.
Proof. intros H HQ. unfold index. by rewrite H. Qed.
End WPArith.

(** [wp_step] consumes the first instruction of the goal; arithmetic is left
    as [wp_arith] leaves it, or exact when [wp_exact] is used. *)
Ltac wp_step :=
  lazymatch goal with
  | |- wp _ (mbind _ _) _ _ _ => apply wp_bind
  | |- wp _ (mret _) _ _ _ => apply wp_ret
  | |- wp _ (gets _) _ _ _ => apply wp_gets
  | |- wp _ (modify _) _ _ _ => apply wp_modify
  | |- wp _ (fail _) _ _ _ => apply wp_fail
  | |- wp _ (whenM _ _) _ _ _ => apply wp_when; intros ?
  | |- wp _ (if _ then _ else _) _ _ _ => apply wp_if; intros ?
  | |- wp checked_overflow (arith _ _) _ _ _ => apply wp_arith; [lia|]
  | |- wp checked_overflow (uadd _ _ _) _ _ _ => apply wp_arith; [lia|]
  | |- wp checked_overflow (usub _ _ _) _ _ _ => apply wp_arith; [lia|]
  | |- wp checked_overflow (umul _ _ _) _ _ _ => apply wp_arith; [lia|]
  end.
Ltac wp_steps := repeat (wp_step; cbv beta).
Ltac wp_exact := apply wp_arith_exact.
