(* ===== verification/Protocol.v ===== *)
(** kcp-core/src/protocol.rs: the constants, the wire header and segment with
    their codec, the millisecond clock and the wrapping order on sequence
    numbers and timestamps. *)
From S2P Require Import Prelude Monad.

(** * Constants *)

Module constants.
Definition IKCP_RTO_NDL : Z := 30.
Definition IKCP_RTO_MIN : Z := 100.
Definition IKCP_RTO_DEF : Z := 200.
Definition IKCP_RTO_MAX : Z := 60000.
Definition IKCP_CMD_PUSH : Z := 81.
Definition IKCP_CMD_ACK : Z := 82.
Definition IKCP_CMD_WASK : Z := 83.
Definition IKCP_CMD_WINS : Z := 84.
Definition IKCP_ASK_SEND : Z := 1.
Definition IKCP_ASK_TELL : Z := 2.
Definition IKCP_WND_SND : Z := 32.
Definition IKCP_WND_RCV : Z := 128.
Definition IKCP_MTU_DEF : Z := 1400.
Definition IKCP_ACK_FAST : Z := 3.
Definition IKCP_INTERVAL : Z := 100.
Definition IKCP_OVERHEAD : Z := 24.
Definition IKCP_DEADLINK : Z := 20.
Definition IKCP_THRESH_INIT : Z := 2.
Definition IKCP_THRESH_MIN : Z := 2.
Definition IKCP_PROBE_INIT : Z := 7000.
Definition IKCP_PROBE_LIMIT : Z := 120000.
Definition IKCP_FASTACK_LIMIT : Z := 5.
End constants.
Export constants.

(** * The [bytes] crate

    [Bytes] and [BytesMut] are represented by their contents.  The operations
    that encode integers, and the one whose result depends on the reference
    count of a buffer, are not code of this repository: they are a parameter,
    and [BytesApiSpec] states what their documentation says of them. *)

Class BytesApi := {
  put_u8 : bytes → Z → bytes;
  put_u16_le : bytes → Z → bytes;
  put_u32_le : bytes → Z → bytes;
  get_u8 : bytes → Z * bytes;
  get_u16_le : bytes → Z * bytes;
  get_u32_le : bytes → Z * bytes;
  (** [Ok] (here [inl]) with the same contents for a unique owner, [Err] with
      the buffer itself otherwise. *)
  try_into_mut : bytes → bytes + bytes;
}.

Class BytesApiSpec (api : BytesApi) : Prop := {
  put_u8_spec buf v : in_u 8 v → put_u8 buf v = buf ++ le_bytes 1 v;
  put_u16_le_spec buf v : in_u 16 v → put_u16_le buf v = buf ++ le_bytes 2 v;
  put_u32_le_spec buf v : in_u 32 v → put_u32_le buf v = buf ++ le_bytes 4 v;
  get_u8_spec buf : (1 ≤ length buf)%nat → get_u8 buf = (le_val (take 1 buf), drop 1 buf);
  get_u16_le_spec buf : (2 ≤ length buf)%nat → get_u16_le buf = (le_val (take 2 buf), drop 2 buf);
  get_u32_le_spec buf : (4 ≤ length buf)%nat → get_u32_le buf = (le_val (take 4 buf), drop 4 buf);
  try_into_mut_spec buf : try_into_mut buf = inl buf ∨ try_into_mut buf = inr buf;
}.

(** An implementation, for concrete runs. *)
Definition le_get (n : nat) (buf : bytes) : Z * bytes := (le_val (take n buf), drop n buf).
#[export] Instance bytes_le : BytesApi := {
  put_u8 buf v := buf ++ le_bytes 1 v;
  put_u16_le buf v := buf ++ le_bytes 2 v;
  put_u32_le buf v := buf ++ le_bytes 4 v;
  get_u8 := le_get 1;
  get_u16_le := le_get 2;
  get_u32_le := le_get 4;
  try_into_mut buf := inl buf;
}.
#[export] Instance bytes_le_spec : BytesApiSpec bytes_le.
Proof. split; intros; auto. Qed.

(** * The clock

    [elapsed_ms n] is what the [n]-th call of [base.elapsed().as_millis()]
    returns, a [u128]; the state counts the calls.  [Instant] is monotonic. *)

Class Clock := elapsed_ms : nat → Z.
Class MonotonicClock (clk : Clock) : Prop :=
  elapsed_mono n m : (n ≤ m)%nat → 0 ≤ elapsed_ms n ≤ elapsed_ms m.

Record timed (S : Type) := Timed { inner : S; ticks : nat }.
Arguments Timed {S} _ _.
Arguments inner {S} _.
Arguments ticks {S} _.

Definition current_timestamp {clk : Clock} {S E} : M (timed S) E Z := λ st,
  (Ok (as_u32 (elapsed_ms (ticks st))), Timed (inner st) (Datatypes.S (ticks st))).

(** What the next reading gives. *)
Definition now_of {clk : Clock} {S} (st : timed S) : Z := as_u32 (elapsed_ms (ticks st)).

(** [get] and [update] of the part of the state the clock is not. *)
Definition get {S E A} (f : S → A) : M (timed S) E A := gets (λ st, f (inner st)).
Definition update_self {S E} (f : S → S) : M (timed S) E () :=
  modify (λ st, Timed (f (inner st)) (ticks st)).

(** * Wrapping order *)

Definition time_diff (later earlier : Z) : Z := as_i32 (wrapping_sub later earlier).
Definition seq_before (seq1 seq2 : Z) : bool := as_i32 (wrapping_sub seq1 seq2) <? 0.
Definition seq_after (seq1 seq2 : Z) : bool := 0 <? as_i32 (wrapping_sub seq1 seq2).

(** [random_conv_id] draws [u64] hashes until one has a non-zero low half;
    [draws] is what the hasher returns. *)
Fixpoint random_conv_id (draws : list Z) : option Z :=
  match draws with
  | [] => None
  | h :: draws => let id := as_u32 h in if id =? 0 then random_conv_id draws else Some id
  end.

(** * Header *)

Record KcpHeader := {
  h_conv : Z; h_cmd : Z; h_frg : Z; h_wnd : Z;
  h_ts : Z; h_sn : Z; h_una : Z; h_len : Z;
}.
#[export] Instance KcpHeader_eta : Eta KcpHeader := λ h,
  Build_KcpHeader (h_conv h) (h_cmd h) (h_frg h) (h_wnd h) (h_ts h) (h_sn h) (h_una h) (h_len h).
#[export] Instance KcpHeader_eq_dec : EqDecision KcpHeader.
Proof. solve_decision. Defined.

(** [KcpHeader::SIZE]. *)
Definition SIZE : Z := 24.

Section Codec.
Context {api : BytesApi}.

Definition KcpHeader_encode (h : KcpHeader) (buf : bytes) : bytes :=
  let buf := put_u32_le buf (h_conv h) in
  let buf := put_u8 buf (h_cmd h) in
  let buf := put_u8 buf (h_frg h) in
  let buf := put_u16_le buf (h_wnd h) in
  let buf := put_u32_le buf (h_ts h) in
  let buf := put_u32_le buf (h_sn h) in
  let buf := put_u32_le buf (h_una h) in
  put_u32_le buf (h_len h).

(** Returns the header and what is left of the buffer it is read from. *)
Definition KcpHeader_decode (buf : bytes) : option (KcpHeader * bytes) :=
  if len buf <? SIZE then None
  else
    let '(conv, buf) := get_u32_le buf in
    let '(cmd, buf) := get_u8 buf in
    let '(frg, buf) := get_u8 buf in
    let '(wnd, buf) := get_u16_le buf in
    let '(ts, buf) := get_u32_le buf in
    let '(sn, buf) := get_u32_le buf in
    let '(una, buf) := get_u32_le buf in
    let '(hlen, buf) := get_u32_le buf in
    Some (Build_KcpHeader conv cmd frg wnd ts sn una hlen, buf).
End Codec.

Definition KcpHeader_cmd_str (h : KcpHeader) : string :=
  if h_cmd h =? IKCP_CMD_PUSH then "PUSH"
  else if h_cmd h =? IKCP_CMD_ACK then "ACK"
  else if h_cmd h =? IKCP_CMD_WASK then "WASK"
  else if h_cmd h =? IKCP_CMD_WINS then "WINS"
  else "UNKNOWN".

(** * Segment *)

Record KcpSegment := {
  s_header : KcpHeader; s_data : bytes;
  s_resendts : Z; s_rto : Z; s_fastack : Z; s_xmit : Z;
}.
#[export] Instance KcpSegment_eta : Eta KcpSegment := λ s,
  Build_KcpSegment (s_header s) (s_data s) (s_resendts s) (s_rto s) (s_fastack s) (s_xmit s).
#[export] Instance KcpSegment_eq_dec : EqDecision KcpSegment.
Proof. solve_decision. Defined.

(** The fields of the header, of a segment. *)
Definition sn (s : KcpSegment) : Z := h_sn (s_header s).
Definition frg (s : KcpSegment) : Z := h_frg (s_header s).

Section Segment.
Context {api : BytesApi} {clk : Clock} {S E : Type}.
Local Abbreviation T := (M (timed S) E).

Definition KcpHeader_new (conv cmd : Z) : T KcpHeader :=
  ts ← current_timestamp;
  mret (Build_KcpHeader conv cmd 0 0 ts 0 0 0).

Definition KcpSegment_new (conv cmd : Z) (data : bytes) : T KcpSegment :=
  header ← KcpHeader_new conv cmd;
  mret (Build_KcpSegment (header <| h_len := as_u32 (len data) |>) data 0 IKCP_RTO_DEF 0 0).

Definition KcpSegment_push (conv sn : Z) (data : bytes) : T KcpSegment :=
  seg ← KcpSegment_new conv IKCP_CMD_PUSH data;
  mret (seg <| s_header ::= λ h, h <| h_sn := sn |> |>).

Definition KcpSegment_ack (conv sn ts : Z) : T KcpSegment :=
  seg ← KcpSegment_new conv IKCP_CMD_ACK [];
  mret (seg <| s_header ::= λ h, h <| h_sn := sn |> <| h_ts := ts |> |>).
End Segment.

Section SegmentCodec.
Context {api : BytesApi}.

Definition KcpSegment_encode (s : KcpSegment) (buf : bytes) : bytes :=
  KcpHeader_encode (s_header s) buf ++ s_data s.

Definition KcpSegment_decode (buf : bytes) : option KcpSegment :=
  '(header, buf) ← KcpHeader_decode buf;
  if negb (len buf =? h_len header) then None
  else Some (Build_KcpSegment header buf 0 IKCP_RTO_DEF 0 0).
End SegmentCodec.

Definition KcpSegment_size (s : KcpSegment) : Z := SIZE + len (s_data s).
Definition KcpSegment_is_data (s : KcpSegment) : bool := h_cmd (s_header s) =? IKCP_CMD_PUSH.
Definition KcpSegment_is_ack (s : KcpSegment) : bool := h_cmd (s_header s) =? IKCP_CMD_ACK.
Definition KcpSegment_is_probe (s : KcpSegment) : bool :=
  (h_cmd (s_header s) =? IKCP_CMD_WASK) || (h_cmd (s_header s) =? IKCP_CMD_WINS).

(** * Statistics *)

Record KcpStats := {
  bytes_sent : Z; bytes_received : Z; packets_sent : Z; packets_received : Z;
  retransmissions : Z; fast_retransmissions : Z;
  st_rtt : Z; st_rtt_var : Z; st_rto : Z; st_snd_wnd : Z; st_rcv_wnd : Z; st_cwnd : Z;
  snd_buf_size : Z; rcv_buf_size : Z;
}.
#[export] Instance KcpStats_eta : Eta KcpStats := λ s,
  Build_KcpStats (bytes_sent s) (bytes_received s) (packets_sent s) (packets_received s)
    (retransmissions s) (fast_retransmissions s) (st_rtt s) (st_rtt_var s) (st_rto s)
    (st_snd_wnd s) (st_rcv_wnd s) (st_cwnd s) (snd_buf_size s) (rcv_buf_size s).
Definition KcpStats_default : KcpStats := Build_KcpStats 0 0 0 0 0 0 0 0 0 0 0 0 0 0.

(** * Codec lemmas *)

(** A header every field of which is a value of its Rust type. *)
Record header_ok (h : KcpHeader) : Prop := {
  conv_u32 : in_u 32 (h_conv h);
  cmd_u8 : in_u 8 (h_cmd h);
  frg_u8 : in_u 8 (h_frg h);
  wnd_u16 : in_u 16 (h_wnd h);
  ts_u32 : in_u 32 (h_ts h);
  sn_u32 : in_u 32 (h_sn h);
  una_u32 : in_u 32 (h_una h);
  len_u32 : in_u 32 (h_len h);
}.

(** A segment the encoder and the decoder agree on: its [len] field is the
    length of its payload. *)
Definition segment_ok (s : KcpSegment) : Prop :=
  header_ok (s_header s) ∧ h_len (s_header s) = len (s_data s).

(** A segment without the fields that do not travel. *)
Definition wire_segment (s : KcpSegment) : KcpSegment :=
  Build_KcpSegment (s_header s) (s_data s) 0 IKCP_RTO_DEF 0 0.

Definition header_bytes (h : KcpHeader) : bytes :=
  le_bytes 4 (h_conv h) ++ le_bytes 1 (h_cmd h) ++ le_bytes 1 (h_frg h) ++
  le_bytes 2 (h_wnd h) ++ le_bytes 4 (h_ts h) ++ le_bytes 4 (h_sn h) ++
  le_bytes 4 (h_una h) ++ le_bytes 4 (h_len h).

(** The bytes of a segment on the wire. *)
Definition segment_bytes (s : KcpSegment) : bytes := header_bytes (s_header s) ++ s_data s.

#[global] Arguments header_bytes : simpl never.
#[global] Arguments segment_bytes : simpl never.
#[global] Arguments KcpSegment_size : simpl never.
#[global] Arguments KcpHeader_decode : simpl never.
#[global] Arguments KcpHeader_encode : simpl never.
#[global] Arguments KcpSegment_decode : simpl never.
#[global] Arguments KcpSegment_encode : simpl never.

Lemma len_header_bytes h : len (header_bytes h) = SIZE.
Proof. reflexivity. Qed.
Lemma len_segment_bytes s : len (segment_bytes s) = KcpSegment_size s.
Proof. unfold segment_bytes, KcpSegment_size. by rewrite len_app, len_header_bytes. Qed.
#[export] Hint Rewrite len_header_bytes len_segment_bytes : kcp_len.

Section CodecFacts.
Context {api : BytesApi} {spec : BytesApiSpec api}.

Lemma get_u8_le v rest : in_u 8 v → get_u8 (le_bytes 1 v ++ rest) = (v, rest).
Proof.
  intros Hv. rewrite get_u8_spec by (rewrite length_app, length_le_bytes; lia).
  rewrite take_app_length', drop_app_length' by done.
  by rewrite le_val_le_bytes by zlia.
Qed.
Lemma get_u16_le_le v rest : in_u 16 v → get_u16_le (le_bytes 2 v ++ rest) = (v, rest).
Proof.
  intros Hv. rewrite get_u16_le_spec by (rewrite length_app, length_le_bytes; lia).
  rewrite take_app_length', drop_app_length' by done.
  by rewrite le_val_le_bytes by zlia.
Qed.
Lemma get_u32_le_le v rest : in_u 32 v → get_u32_le (le_bytes 4 v ++ rest) = (v, rest).
Proof.
  intros Hv. rewrite get_u32_le_spec by (rewrite length_app, length_le_bytes; lia).
  rewrite take_app_length', drop_app_length' by done.
  by rewrite le_val_le_bytes by zlia.
Qed.

Lemma KcpHeader_encode_bytes h buf :
  header_ok h → KcpHeader_encode h buf = buf ++ header_bytes h.
Proof.
  intros []. unfold KcpHeader_encode, header_bytes.
  rewrite !put_u32_le_spec, put_u16_le_spec, !put_u8_spec by done.
  by rewrite <- !(assoc (++)).
Qed.

Lemma KcpSegment_encode_bytes s buf :
  segment_ok s → KcpSegment_encode s buf = buf ++ segment_bytes s.
Proof.
  intros [Hh _]. unfold KcpSegment_encode, segment_bytes.
  rewrite KcpHeader_encode_bytes by done. by rewrite (assoc (++)).
Qed.

Lemma KcpHeader_decode_bytes h rest :
  header_ok h → KcpHeader_decode (header_bytes h ++ rest) = Some (h, rest).
Proof.
  intros []. unfold KcpHeader_decode.
  rewrite (proj2 (Z.ltb_ge _ _)).
  2:{ rewrite len_app, len_header_bytes. pose proof (len_nonneg rest). lia. }
  unfold header_bytes. rewrite <- !(assoc (++)).
  rewrite !get_u32_le_le, !get_u8_le, !get_u16_le_le, !get_u32_le_le by done.
  by destruct h.
Qed.

Lemma KcpHeader_decode_None buf : KcpHeader_decode buf = None ↔ len buf < SIZE.
Proof.
  unfold KcpHeader_decode. destruct (Z.ltb_spec (len buf) SIZE); [done|].
  repeat case_match. split; [done|lia].
Qed.

(** The decoder inverts the encoder from the left too: what it reads is what
    the encoder would write. *)
Lemma KcpHeader_decode_Some buf h rest :
  KcpHeader_decode buf = Some (h, rest) → header_ok h ∧ buf = header_bytes h ++ rest.
Proof.
  unfold KcpHeader_decode, SIZE. destruct (Z.ltb_spec (len buf) 24) as [|Hl]; [done|].
  unfold len in Hl. rewrite get_u32_le_spec by lia.
  do 2 rewrite get_u8_spec by (rewrite ?length_drop; lia).
  rewrite get_u16_le_spec by (rewrite ?length_drop; lia).
  do 4 rewrite get_u32_le_spec by (rewrite ?length_drop; lia).
  intros [= <- <-].
  assert (Hr : ∀ n (b : bytes), (n ≤ length b)%nat →
    0 ≤ le_val (take n b) < 256 ^ Z.of_nat n ∧ le_bytes n (le_val (take n b)) = take n b).
  { intros n b Hn. assert (Ht : length (take n b) = n) by (rewrite length_take; lia). split.
    - pose proof (le_val_range (take n b)) as H. unfold len in H. by rewrite Ht in H.
    - rewrite <- Ht at 1. apply le_bytes_le_val. }
  split.
  - split; cbn; lazymatch goal with |- in_u _ (le_val (take ?n ?b)) =>
      refine (proj1 (Hr n b _)) end; rewrite ?length_drop; lia.
  - unfold header_bytes; cbn [h_conv h_cmd h_frg h_wnd h_ts h_sn h_una h_len].
    rewrite !(λ n b H, proj2 (Hr n b H)) by (rewrite ?length_drop; lia).
    by rewrite <- !(assoc (++)), !take_drop.
Qed.

Lemma KcpSegment_decode_bytes s :
  segment_ok s → KcpSegment_decode (segment_bytes s) = Some (wire_segment s).
Proof.
  intros [Hh Hl]. unfold KcpSegment_decode, segment_bytes.
  rewrite KcpHeader_decode_bytes by done. cbn.
  by rewrite (proj2 (Z.eqb_eq _ _)).
Qed.

Lemma KcpSegment_decode_Some buf s :
  KcpSegment_decode buf = Some s →
  segment_ok s ∧ buf = segment_bytes s ∧ s = wire_segment s.
Proof.
  unfold KcpSegment_decode. destruct (KcpHeader_decode buf) as [[h rest]|] eqn:Hd; [|done].
  apply KcpHeader_decode_Some in Hd as [Hok ->]. cbn.
  destruct (Z.eqb_spec (len rest) (h_len h)); [|done].
  intros [= <-]. done.
Qed.
End CodecFacts.

(** * Order lemmas *)

Lemma wrapping_sub_range a b : in_u 32 (wrapping_sub a b).
Proof. apply wrap_in_u. lia. Qed.

Lemma seq_before_true a b : seq_before a b = true ↔ H31 ≤ wrapping_sub a b.
Proof.
  unfold seq_before. rewrite Z.ltb_lt. pose proof (wrapping_sub_range a b). zlia.
Qed.
Lemma seq_before_false a b : seq_before a b = false ↔ wrapping_sub a b < H31.
Proof.
  rewrite <- not_true_iff_false, seq_before_true. lia.
Qed.
Lemma seq_after_true a b : seq_after a b = true ↔ 0 < wrapping_sub a b < H31.
Proof.
  unfold seq_after. rewrite Z.ltb_lt. pose proof (wrapping_sub_range a b). zlia.
Qed.

Lemma wrapping_sub_offsets base i j :
  0 ≤ i < H31 → 0 ≤ j < H31 →
  wrapping_sub (as_u32 (base + i)) (as_u32 (base + j)) = wrap 32 (i - j).
Proof. intros. zlia. Qed.

(** Two numbers of one window of less than [2^31], given by their offsets. *)
Lemma seq_before_offsets base i j : 0 ≤ i < H31 → 0 ≤ j < H31 →
  seq_before (as_u32 (base + i)) (as_u32 (base + j)) = (i <? j).
Proof.
  intros. unfold seq_before. rewrite wrapping_sub_offsets by done.
  apply eq_bool_prop_intro. rewrite !Is_true_true, !Z.ltb_lt. zlia.
Qed.
Lemma seq_after_offsets base i j : 0 ≤ i < H31 → 0 ≤ j < H31 →
  seq_after (as_u32 (base + i)) (as_u32 (base + j)) = (j <? i).
Proof.
  intros. unfold seq_after. rewrite wrapping_sub_offsets by done.
  apply eq_bool_prop_intro. rewrite !Is_true_true, !Z.ltb_lt. zlia.
Qed.
Lemma time_diff_offsets base i j : 0 ≤ i < H31 → 0 ≤ j < H31 →
  time_diff (as_u32 (base + i)) (as_u32 (base + j)) = i - j.
Proof. intros. unfold time_diff. rewrite wrapping_sub_offsets by done. zlia. Qed.

Lemma time_diff_range a b : - H31 ≤ time_diff a b < H31.
Proof. apply as_i32_range. Qed.

(** * Theorems *)

(** The header codec is a bijection between headers and their 24 bytes:
    decoding what [encode] wrote gives the header back and leaves what follows
    it, whatever decodes is what [encode] writes, and only a buffer shorter
    than a header is refused. *)
Theorem header_codec {api : BytesApi} {spec : BytesApiSpec api} :
  (∀ h rest, header_ok h → KcpHeader_decode (KcpHeader_encode h [] ++ rest) = Some (h, rest)) ∧
  (∀ buf h rest, KcpHeader_decode buf = Some (h, rest) →
     header_ok h ∧ buf = KcpHeader_encode h [] ++ rest) ∧
  (∀ buf, KcpHeader_decode buf = None ↔ len buf < SIZE).
Proof.
  split_and!.
  - intros h rest Hh. rewrite KcpHeader_encode_bytes by done. by apply KcpHeader_decode_bytes.
  - intros buf h rest Hd. pose proof (KcpHeader_decode_Some _ _ _ Hd) as [Hh Hb].
    by rewrite KcpHeader_encode_bytes.
  - apply KcpHeader_decode_None.
Qed.

Lemma header_codec_witness :
  KcpHeader_decode (KcpHeader_encode (Build_KcpHeader 7 IKCP_CMD_PUSH 0 128 1000 42 41 3) [] ++ [x61])
  = Some (Build_KcpHeader 7 IKCP_CMD_PUSH 0 128 1000 42 41 3, [x61]).
Proof. apply (header_codec (api := bytes_le)). split; vm_compute; split; congruence. Defined.

(** C27: a segment survives the wire: decoding its encoding gives it back but
    for the fields that do not travel, and a buffer decodes to at most one
    segment, the one whose encoding it is. *)
Theorem segment_codec {api : BytesApi} {spec : BytesApiSpec api} :
  (∀ s, segment_ok s → KcpSegment_decode (KcpSegment_encode s []) = Some (wire_segment s)) ∧
  (∀ buf s, KcpSegment_decode buf = Some s → segment_ok s ∧ KcpSegment_encode s [] = buf) ∧
  (∀ s, segment_ok s → len (KcpSegment_encode s []) = KcpSegment_size s).
Proof.
  split_and!.
  - intros s Hs. rewrite KcpSegment_encode_bytes by done. by apply KcpSegment_decode_bytes.
  - intros buf s Hd. apply KcpSegment_decode_Some in Hd as (Hs & -> & _).
    by rewrite KcpSegment_encode_bytes.
  - intros s Hs. by rewrite KcpSegment_encode_bytes, len_app, len_segment_bytes.
Qed.

Lemma segment_codec_witness :
  let s := Build_KcpSegment (Build_KcpHeader 7 IKCP_CMD_PUSH 0 128 1000 42 41 2) [x68; x69] 5 6 7 8 in
  KcpSegment_decode (KcpSegment_encode s []) = Some (wire_segment s).
Proof.
  apply (segment_codec (api := bytes_le)). split; [|done]. split; vm_compute; split; congruence.
Defined.

(** Sequence numbers are ordered correctly across the 32-bit wrap: within a
    window of less than 2^31 numbers starting anywhere, [seq_before] and
    [seq_after] compare the distances from its start and [time_diff] is their
    difference; 2^31 is the limit, where two numbers are before each other. *)
Theorem seq_order_wraps base i j :
  0 ≤ i < H31 → 0 ≤ j < H31 →
  seq_before (as_u32 (base + i)) (as_u32 (base + j)) = (i <? j) ∧
  seq_after (as_u32 (base + i)) (as_u32 (base + j)) = (j <? i) ∧
  time_diff (as_u32 (base + i)) (as_u32 (base + j)) = i - j ∧
  seq_before (as_u32 base) (as_u32 (base + H31)) = true ∧
  seq_before (as_u32 (base + H31)) (as_u32 base) = true.
Proof.
  intros Hi Hj. split_and!; [by apply seq_before_offsets|by apply seq_after_offsets|by apply time_diff_offsets|..];
    apply seq_before_true; zlia.
Qed.

Lemma seq_order_wraps_witness :
  seq_before 4294967290 5 = true ∧ seq_before 5 4294967290 = false.
Proof.
  split; [exact (proj1 (seq_order_wraps 4294967290 0 11 ltac:(lia) ltac:(lia)))
         |exact (proj1 (seq_order_wraps 4294967290 11 0 ltac:(lia) ltac:(lia)))].
Defined.

(** The 32-bit clock measures elapsed time correctly however long the
    process has run: the difference of two readings is the time between them,
    as long as that is less than 2^31 ms. *)
Theorem timestamp_elapsed {clk : Clock} {mono : MonotonicClock clk} {S E} (s1 s2 s1' s2' : timed S) t1 t2 :
  (ticks s1 ≤ ticks s2)%nat →
  elapsed_ms (ticks s2) - elapsed_ms (ticks s1) < H31 →
  current_timestamp (E := E) s1 = (Ok t1, s1') → current_timestamp (E := E) s2 = (Ok t2, s2') →
  time_diff t2 t1 = elapsed_ms (ticks s2) - elapsed_ms (ticks s1).
Proof.
  intros Hle Hlt [= <- <-] [= <- <-]. pose proof (elapsed_mono _ _ Hle) as Hm.
  unfold time_diff. zlia.
Qed.

Lemma timestamp_elapsed_witness :
  let clk : Clock := λ n, 4294967000 + 100 * Z.of_nat n in
  time_diff (as_u32 (elapsed_ms 5)) (as_u32 (elapsed_ms 0)) = 500.
Proof.
  cbn. refine (timestamp_elapsed (clk := λ n, 4294967000 + 100 * Z.of_nat n) (E := ())
    (Timed tt 0) (Timed tt 5) _ _ _ _ _ _ eq_refl eq_refl); [|cbn; lia|vm_compute; congruence].
  intros n m Hnm. unfold elapsed_ms. lia.
Defined.
