(* ===== verification/Error.v ===== *)
(** kcp-core/src/error.rs and kcp/error.rs: the errors of the engine and of the
    async layer, the conversion between them and their predicates. *)
From S2P Require Import Prelude.

(** * kcp-core *)

Inductive KcpCoreError :=
  | Protocol (message : string)
  | Buffer (message : string)
  | ConnectionLost.
#[export] Instance KcpCoreError_eq_dec : EqDecision KcpCoreError.
Proof. solve_decision. Defined.

(** The constructors. *)
Definition KcpCoreError_protocol (message : string) : KcpCoreError := Protocol message.
Definition KcpCoreError_buffer (message : string) : KcpCoreError := Buffer message.
Definition connection_lost : KcpCoreError := ConnectionLost.

Definition KcpCoreError_is_fatal (e : KcpCoreError) : bool :=
  match e with ConnectionLost => true | _ => false end.

Definition KcpCoreError_fmt (e : KcpCoreError) : string :=
  match e with
  | Protocol message => "Protocol error: " +:+ message
  | Buffer message => "Buffer error: " +:+ message
  | ConnectionLost => "Connection lost"
  end.

(** * kcp-tokio *)

Inductive ConnectionError :=
  | Closed | Reset | Refused | Lost | InvalidConv | HandshakeFailed | Timeout | NotConnected.
#[export] Instance ConnectionError_eq_dec : EqDecision ConnectionError.
Proof. solve_decision. Defined.

(** [std::io::ErrorKind], as far as the code tells kinds apart. *)
Inductive io_error_kind :=
  | WouldBlock | TimedOut | Interrupted | BrokenPipe | ConnectionAborted
  | ConnectionRefused | ConnectionReset | UnexpectedEof | OtherKind (code : Z).

Inductive KcpError :=
  | KIo (kind : io_error_kind)
  | KProtocol (message : string)
  | KConnection (kind : ConnectionError)
  | KTimeout (timeout_ms : Z)
  | KBuffer (message : string)
  | KConfig (message : string)
  | KSession (message : string)
  | KInternal (message : string).

(** The constructors. *)
Definition KcpError_protocol (message : string) : KcpError := KProtocol message.
Definition KcpError_connection (kind : ConnectionError) : KcpError := KConnection kind.
Definition KcpError_timeout (timeout_ms : Z) : KcpError := KTimeout timeout_ms.
Definition KcpError_buffer (message : string) : KcpError := KBuffer message.
Definition KcpError_config (message : string) : KcpError := KConfig message.
Definition KcpError_session (message : string) : KcpError := KSession message.
Definition KcpError_internal (message : string) : KcpError := KInternal message.

Definition ConnectionError_fmt (e : ConnectionError) : string :=
  match e with
  | Closed => "connection closed"
  | Reset => "connection reset by peer"
  | Refused => "connection refused"
  | Lost => "connection lost"
  | InvalidConv => "invalid conversation ID"
  | HandshakeFailed => "handshake failed"
  | Timeout => "connection timed out"
  | NotConnected => "not connected"
  end.

(** [impl From<KcpCoreError> for KcpError]. *)
Definition KcpError_from (e : KcpCoreError) : KcpError :=
  match e with
  | Protocol message => KProtocol message
  | Buffer message => KBuffer message
  | ConnectionLost => KConnection Lost
  end.

Definition is_recoverable (e : KcpError) : bool :=
  match e with
  | KIo kind => match kind with WouldBlock | TimedOut | Interrupted => true | _ => false end
  | KTimeout _ | KBuffer _ => true
  | _ => false
  end.

Definition is_connection_error (e : KcpError) : bool :=
  match e with KConnection _ => true | _ => false end.

Definition is_fatal (e : KcpError) : bool :=
  match e with
  | KConnection (Lost | Closed | Reset) => true
  | KInternal _ => true
  | _ => false
  end.

Definition is_closed (e : KcpError) : bool :=
  match e with
  | KConnection kind => match kind with Closed | Reset | Refused => true | _ => false end
  | KIo kind =>
      match kind with
      | BrokenPipe | ConnectionAborted | ConnectionRefused | ConnectionReset | UnexpectedEof => true
      | _ => false
      end
  | _ => false
  end.

(** * Theorems *)

(** Crossing the bridge keeps an error's severity (an engine error is fatal
    exactly when the error it becomes is), and no error of the async layer is
    both fatal and recoverable, nor both closed and recoverable. *)
Theorem error_severity_preserved :
  (∀ e, is_fatal (KcpError_from e) = KcpCoreError_is_fatal e) ∧
  (∀ e, is_fatal e && is_recoverable e = false) ∧
  (∀ e, is_closed e && is_recoverable e = false) ∧
  (∀ e, is_closed e = true → is_fatal e = true ∨ is_connection_error e = true ∨ ∃ k, e = KIo k).
Proof.
  split_and!.
  - by intros [].
  - by intros [[] | | [] | | | | |].
  - by intros [[] | | [] | | | | |].
  - intros [k | | [] | | | | |]; cbn; eauto; done.
Qed.
