(* ===== verification/Config.v ===== *)
(** kcp-core/src/config.rs and kcp/config.rs: the engine's configuration, the
    full configuration of the async layer, its builder, presets and validation. *)
From S2P Require Import Prelude Protocol Error.

(** * kcp-core *)

Record NodeDelayConfig := {
  nd_nodelay : bool;
  nd_interval : Z;
  nd_resend : Z;
  nd_no_congestion_control : bool;
}.
#[export] Instance NodeDelayConfig_eta : Eta NodeDelayConfig := λ c,
  Build_NodeDelayConfig (nd_nodelay c) (nd_interval c) (nd_resend c) (nd_no_congestion_control c).

Definition NodeDelayConfig_normal := Build_NodeDelayConfig false 40 0 false.
Definition NodeDelayConfig_fast := Build_NodeDelayConfig true 8 2 false.
Definition NodeDelayConfig_turbo := Build_NodeDelayConfig true 4 1 true.
Definition NodeDelayConfig_gaming := Build_NodeDelayConfig true 3 1 true.
Definition NodeDelayConfig_custom := Build_NodeDelayConfig.

Record KcpCoreConfig := {
  c_mtu : Z;
  c_snd_wnd : Z;
  c_rcv_wnd : Z;
  c_nodelay : NodeDelayConfig;
  c_max_retries : Z;
  c_stream_mode : bool;
}.
#[export] Instance KcpCoreConfig_eta : Eta KcpCoreConfig := λ c,
  Build_KcpCoreConfig (c_mtu c) (c_snd_wnd c) (c_rcv_wnd c) (c_nodelay c) (c_max_retries c)
    (c_stream_mode c).

Definition KcpCoreConfig_default : KcpCoreConfig :=
  Build_KcpCoreConfig 1400 32 128 NodeDelayConfig_normal 20 false.

(** Every field is a value of its Rust type. *)
Record core_config_ok (c : KcpCoreConfig) : Prop := {
  mtu_u32 : in_u 32 (c_mtu c);
  snd_wnd_u32 : in_u 32 (c_snd_wnd c);
  rcv_wnd_u32 : in_u 32 (c_rcv_wnd c);
  interval_u32 : in_u 32 (nd_interval (c_nodelay c));
  resend_u32 : in_u 32 (nd_resend (c_nodelay c));
  max_retries_u32 : in_u 32 (c_max_retries c);
}.

(** * kcp-tokio

    [Duration]s are their length in milliseconds.  [f32] is left abstract: the
    only thing the builder asks of a loss rate is whether it lies in [0, 1]. *)

Section Tokio.
Context {f32 : Type} (in_unit_interval : f32 → bool).

Record KcpConfig := {
  mtu : Z;
  snd_wnd : Z;
  rcv_wnd : Z;
  nodelay : NodeDelayConfig;
  max_retries : Z;
  stream_mode : bool;
  connect_timeout : Z;
  keep_alive : option Z;
  socket_buffer_size : option Z;
  simulate_packet_loss : option f32;
  max_pending_connections : Z;
  cleanup_interval : Z;
}.
#[export] Instance KcpConfig_eta : Eta KcpConfig := λ c,
  Build_KcpConfig (mtu c) (snd_wnd c) (rcv_wnd c) (nodelay c) (max_retries c) (stream_mode c)
    (connect_timeout c) (keep_alive c) (socket_buffer_size c) (simulate_packet_loss c)
    (max_pending_connections c) (cleanup_interval c).

Definition secs (n : Z) : Z := 1000 * n.

Definition KcpConfig_default : KcpConfig :=
  Build_KcpConfig 1400 32 128 NodeDelayConfig_normal 20 false (secs 10) (Some (secs 30))
    None None 256 (secs 30).

(** [impl From<KcpConfig> for KcpCoreConfig]. *)
Definition KcpCoreConfig_from (c : KcpConfig) : KcpCoreConfig :=
  Build_KcpCoreConfig (mtu c) (snd_wnd c) (rcv_wnd c) (nodelay c) (max_retries c) (stream_mode c).

(** ** Builder; a method [x(self, v)] is [set_x v]. *)
Definition set_mtu (v : Z) (c : KcpConfig) := c <| mtu := v |>.
Definition send_window (wnd : Z) (c : KcpConfig) := c <| snd_wnd := wnd |>.
Definition recv_window (wnd : Z) (c : KcpConfig) := c <| rcv_wnd := wnd |>.
Definition window_size (snd rcv : Z) (c : KcpConfig) :=
  c <| snd_wnd := snd |> <| rcv_wnd := rcv |>.
Definition normal_mode (c : KcpConfig) := c <| nodelay := NodeDelayConfig_normal |>.
Definition fast_mode (c : KcpConfig) := c <| nodelay := NodeDelayConfig_fast |>.
Definition turbo_mode (c : KcpConfig) := c <| nodelay := NodeDelayConfig_turbo |>.
Definition nodelay_config (v : NodeDelayConfig) (c : KcpConfig) := c <| nodelay := v |>.
Definition set_max_retries (v : Z) (c : KcpConfig) := c <| max_retries := v |>.
Definition set_stream_mode (v : bool) (c : KcpConfig) := c <| stream_mode := v |>.
Definition set_connect_timeout (v : Z) (c : KcpConfig) := c <| connect_timeout := v |>.
Definition set_keep_alive (v : option Z) (c : KcpConfig) := c <| keep_alive := v |>.
Definition set_socket_buffer_size (v : Z) (c : KcpConfig) := c <| socket_buffer_size := Some v |>.
Definition set_simulate_packet_loss (v : f32) (c : KcpConfig) :=
  if in_unit_interval v then c <| simulate_packet_loss := Some v |> else c.

Definition validate (c : KcpConfig) : KcpError + () :=
  if (mtu c <? 64) || (65535 <? mtu c) then inl (KConfig "MTU must be between 64 and 65535")
  else if (snd_wnd c =? 0) || (rcv_wnd c =? 0) then
    inl (KConfig "Window sizes must be greater than 0")
  else if (u16_MAX <? snd_wnd c) || (u16_MAX <? rcv_wnd c) then
    inl (KConfig "Window sizes must not exceed 65535")
  else if nd_interval (nodelay c) =? 0 then
    inl (KConfig "Update interval must be greater than 0")
  else if max_retries c =? 0 then inl (KConfig "Max retries must be greater than 0")
  else inr ().

(** ** Presets *)
Definition KcpConfig_gaming : KcpConfig :=
  set_keep_alive (Some (secs 10)) (set_connect_timeout (secs 3) (set_mtu 1200
    (window_size 64 128 (nodelay_config NodeDelayConfig_gaming KcpConfig_default)))).
Definition KcpConfig_file_transfer : KcpConfig :=
  set_keep_alive (Some (secs 60)) (set_connect_timeout (secs 30) (set_stream_mode true
    (set_mtu 1400 (window_size 256 256 (normal_mode KcpConfig_default))))).
Definition KcpConfig_realtime : KcpConfig :=
  set_keep_alive (Some (secs 10)) (set_connect_timeout (secs 3) (set_mtu 1200
    (window_size 64 64 (fast_mode KcpConfig_default)))).
Definition KcpConfig_testing (packet_loss : f32) : KcpConfig :=
  set_connect_timeout (secs 5) (set_simulate_packet_loss packet_loss (fast_mode KcpConfig_default)).
End Tokio.

(** * Facts *)

(** What [validate] establishes; the engine's theorems start from it. *)
Record validated (c : KcpCoreConfig) : Prop := {
  v_mtu : 64 ≤ c_mtu c ≤ 65535;
  v_snd : 1 ≤ c_snd_wnd c ≤ 65535;
  v_rcv : 1 ≤ c_rcv_wnd c ≤ 65535;
  v_interval : 0 < nd_interval (c_nodelay c);
  v_retries : 0 < c_max_retries c;
}.

(** What [validate] accepts. *)
Lemma validate_ok {f32} (c : KcpConfig (f32 := f32)) :
  core_config_ok (KcpCoreConfig_from c) →
  validate c = inr () ↔ validated (KcpCoreConfig_from c).
Proof.
  intros [H1 H2 H3 H4 H5 H6]. unfold validate, KcpCoreConfig_from in *. cbn in *. split.
  - repeat (case_match; [done|]). unfold u16_MAX, in_u in *.
    rewrite ?orb_false_iff, ?Z.ltb_ge, ?Z.eqb_neq in *. intros _. split; cbn; lia.
  - intros [V1 V2 V3 V4 V5]; cbn in *. unfold u16_MAX.
    repeat (case_match; [exfalso; rewrite ?orb_true_iff, ?Z.ltb_lt, ?Z.eqb_eq in *; lia|]). done.
Qed.

(** [validate] accepts a configuration exactly when its MTU, windows,
    interval and retry count are in the documented ranges, and every preset
    passes it. *)
Theorem validate_spec {f32} (inu : f32 → bool) (c : KcpConfig (f32 := f32)) :
  core_config_ok (KcpCoreConfig_from c) →
  (validate c = inr () ↔ validated (KcpCoreConfig_from c)) ∧
  validate (KcpConfig_default (f32 := f32)) = inr () ∧
  validate (KcpConfig_gaming (f32 := f32)) = inr () ∧
  validate (KcpConfig_file_transfer (f32 := f32)) = inr () ∧
  validate (KcpConfig_realtime (f32 := f32)) = inr () ∧
  ∀ p, validate (KcpConfig_testing inu p) = inr ().
Proof.
  intros Hc. split; [by apply validate_ok|].
  split_and!; try done. intros p. unfold KcpConfig_testing, set_simulate_packet_loss.
    by destruct (inu p).
Qed.

Lemma validate_spec_witness :
  validate (KcpConfig_default (f32 := Z)) = inr () ∧ validated KcpCoreConfig_default.
Proof.
  pose proof (validate_spec (λ _, true) (KcpConfig_default (f32 := Z))
    ltac:(split; vm_compute; split; congruence)) as [H [Hd _]].
  split; [exact Hd | exact (proj1 H Hd)].
Defined.

(** [validate] does not look at the listener's limits: with 0 for either of them,
    which it accepts, the listener panics as it starts, since a channel without
    room and an interval without length are ones [tokio] refuses to make. *)
Theorem zero_limits_validate {f32} :
  ∃ c : KcpConfig (f32 := f32), validate c = inr () ∧ max_pending_connections c = 0 ∧ cleanup_interval c = 0.
Proof.
  exists (Build_KcpConfig 1400 32 128 NodeDelayConfig_normal 20 false 0 None None None 0 0). by split_and!.
Qed.
