(* ===== verification/Engine.v ===== *)
(** kcp-core/src/engine.rs, the state: [KcpEngine] and its parts, its
    constructor, the small accessors and the helpers the operations share. *)
From S2P Require Import Prelude Monad Protocol Error Config.

Record RttState := { r_avg : Z; r_var : Z; r_rto : Z; r_min_rto : Z }.
#[export] Instance RttState_eta : Eta RttState := λ r,
  Build_RttState (r_avg r) (r_var r) (r_rto r) (r_min_rto r).

Record WindowState := {
  w_snd : Z; w_rcv : Z; w_rmt : Z; w_cwnd : Z; w_ssthresh : Z; w_incr : Z;
}.
#[export] Instance WindowState_eta : Eta WindowState := λ w,
  Build_WindowState (w_snd w) (w_rcv w) (w_rmt w) (w_cwnd w) (w_ssthresh w) (w_incr w).

Record ProbeState := { p_flags : Z; p_wait : Z; p_ts : Z }.
#[export] Instance ProbeState_eta : Eta ProbeState := λ p,
  Build_ProbeState (p_flags p) (p_wait p) (p_ts p).

(** Field for field [struct KcpEngine].  Deques and vectors are lists, front
    first; [rcv_buf], a [BTreeMap] the code only uses by key, is a finite map. *)
Record KcpEngine := {
  e_conv : Z;
  e_config : KcpCoreConfig;
  e_snd_una : Z;
  e_snd_nxt : Z;
  e_rcv_nxt : Z;
  e_rtt : RttState;
  e_wnd : WindowState;
  e_probe : ProbeState;
  e_snd_queue : list KcpSegment;
  e_rcv_queue : list KcpSegment;
  e_snd_buf : list KcpSegment;
  e_rcv_buf : gmap Z KcpSegment;
  e_ack_list : list (Z * Z);
  e_output_queue : list bytes;
  e_out_buf : bytes;
  e_stats : KcpStats;
  e_last_update : Z;
  e_last_activity : Z;
  e_dead_link : Z;
}.
#[export] Instance KcpEngine_eta : Eta KcpEngine := λ e,
  Build_KcpEngine (e_conv e) (e_config e) (e_snd_una e) (e_snd_nxt e) (e_rcv_nxt e)
    (e_rtt e) (e_wnd e) (e_probe e) (e_snd_queue e) (e_rcv_queue e) (e_snd_buf e)
    (e_rcv_buf e) (e_ack_list e) (e_output_queue e) (e_out_buf e) (e_stats e)
    (e_last_update e) (e_last_activity e) (e_dead_link e).

(** Engines are equal when their fields are: cheaper than computing nested updates. *)
Lemma KcpEngine_ext e e' :
  e_conv e = e_conv e' → e_config e = e_config e' → e_snd_una e = e_snd_una e' →
  e_snd_nxt e = e_snd_nxt e' → e_rcv_nxt e = e_rcv_nxt e' → e_rtt e = e_rtt e' →
  e_wnd e = e_wnd e' → e_probe e = e_probe e' → e_snd_queue e = e_snd_queue e' →
  e_rcv_queue e = e_rcv_queue e' → e_snd_buf e = e_snd_buf e' → e_rcv_buf e = e_rcv_buf e' →
  e_ack_list e = e_ack_list e' → e_output_queue e = e_output_queue e' → e_out_buf e = e_out_buf e' →
  e_stats e = e_stats e' → e_last_update e = e_last_update e' → e_last_activity e = e_last_activity e' →
  e_dead_link e = e_dead_link e' → e = e'.
Proof. destruct e, e'; cbn. intros. by subst. Qed.

(** The state an operation runs in: the engine and the clock. *)
Abbreviation St := (timed KcpEngine).
Abbreviation T := (M St KcpCoreError).

(** The window-sized [u32] field [self.wnd.rcv] compared with a queue length. *)
Definition w_rcv_of (e : KcpEngine) : Z := w_rcv (e_wnd e).

Section Engine.
Context {prof : Profile} {clk : Clock}.

Definition new {S E} (conv : Z) (config : KcpCoreConfig) : M (timed S) E KcpEngine :=
  let config := config <| c_mtu := Z.max (c_mtu config) (IKCP_OVERHEAD + 1) |> in
  let min_rto := if nd_nodelay (c_nodelay config) then IKCP_RTO_NDL else IKCP_RTO_MIN in
  last_update ← current_timestamp;
  last_activity ← current_timestamp;
  mret {|
    e_conv := conv;
    e_config := config;
    e_snd_una := 0;
    e_snd_nxt := 0;
    e_rcv_nxt := 0;
    e_rtt := Build_RttState 0 0 IKCP_RTO_DEF min_rto;
    e_wnd := {|
      w_snd := c_snd_wnd config;
      w_rcv := c_rcv_wnd config;
      w_rmt := IKCP_WND_RCV;
      w_cwnd := c_snd_wnd config;
      w_ssthresh := IKCP_THRESH_INIT;
      w_incr := 0;
    |};
    e_probe := Build_ProbeState 0 0 0;
    e_snd_queue := [];
    e_rcv_queue := [];
    e_snd_buf := [];
    e_rcv_buf := ∅;
    e_ack_list := [];
    e_output_queue := [];
    e_out_buf := [];
    e_stats := KcpStats_default;
    e_last_update := last_update;
    e_last_activity := last_activity;
    e_dead_link := c_max_retries config;
  |}.

Definition start : T () := mret tt.
Definition conv : T Z := get e_conv.
Definition set_conv (conv : Z) : T () := update_self (λ e, e <| e_conv := conv |>).
Definition stats : T KcpStats := get e_stats.
Definition send_queue_len : T Z := get (λ e, len (e_snd_queue e)).

Definition drain_output : T (list bytes) :=
  out ← get e_output_queue;
  update_self (λ e, e <| e_output_queue := [] |>);;
  mret out.

Definition is_dead_of (e : KcpEngine) : bool :=
  existsb (λ seg, e_dead_link e <=? s_xmit seg) (e_snd_buf e).
Definition is_dead : T bool := get is_dead_of.

Definition has_unsent_data_of (e : KcpEngine) : bool :=
  negb (is_empty (e_snd_queue e)) || negb (is_empty (e_snd_buf e)).
Definition has_unsent_data : T bool := get has_unsent_data_of.

Definition idle_ms : T Z :=
  now ← current_timestamp;
  last ← get e_last_activity;
  mret (saturating_sub now last).

Definition mss : T Z :=
  config ← get e_config;
  usub 32 (c_mtu config) IKCP_OVERHEAD.

(** The subtraction cannot overflow: it is guarded. *)
Definition wnd_unused_of (e : KcpEngine) : Z :=
  if len (e_rcv_queue e) <? w_rcv_of e
  then w_rcv_of e - as_u32 (len (e_rcv_queue e)) else 0.
Definition wnd_unused : T Z :=
  rcv_queue ← get e_rcv_queue;
  rcv ← get w_rcv_of;
  if len rcv_queue <? rcv then usub 32 rcv (as_u32 (len rcv_queue)) else mret 0.

Definition reset_cwnd : T () :=
  update_self (λ e, e <| e_wnd ::= λ w, w <| w_cwnd := 1 |> |>);;
  m ← mss;
  update_self (λ e, e <| e_wnd ::= λ w, w <| w_incr := m |> |>).

Definition create_probe_segment {api : BytesApi} (cmd : Z) : T KcpSegment :=
  conv ← get e_conv;
  segment ← KcpSegment_new conv cmd [];
  wnd ← wnd_unused;
  rcv_nxt ← get e_rcv_nxt;
  mret (segment <| s_header ::= λ h, h <| h_wnd := as_u16 wnd |> <| h_una := rcv_nxt |> |>).

(** [stats.x += n] on a [u64] counter. *)
Definition count_stat (proj : KcpStats → Z) `{!Setter proj} (n : Z) : T () :=
  old ← get (λ e, proj (e_stats e));
  new ← uadd 64 old n;
  update_self (λ e, e <| e_stats ::= λ s, s <| proj := new |> |>).
End Engine.

(** * The invariant

    What holds of an engine between any two calls, given a configuration
    whose windows fit the wire ([windows_ok], weaker than [validated]). *)

Record windows_ok (c : KcpCoreConfig) : Prop := {
  wo_config : core_config_ok c;
  wo_mtu : 25 ≤ c_mtu c ≤ 65535;
  wo_snd : 1 ≤ c_snd_wnd c ≤ 65535;
  wo_rcv : 1 ≤ c_rcv_wnd c ≤ 65535;
}.

Definition mss_of (c : KcpCoreConfig) : Z := c_mtu c - IKCP_OVERHEAD.

Record rtt_ok (r : RttState) : Prop := {
  ro_avg : 0 ≤ r_avg r ≤ IKCP_RTO_MAX;
  ro_var : 0 ≤ r_var r ≤ IKCP_RTO_MAX;
  ro_rto : r_min_rto r ≤ r_rto r ≤ IKCP_RTO_MAX;
  ro_min : IKCP_RTO_NDL ≤ r_min_rto r ≤ IKCP_RTO_MIN;
}.

Record wnd_ok (c : KcpCoreConfig) (w : WindowState) : Prop := {
  wk_snd : w_snd w = c_snd_wnd c;
  wk_rcv : w_rcv w = c_rcv_wnd c;
  wk_rmt : in_u 16 (w_rmt w);
  wk_cwnd : 1 ≤ w_cwnd w < 2 ^ 32;
  wk_ssthresh : in_u 32 (w_ssthresh w);
  wk_incr : in_u 32 (w_incr w);
}.

Record probe_ok (p : ProbeState) : Prop := {
  po_flags : 0 ≤ p_flags p < 4;
  po_wait : 0 ≤ p_wait p ≤ IKCP_PROBE_LIMIT;
  po_ts : in_u 32 (p_ts p);
}.

(** A segment with a payload the engine may have to send: at most [mss] bytes
    of it, and timers that are [u32]s. *)
Record sendable (mss : Z) (s : KcpSegment) : Prop := {
  se_wire : segment_ok s;
  se_data : 1 ≤ len (s_data s) ≤ mss;
  se_resendts : in_u 32 (s_resendts s);
  se_rto : in_u 32 (s_rto s);
  se_fastack : in_u 32 (s_fastack s);
  se_xmit : in_u 32 (s_xmit s);
}.

(** How far [a] is ahead of [base], around the [u32] circle. *)
Abbreviation offset_from base a := (wrapping_sub a base).

(** The send buffer: data segments whose numbers increase within
    [una, nxt), a range no longer than the send window. *)
Record snd_buf_ok (mss wnd una nxt : Z) (buf : list KcpSegment) : Prop := {
  sb_window : offset_from una nxt ≤ wnd;
  sb_segments : Forall (sendable mss) buf;
  sb_push : Forall (λ s, h_cmd (s_header s) = IKCP_CMD_PUSH) buf;
  sb_range : Forall (λ s, offset_from una (sn s) < offset_from una nxt) buf;
  sb_sorted : StronglySorted (λ s t, offset_from una (sn s) < offset_from una (sn t)) buf;
}.

(** The receive buffer: keyed by sequence number, within the receive window. *)
Definition rcv_buf_ok (rcv rcv_nxt : Z) (m : gmap Z KcpSegment) : Prop :=
  map_Forall (λ k s, k = sn s ∧ segment_ok s ∧ offset_from rcv_nxt k < rcv) m.

(** Bytes that are encoded segments, no more than an MTU of them. *)
Definition packed (mtu : Z) (d : bytes) : Prop :=
  ∃ segs, Forall segment_ok segs ∧ d = concat (map segment_bytes segs) ∧ len d ≤ mtu.
Definition datagram_ok (mtu : Z) (d : bytes) : Prop := d ≠ [] ∧ packed mtu d.

Record stats_ok (s : KcpStats) : Prop := {
  so_sent : in_u 64 (bytes_sent s);
  so_received : in_u 64 (bytes_received s);
  so_psent : in_u 64 (packets_sent s);
  so_preceived : in_u 64 (packets_received s);
  so_retrans : in_u 64 (retransmissions s);
  so_fast : in_u 64 (fast_retransmissions s);
}.

Record Inv (e : KcpEngine) : Prop := {
  i_config : windows_ok (e_config e);
  i_conv : in_u 32 (e_conv e);
  i_una : in_u 32 (e_snd_una e);
  i_nxt : in_u 32 (e_snd_nxt e);
  i_rcv_nxt : in_u 32 (e_rcv_nxt e);
  i_rtt : rtt_ok (e_rtt e);
  i_wnd : wnd_ok (e_config e) (e_wnd e);
  i_probe : probe_ok (e_probe e);
  i_snd_queue : Forall (sendable (mss_of (e_config e))) (e_snd_queue e);
  i_snd_buf : snd_buf_ok (mss_of (e_config e)) (c_snd_wnd (e_config e))
                (e_snd_una e) (e_snd_nxt e) (e_snd_buf e);
  i_rcv_queue : Forall segment_ok (e_rcv_queue e);
  i_rcv_len : len (e_rcv_queue e) ≤ c_rcv_wnd (e_config e);
  i_rcv_buf : rcv_buf_ok (c_rcv_wnd (e_config e)) (e_rcv_nxt e) (e_rcv_buf e);
  i_acks : Forall (λ a, in_u 32 a.1 ∧ in_u 32 a.2) (e_ack_list e);
  i_out_buf : packed (c_mtu (e_config e)) (e_out_buf e);
  i_output : Forall (datagram_ok (c_mtu (e_config e))) (e_output_queue e);
  i_stats : stats_ok (e_stats e);
  i_update : in_u 32 (e_last_update e);
  i_activity : in_u 32 (e_last_activity e);
  i_dead : in_u 32 (e_dead_link e);
}.

(** [snd_una] is the first unacknowledged number: true between calls, not
    while [input] is at work. *)
Definition una_tight (e : KcpEngine) : Prop :=
  e_snd_una e = match e_snd_buf e with seg :: _ => sn seg | [] => e_snd_nxt e end.

Lemma una_tight_ext e e' :
  e_snd_una e' = e_snd_una e → e_snd_nxt e' = e_snd_nxt e →
  map sn (e_snd_buf e') = map sn (e_snd_buf e) → una_tight e → una_tight e'.
Proof.
  unfold una_tight. intros -> -> Hm ->.
  destruct (e_snd_buf e), (e_snd_buf e'); cbn in *; congruence.
Qed.

(** The invariant as pre- and postcondition of an operation that does not
    fail, and of one that may. *)
Definition keeps_inv {prof : Profile} {A} (m : T A) : Prop :=
  ∀ s, Inv (inner s) → wp checked_overflow m (λ _ s', Inv (inner s')) (λ _ _, False) s.
Definition keeps_inv_or_fails {prof : Profile} {A} (m : T A) : Prop :=
  ∀ s, Inv (inner s) →
    wp checked_overflow m (λ _ s', Inv (inner s')) (λ _ s', Inv (inner s')) s.

Lemma keeps_inv_fails {prof : Profile} {A} (m : T A) : keeps_inv m → keeps_inv_or_fails m.
Proof. intros H s HI. eapply wp_mono; [by apply H|done|done]. Qed.

(** * Stepping through engine code *)

Section Steps.
Context {prof : Profile} {clk : Clock} {S E : Type} (K : panic → Prop).
Implicit Types (R : E → timed S → Prop) (s : timed S).

Lemma wp_get {A} (f : S → A) Q R s : Q (f (inner s)) s → wp K (get f) Q R s.
Proof. done. Qed.
Lemma wp_update (f : S → S) Q R s :
  Q tt (Timed (f (inner s)) (ticks s)) → wp K (update_self f) Q R s.
Proof. done. Qed.
Lemma wp_now Q R s :
  (∀ now, in_u 32 now → Q now (Timed (inner s) (Datatypes.S (ticks s)))) →
  wp K current_timestamp Q R s.
Proof. intros H. apply H. apply as_u32_range. Qed.
Lemma now_of_u32 s : in_u 32 (now_of s).
Proof. apply as_u32_range. Qed.
Lemma wp_now_of Q R s :
  Q (now_of s) (Timed (inner s) (Datatypes.S (ticks s))) → wp K current_timestamp Q R s.
Proof. done. Qed.
End Steps.

Ltac estep :=
  lazymatch goal with
  | |- wp _ (get _) _ _ _ => apply wp_get
  | |- wp _ (update_self _) _ _ _ => apply wp_update
  | |- wp _ current_timestamp _ _ _ => apply wp_now; intros ? ?
  | _ => wp_step
  end; cbv beta.
Ltac esteps := repeat estep.

(** Proves [Inv] of an updated engine, leaving the fields that changed. *)
Ltac inv_fields :=
  lazymatch goal with
  | H : Inv _ |- Inv _ => destruct H; constructor; cbn in *; try assumption
  end.

(** The payloads of a queue of segments, in order. *)
Definition queue_payload (q : list KcpSegment) : bytes := concat (map s_data q).

Lemma queue_payload_app q q' : queue_payload (q ++ q') = queue_payload q ++ queue_payload q'.
Proof. unfold queue_payload. by rewrite map_app, concat_app. Qed.

(** The counters stay in range whatever is added to them. *)
Ltac solve_stats :=
  lazymatch goal with
  | H : stats_ok _ |- stats_ok _ =>
      destruct H; constructor; cbn; try assumption; apply wrap_in_u; lia
  end.

(** * Lemmas on the helpers *)

Lemma windows_mss c : windows_ok c → 1 ≤ mss_of c ≤ 65511.
Proof. intros []. unfold mss_of, IKCP_OVERHEAD. lia. Qed.

Lemma wnd_unused_range e : Inv e → 0 ≤ wnd_unused_of e ≤ c_rcv_wnd (e_config e).
Proof.
  intros []. destruct i_config0, i_wnd0. unfold wnd_unused_of, w_rcv_of. rewrite wk_rcv0.
  pose proof (len_nonneg (e_rcv_queue e)). zcases; [|lia]. zlia.
Qed.

(** The send buffer's invariant looks at numbers, commands and [sendable] only,
    and holds of any part of the buffer. *)
Lemma snd_buf_ok_map mss wnd una nxt buf buf' :
  Forall2 (λ s s', sn s' = sn s ∧ h_cmd (s_header s') = h_cmd (s_header s) ∧ sendable mss s') buf buf' →
  snd_buf_ok mss wnd una nxt buf → snd_buf_ok mss wnd una nxt buf'.
Proof.
  intros H2 [Hw _ Hp Hr Hs]. constructor; [done|..]; clear Hw.
  - clear - H2. induction H2 as [|? ? ? ? (_ & _ & ?)]; auto.
  - clear - H2 Hp. induction H2 as [|s s' l l' (_ & Hc & _)]; constructor;
      apply Forall_cons in Hp as [? ?]; [congruence|auto].
  - clear - H2 Hr. induction H2 as [|s s' l l' (Hn & _)]; constructor;
      apply Forall_cons in Hr as [? ?]; [by rewrite Hn|auto].
  - clear Hp Hr. induction H2 as [|s s' l l' (Hn & _ & _) H2 IH]; constructor;
      inversion_clear Hs as [|? ? Hs' Hl]; [auto|].
    rewrite Hn. clear IH Hs'. induction H2 as [|t t' ? ? (Ht & _)]; constructor;
      apply Forall_cons in Hl as [? ?]; [by rewrite Ht|auto].
Qed.

Lemma snd_buf_ok_sublist mss wnd una nxt buf buf' :
  sublist buf' buf → snd_buf_ok mss wnd una nxt buf → snd_buf_ok mss wnd una nxt buf'.
Proof.
  intros Hl []. constructor; [done|..]; eauto using Forall_sublist, StronglySorted_sublist.
Qed.

Lemma sn_range mss s : sendable mss s → in_u 32 (sn s).
Proof. intros [[[] _] _ _ _ _ _]. done. Qed.

(** Moving the base of the window up to the first segment. *)
Lemma snd_buf_ok_shrink mss wnd una nxt buf :
  in_u 32 una → in_u 32 nxt → snd_buf_ok mss wnd una nxt buf →
  snd_buf_ok mss wnd (match buf with seg :: _ => sn seg | [] => nxt end) nxt buf.
Proof.
  intros Hu Hn [Hw Hse Hp Hr Hs]. destruct buf as [|seg buf].
  { constructor; try constructor. revert Hw. zlia. }
  apply Forall_cons in Hse as [Hseg Hse]. apply Forall_cons in Hr as [Hr1 Hr].
  pose proof (sn_range _ _ Hseg) as Hsn. inversion_clear Hs as [|? ? Hs' Hlt].
  assert (Hsub : ∀ x, in_u 32 x → offset_from una (sn seg) ≤ offset_from una x →
    offset_from (sn seg) x = offset_from una x - offset_from una (sn seg)).
  { intros x Hx. unfold in_u, wrapping_sub, wrap in *. rewrite pow32 in *. zmod. lia. }
  constructor; try done; [rewrite Hsub by (done || lia); revert Hw; zlia|by constructor|..].
  - constructor; [rewrite !Hsub by (done || lia); lia|].
    rewrite Forall_forall in *. intros x Hx. specialize (Hlt x Hx). specialize (Hr x Hx).
    rewrite !Hsub by (eauto using sn_range || lia). lia.
  - constructor.
    + clear - Hs' Hlt Hse Hsub. induction Hs' as [|x l Hl IH Hx]; constructor;
        apply Forall_cons in Hlt as [? ?]; apply Forall_cons in Hse as [? ?]; [auto|].
      rewrite Forall_forall in *. intros y Hy. rewrite !Hsub by (eauto using sn_range || (specialize (Hx y Hy); lia)).
      specialize (Hx y Hy). lia.
    + rewrite Forall_forall in *. intros x Hx. specialize (Hlt x Hx).
      rewrite !Hsub by (eauto using sn_range || lia). lia.
Qed.

Lemma flags_or p f : probe_ok p → 0 ≤ f < 4 → 0 ≤ Z.lor (p_flags p) f < 4.
Proof.
  intros [Hf _ _] Hr. split; [apply Z.lor_nonneg; lia|].
  apply Z.log2_lt_cancel. rewrite Z.log2_lor by lia.
  apply Z.max_lub_lt; (eapply Z.le_lt_trans; [apply Z.log2_le_mono; instantiate (1 := 3); lia|done]).
Qed.

Section Helpers.
Context {prof : Profile} {clk : Clock}.
Context (K : panic → Prop).
Implicit Types (R : KcpCoreError → St → Prop).

Lemma wp_mss Q R s :
  windows_ok (e_config (inner s)) → Q (mss_of (e_config (inner s))) s → wp K mss Q R s.
Proof.
  intros Hc HQ. unfold mss. esteps. unfold usub. wp_exact; [|done].
  pose proof (windows_mss _ Hc). unfold mss_of in *. zlia.
Qed.

Lemma wp_wnd_unused Q R s :
  Inv (inner s) → Q (wnd_unused_of (inner s)) s → wp K wnd_unused Q R s.
Proof.
  intros HI HQ. pose proof (wnd_unused_range _ HI) as Hr.
  destruct HI as [[] ? ? ? ? ? ? ? ? ? ? ? ? ? ? ? ? ? ? ?].
  unfold wnd_unused_of, wnd_unused in *.
  esteps; match goal with H : (len _ <? _) = _ |- _ => rewrite H in * end; [|done].
  unfold usub. wp_exact; [zlia|done].
Qed.
End Helpers.

Section HelpersInv.
Context {prof : Profile} {clk : Clock}.

Lemma wp_count_stat (proj : KcpStats → Z) `{!Setter proj} n Q (R : KcpCoreError → St → Prop) s :
  Q tt (Timed ((inner s) <| e_stats ::= λ st, st <| proj := wrap 64 (proj st + n) |> |>) (ticks s)) →
  wp checked_overflow (count_stat proj n) Q R s.
Proof. intros HQ. unfold count_stat. esteps. exact HQ. Qed.

Lemma reset_cwnd_inv : keeps_inv reset_cwnd.
Proof.
  intros s HI. unfold reset_cwnd. esteps. apply wp_mss; cbn; [by destruct HI|].
  esteps. pose proof (windows_mss _ (i_config _ HI)).
  inv_fields. match goal with H : wnd_ok _ _ |- _ => destruct H end; constructor; cbn; try assumption; zlia.
Qed.

Lemma new_inv {S E} conv c (Q : KcpEngine → timed S → Prop) (R : E → timed S → Prop) s :
  in_u 32 conv → core_config_ok c → c_mtu c ≤ 65535 →
  1 ≤ c_snd_wnd c ≤ 65535 → 1 ≤ c_rcv_wnd c ≤ 65535 →
  (∀ e s', Inv e → una_tight e → Q e s') →
  wp no_panic (new conv c) Q R s.
Proof.
  intros Hconv [] Hm Hs Hr HQ. unfold new. esteps. apply HQ; [|done].
  assert (Hz : ∀ w, 0 ≤ w → in_u w 0) by (intros w Hw; unfold in_u; lia).
  constructor; cbn; auto using Forall_nil_2; try (apply Hz; lia).
  - constructor; cbn; [constructor; cbn|..]; try done; unfold IKCP_OVERHEAD; zunfold; lia.
  - unfold IKCP_RTO_NDL, IKCP_RTO_MIN, IKCP_RTO_DEF.
    destruct (nd_nodelay _); constructor; cbn; unfold IKCP_RTO_MAX, IKCP_RTO_NDL, IKCP_RTO_MIN; lia.
  - constructor; cbn; try done; unfold IKCP_WND_RCV, IKCP_THRESH_INIT; zunfold; lia.
  - constructor; cbn; try (apply Hz; lia); unfold IKCP_PROBE_LIMIT; lia.
  - constructor; cbn; [|constructor..]. unfold wrapping_sub. zunfold. rewrite Z.mod_0_l; lia.
  - rewrite len_nil. lia.
  - apply map_Forall_empty.
  - exists []. split_and!; [constructor|done|]. unfold IKCP_OVERHEAD. rewrite len_nil. lia.
  - constructor; cbn; apply Hz; lia.
Qed.
End HelpersInv.

(** * A sample engine, for concrete instances *)

Module Sample.
Definition clock : Clock := λ n, 1000 + 10 * Z.of_nat n.
Definition config : KcpCoreConfig := KcpCoreConfig_default.
Definition made : outcome KcpCoreError KcpEngine * timed () :=
  new (clk := clock) 7 config (Timed tt 0).
Definition engine : KcpEngine :=
  Build_KcpEngine 7 config 0 0 0 (Build_RttState 0 0 200 100) (Build_WindowState 32 128 128 32 2 0)
    (Build_ProbeState 0 0 0) [] [] [] ∅ [] [] [] KcpStats_default 1000 1010 20.
Definition state : St := Timed engine 2.

Lemma config_ok : core_config_ok config.
Proof. split; vm_compute; split; congruence. Qed.

Lemma good : Inv engine ∧ una_tight engine.
Proof.
  apply (wp_ok no_panic (new (clk := clock) (S := ()) (E := KcpCoreError) 7 config)
    (λ e _, Inv e ∧ una_tight e) (λ _ _, False) (Timed tt 0) engine (Timed tt 2)); [|reflexivity].
  apply new_inv; [vm_compute; split; congruence|apply config_ok|vm_compute; congruence|split; vm_compute; congruence..|done].
Qed.
End Sample.

(** * Theorems *)

(** Once the clock has wrapped past the last activity the engine reads as not
    idle at all, however long ago that was. *)
Theorem idle_ms_zero_after_wrap {clk : Clock} (s : St) :
  now_of s < e_last_activity (inner s) → (idle_ms s).1 = Ok 0.
Proof.
  intros H. unfold idle_ms, mbind, M_bind. cbn. fold (now_of s). unfold saturating_sub.
  by rewrite Z.max_l by lia.
Qed.

(** [new] makes an engine in order for every configuration whose windows
    and MTU fit the wire: it never panics, keeps the conversation number, and
    makes room for at least one payload byte per segment. *)
Theorem new_good {clk : Clock} conv c s :
  in_u 32 conv → core_config_ok c → c_mtu c ≤ 65535 →
  1 ≤ c_snd_wnd c ≤ 65535 → 1 ≤ c_rcv_wnd c ≤ 65535 →
  ∃ e s', new (S := ()) (E := KcpCoreError) conv c s = (Ok e, s') ∧ Inv e ∧ una_tight e ∧
    e_conv e = conv ∧ 1 ≤ mss_of (e_config e) ∧ has_unsent_data_of e = false ∧ is_dead_of e = false ∧
    w_rcv_of e = c_rcv_wnd c.
Proof.
  intros Hconv Hc Hm Hs Hr.
  pose proof (new_inv (S := ()) (E := KcpCoreError) conv c (λ e _, Inv e ∧ una_tight e) (λ _ _, False) s
    Hconv Hc Hm Hs Hr (λ e _ HI Ht, conj HI Ht)) as Hn.
  unfold wp in Hn. destruct (new conv c s) as [[e|err|p] s'] eqn:He; [|done..]. exists e, s'.
  destruct Hn as [HI Ht]. pose proof (windows_mss _ (i_config _ HI)).
  split_and!; [done|exact HI|exact Ht|..]; try lia; unfold new in He; cbn in He; by injection He as <- <-.
Qed.

Lemma new_good_witness :
  ∃ e s', new (clk := Sample.clock) (S := ()) (E := KcpCoreError) 7 Sample.config (Timed tt 0) = (Ok e, s')
    ∧ Inv e.
Proof.
  destruct (new_good (clk := Sample.clock) 7 Sample.config (Timed tt 0)
    ltac:(vm_compute; split; congruence) Sample.config_ok ltac:(vm_compute; congruence)
    ltac:(split; vm_compute; congruence) ltac:(split; vm_compute; congruence)) as (e & s' & H & HI & _).
  by exists e, s'.
Defined.
