(* ===== verification/Output.v ===== *)
(** kcp-core/src/engine.rs, the output path: packing segments into datagrams
    of at most one MTU ([output_segment], [flush_out_buf]). *)
From S2P Require Import Prelude Monad Protocol Error Config Engine.

Section Output.
Context {prof : Profile} {clk : Clock} {api : BytesApi}.

Definition output_segment (segment : KcpSegment) : T () :=
  let need := KcpSegment_size segment in
  out_buf ← get e_out_buf;
  config ← get e_config;
  whenM ((c_mtu config <? len out_buf + need) && negb (is_empty out_buf))
    (update_self (λ e, e <| e_output_queue ::= λ q, q ++ [out_buf] |> <| e_out_buf := [] |>));;
  update_self (λ e, e <| e_out_buf ::= KcpSegment_encode segment |>);;
  count_stat packets_sent 1.

Definition flush_out_buf : T () :=
  out_buf ← get e_out_buf;
  whenM (negb (is_empty out_buf))
    (update_self (λ e, e <| e_output_queue ::= λ q, q ++ [out_buf] |> <| e_out_buf := [] |>)).
End Output.

(** * What the output path does *)

(** The engine after [output_segment]. *)
Definition emit (segment : KcpSegment) (e : KcpEngine) : KcpEngine :=
  let e :=
    if (c_mtu (e_config e) <? len (e_out_buf e) + KcpSegment_size segment)
       && negb (is_empty (e_out_buf e))
    then e <| e_output_queue ::= λ q, q ++ [e_out_buf e] |> <| e_out_buf := [] |> else e in
  e <| e_out_buf ::= λ b, b ++ segment_bytes segment |>
    <| e_stats ::= λ st, st <| packets_sent := wrap 64 (packets_sent st + 1) |> |>.

(** Everything that was emitted and not drained, in order. *)
Definition pending_bytes (e : KcpEngine) : bytes := concat (e_output_queue e) ++ e_out_buf e.

Lemma emit_pending segment e :
  pending_bytes (emit segment e) = pending_bytes e ++ segment_bytes segment.
Proof.
  unfold pending_bytes, emit. destruct (_ && _); cbn.
  - rewrite concat_app. cbn. by rewrite !app_nil_r, <- !(assoc (++)).
  - by rewrite <- (assoc (++)).
Qed.

Lemma packed_app mtu d d' :
  packed mtu d → packed mtu d' → len (d ++ d') ≤ mtu → packed mtu (d ++ d').
Proof.
  intros (s & Hs & -> & _) (s' & Hs' & -> & _) Hl. exists (s ++ s').
  by rewrite Forall_app, map_app, concat_app.
Qed.

Lemma packed_segment mtu segment :
  segment_ok segment → KcpSegment_size segment ≤ mtu → packed mtu (segment_bytes segment).
Proof.
  intros H Hl. exists [segment]. cbn. rewrite app_nil_r, len_segment_bytes. auto.
Qed.

Lemma packed_nil mtu : 0 ≤ mtu → packed mtu [].
Proof. intros. exists []. auto. Qed.

Lemma emit_inv segment e :
  segment_ok segment → KcpSegment_size segment ≤ c_mtu (e_config e) →
  Inv e → Inv (emit segment e).
Proof.
  intros Hseg Hsize HI. unfold emit.
  destruct (Z.ltb_spec (c_mtu (e_config e)) (len (e_out_buf e) + KcpSegment_size segment));
    [destruct (is_empty (e_out_buf e)) eqn:He|]; cbn [andb negb].
  all: inv_fields; try solve_stats.
  - apply is_empty_true in He as Hn. rewrite Hn. by apply packed_segment.
  - by apply packed_segment.
  - apply is_empty_false in He. apply Forall_app. split; [done|].
    by repeat constructor.
  - apply packed_app; [done|by apply packed_segment|].
    rewrite len_app, len_segment_bytes. lia.
Qed.

(** A run of [output_segment]s. *)
Definition emit_all (segments : list KcpSegment) (e : KcpEngine) : KcpEngine :=
  foldl (λ e segment, emit segment e) e segments.

Definition fits (mtu : Z) (segment : KcpSegment) : Prop :=
  segment_ok segment ∧ KcpSegment_size segment ≤ mtu.

(** The bytes of a run of segments. *)
Definition segments_bytes (segments : list KcpSegment) : bytes :=
  concat (map segment_bytes segments).

Lemma segments_bytes_app l l' : segments_bytes (l ++ l') = segments_bytes l ++ segments_bytes l'.
Proof. unfold segments_bytes. by rewrite map_app, concat_app. Qed.

(** Sending changes the output and the counters only. *)
Definition same_but_output (e e' : KcpEngine) : Prop :=
  e' = e <| e_output_queue := e_output_queue e' |> <| e_out_buf := e_out_buf e' |>
         <| e_stats := e_stats e' |>.

#[export] Instance same_but_output_trans : Transitive same_but_output.
Proof. intros e e' e''. unfold same_but_output. intros -> ->. reflexivity. Qed.

Lemma emit_frame segment e : same_but_output e (emit segment e).
Proof. unfold emit, same_but_output. destruct (_ && _); by destruct e. Qed.

Lemma emit_all_frame segments : ∀ e, same_but_output e (emit_all segments e).
Proof.
  induction segments as [|segment l IH]; intros e; cbn; [by destruct e|].
  transitivity (emit segment e); [apply emit_frame|apply IH].
Qed.

Lemma emit_all_app l l' e : emit_all (l ++ l') e = emit_all l' (emit_all l e).
Proof. apply foldl_app. Qed.

Lemma emit_all_pending segments : ∀ e,
  pending_bytes (emit_all segments e) = pending_bytes e ++ segments_bytes segments.
Proof.
  induction segments as [|segment l IH]; intros e.
  - unfold segments_bytes. cbn. by rewrite app_nil_r.
  - cbn. fold (emit_all l (emit segment e)). rewrite IH, emit_pending.
    unfold segments_bytes. cbn. by rewrite <- (assoc (++)).
Qed.

Lemma emit_all_inv segments : ∀ e,
  Forall (fits (c_mtu (e_config e))) segments → Inv e → Inv (emit_all segments e).
Proof.
  induction segments as [|segment l IH]; intros e Hf HI; [done|].
  apply Forall_cons in Hf as [[] Hf]. cbn. apply IH; [|by apply emit_inv].
  by rewrite (emit_frame segment e).
Qed.

Section OutputFacts.
Context {prof : Profile} {clk : Clock} {api : BytesApi} {spec : BytesApiSpec api}.

Lemma wp_output_segment segment Q R s :
  segment_ok segment → Q tt (Timed (emit segment (inner s)) (ticks s)) →
  wp checked_overflow (output_segment segment) Q R s.
Proof.
  intros Hseg HQ. unfold output_segment.
  assert (Henc : ∀ e, e <| e_out_buf ::= KcpSegment_encode segment |>
                    = e <| e_out_buf ::= λ b, b ++ segment_bytes segment |>).
  { intros e. unfold set_field. by rewrite KcpSegment_encode_bytes. }
  esteps; apply wp_count_stat; cbn in *.
  all: unfold emit in HQ;
    match goal with H : (_ <? _) && _ = _ |- _ => rewrite H in HQ; clear H end; cbn in HQ.
  all: rewrite Henc; exact HQ.
Qed.

Lemma flush_out_buf_spec Q R s :
  Q tt (Timed (if is_empty (e_out_buf (inner s)) then inner s else
          (inner s) <| e_output_queue ::= λ q, q ++ [e_out_buf (inner s)] |> <| e_out_buf := [] |>)
        (ticks s)) →
  wp no_panic flush_out_buf Q R s.
Proof.
  intros HQ. unfold flush_out_buf. esteps; destruct (is_empty _); try done. by destruct s.
Qed.

Lemma flush_out_buf_inv : keeps_inv flush_out_buf.
Proof.
  intros s HI. unfold flush_out_buf. esteps; [|done].
  assert (0 ≤ c_mtu (e_config (inner s))) by (destruct HI as [[]]; lia).
  inv_fields; [by apply packed_nil|].
  apply Forall_app. split; [done|]. repeat constructor; [|done].
  by destruct (e_out_buf (inner s)).
Qed.
End OutputFacts.
