(* ===== verification/Send.v ===== *)
(** kcp-core/src/engine.rs, [send]: stream-mode merging into the last queued
    segment, the fragment limit and the fragmentation of a message. *)
From S2P Require Import Prelude Monad Protocol Error Config Engine.

Section Send.
Context {prof : Profile} {clk : Clock} {api : BytesApi}.

(** [l.back_mut()] set to [x]. *)
Definition set_back {A} (x : A) (l : list A) : list A := removelast l ++ [x].

(** The text of the error [send] returns. *)
Definition frag_error (count max_frags : Z) : KcpCoreError :=
  Buffer ("Message needs " +:+ pretty count +:+ " fragments, exceeding the "
    +:+ pretty max_frags +:+ " the receive window can reassemble").

(** The stream-mode block.  [None] is its early [return Ok(())]; otherwise
    the data that is left to fragment. *)
Definition merge_last (mss : Z) (data : bytes) : T (option bytes) :=
  config ← get e_config;
  snd_queue ← get e_snd_queue;
  match c_stream_mode config, last snd_queue with
  | true, Some seg =>
      let old_len := len (s_data seg) in
      if old_len <? mss then
        capacity ← usub 64 mss old_len;
        let extend := Z.min (len data) capacity in
        let buf := match try_into_mut (s_data seg) with inl buf => buf | inr shared => shared end in
        head ← slice 0 extend data;
        let buf := buf ++ head in
        update_self (λ e, e <| e_snd_queue ::= set_back
          (seg <| s_data := buf |> <| s_header ::= λ h, h <| h_len := as_u32 (len buf) |> |>) |>);;
        data ← slice extend (len data) data;
        if is_empty data then count_stat bytes_sent extend;; mret None
        else mret (Some data)
      else mret (Some data)
  | _, _ => mret (Some data)
  end.

(** One turn of the fragmentation loop; the loop carries [offset]. *)
Definition push_fragment (mss count : Z) (data : bytes) (offset i : Z) : T Z :=
  rest ← usub 64 (len data) offset;
  let size := Z.min mss rest in
  fragment ← slice offset (offset + size) data;
  conv ← get e_conv;
  segment ← KcpSegment_push conv 0 fragment;
  config ← get e_config;
  segment ← (if negb (c_stream_mode config) then
               a ← usub 64 count i;
               b ← usub 64 a 1;
               mret (segment <| s_header ::= λ h, h <| h_frg := as_u8 b |> |>)
             else mret segment);
  update_self (λ e, e <| e_snd_queue ::= λ q, q ++ [segment] |>);;
  mret (offset + size).

Definition send (data : bytes) : T () :=
  now ← current_timestamp;
  update_self (λ e, e <| e_last_activity := now |>);;
  if is_empty data then mret tt
  else
    mss ← mss;
    rest ← merge_last mss data;
    match rest with
    | None => mret tt
    | Some data =>
        count ← (if len data <=? mss then mret 1 else udiv_ceil (len data) mss);
        config ← get e_config;
        let max_frags := Z.min (c_rcv_wnd config) IKCP_WND_RCV in
        if max_frags <? count then fail (frag_error count max_frags)
        else
          foldM (push_fragment mss count data) 0 (seqZ 0 count);;
          count_stat bytes_sent (len data)
    end.
End Send.

(** * Fragmentation *)

(** The [i]-th fragment of [data]. *)
Definition frag_at (mss : Z) (data : bytes) (i : Z) : bytes :=
  take (Z.to_nat mss) (drop (Z.to_nat (i * mss)) data).

(** How many fragments [send] makes. *)
Definition frag_count (mss : Z) (data : bytes) : Z :=
  if len data <=? mss then 1 else div_ceil (len data) mss.

Lemma frag_count_bounds mss data :
  0 < mss → data ≠ [] →
  1 ≤ frag_count mss data ∧
  (frag_count mss data - 1) * mss < len data ≤ frag_count mss data * mss.
Proof.
  intros Hm Hd. unfold frag_count.
  assert (0 < len data) by (destruct data; [done|rewrite len_cons; pose proof (len_nonneg data); lia]).
  destruct (Z.leb_spec (len data) mss); [lia|]. unfold div_ceil.
  pose proof (Z.div_mod (len data + mss - 1) mss ltac:(lia)).
  pose proof (Z.mod_pos_bound (len data + mss - 1) mss ltac:(lia)). nia.
Qed.

Lemma frag_at_concat mss data k :
  0 < mss → concat (map (frag_at mss data) (seqZ 0 (Z.of_nat k))) = take (k * Z.to_nat mss) data.
Proof.
  intros Hm. induction k as [|k IH]; [done|].
  rewrite seqZ_S, map_app, concat_app, IH. cbn [map concat]. rewrite app_nil_r.
  unfold frag_at. replace (Z.to_nat ((0 + Z.of_nat k) * mss)) with (k * Z.to_nat mss)%nat by nia.
  replace (S k * Z.to_nat mss)%nat with (k * Z.to_nat mss + Z.to_nat mss)%nat by lia.
  by rewrite take_take_drop.
Qed.

Lemma frag_at_all mss data :
  0 < mss → data ≠ [] →
  concat (map (frag_at mss data) (seqZ 0 (frag_count mss data))) = data.
Proof.
  intros Hm Hd. destruct (frag_count_bounds mss data Hm Hd) as (H1 & H2 & H3).
  rewrite <- (Z2Nat.id (frag_count mss data)) by lia.
  rewrite frag_at_concat by done. apply take_ge. unfold len in *. nia.
Qed.

Lemma frag_at_len mss data i :
  0 < mss → 0 ≤ i → i * mss ≤ len data → len (frag_at mss data i) = Z.min mss (len data - i * mss).
Proof. intros. unfold frag_at. rewrite len_take, len_drop. nia. Qed.

(** [send] touches the send queue, the statistics and the activity time. *)
Definition send_frame (e e' : KcpEngine) : Prop :=
  e' = e <| e_snd_queue := e_snd_queue e' |> <| e_stats := e_stats e' |>
         <| e_last_activity := e_last_activity e' |>.

Lemma send_frame_refl e : send_frame e e.
Proof. by destruct e. Qed.
Lemma send_frame_trans e1 e2 e3 : send_frame e1 e2 → send_frame e2 e3 → send_frame e1 e3.
Proof. unfold send_frame. intros -> ->. done. Qed.

(** The segments one [send] queues: the payloads are the fragments of the
    data; the numbers count down to 0 in message mode and are 0 in stream
    mode. *)
Definition fragments_of (stream : bool) (mss : Z) (data : bytes) (segs : list KcpSegment) : Prop :=
  let count := frag_count mss data in
  map s_data segs = map (frag_at mss data) (seqZ 0 count) ∧
  map frg segs = map (λ i, if stream then 0 else count - i - 1) (seqZ 0 count).

Lemma fragments_payload stream mss data segs :
  0 < mss → data ≠ [] → fragments_of stream mss data segs → queue_payload segs = data.
Proof. intros Hm Hd [H _]. unfold queue_payload. by rewrite H, frag_at_all. Qed.

(** A segment with [d] behind its payload, the header's length with it. *)
Definition extended (seg : KcpSegment) (d : bytes) : KcpSegment :=
  let buf := s_data seg ++ d in
  seg <| s_data := buf |> <| s_header ::= λ h, h <| h_len := as_u32 (len buf) |> |>.

(** The queue whose last segment has taken from [data] what makes it an [mss]
    long, and the data that is left. *)
Definition fill_last (mss : Z) (q : list KcpSegment) (data : bytes) : list KcpSegment * bytes :=
  match last q, data with
  | Some seg, _ :: _ =>
      if len (s_data seg) <? mss then
        let room := Z.to_nat (mss - len (s_data seg)) in
        (set_back (extended seg (take room data)) q, drop room data)
      else (q, data)
  | _, _ => (q, data)
  end.
(** The fragments of [data]: [mss] bytes each, but for the last. *)
Definition pieces (mss : Z) (data : bytes) : list bytes :=
  if is_empty data then [] else map (frag_at mss data) (seqZ 0 (frag_count mss data)).

Lemma pieces_of mss data : data ≠ [] → pieces mss data = map (frag_at mss data) (seqZ 0 (frag_count mss data)).
Proof. by destruct data. Qed.
Lemma len_pieces mss data : 0 < mss → data ≠ [] → len (pieces mss data) = frag_count mss data.
Proof.
  intros Hm Hd. destruct (frag_count_bounds mss data Hm Hd). rewrite pieces_of by done.
  unfold len. rewrite length_map, length_seqZ. lia.
Qed.
Lemma fragments_stream mss data segs : fragments_of true mss data segs → Forall (λ seg, frg seg = 0) segs.
Proof.
  intros [_ H]. apply Forall_forall. intros seg Hin. apply (list_elem_of_fmap_2 frg) in Hin. change (frg <$> segs) with (map frg segs) in Hin.
  rewrite H in Hin. by apply list_elem_of_fmap in Hin as (i & -> & _).
Qed.
Lemma fill_last_nonempty mss q data : data ≠ [] →
  fill_last mss q data =
  match last q with
  | Some seg =>
      if len (s_data seg) <? mss then
        let room := Z.to_nat (mss - len (s_data seg)) in
        (set_back (extended seg (take room data)) q, drop room data)
      else (q, data)
  | None => (q, data)
  end.
Proof. unfold fill_last. by destruct data, (last q). Qed.
Lemma fill_last_payload mss q data :
  let '(q', rest) := fill_last mss q data in queue_payload q' ++ rest = queue_payload q ++ data.
Proof.
  unfold fill_last. destruct (last q) as [seg|] eqn:Hl; [|done]. destruct data as [|b data]; [done|].
  destruct (_ <? _); [|done]. apply last_Some in Hl as [q0 ->]. unfold set_back. rewrite removelast_last.
  rewrite !queue_payload_app, <- !(assoc (++)). f_equal. unfold queue_payload. cbn [map concat].
  rewrite !app_nil_r. cbn. rewrite <- (assoc (++)). by rewrite take_drop.
Qed.

(** What the stream-mode block does to the queue [q]: [r] is the data left to
    fragment, [q'] the queue it leaves. *)
Definition merged (stream : bool) (mss : Z) (q : list KcpSegment) (data : bytes)
    (r : option bytes) (q' : list KcpSegment) : Prop :=
  queue_payload q' ++ default [] r = queue_payload q ++ data ∧
  r ≠ Some [] ∧ (stream = false → r = Some data ∧ q' = q) ∧
  map frg q' = map frg q ∧ (∀ d, r = Some d → ∃ k, d = drop k data) ∧
  (stream = true → (q', default [] r) = fill_last mss q data).

(** The fragments a message may have. *)
Definition max_frags (e : KcpEngine) : Z := Z.min (c_rcv_wnd (e_config e)) IKCP_WND_RCV.

Lemma frag_count_le mss data n : 0 < mss → 1 ≤ n → len data ≤ mss * n → frag_count mss data ≤ n.
Proof.
  intros Hm Hn Hl. unfold frag_count. destruct (Z.leb_spec (len data) mss); [done|].
  unfold div_ceil. apply Z.lt_succ_r, Z.div_lt_upper_bound; lia.
Qed.

Lemma seqZ_prefix m n l a l' : seqZ m n = l ++ a :: l' → a = m + len l ∧ len l < n.
Proof.
  intros H. pose proof (list_lookup_middle l l' a (length l) eq_refl) as Hl.
  rewrite <- H in Hl. by apply lookup_seqZ in Hl.
Qed.

Section SendFacts.
Context {prof : Profile} {clk : Clock} {api : BytesApi} {spec : BytesApiSpec api}.

Lemma push_fragment_spec mss data count offset i s :
  Inv (inner s) → mss = mss_of (e_config (inner s)) → 0 ≤ i < count → count ≤ 128 →
  (count - 1) * mss < len data ≤ count * mss → offset = i * mss →
  wp checked_overflow (push_fragment mss count data offset i)
    (λ offset' s', offset' = i * mss + len (frag_at mss data i) ∧ Inv (inner s') ∧
      send_frame (inner s) (inner s') ∧
      ∃ seg, e_snd_queue (inner s') = e_snd_queue (inner s) ++ [seg] ∧
        s_data seg = frag_at mss data i ∧
        frg seg = if c_stream_mode (e_config (inner s)) then 0 else count - i - 1)
    (λ _ _, False) s.
Proof.
  intros HI Hmss Hi Hc Hlen ->. pose proof (windows_mss _ (i_config _ HI)) as Hm.
  rewrite <- Hmss in Hm.
  assert (Ho : 0 ≤ i * mss < len data) by nia.
  assert (Hd : len data < 2 ^ 64) by (rewrite pow64; nia).
  pose proof (frag_at_len mss data i ltac:(lia) ltac:(lia) ltac:(lia)) as Hfl.
  unfold push_fragment. estep. unfold usub at 1. wp_exact; [unfold in_u; lia|].
  estep. apply wp_slice; [lia|lia|].
  replace (take _ _) with (frag_at mss data i).
  2:{ unfold frag_at. rewrite <- (firstn_all (drop (Z.to_nat (i * mss)) data)) at 1.
      rewrite firstn_firstn. f_equal. rewrite length_drop. unfold len in *. lia. }
  unfold KcpSegment_push, KcpSegment_new, KcpHeader_new.
  do 13 estep.
  set (d := frag_at mss data i) in *.
  assert (Hseg : ∀ f, 0 ≤ f < 256 → sendable mss
    (Build_KcpSegment (Build_KcpHeader (e_conv (inner s)) IKCP_CMD_PUSH f 0 now 0 0 (as_u32 (len d)))
       d 0 IKCP_RTO_DEF 0 0)).
  { intros f Hf. unfold IKCP_CMD_PUSH, IKCP_RTO_DEF. destruct HI.
    constructor; cbn; [split; cbn; [constructor; cbn|]|..]; try assumption; zlia. }
  assert (Hoff : i * mss + Z.min mss (len data - i * mss) = i * mss + len d) by lia.
  cbn [inner]. apply wp_if; intros Hstream;
    rewrite ?negb_true_iff, ?negb_false_iff in Hstream; rewrite Hstream.
  - estep. wp_exact; [zlia|]. estep. wp_exact; [zlia|]. do 4 estep. cbn. split_and!.
    + done.
    + specialize (Hseg (as_u8 (count - i - 1)) ltac:(zlia)).
      inv_fields. apply Forall_app. split; [done|]. apply Forall_singleton. by rewrite <- Hmss.
    + reflexivity.
    + eexists. split_and!; [done..|]. cbn. zlia.
  - do 4 estep. cbn. split_and!.
    + done.
    + specialize (Hseg 0 ltac:(lia)).
      inv_fields. apply Forall_app. split; [done|]. apply Forall_singleton. by rewrite <- Hmss.
    + reflexivity.
    + by eexists.
Qed.

(** The fragmentation loop. *)
Lemma push_fragments_spec mss data s :
  Inv (inner s) → mss = mss_of (e_config (inner s)) → data ≠ [] → frag_count mss data ≤ 128 →
  wp checked_overflow (foldM (push_fragment mss (frag_count mss data) data) 0
                         (seqZ 0 (frag_count mss data)))
    (λ _ s', Inv (inner s') ∧ send_frame (inner s) (inner s') ∧
      ∃ segs, e_snd_queue (inner s') = e_snd_queue (inner s) ++ segs ∧
        fragments_of (c_stream_mode (e_config (inner s))) mss data segs)
    (λ _ _, False) s.
Proof.
  intros HI Hmss Hd Hc. pose proof (windows_mss _ (i_config _ HI)) as Hm. rewrite <- Hmss in Hm.
  destruct (frag_count_bounds mss data ltac:(lia) Hd) as [Hc1 Hlen].
  set (count := frag_count mss data) in *.
  set (stream := c_stream_mode (e_config (inner s))).
  apply (wp_foldM _ _ (λ done offset s',
    (len done < count → offset = len done * mss) ∧ Inv (inner s') ∧
    send_frame (inner s) (inner s') ∧
    ∃ segs, e_snd_queue (inner s') = e_snd_queue (inner s) ++ segs ∧
      map s_data segs = map (frag_at mss data) done ∧
      map frg segs = map (λ i, if stream then 0 else count - i - 1) done)).
  - split_and!; [rewrite len_nil; lia|done|apply send_frame_refl|].
    exists []. by rewrite app_nil_r.
  - intros l i offset s' (Hoff & HI' & Hf & segs & Hq & Hs1 & Hs2) [rest Hl].
    apply seqZ_prefix in Hl as [-> Hl]. pose proof (len_nonneg l).
    assert (Hcfg : e_config (inner s') = e_config (inner s)) by (by rewrite Hf).
    eapply wp_mono; [apply (push_fragment_spec mss data count); rewrite ?Hcfg; auto; lia| |done].
    intros offset' s'' (-> & HI'' & Hf' & seg & Hq' & Hd' & Hfrg). split_and!; [|done| |].
    + rewrite len_app, len_cons, len_nil. intros. rewrite frag_at_len by nia. nia.
    + by eapply send_frame_trans.
    + exists (segs ++ [seg]). rewrite !map_app, Hq', Hq, Hs1, Hs2, <- (assoc (++)). cbn.
      rewrite Hd', Hfrg, Hcfg. done.
  - intros _ s' (_ & HI' & Hf & segs & Hq & H1 & H2). split_and!; [done..|].
    exists segs. split; [done|by split].
Qed.

(** The last segment of the queue may be filled up to the segment size. *)
Lemma filled_inv e q0 seg buf seg' :
  Inv e → e_snd_queue e = q0 ++ [seg] → 0 < len buf ≤ mss_of (e_config e) →
  s_header seg' = (s_header seg) <| h_len := as_u32 (len buf) |> → s_data seg' = buf →
  s_resendts seg' = s_resendts seg → s_rto seg' = s_rto seg → s_fastack seg' = s_fastack seg → s_xmit seg' = s_xmit seg →
  Inv (e <| e_snd_queue := q0 ++ [seg'] |>).
Proof.
  intros HI Hq Hb. pose proof (windows_mss _ (i_config _ HI)) as Hm.
  destruct seg, seg'; cbn; intros -> -> -> -> -> ->.
  inv_fields. rewrite Hq in i_snd_queue.
  apply Forall_app in i_snd_queue as [Hq0 Hs]. apply Forall_app. split; [done|].
  apply Forall_singleton. apply Forall_singleton in Hs as [[[] Hsl] Hsd ? ? ? ?].
  constructor; cbn; try assumption; [|lia].
  split; [constructor; cbn; try assumption; apply as_u32_range|]. cbn.
  apply as_u32_small. zlia.
Qed.

(** The stream-mode merge: bytes move from the front of the data to the end
    of the queue, nothing else. *)
Lemma merge_last_spec mss data s :
  Inv (inner s) → mss = mss_of (e_config (inner s)) → data ≠ [] →
  wp checked_overflow (merge_last mss data)
    (λ r s', Inv (inner s') ∧ send_frame (inner s) (inner s') ∧
      merged (c_stream_mode (e_config (inner s))) mss (e_snd_queue (inner s)) data r
        (e_snd_queue (inner s')) ∧ (r ≠ None → e_stats (inner s') = e_stats (inner s)))
    (λ _ _, False) s.
Proof.
  intros HI Hmss Hd. unfold merge_last. do 4 estep.
  set (stream := c_stream_mode (e_config (inner s))).
  assert (Hnop : (stream = true → (e_snd_queue (inner s), data) = fill_last mss (e_snd_queue (inner s)) data) →
    wp checked_overflow (mret (Some data)) (λ r s', Inv (inner s') ∧
      send_frame (inner s) (inner s') ∧
      merged stream mss (e_snd_queue (inner s)) data r (e_snd_queue (inner s')) ∧
      (r ≠ None → e_stats (inner s') = e_stats (inner s)))
    (λ (_ : KcpCoreError) _, False) s).
  { intros Hfill. apply wp_ret. split_and!; [done|apply send_frame_refl| |done]. split_and!; try done; [naive_solver|].
    intros d [= <-]. by exists 0%nat. }
  destruct stream; [|by apply Hnop]. pose proof (fill_last_nonempty mss (e_snd_queue (inner s)) data Hd) as Hfl.
  destruct (last (e_snd_queue (inner s))) as [seg|] eqn:Hlast; [|by apply Hnop].
  apply wp_if; intros Hold; rewrite Hold in Hfl; [|by apply Hnop]. clear Hnop. apply Z.ltb_lt in Hold.
  apply last_Some in Hlast as [q0 Hq].
  pose proof (windows_mss _ (i_config _ HI)) as Hm. rewrite <- Hmss in Hm.
  pose proof (len_nonneg (s_data seg)).
  assert (0 < len data) by (destruct data; [done|rewrite len_cons; pose proof (len_nonneg data); lia]).
  estep. wp_exact; [zlia|]. cbv beta.
  set (extend := Z.min (len data) (mss - len (s_data seg))).
  assert (Hbuf : (match try_into_mut (s_data seg) with inl b => b | inr b => b end) = s_data seg).
  { by destruct (try_into_mut_spec (s_data seg)) as [-> | ->]. }
  set (room := Z.to_nat (mss - len (s_data seg))).
  assert (Htk : take (Z.to_nat extend) data = take room data ∧ drop (Z.to_nat extend) data = drop room data).
  { destruct (decide (len data ≤ mss - len (s_data seg))) as [Hle|Hgt].
    - rewrite !take_ge, !drop_ge by (unfold len in *; lia). done.
    - unfold extend. by rewrite Z.min_r by lia. }
  rewrite Hbuf. estep. apply wp_slice; [lia|lia|]. rewrite Z.sub_0_r. change (Z.to_nat 0) with 0%nat.
  rewrite drop_0. set (buf := s_data seg ++ take (Z.to_nat extend) data). do 2 estep.
  estep. apply wp_slice; [lia|lia|].
  replace (take _ (drop (Z.to_nat extend) data)) with (drop (Z.to_nat extend) data)
    by (symmetry; apply take_ge; rewrite length_drop; unfold len in *; lia).
  match goal with |- wp _ _ _ _ (Timed (set_field _ (set_back ?x) _) _) => set (seg' := x) end.
  assert (Hlen : len buf = len (s_data seg) + extend) by (unfold buf; rewrite len_app, len_take; lia).
  assert (Hback : set_back seg' (e_snd_queue (inner s)) = q0 ++ [seg'])
    by (rewrite Hq; unfold set_back; by rewrite removelast_last).
  assert (HI' : Inv ((inner s) <| e_snd_queue ::= set_back seg' |>)).
  { change (Inv ((inner s) <| e_snd_queue := set_back seg' (e_snd_queue (inner s)) |>)). rewrite Hback.
    apply (filled_inv _ q0 seg buf); [done|done|lia|done..]. }
  assert (Hpay : queue_payload (set_back seg' (e_snd_queue (inner s))) ++ drop (Z.to_nat extend) data
            = queue_payload (e_snd_queue (inner s)) ++ data).
  { rewrite Hback, Hq, !queue_payload_app, <- !(assoc (++)). f_equal.
    unfold queue_payload; cbn. rewrite !app_nil_r. unfold buf. rewrite <- (assoc (++)).
    by rewrite take_drop. }
  assert (Hlq : map frg (set_back seg' (e_snd_queue (inner s))) = map frg (e_snd_queue (inner s)))
    by (rewrite Hback, Hq, !map_app; done).
  assert (Hfill : (set_back seg' (e_snd_queue (inner s)), drop (Z.to_nat extend) data) =
    fill_last mss (e_snd_queue (inner s)) data).
  { rewrite Hfl. destruct Htk as [H1 H2]. rewrite H2. subst seg' buf. by rewrite H1. }
  apply wp_if; intros Hemp.
  - apply is_empty_true in Hemp. rewrite Hemp in Hpay, Hfill. estep. apply wp_count_stat. estep.
    split_and!; [|done|by split_and!|done]. inv_fields. solve_stats.
  - apply is_empty_false in Hemp. estep. split_and!; [done|done| |done]. split_and!; [done|naive_solver|done|done| |done].
    intros d [= <-]. by eexists.
Qed.

(** The whole of [send]. *)
Lemma send_spec data s :
  Inv (inner s) →
  let e := inner s in let stream := c_stream_mode (e_config e) in
  let mss := mss_of (e_config e) in
  wp checked_overflow (send data)
    (λ _ s', Inv (inner s') ∧ send_frame e (inner s') ∧
      (data = [] ∧ e_snd_queue (inner s') = e_snd_queue e ∨
       data ≠ [] ∧ ∃ r q, merged stream mss (e_snd_queue e) data r q ∧
         match r with
         | None => e_snd_queue (inner s') = q
         | Some d => frag_count mss d ≤ max_frags e ∧
             ∃ segs, e_snd_queue (inner s') = q ++ segs ∧ fragments_of stream mss d segs
         end))
    (λ err s', Inv (inner s') ∧ send_frame e (inner s') ∧
      ∃ d, merged stream mss (e_snd_queue e) data (Some d) (e_snd_queue (inner s')) ∧
        max_frags e < frag_count mss d ∧ err = frag_error (frag_count mss d) (max_frags e) ∧
        e_stats (inner s') = e_stats e) s.
Proof.
  intros HI e stream mss. subst e. unfold send. do 4 estep.
  match goal with |- wp _ _ _ _ ?st => set (s1 := st) end.
  assert (HI1 : Inv (inner s1)) by (by inv_fields).
  assert (Hf1 : send_frame (inner s) (inner s1)) by reflexivity.
  apply wp_if; intros Hemp.
  { apply is_empty_true in Hemp. estep. split_and!; [done|done|]. by left. }
  apply is_empty_false in Hemp. estep. apply wp_mss; [apply HI1|]. estep.
  eapply wp_mono; [by apply merge_last_spec| |done].
  intros r s2 (HI2 & Hf2 & Hr & Hst).
  assert (Hcfg : e_config (inner s2) = e_config (inner s)) by (by rewrite Hf2).
  assert (Hf : send_frame (inner s) (inner s2)) by (by eapply send_frame_trans).
  change (e_snd_queue (inner s1)) with (e_snd_queue (inner s)) in Hr.
  change (e_config (inner s1)) with (e_config (inner s)) in Hr |- *.
  destruct r as [d|]; [|estep; split_and!; [done..|right; split; [done|by eexists None, _]]].
  fold mss stream in Hr |- *.
  assert (Hd : d ≠ []) by (destruct Hr as (_ & ? & _); naive_solver).
  pose proof (windows_mss _ (i_config _ HI)) as Hm. fold mss in Hm.
  estep. eapply (wp_post _ _ (λ count s', count = frag_count mss d ∧ s' = s2)).
  { unfold frag_count. apply wp_if; intros ->; [by estep|].
    apply wp_udiv_ceil; [lia|done]. }
  intros ? ? [-> ->]. do 2 estep. rewrite Hcfg. fold (max_frags (inner s)).
  apply wp_if; intros Hmax.
  - estep. apply Z.ltb_lt in Hmax. split_and!; [done..|]. exists d. split_and!; [done..|]. by apply Hst.
  - apply Z.ltb_ge in Hmax. estep.
    eapply wp_mono; [apply push_fragments_spec; [done|by rewrite Hcfg|done|]| |done].
    + etransitivity; [exact Hmax|]. unfold max_frags, IKCP_WND_RCV. lia.
    + intros _ s3 (HI3 & Hf3 & segs & Hq & Hfr). cbv beta. apply wp_count_stat. split_and!.
      * inv_fields. solve_stats.
      * eapply send_frame_trans; [done|]. eapply send_frame_trans; [done|]. reflexivity.
      * right. split; [done|]. eexists (Some d), _. split; [done|]. split; [done|].
        exists segs. rewrite Hcfg in Hfr. by split.
Qed.

(** The longest message an engine with configuration [c] never refuses. *)
Lemma send_fits data s :
  Inv (inner s) → len data ≤ mss_of (e_config (inner s)) * max_frags (inner s) →
  wp checked_overflow (send data) (λ _ s', Inv (inner s')) (λ _ _, False) s.
Proof.
  intros HI Hl. pose proof (windows_mss _ (i_config _ HI)) as Hmss.
  pose proof (wo_rcv _ (i_config _ HI)) as Hr.
  eapply wp_mono; [by apply send_spec|by intros _ s' [HI' _]|].
  intros err s' (_ & _ & d & (_ & Hne & _ & _ & Hd & _) & Hmax & _). destruct (Hd d eq_refl) as [k ->].
  assert (frag_count (mss_of (e_config (inner s))) (drop k data) ≤ max_frags (inner s)); [|lia].
  apply frag_count_le; [lia|unfold max_frags, IKCP_WND_RCV; lia|]. rewrite len_drop. pose proof (len_nonneg data). lia.
Qed.
End SendFacts.

Lemma max_frags_pos e : Inv e → 1 ≤ max_frags e.
Proof. intros HI. pose proof (wo_rcv _ (i_config _ HI)). unfold max_frags, IKCP_WND_RCV. lia. Qed.

(** * Theorems *)

Section SendTheorems.
Context {prof : Profile} {clk : Clock} {api : BytesApi} {spec : BytesApiSpec api}.

(** C25: in message mode [send] cuts the data into segments of at most [mss]
    bytes that concatenate to it, numbered down to 0, appends them to the
    send queue and changes nothing else of the connection; a message that needs
    more of them than the receive window holds is refused, and then only the time
    of the last activity changes. *)
Theorem send_message_mode data s :
  Inv (inner s) → c_stream_mode (e_config (inner s)) = false →
  let mss := mss_of (e_config (inner s)) in
  let count := len (pieces mss data) in
  wp checked_overflow (send data)
    (λ _ s', Inv (inner s') ∧ send_frame (inner s) (inner s') ∧ count ≤ max_frags (inner s) ∧ ∃ segs,
       e_snd_queue (inner s') = e_snd_queue (inner s) ++ segs ∧
       map s_data segs = pieces mss data ∧ queue_payload segs = data ∧
       map frg segs = map (λ i, count - i - 1) (seqZ 0 count) ∧
       Forall (λ seg, 1 ≤ len (s_data seg) ≤ mss) segs)
    (λ err s', max_frags (inner s) < count ∧ err = frag_error count (max_frags (inner s)) ∧
       inner s' = (inner s) <| e_last_activity := e_last_activity (inner s') |>) s.
Proof.
  intros HI Hstream mss count. pose proof (windows_mss _ (i_config _ HI)) as Hm. fold mss in Hm.
  pose proof (max_frags_pos _ HI) as Hmf.
  eapply wp_mono; [by apply send_spec|..]; fold mss.
  - intros _ s' (HI' & Hf & [[-> Hq]|(Hd & r & q & (_ & _ & Hno & _) & Hr)]).
    { split_and!; [done..|change (0 ≤ max_frags (inner s)); lia|]. exists []. by rewrite app_nil_r. }
    destruct (Hno Hstream) as [-> ->]. destruct Hr as (Hmax & segs & Hq & Hfr).
    pose proof (len_pieces mss data ltac:(lia) Hd) as Hc. fold count in Hc. split_and!; [done..|lia|]. exists segs.
    pose proof (fragments_payload _ mss data segs ltac:(lia) Hd Hfr) as Hp. destruct Hfr as [Hs Hg]. rewrite Hstream, <- Hc in Hg.
    split_and!; [done|by rewrite pieces_of|done|done|].
    pose proof (i_snd_queue _ HI') as Hall. rewrite Hq in Hall. apply Forall_app in Hall as [_ Hall].
    assert (Hcfg : e_config (inner s') = e_config (inner s)) by (by rewrite Hf).
    rewrite Hcfg in Hall. eapply Forall_impl; [exact Hall|]. by intros seg [].
  - intros err s' (_ & Hf & d & (_ & Hne & Hno & _) & Hmax & -> & Hst). destruct (Hno Hstream) as [[= ->] Hq].
    unfold count. rewrite len_pieces by (lia || congruence). split_and!; [done..|].
    unfold send_frame in Hf. rewrite Hq, Hst in Hf. rewrite Hf at 1. by destruct (inner s).
Qed.

(** C26: in stream mode [send] first fills the last segment waiting to be sent and
    cuts what is left into segments of an [mss] each (but for the last), so it
    appends exactly the data to the bytes that wait; if that takes too many
    segments it fails, with the last one filled and the rest not queued. *)
Theorem send_stream_mode data s :
  Inv (inner s) → c_stream_mode (e_config (inner s)) = true →
  let e := inner s in let mss := mss_of (e_config e) in
  let '(q, rest) := fill_last mss (e_snd_queue e) data in
  queue_payload q ++ rest = queue_payload (e_snd_queue e) ++ data ∧
  wp checked_overflow (send data)
    (λ _ s', Inv (inner s') ∧ send_frame e (inner s') ∧ len (pieces mss rest) ≤ max_frags e ∧ ∃ segs,
       e_snd_queue (inner s') = q ++ segs ∧ map s_data segs = pieces mss rest ∧
       Forall (λ seg, frg seg = 0) segs ∧
       queue_payload (e_snd_queue (inner s')) = queue_payload (e_snd_queue e) ++ data)
    (λ err s', Inv (inner s') ∧ send_frame e (inner s') ∧ e_snd_queue (inner s') = q ∧
       max_frags e < len (pieces mss rest) ∧ err = frag_error (len (pieces mss rest)) (max_frags e) ∧
       e_stats (inner s') = e_stats e) s.
Proof.
  intros HI Hstream e mss. fold e in Hstream. pose proof (windows_mss _ (i_config _ HI)) as Hm. fold e mss in Hm.
  pose proof (max_frags_pos _ HI : 1 ≤ max_frags e) as Hmf.
  destruct (fill_last mss (e_snd_queue e) data) as [q rest] eqn:Hfill.
  pose proof (fill_last_payload mss (e_snd_queue e) data) as Hpay. rewrite Hfill in Hpay. split; [done|].
  eapply wp_mono; [by apply send_spec|..]; fold e mss; rewrite Hstream.
  - intros _ s' (HI' & Hf & [[-> Hq]|(_ & r & q1 & (_ & Hne & _ & _ & _ & Heq) & Hr)]).
    { assert (Heq : (q, rest) = (e_snd_queue e, [])) by (rewrite <- Hfill; unfold fill_last; by case_match).
      injection Heq as -> ->. split_and!; [done..|change (0 ≤ max_frags e); lia|].
      exists []. split_and!; [by rewrite app_nil_r|done|by apply Forall_nil|by rewrite Hq, app_nil_r]. }
    rewrite Hfill in Heq. injection (Heq eq_refl) as <- <-. destruct r as [d|]; cbn [default id] in *.
    + destruct Hr as (Hmax & segs & Hq & Hfr). assert (Hd : d ≠ []) by congruence.
      rewrite (len_pieces mss d) by (lia || done). split_and!; [done..|]. exists segs. rewrite Hq.
      split_and!; [done|rewrite pieces_of by done; apply Hfr| |].
      * apply (fragments_stream _ _ _ Hfr).
      * rewrite queue_payload_app, (fragments_payload _ mss d segs ltac:(lia) Hd Hfr). exact Hpay.
    + split_and!; [done..|change (0 ≤ max_frags e); lia|]. exists [].
      rewrite Hr, app_nil_r. split_and!; [done|done|by apply Forall_nil|]. by rewrite app_nil_r in Hpay.
  - intros err s' (HI' & Hf & d & (_ & Hne & _ & _ & _ & Heq) & Hmax & -> & Hst).
    rewrite Hfill in Heq. injection (Heq eq_refl) as <- <-. cbn [id] in *. rewrite len_pieces by (lia || congruence). done.
Qed.
End SendTheorems.

Module SendSample.
Import Sample.
Definition small (stream : bool) : KcpCoreConfig := Build_KcpCoreConfig 64 32 1 NodeDelayConfig_normal 20 stream.
Abbreviation stream_config := (small true).
Definition fresh : outcome KcpCoreError KcpEngine * timed () := new (clk := clock) 7 stream_config (Timed tt 0).
Definition small_engine (stream : bool) : KcpEngine := engine <| e_config := small stream |>
  <| e_wnd := Build_WindowState 32 1 128 32 2 0 |>.
Abbreviation stream_engine := (small_engine true).
Abbreviation message_engine := (small_engine false).

Lemma small_good stream : Inv (small_engine stream) ∧ una_tight (small_engine stream).
Proof.
  apply (wp_ok no_panic (new (clk := clock) (S := ()) (E := KcpCoreError) 7 (small stream))
    (λ e _, Inv e ∧ una_tight e) (λ _ _, False) (Timed tt 0) (small_engine stream) (Timed tt 2)); [|by destruct stream].
  apply new_inv; [vm_compute; split; congruence|split; vm_compute; split; congruence
    |vm_compute; congruence|split; vm_compute; congruence..|done].
Qed.
Definition stream_good := proj1 (small_good true).
Definition message_good := proj1 (small_good false).

Lemma sent_10 :
  let s1 := (send (prof := release_build) (clk := clock) (replicate 10 x61) (Timed stream_engine 2)).2 in
  Inv (inner s1) ∧ c_stream_mode (e_config (inner s1)) = true.
Proof.
  pose proof (send_spec (prof := release_build) (clk := clock) (replicate 10 x61) (Timed stream_engine 2) stream_good) as H.
  split; [exact (proj1 (wp_ok _ _ _ _ _ _ _ H ltac:(vm_compute; reflexivity)))|by vm_compute].
Qed.
End SendSample.

Lemma send_message_mode_witness :
  let s' := (send (prof := debug_build) (clk := Sample.clock) (replicate 3000 x61) Sample.state).2 in
  (∃ segs, e_snd_queue (inner s') = e_snd_queue Sample.engine ++ segs ∧ queue_payload segs = replicate 3000 x61) ∧
  (send (prof := release_build) (clk := Sample.clock) (replicate 50 x61) (Timed SendSample.message_engine 2)).1 = Err (frag_error 2 1).
Proof.
  split.
  - destruct (wp_ok _ _ _ _ _ _ _ (send_message_mode (prof := debug_build) (clk := Sample.clock) (replicate 3000 x61)
      Sample.state (proj1 Sample.good) eq_refl) ltac:(vm_compute; reflexivity)) as (_ & _ & _ & segs & Hq & _ & Hp & _).
    by exists segs.
  - pose proof (send_message_mode (prof := release_build) (clk := Sample.clock) (replicate 50 x61)
      (Timed SendSample.message_engine 2) SendSample.message_good eq_refl) as H. apply wp_run in H. cbn zeta in H.
    replace (len (pieces _ _)) with 2 in H by (vm_compute; reflexivity).
    replace (max_frags (inner _)) with 1 in H by (vm_compute; reflexivity).
    destruct (send _ _) as [[[]|err|p] s']; [destruct H as (_ & _ & H & _); lia|by destruct H as (_ & -> & _)|].
    destruct H as [_ H]. discriminate H.
Defined.

Lemma send_stream_mode_witness :
  let s1 := (send (prof := release_build) (clk := Sample.clock) (replicate 10 x61) (Timed SendSample.stream_engine 2)).2 in
  let s2 := (send (prof := release_build) (clk := Sample.clock) (replicate 50 x62) s1).2 in
  map s_data (e_snd_queue (inner s2)) = [replicate 10 x61 ++ replicate 30 x62; replicate 20 x62].
Proof.
  cbn zeta. destruct SendSample.sent_10 as [H1 H2].
  pose proof (send_stream_mode (prof := release_build) (clk := Sample.clock) (replicate 50 x62) _ H1 H2) as [_ H].
  apply wp_run in H. destruct (send (replicate 50 x62) _) as [[[]|err|p] s2] eqn:Hrun.
  - destruct H as (_ & _ & _ & segs & Hq & Hs & _). cbn [snd]. rewrite Hq, map_app, Hs. vm_compute. reflexivity.
  - vm_compute in Hrun. discriminate Hrun.
  - vm_compute in Hrun. discriminate Hrun.
Defined.

(** A [send] that fails in stream mode is not without effect: the part of
    the data that fitted the last queued segment stays queued (and is not
    counted in [bytes_sent]), so a caller that retries sends it twice. *)
Theorem stream_error_keeps_data :
  let prof := release_build in let clk := Sample.clock in
  ∃ s s' err,
    send (replicate 10 x61) (Timed SendSample.stream_engine 2) = (Ok tt, s) ∧
    send (replicate 100 x62) s = (Err (Buffer err), s') ∧
    queue_payload (e_snd_queue (inner s')) = replicate 10 x61 ++ replicate 30 x62 ∧
    bytes_sent (e_stats (inner s')) = 10.
Proof. cbn zeta. do 3 eexists. split_and!; [vm_compute; reflexivity..]. Qed.
