(* ===== verification/Recv.v ===== *)
(** kcp-core/src/engine.rs, the receive side: ordering segments into the
    receive queue ([parse_data], [move_to_recv_queue]) and reassembling
    messages from it ([peek_size], [recv]). *)
From S2P Require Import Prelude Monad Protocol Error Config Engine.

(** [peek_size]'s loop: the length of the first message. *)
Fixpoint message_len (q : list KcpSegment) : Z :=
  match q with
  | [] => 0
  | seg :: q => if frg seg =? 0 then len (s_data seg) else len (s_data seg) + message_len q
  end.

Definition peek_size_of (e : KcpEngine) : Z :=
  match e_rcv_queue e with
  | [] => -1
  | seg :: _ =>
      if frg seg =? 0 then as_i32 (len (s_data seg))
      else if len (e_rcv_queue e) <? frg seg + 1 then -1
      else as_i32 (message_len (e_rcv_queue e))
  end.

(** [recv]'s loop: pops segments into [data] up to [limit] bytes, or through
    the first one whose fragment number is 0. *)
Fixpoint pop_message (limit : Z) (q : list KcpSegment) (data : bytes) : bytes * list KcpSegment :=
  match q with
  | [] => (data, [])
  | seg :: q' =>
      if limit <? len data + len (s_data seg) then (data, q)
      else
        let data := data ++ s_data seg in
        if frg seg =? 0 then (data, q') else pop_message limit q' data
  end.

Section Recv.
Context {prof : Profile} {clk : Clock}.

Definition peek_size : T Z := get peek_size_of.

(** One turn of [while let Some(segment) = self.rcv_buf.remove(&self.rcv_nxt)]. *)
Definition move_one (_ : ()) : T (() + ()) :=
  rcv_nxt ← get e_rcv_nxt;
  rcv_buf ← get e_rcv_buf;
  match rcv_buf !! rcv_nxt with
  | None => mret (inr tt)
  | Some segment =>
      update_self (λ e, e <| e_rcv_buf ::= delete rcv_nxt |>);;
      rcv_queue ← get e_rcv_queue;
      rcv ← get w_rcv_of;
      if rcv <=? len rcv_queue then
        update_self (λ e, e <| e_rcv_buf ::= <[rcv_nxt := segment]> |>);;
        mret (inr tt)
      else
        update_self (λ e, e <| e_rcv_queue ::= λ q, q ++ [segment] |>);;
        nxt ← uadd 32 rcv_nxt 1;
        update_self (λ e, e <| e_rcv_nxt := nxt |>);;
        mret (inl tt)
  end.

(** Each turn that goes on removes an entry, so this fuel is enough. *)
Definition move_to_recv_queue : T () :=
  rcv_buf ← get e_rcv_buf;
  iterM (S (size rcv_buf)) move_one tt.

Definition parse_data (newseg : KcpSegment) : T () :=
  rcv_nxt ← get e_rcv_nxt;
  rcv ← get w_rcv_of;
  limit ← uadd 32 rcv_nxt rcv;
  if negb (seq_before (sn newseg) limit) || seq_before (sn newseg) rcv_nxt then mret tt
  else
    update_self (λ e, e <| e_rcv_buf ::= λ m,
      match m !! sn newseg with Some _ => m | None => <[sn newseg := newseg]> m end |>);;
    move_to_recv_queue.

Definition recv : T (option bytes) :=
  rcv_queue ← get e_rcv_queue;
  if is_empty rcv_queue then mret None
  else
    peek_size ← peek_size;
    if peek_size <=? 0 then mret None
    else
      rcv ← get w_rcv_of;
      let recovered := rcv <=? len rcv_queue in
      let '(data, rest) := pop_message peek_size rcv_queue [] in
      update_self (λ e, e <| e_rcv_queue := rest |>);;
      if is_empty data then mret None
      else
        count_stat bytes_received (len data);;
        move_to_recv_queue;;
        rcv_queue ← get e_rcv_queue;
        whenM (recovered && (len rcv_queue <? rcv))
          (update_self (λ e, e <| e_probe ::= λ p,
             p <| p_flags := Z.lor (p_flags p) IKCP_ASK_TELL |> |>));;
        mret (Some data).
End Recv.

(** * Ordering *)

(** The receive side touches these three fields. *)
Definition recv_frame (e e' : KcpEngine) : Prop :=
  e' = e <| e_rcv_queue := e_rcv_queue e' |> <| e_rcv_buf := e_rcv_buf e' |>
         <| e_rcv_nxt := e_rcv_nxt e' |>.

Lemma recv_frame_refl e : recv_frame e e.
Proof. by destruct e. Qed.
Lemma recv_frame_trans e1 e2 e3 : recv_frame e1 e2 → recv_frame e2 e3 → recv_frame e1 e3.
Proof. unfold recv_frame. intros -> ->. done. Qed.

(** [n] consecutive sequence numbers from [nxt] on. *)
Definition consecutive (nxt : Z) (n : nat) : list Z := map (λ i, as_u32 (nxt + i)) (seqZ 0 (Z.of_nat n)).

Lemma consecutive_S nxt n : consecutive nxt (S n) = consecutive nxt n ++ [as_u32 (nxt + Z.of_nat n)].
Proof. unfold consecutive. rewrite seqZ_S, map_app. done. Qed.

(** [segs] went from the receive buffer to the end of the receive queue: they
    carry the next numbers, and the buffer lost nothing else. *)
Record moved (segs : list KcpSegment) (e e' : KcpEngine) : Prop := {
  mv_frame : recv_frame e e';
  mv_queue : e_rcv_queue e' = e_rcv_queue e ++ segs;
  mv_nxt : e_rcv_nxt e' = as_u32 (e_rcv_nxt e + len segs);
  mv_sn : map sn segs = consecutive (e_rcv_nxt e) (length segs);
  mv_buf k seg : e_rcv_buf e !! k = Some seg ↔
    e_rcv_buf e' !! k = Some seg ∨ (seg ∈ segs ∧ k = sn seg);
}.

(** The next segment is missing, or the queue is full. *)
Definition stalled (e : KcpEngine) : Prop :=
  e_rcv_buf e !! e_rcv_nxt e = None ∨ w_rcv_of e ≤ len (e_rcv_queue e).

Lemma moved_nil e : in_u 32 (e_rcv_nxt e) → moved [] e e.
Proof.
  intros H. constructor; [apply recv_frame_refl|by rewrite app_nil_r|..|done|].
  - rewrite len_nil, Z.add_0_r. symmetry. by apply as_u32_small.
  - intros. set_solver.
Qed.

Lemma moved_snoc segs seg e e1 e2 :
  moved segs e e1 → Inv e1 → e_rcv_buf e1 !! e_rcv_nxt e1 = Some seg →
  e2 = e1 <| e_rcv_buf ::= delete (e_rcv_nxt e1) |> <| e_rcv_queue ::= λ q, q ++ [seg] |>
          <| e_rcv_nxt := as_u32 (e_rcv_nxt e1 + 1) |> →
  moved (segs ++ [seg]) e e2.
Proof.
  intros [Hf Hq Hn Hs Hb] HI Hl ->.
  assert (Hseg : sn seg = e_rcv_nxt e1) by (symmetry; apply (i_rcv_buf _ HI _ _ Hl)).
  constructor.
  - eapply recv_frame_trans; [done|]. reflexivity.
  - cbn. by rewrite Hq, (assoc (++)).
  - cbn. rewrite Hn, len_app, len_cons, len_nil. zlia.
  - rewrite map_app, Hs, length_app. cbn [length map]. rewrite Nat.add_1_r, consecutive_S.
    by rewrite Hseg, Hn.
  - intros k seg'. cbn. rewrite Hb, lookup_delete_Some, elem_of_app, list_elem_of_singleton.
    split.
    + intros [H|[H1 H2]]; [|by eauto]. destruct (decide (k = e_rcv_nxt e1)) as [->|]; [|by eauto].
      right. assert (seg' = seg) as -> by congruence. eauto.
    + intros [[_ H]|[[H|H] Hk]]; [by eauto|by eauto|]. subst. left. by rewrite Hseg.
Qed.

(** The receive window as the code tests it: [sn] is neither before [nxt] nor
    at or after [nxt + rcv]. *)
Lemma in_window nxt rcv sn0 :
  in_u 32 nxt → in_u 32 sn0 → 1 ≤ rcv ≤ 65535 →
  seq_before sn0 (as_u32 (nxt + rcv)) && negb (seq_before sn0 nxt) = true ↔
  offset_from nxt sn0 < rcv.
Proof.
  intros Hn Hs Hr. rewrite andb_true_iff, negb_true_iff, seq_before_true, seq_before_false.
  zlia.
Qed.

Lemma move_one_inv e seg :
  Inv e → e_rcv_buf e !! e_rcv_nxt e = Some seg → len (e_rcv_queue e) < w_rcv_of e →
  Inv (e <| e_rcv_buf ::= delete (e_rcv_nxt e) |> <| e_rcv_queue ::= λ q, q ++ [seg] |>
         <| e_rcv_nxt := as_u32 (e_rcv_nxt e + 1) |>).
Proof.
  intros HI Hl Hlen. pose proof (i_rcv_buf _ HI _ _ Hl) as (_ & Hok & _).
  assert (Hw : w_rcv_of e = c_rcv_wnd (e_config e)) by apply HI.
  inv_fields.
  - apply as_u32_range.
  - apply Forall_app. split; [done|]. by apply Forall_singleton.
  - rewrite len_app, len_cons, len_nil. lia.
  - intros k s Hk. apply lookup_delete_Some in Hk as [Hne Hk].
    destruct (i_rcv_buf k s Hk) as (-> & Hs & Hoff). split_and!; [done..|].
    pose proof (sn_u32 _ (proj1 Hs)) as Hsn. unfold sn in *. zlia.
Qed.

Lemma insert_inv e seg :
  Inv e → segment_ok seg → offset_from (e_rcv_nxt e) (sn seg) < c_rcv_wnd (e_config e) →
  Inv (e <| e_rcv_buf ::= λ m,
         match m !! sn seg with Some _ => m | None => <[sn seg := seg]> m end |>).
Proof.
  intros HI Hok Hoff. inv_fields. destruct (e_rcv_buf e !! sn seg); [done|].
  by apply map_Forall_insert_2.
Qed.

(** * Reassembly *)

Lemma pop_message_split limit q data data' rest :
  pop_message limit q data = (data', rest) →
  ∃ popped, q = popped ++ rest ∧ data' = data ++ queue_payload popped.
Proof.
  revert data. induction q as [|seg q IH]; intros data; cbn.
  - intros [= <- <-]. exists []. unfold queue_payload; cbn. by rewrite app_nil_r.
  - case_match; [intros [= <- <-]; exists []; unfold queue_payload; cbn; by rewrite app_nil_r|].
    case_match.
    + intros [= <- <-]. exists [seg]. unfold queue_payload; cbn. by rewrite app_nil_r.
    + intros (popped & -> & ->)%IH. exists (seg :: popped). split; [done|].
      unfold queue_payload; cbn. by rewrite (assoc (++)).
Qed.

(** A complete message: every segment but the last announces another one, and
    the first announces no more than there are. *)
Record complete_message (msg : list KcpSegment) : Prop := {
  cm_split : ∃ pre final, msg = pre ++ [final] ∧ frg final = 0 ∧ Forall (λ s, frg s ≠ 0) pre;
  cm_head : match msg with seg :: _ => frg seg < len msg | [] => False end;
  cm_size : 0 < len (queue_payload msg) < H31;
}.

Lemma message_len_complete pre final rest :
  frg final = 0 → Forall (λ s, frg s ≠ 0) pre →
  message_len (pre ++ final :: rest) = len (queue_payload (pre ++ [final])).
Proof.
  intros Hf. unfold queue_payload. induction 1 as [|seg pre Hs Hpre IH]; cbn.
  - by rewrite Hf, app_nil_r.
  - rewrite (proj2 (Z.eqb_neq _ _) Hs), IH. by rewrite len_app.
Qed.

Lemma pop_message_complete limit pre final rest data :
  frg final = 0 → Forall (λ s, frg s ≠ 0) pre →
  len data + len (queue_payload (pre ++ [final])) ≤ limit →
  pop_message limit (pre ++ final :: rest) data = (data ++ queue_payload (pre ++ [final]), rest).
Proof.
  intros Hf Hpre. unfold queue_payload. revert data.
  induction Hpre as [|seg pre Hs Hpre IH]; intros data; cbn; rewrite ?app_nil_r.
  - intros Hl. rewrite (proj2 (Z.ltb_ge _ _)) by done. by rewrite Hf.
  - rewrite len_app. intros Hl. pose proof (len_nonneg (concat (map s_data (pre ++ [final])))).
    rewrite (proj2 (Z.ltb_ge _ _)) by lia. rewrite (proj2 (Z.eqb_neq _ _) Hs), IH.
    + by rewrite <- (assoc (++)).
    + rewrite len_app. lia.
Qed.

Lemma peek_size_complete e msg rest :
  complete_message msg → e_rcv_queue e = msg ++ rest →
  peek_size_of e = len (queue_payload msg).
Proof.
  intros [(pre & final & -> & Hf & Hpre) Hhd Hsz] Hq.
  assert (Hi : as_i32 (len (queue_payload (pre ++ [final]))) = len (queue_payload (pre ++ [final])))
    by (apply as_i32_small; lia).
  rewrite <- (assoc (++)) in Hq. cbn in Hq. unfold peek_size_of. rewrite Hq.
  destruct pre as [|seg pre]; cbn [app] in *.
  - rewrite Hf. cbn. unfold queue_payload in *. cbn in *. by rewrite app_nil_r in *.
  - apply Forall_cons in Hpre as [Hs Hpre].
    rewrite (proj2 (Z.eqb_neq _ _) Hs), (proj2 (Z.ltb_ge _ _)).
    2:{ rewrite !len_cons, !len_app, !len_cons in *. rewrite len_nil in Hhd.
        pose proof (len_nonneg rest). lia. }
    change (seg :: pre ++ final :: rest) with ((seg :: pre) ++ final :: rest).
    rewrite message_len_complete; auto.
Qed.

(** What [recv] does to the engine when it returns [r]. *)
Definition recv_post (e : KcpEngine) (r : option bytes) (e' : KcpEngine) : Prop :=
  ∃ popped rest, (e_rcv_queue e = popped ++ rest ∧
    (0 < peek_size_of e → pop_message (peek_size_of e) (e_rcv_queue e) [] = (queue_payload popped, rest))) ∧
  match r with
  | None => queue_payload popped = [] ∧ e' = e <| e_rcv_queue := rest |>
  | Some data => data = queue_payload popped ∧ (data ≠ [] ∧ 0 < peek_size_of e) ∧ ∃ segs e1,
      moved segs (e <| e_rcv_queue := rest |>
        <| e_stats ::= λ st, st <| bytes_received := wrap 64 (bytes_received st + len data) |> |>) e1 ∧
      stalled e1 ∧
      e' = if (w_rcv_of e <=? len (e_rcv_queue e)) && (len (e_rcv_queue e1) <? w_rcv_of e)
           then e1 <| e_probe ::= λ p, p <| p_flags := Z.lor (p_flags p) IKCP_ASK_TELL |> |>
           else e1
  end.

(** A complete message at the head of the queue is what is popped. *)
Lemma recv_post_complete e msg rest r e' :
  complete_message msg → e_rcv_queue e = msg ++ rest → recv_post e r e' →
  r = Some (queue_payload msg) ∧
  ∃ segs, e_rcv_queue e' = rest ++ segs ∧ map sn segs = consecutive (e_rcv_nxt e) (length segs) ∧
    e_rcv_nxt e' = as_u32 (e_rcv_nxt e + len segs).
Proof.
  intros Hm Hq (popped & rest' & [_ Hpop] & Hr). pose proof (peek_size_complete _ _ _ Hm Hq) as Hp.
  destruct Hm as [(pre & final & -> & Hf & Hpre) _ Hsz].
  rewrite Hp in Hpop. specialize (Hpop ltac:(lia)). rewrite Hq, <- (assoc (++)) in Hpop. cbn in Hpop.
  rewrite (pop_message_complete _ pre final rest []) in Hpop by (done || (rewrite len_nil; lia)).
  injection Hpop as Hpay <-. cbn [app] in Hpay. destruct r as [data|].
  - destruct Hr as (-> & _ & segs & e1 & [_ Hmq Hn Hs _] & _ & He). cbn in Hs, Hn, Hmq.
    split; [by rewrite Hpay|]. exists segs. rewrite He. destruct (_ && _); cbn; by split_and!.
  - destruct Hr as [Hnil _]. rewrite Hpay in Hsz. rewrite Hnil in Hsz. unfold len in Hsz. cbn in Hsz. lia.
Qed.

Section RecvFacts.
Context {prof : Profile} {clk : Clock}.

Lemma move_to_recv_queue_spec s :
  Inv (inner s) →
  wp checked_overflow move_to_recv_queue
    (λ _ s', Inv (inner s') ∧ stalled (inner s') ∧ ∃ segs, moved segs (inner s) (inner s'))
    (λ _ _, False) s.
Proof.
  intros HI. unfold move_to_recv_queue. do 2 estep.
  eapply (wp_iterM _ _ (λ _ s', Inv (inner s') ∧ ∃ segs, moved segs (inner s) (inner s'))
           (λ _ s', size (e_rcv_buf (inner s')))).
  2:{ split; [done|]. exists []. apply moved_nil, HI. }
  2:{ lia. }
  clear HI. intros [] s1 [HI [segs Hmv]]. unfold move_one. do 4 estep.
  destruct (e_rcv_buf (inner s1) !! e_rcv_nxt (inner s1)) as [seg|] eqn:Hl.
  2:{ estep. split_and!; [done|by left|by eexists]. }
  do 6 estep. cbn [inner]. apply wp_if; intros Hfull; cbn in Hfull |- *.
  - do 3 estep. cbn [inner ticks].
    assert (Heq : (inner s1) <| e_rcv_buf ::= delete (e_rcv_nxt (inner s1)) |>
               <| e_rcv_buf ::= <[e_rcv_nxt (inner s1):=seg]> |> = inner s1).
    { destruct (inner s1); unfold set_field; cbn in *. f_equal. by rewrite insert_delete_id. }
    rewrite Heq. split_and!; [done| |by eexists]. right. by apply Z.leb_le in Hfull.
  - apply Z.leb_gt in Hfull. do 4 estep. do 3 estep. cbn [inner ticks].
    split; [split|].
    + by eapply move_one_inv.
    + exists (segs ++ [seg]). by eapply moved_snoc.
    + cbn. rewrite map_size_delete_Some by eauto.
      pose proof (map_size_ne_0_lookup_2 (e_rcv_buf (inner s1)) _ ltac:(eauto)). lia.
Qed.

(** [parse_data] either ignores the segment or files it, in both cases
    without touching what is already buffered. *)
Lemma parse_data_spec newseg s :
  Inv (inner s) → segment_ok newseg →
  let e := inner s in
  wp checked_overflow (parse_data newseg)
    (λ _ s', Inv (inner s') ∧
      if decide (offset_from (e_rcv_nxt e) (sn newseg) < c_rcv_wnd (e_config e)) then
        stalled (inner s') ∧ ∃ segs,
          moved segs (e <| e_rcv_buf ::= λ m,
            match m !! sn newseg with Some _ => m | None => <[sn newseg := newseg]> m end |>)
            (inner s')
      else s' = s)
    (λ _ _, False) s.
Proof.
  intros HI Hseg e. subst e. unfold parse_data. do 6 estep.
  assert (Hrcv : w_rcv_of (inner s) = c_rcv_wnd (e_config (inner s))) by (apply HI).
  pose proof (in_window (e_rcv_nxt (inner s)) (w_rcv_of (inner s)) (sn newseg)) as Hw.
  rewrite Hrcv in *. unfold as_u32 in Hw.
  specialize (Hw (i_rcv_nxt _ HI) (sn_u32 _ (proj1 Hseg)) (wo_rcv _ (i_config _ HI))).
  set (lim := wrap 32 _) in *. estep; [estep|]; cbn [inner].
  - match goal with H : _ || _ = true |- _ => rename H into Hout end.
    split; [done|]. rewrite decide_False; [done|]. rewrite <- Hw.
    apply not_true_iff_false. destruct (seq_before _ lim), (seq_before _ (e_rcv_nxt _)); done.
  - match goal with H : _ || _ = false |- _ => rename H into Hin end.
    assert (Hoff : offset_from (e_rcv_nxt (inner s)) (sn newseg) < c_rcv_wnd (e_config (inner s))).
    { apply Hw. destruct (seq_before _ lim), (seq_before _ (e_rcv_nxt _)); done. }
    do 2 estep. eapply wp_post; [apply move_to_recv_queue_spec; by apply insert_inv|].
    intros _ s' (HI' & Hst & Hmv). split; [done|]. by rewrite decide_True.
Qed.

Lemma recv_spec s :
  Inv (inner s) →
  wp checked_overflow recv
    (λ r s', Inv (inner s') ∧ recv_post (inner s) r (inner s')) (λ _ _, False) s.
Proof.
  intros HI. unfold recv. do 2 estep.
  assert (Hnone : ∀ st, peek_size_of (inner s) ≤ 0 → inner st = inner s →
    Inv (inner st) ∧ recv_post (inner s) None (inner st)).
  { intros st Hp ->. split; [done|]. exists [], (e_rcv_queue (inner s)). split_and!; [done|lia|done|].
    by destruct (inner s). }
  apply wp_if; intros Hemp.
  { apply is_empty_true in Hemp. estep. apply Hnone; [|done]. unfold peek_size_of. rewrite Hemp. lia. }
  unfold peek_size. do 2 estep. apply wp_if; intros Hpeek.
  { apply Z.leb_le in Hpeek. estep. by apply Hnone. }
  apply Z.leb_gt in Hpeek.
  do 2 estep. destruct (pop_message _ _ _) as [data rest] eqn:Hpop.
  pose proof (pop_message_split _ _ _ _ _ Hpop) as (popped & Hq & Hdata). cbn in Hdata. subst data.
  do 2 estep. cbn [inner ticks].
  assert (HI1 : Inv ((inner s) <| e_rcv_queue := rest |>)).
  { inv_fields.
    - rewrite Hq in *. by apply Forall_app in i_rcv_queue as [_ ?].
    - rewrite Hq, len_app in *. pose proof (len_nonneg popped). lia. }
  apply wp_if; intros Hd.
  - estep. split; [done|]. exists popped, rest. apply is_empty_true in Hd. done.
  - apply is_empty_false in Hd. estep. apply wp_count_stat. estep. cbn [inner ticks].
    eapply wp_mono; [apply move_to_recv_queue_spec| |done].
    { cbn. clear HI. inv_fields. solve_stats. }
    cbn [inner]. intros _ s1 (HI' & Hst & segs & Hmv). do 4 estep.
    + cbn [inner ticks]. split.
      * pose proof (flags_or _ 2 (i_probe _ HI') ltac:(lia)). clear HI HI1.
        inv_fields. destruct i_probe. constructor; cbn; done.
      * exists popped, rest. split_and!; [done..|]. exists segs, (inner s1). split_and!; [done..|].
        match goal with H : _ && _ = true |- _ => by rewrite H end.
    + split; [done|]. exists popped, rest. split_and!; [done..|].
      exists segs, (inner s1). split_and!; [done..|].
      match goal with H : _ && _ = false |- _ => by rewrite H end.
Qed.
End RecvFacts.

(** * Theorems *)

Section RecvTheorems.
Context {prof : Profile} {clk : Clock}.

(** A message that is complete at the head of the receive queue is
    returned whole, by one [recv], and taken off the queue. *)
Theorem recv_complete_message msg rest s :
  Inv (inner s) → complete_message msg → e_rcv_queue (inner s) = msg ++ rest →
  wp checked_overflow recv
    (λ r s', r = Some (queue_payload msg) ∧ Inv (inner s') ∧
       ∃ segs, e_rcv_queue (inner s') = rest ++ segs ∧
         map sn segs = consecutive (e_rcv_nxt (inner s)) (length segs) ∧
         e_rcv_nxt (inner s') = as_u32 (e_rcv_nxt (inner s) + len segs))
    (λ _ _, False) s.
Proof.
  intros HI Hm Hq. eapply wp_post; [by apply recv_spec|]. intros r s' [HI' Hr].
  by destruct (recv_post_complete _ _ _ _ _ Hm Hq Hr) as [-> ?].
Qed.

(** C17: [recv] loses and reorders nothing: the bytes it returns followed by
    those still queued are those that were queued followed by the payloads of
    the segments it moved out of the reorder buffer, which carry the next
    sequence numbers; and a message it returns is never empty. *)
Theorem recv_conserves s :
  Inv (inner s) →
  wp checked_overflow recv
    (λ r s', Inv (inner s') ∧ r ≠ Some [] ∧ ∃ segs,
       default [] r ++ queue_payload (e_rcv_queue (inner s')) =
         queue_payload (e_rcv_queue (inner s)) ++ queue_payload segs ∧
       map sn segs = consecutive (e_rcv_nxt (inner s)) (length segs) ∧
       (∀ seg, seg ∈ segs → e_rcv_buf (inner s) !! sn seg = Some seg) ∧
       e_rcv_nxt (inner s') = as_u32 (e_rcv_nxt (inner s) + len segs))
    (λ _ _, False) s.
Proof.
  intros HI. eapply wp_post; [by apply recv_spec|].
  intros r s' [HI' (popped & rest & [Hq _] & Hr)]. split; [done|]. rewrite Hq, queue_payload_app.
  destruct r as [data|].
  - destruct Hr as (-> & [Hne _] & segs & e1 & [_ Hmq Hn Hs Hb] & _ & He). cbn in Hs, Hn, Hmq, Hb.
    split; [congruence|]. exists segs. rewrite He. cbn [default].
    replace (e_rcv_queue _) with (rest ++ segs) by (by destruct (_ && _)). rewrite queue_payload_app, (assoc (++)).
    split_and!; [done..| |by destruct (_ && _)]. intros seg Hin. apply Hb. by right.
  - destruct Hr as [Hnil ->]. split; [done|]. exists []. cbn. rewrite Hnil, !app_nil_r.
    split_and!; [done..|set_solver|]. by rewrite Z.add_0_r, as_u32_small by apply HI.
Qed.

(** A segment with no payload at the head of the receive queue, which an
    empty PUSH puts there, stops delivery for good: [recv] returns nothing and
    leaves everything as it is, however much is queued behind. *)
Theorem recv_blocked_by_empty seg q s :
  e_rcv_queue (inner s) = seg :: q → frg seg = 0 → s_data seg = [] →
  recv s = (Ok None, s).
Proof.
  intros Hq Hf Hd. assert (Hp : peek_size_of (inner s) = 0).
  { unfold peek_size_of. rewrite Hq, Hf, Hd. reflexivity. }
  unfold recv, peek_size, get, gets. unfold mbind, M_bind at 1. rewrite Hq. cbn [is_empty].
  unfold M_bind. by rewrite Hp.
Qed.
End RecvTheorems.

Module RecvSample.
Definition seg (n f : Z) (data : bytes) : KcpSegment :=
  Build_KcpSegment (Build_KcpHeader 7 IKCP_CMD_PUSH f 128 0 n 0 (len data)) data 0 IKCP_RTO_DEF 0 0.
(** Two fragments of a message, received in order. *)
Definition msg : list KcpSegment := [seg 0 1 [x61; x62]; seg 1 0 [x63]].
Definition engine : KcpEngine := Sample.engine <| e_rcv_queue := msg |> <| e_rcv_nxt := 2 |>.

Lemma msg_ok : Forall segment_ok msg.
Proof. repeat constructor; vm_compute; congruence. Qed.
Lemma message_good : Inv engine.
Proof.
  destruct (proj1 Sample.good). constructor; try assumption; [apply msg_ok|].
  apply map_Forall_empty.
Qed.
Lemma msg_complete : complete_message msg.
Proof.
  constructor; [|vm_compute; congruence|split; vm_compute; congruence].
  exists [seg 0 1 [x61; x62]], (seg 1 0 [x63]). split_and!; [done|done|]. by constructor.
Qed.
End RecvSample.

Lemma recv_complete_message_witness :
  (recv (prof := release_build) (Timed RecvSample.engine 0)).1 = Ok (Some [x61; x62; x63]).
Proof.
  pose proof (recv_complete_message (prof := release_build) RecvSample.msg []
    (Timed RecvSample.engine 0) RecvSample.message_good RecvSample.msg_complete eq_refl) as H.
  apply wp_run in H. destruct (recv _) as [[r|err|p] s']; [by destruct H as [-> _]|done|].
  by destruct H as [_ H].
Defined.

Lemma recv_conserves_witness :
  let r := recv (prof := release_build) (Timed RecvSample.engine 0) in
  r.1 ≠ Ok (Some []).
Proof.
  pose proof (recv_conserves (prof := release_build)
    (Timed RecvSample.engine 0) RecvSample.message_good) as H.
  apply wp_run in H. cbn zeta. destruct (recv _) as [[r|err|p] s']; cbn; [|done..].
  destruct H as (_ & Hne & _). congruence.
Defined.

Lemma recv_blocked_by_empty_witness :
  let s := Timed (RecvSample.engine <| e_rcv_queue ::= cons (RecvSample.seg 0 0 []) |>) 0 in
  recv (prof := release_build) s = (Ok None, s).
Proof. apply (recv_blocked_by_empty (RecvSample.seg 0 0 []) RecvSample.msg); reflexivity. Defined.
