(* ===== verification/Ack.v ===== *)
(** kcp-core/src/engine.rs, acknowledgements: dropping acknowledged segments
    from the send buffer, the RTT estimator and the growth of the congestion
    window. *)
From S2P Require Import Prelude Monad Protocol Error Config Engine.

(** [parse_una]'s loop. *)
Fixpoint drop_before (una : Z) (buf : list KcpSegment) : list KcpSegment :=
  match buf with
  | [] => []
  | seg :: rest => if seq_before (sn seg) una then drop_before una rest else buf
  end.

(** [VecDeque::binary_search_by] with the comparison of [parse_ack]: the
    standard library's loop, on [lo..lo+size].  [Ordering::Equal] returns. *)
Fixpoint binary_search (fuel : nat) (sn0 : Z) (buf : list KcpSegment) (lo hi : nat) : option nat :=
  match fuel with
  | O => None
  | S fuel =>
      if (lo <? hi)%nat then
        let mid := ((lo + hi) / 2)%nat in
        match buf !! mid with
        | None => None
        | Some seg =>
            let d := time_diff (sn seg) sn0 in
            if d =? 0 then Some mid
            else if d <? 0 then binary_search fuel sn0 buf (S mid) hi
            else binary_search fuel sn0 buf lo mid
        end
      else None
  end.

Section Ack.
Context {prof : Profile} {clk : Clock}.

Definition parse_una (una : Z) : T () :=
  update_self (λ e, e <| e_snd_buf ::= drop_before una |>).

Definition parse_ack (sn0 : Z) : T () :=
  snd_una ← get e_snd_una;
  snd_nxt ← get e_snd_nxt;
  if seq_before sn0 snd_una || negb (seq_before sn0 snd_nxt) then mret tt
  else
    snd_buf ← get e_snd_buf;
    match binary_search (S (length snd_buf)) sn0 snd_buf 0 (length snd_buf) with
    | Some pos => update_self (λ e, e <| e_snd_buf := delete pos snd_buf |>)
    | None => mret tt
    end.

(** The loop of [parse_fastack]: it stops at the first segment that is not
    before [sn0]. *)
Fixpoint bump_fastack (sn0 ts : Z) (buf : list KcpSegment) : T (list KcpSegment) :=
  match buf with
  | [] => mret []
  | seg :: rest =>
      if negb (seq_before (sn seg) sn0) then mret buf
      else
        seg ← (if 0 <=? time_diff ts (h_ts (s_header seg)) then
                 fastack ← uadd 32 (s_fastack seg) 1;
                 mret (seg <| s_fastack := fastack |>)
               else mret seg);
        rest ← bump_fastack sn0 ts rest;
        mret (seg :: rest)
  end.

Definition parse_fastack (sn0 ts : Z) : T () :=
  snd_una ← get e_snd_una;
  snd_nxt ← get e_snd_nxt;
  if seq_before sn0 snd_una || negb (seq_before sn0 snd_nxt) then mret tt
  else
    snd_buf ← get e_snd_buf;
    snd_buf ← bump_fastack sn0 ts snd_buf;
    update_self (λ e, e <| e_snd_buf := snd_buf |>).

Definition ack_push (sn0 ts : Z) : T () :=
  update_self (λ e, e <| e_ack_list ::= λ l, l ++ [(sn0, ts)] |>).

Definition shrink_buf : T () :=
  update_self (λ e, e <| e_snd_una :=
    match e_snd_buf e with seg :: _ => sn seg | [] => e_snd_nxt e end |>).

(** The smoothing of one sample into [avg] and [var]. *)
Definition smooth_rtt (rtt avg var : Z) : T (Z * Z) :=
  if avg =? 0 then mret (as_u32 rtt, as_u32 rtt / 2)
  else
    delta ← (if as_i32 avg <? rtt then isub32 rtt (as_i32 avg) else isub32 (as_i32 avg) rtt);
    v3 ← umul 32 3 var;
    v ← uadd 32 v3 (as_u32 delta);
    a7 ← umul 32 7 avg;
    a ← uadd 32 a7 (as_u32 rtt);
    let a := a / 8 in
    mret (if a <? 1 then 1 else a, v / 4).

Definition update_ack (rtt : Z) : T () :=
  rtt ← clampM 0 (as_i32 IKCP_RTO_MAX) rtt;
  r ← get e_rtt;
  '(avg, var) ← smooth_rtt rtt (r_avg r) (r_var r);
  update_self (λ e, e <| e_rtt ::= λ r, r <| r_avg := avg |> <| r_var := var |> |>);;
  config ← get e_config;
  v4 ← umul 32 4 var;
  rto ← uadd 32 avg (Z.max (nd_interval (c_nodelay config)) v4);
  rto ← clampM (r_min_rto r) IKCP_RTO_MAX rto;
  update_self (λ e, e <| e_rtt ::= λ r, r <| r_rto := rto |> |>);;
  update_self (λ e, e <| e_stats ::= λ s,
    s <| st_rtt := avg |> <| st_rtt_var := var |> <| st_rto := rto |> |>).

Definition set_cwnd (v : Z) : T () :=
  update_self (λ e, e <| e_wnd ::= λ w, w <| w_cwnd := v |> |>).
Definition set_incr (v : Z) : T () :=
  update_self (λ e, e <| e_wnd ::= λ w, w <| w_incr := v |> |>).

Definition update_cwnd (prev_una : Z) : T () :=
  snd_una ← get e_snd_una;
  w ← get e_wnd;
  whenM (seq_after snd_una prev_una && (w_cwnd w <? w_rmt w))
    (mss ← mss;
     (if w_cwnd w <? w_ssthresh w then
        cwnd ← uadd 32 (w_cwnd w) 1;
        set_cwnd cwnd;;
        incr ← uadd 32 (w_incr w) mss;
        set_incr incr
      else
        let incr0 := if w_incr w <? mss then mss else w_incr w in
        set_incr incr0;;
        sq ← umul 32 mss mss;
        q ← udiv sq incr0;
        step ← uadd 32 q (mss / 16);
        incr ← uadd 32 incr0 step;
        set_incr incr;;
        c1 ← uadd 32 (w_cwnd w) 1;
        need ← umul 32 c1 mss;
        whenM (need <=? incr)
          (cwnd ← (if 0 <? mss then udiv_ceil incr mss else mret 1);
           set_cwnd cwnd));;
     w ← get e_wnd;
     whenM (w_rmt w <? w_cwnd w)
       (set_cwnd (w_rmt w);;
        incr ← umul 32 (w_rmt w) mss;
        set_incr incr)).
End Ack.

(** * The send buffer *)

Lemma drop_before_suffix una buf : ∃ gone, buf = gone ++ drop_before una buf ∧
  Forall (λ s, seq_before (sn s) una = true) gone.
Proof.
  induction buf as [|seg buf (gone & Hb & Hg)]; cbn; [by exists []|].
  destruct (seq_before (sn seg) una) eqn:E; [|by exists []].
  exists (seg :: gone). split; [cbn; by f_equal|by constructor].
Qed.

Lemma drop_before_sublist una buf : sublist (drop_before una buf) buf.
Proof.
  destruct (drop_before_suffix una buf) as (gone & Hb & _). rewrite Hb at 2.
  by apply sublist_inserts_l.
Qed.

(** For an acknowledgement inside the window, dropping from the front is
    keeping exactly the segments at or after it. *)
Lemma drop_before_filter mss wnd una nxt buf una' :
  in_u 32 una → in_u 32 una' → wnd ≤ 65535 → snd_buf_ok mss wnd una nxt buf →
  offset_from una una' ≤ offset_from una nxt →
  drop_before una' buf = filter (λ s, offset_from una una' ≤ offset_from una (sn s)) buf.
Proof.
  intros Hu Hu' Hwnd [Hw Hse _ Hr Hs] Ho.
  assert (Hb : ∀ s, sendable mss s → offset_from una (sn s) < offset_from una nxt →
    seq_before (sn s) una' = bool_decide (offset_from una (sn s) < offset_from una una')).
  { intros s Hsd Hlt. pose proof (sn_range _ _ Hsd) as Hn.
    pose proof (wrapping_sub_range una una'). apply eq_bool_prop_intro.
    rewrite Is_true_true, seq_before_true, bool_decide_spec.
    unfold in_u, wrapping_sub, wrap in *. rewrite pow32 in *. zmod. lia. }
  clear Hw. induction buf as [|seg buf IH]; [done|]. cbn [drop_before].
  apply Forall_cons in Hse as [Hseg Hse]. apply Forall_cons in Hr as [Hlt Hr].
  inversion_clear Hs as [|? ? Hs' Hall]. rewrite (Hb _ Hseg Hlt).
  destruct (decide (offset_from una (sn seg) < offset_from una una')) as [H|H].
  - rewrite bool_decide_true, filter_cons_False by (done || lia). by apply IH.
  - rewrite bool_decide_false, filter_cons_True by (done || lia). f_equal.
    symmetry. apply filter_all. eapply Forall_impl; [exact Hall|]. cbn. intros. lia.
Qed.

(** ** Binary search *)

Lemma binary_search_spec mss wnd una nxt buf sn0 :
  in_u 32 una → in_u 32 sn0 → wnd ≤ 65535 → snd_buf_ok mss wnd una nxt buf →
  offset_from una sn0 < offset_from una nxt →
  ∀ fuel lo hi, (hi - lo < fuel)%nat → (hi ≤ length buf)%nat →
  (∀ i s, buf !! i = Some s → sn s = sn0 → (lo ≤ i < hi)%nat) →
  match binary_search fuel sn0 buf lo hi with
  | Some pos => ∃ s, buf !! pos = Some s ∧ sn s = sn0
  | None => ∀ s, s ∈ buf → sn s ≠ sn0
  end.
Proof.
  intros Hu Hsn Hwnd [Hw Hse _ Hr Hs] Ho.
  assert (Hd : ∀ s, s ∈ buf →
    time_diff (sn s) sn0 = offset_from una (sn s) - offset_from una sn0).
  { intros s Hin. rewrite Forall_forall in Hse, Hr. pose proof (sn_range _ _ (Hse s Hin)) as Hn.
    specialize (Hr s Hin). cbn in Hr. pose proof (wrapping_sub_range (sn s) una).
    pose proof (wrapping_sub_range sn0 una).
    unfold time_diff, as_i32. unfold in_u, wrapping_sub, wrap in *. rewrite pow32 in *.
    zcases; zmod; lia. }
  assert (Hinj : ∀ s, s ∈ buf → sn s = sn0 ↔ offset_from una (sn s) = offset_from una sn0).
  { intros s Hin. rewrite Forall_forall in Hse. pose proof (sn_range _ _ (Hse s Hin)) as Hn.
    split; [by intros ->|]. zlia. }
  assert (Hlt : ∀ i j s t, buf !! i = Some s → buf !! j = Some t → (i < j)%nat →
    offset_from una (sn s) < offset_from una (sn t)).
  { intros i j s t Hi Hj Hij. apply (StronglySorted_lookup (λ s t, offset_from una (sn s) < offset_from una (sn t)) buf i j); done. }
  induction fuel as [|fuel IH]; intros lo hi Hf Hhi Hin; [lia|]. cbn [binary_search].
  destruct (Nat.ltb_spec lo hi) as [Hlh|Hlh].
  2:{ intros s [i Hi]%list_elem_of_lookup Heq. specialize (Hin i s Hi Heq). lia. }
  set (mid := ((lo + hi) / 2)%nat).
  assert (Hmid : (lo ≤ mid < hi)%nat).
  { unfold mid. pose proof (Nat.div_mod (lo + hi) 2 ltac:(lia)).
    pose proof (Nat.mod_upper_bound (lo + hi) 2 ltac:(lia)). lia. }
  destruct (lookup_lt_is_Some_2 buf mid ltac:(lia)) as [seg Hseg]. rewrite Hseg.
  pose proof (list_elem_of_lookup_2 _ _ _ Hseg) as Hsegin. rewrite (Hd seg Hsegin).
  destruct (Z.eqb_spec (offset_from una (sn seg) - offset_from una sn0) 0) as [H0|H0].
  { exists seg. split; [done|]. apply Hinj; [done|lia]. }
  destruct (Z.ltb_spec (offset_from una (sn seg) - offset_from una sn0) 0) as [Hneg|Hpos];
    apply IH; try lia; intros i s Hi Heq; specialize (Hin i s Hi Heq);
    pose proof (list_elem_of_lookup_2 _ _ _ Hi) as Hsin; apply (Hinj s Hsin) in Heq;
    (destruct (decide (i = mid)) as [->|Hne]; [simplify_eq; lia|]);
    (destruct (decide (i < mid)%nat) as [Hl|Hl]; [pose proof (Hlt i mid _ _ Hi Hseg Hl)
      |pose proof (Hlt mid i _ _ Hseg Hi ltac:(lia))]); lia.
Qed.

(** ** Inv preservation *)

Lemma snd_buf_inv e buf :
  Inv e →
  snd_buf_ok (mss_of (e_config e)) (c_snd_wnd (e_config e)) (e_snd_una e) (e_snd_nxt e) buf →
  Inv (e <| e_snd_buf := buf |>).
Proof. intros HI Hb. by inv_fields. Qed.

(** The test [parse_ack] and [parse_fastack] make first. *)
Lemma in_flight una nxt sn0 :
  in_u 32 una → in_u 32 nxt → in_u 32 sn0 → offset_from una nxt ≤ 65535 →
  seq_before sn0 una || negb (seq_before sn0 nxt) = false ↔
  offset_from una sn0 < offset_from una nxt.
Proof.
  intros Hu Hn Hs Hw. rewrite orb_false_iff, negb_false_iff, seq_before_true, seq_before_false.
  unfold in_u, wrapping_sub, wrap in *. rewrite pow32 in *. zmod. lia.
Qed.

Lemma delete_filter mss wnd una nxt buf pos s :
  snd_buf_ok mss wnd una nxt buf → buf !! pos = Some s →
  delete pos buf = filter (λ t, sn t ≠ sn s) buf.
Proof.
  intros [_ _ _ _ Hs] Hp. apply list_elem_of_split_length in Hp as (l1 & l2 & -> & ->).
  rewrite delete_middle. apply StronglySorted_app in Hs as (H12 & H1 & H2).
  apply StronglySorted_cons in H2 as [Hl2 _].
  rewrite filter_app, filter_cons_False by naive_solver. f_equal; symmetry; apply filter_all.
  - apply Forall_forall. intros t Ht Heq. specialize (H12 t s Ht ltac:(set_solver)). cbn in H12.
    rewrite Heq in H12. lia.
  - eapply Forall_impl; [exact Hl2|]. cbn. intros t Ht Heq. rewrite Heq in Ht. lia.
Qed.

Section AckFacts.
Context {prof : Profile} {clk : Clock}.

Lemma filter_sublist_inv e (P : KcpSegment → Prop) `{!∀ x, Decision (P x)} :
  Inv e → Inv (e <| e_snd_buf ::= filter P |>).
Proof.
  intros HI. inv_fields. eapply snd_buf_ok_sublist; [apply sublist_filter|done].
Qed.

Lemma parse_una_inv una : keeps_inv (parse_una una).
Proof.
  intros s HI. unfold parse_una. estep. inv_fields.
  eapply snd_buf_ok_sublist; [apply drop_before_sublist|done].
Qed.

Lemma parse_ack_spec sn0 Q (R : KcpCoreError → St → Prop) s :
  Inv (inner s) → in_u 32 sn0 →
  Q tt (Timed ((inner s) <| e_snd_buf ::= filter (λ t, sn t ≠ sn0) |>) (ticks s)) →
  wp no_panic (parse_ack sn0) Q R s.
Proof.
  intros HI Hsn HQ. unfold parse_ack. do 4 estep.
  pose proof (i_snd_buf _ HI) as Hb. pose proof (wo_snd _ (i_config _ HI)) as Hw.
  pose proof (sb_window _ _ _ _ _ Hb) as Hwin.
  assert (Hw' : offset_from (e_snd_una (inner s)) (e_snd_nxt (inner s)) ≤ 65535) by lia.
  pose proof (in_flight _ _ sn0 (i_una _ HI) (i_nxt _ HI) Hsn Hw') as Hfl.
  assert (Hsame : (∀ t, t ∈ e_snd_buf (inner s) → sn t ≠ sn0) → Q tt s).
  { intros Hno. destruct s as [e n]. cbn in *.
    replace e with (e <| e_snd_buf ::= filter (λ t, sn t ≠ sn0) |>); [done|].
    destruct e; unfold set_field; cbn in *. f_equal. apply filter_all. by apply Forall_forall. }
  apply wp_if; intros Hin.
  - estep. apply Hsame. intros t Ht Heq. apply not_false_iff_true in Hin. apply Hin, Hfl.
    rewrite <- Heq. by apply (proj1 (Forall_forall _ _) (sb_range _ _ _ _ _ Hb)).
  - apply Hfl in Hin. do 2 estep.
    pose proof (binary_search_spec _ _ _ _ _ sn0 (i_una _ HI) Hsn (proj2 Hw) Hb Hin
      (S (length (e_snd_buf (inner s)))) 0 (length (e_snd_buf (inner s))) ltac:(lia) ltac:(lia)) as Hbs.
    destruct (binary_search _ _ _ _ _) as [pos|].
    + destruct Hbs as (seg & Hpos & <-).
      { intros i t Ht _. apply lookup_lt_Some in Ht. lia. }
      estep. rewrite (delete_filter _ _ _ _ _ _ _ Hb Hpos). exact HQ.
    + estep. apply Hsame. intros t Ht. apply Hbs; [|done].
      intros i t' Ht' _. apply lookup_lt_Some in Ht'. lia.
Qed.

Lemma bump_fastack_spec mss sn0 ts buf s :
  Forall (sendable mss) buf →
  wp checked_overflow (bump_fastack sn0 ts buf)
    (λ buf' s', s' = s ∧ Forall2 (λ t t', t' = t <| s_fastack := s_fastack t' |> ∧
       in_u 32 (s_fastack t')) buf buf')
    (λ _ _, False) s.
Proof.
  induction 1 as [|seg buf Hseg Hbuf IH]; cbn [bump_fastack].
  - estep. by split.
  - assert (Hrefl : ∀ l, Forall (sendable mss) l → Forall2 (λ t t',
      t' = t <| s_fastack := s_fastack t' |> ∧ in_u 32 (s_fastack t')) l l).
    { induction 1 as [|x l []]; constructor; [split; [by destruct x|done]|done]. }
    apply wp_if; intros Hb; [estep; split; [done|apply Hrefl; by constructor]|].
    estep. eapply (wp_post _ _ (λ t s', s' = s ∧ t = seg <| s_fastack := s_fastack t |>
      ∧ in_u 32 (s_fastack t))).
    { apply wp_if; intros Ht; [|estep; destruct Hseg; destruct seg; by split_and!].
      do 3 estep. split_and!; [done|by destruct seg|apply wrap_in_u; lia]. }
    intros t s' (-> & Ht & Hr). estep. eapply wp_post; [exact IH|].
    intros rest s' (-> & Hrest). estep. split; [done|]. by constructor.
Qed.

(** Only [fastack] counters change. *)
Lemma parse_fastack_spec sn0 ts s :
  Inv (inner s) →
  wp checked_overflow (parse_fastack sn0 ts)
    (λ _ s', Inv (inner s') ∧ ∃ buf, inner s' = (inner s) <| e_snd_buf := buf |> ∧
       Forall2 (λ t t', t' = t <| s_fastack := s_fastack t' |>) (e_snd_buf (inner s)) buf)
    (λ _ _, False) s.
Proof.
  intros HI. unfold parse_fastack. do 4 estep. apply wp_if; intros _.
  { estep. split; [done|]. exists (e_snd_buf (inner s)). split; [by destruct (inner s)|].
    assert (Reflexive (λ t t', t' = t <| s_fastack := s_fastack t' |>)) by (by intros []).
    reflexivity. }
  do 3 estep. eapply wp_post; [eapply bump_fastack_spec, (i_snd_buf _ HI)|].
  intros buf s' (-> & H2). cbv beta. estep. split.
  2:{ exists buf. split; [done|]. eapply Forall2_impl; [exact H2|]. by intros ? ? [? _]. }
  apply snd_buf_inv; [done|].
  eapply snd_buf_ok_map; [|apply HI].
  pose proof (sb_segments _ _ _ _ _ (i_snd_buf _ HI)) as Hse.
  revert Hse. clear HI. induction H2 as [|t t' l l' [Ht Hr] H2 IH]; [constructor|].
  intros [[] Hl]%Forall_cons. constructor; [|by apply IH].
  rewrite Ht. split_and!; [done..|]. by constructor.
Qed.

Lemma shrink_buf_spec Q (R : KcpCoreError → St → Prop) s :
  Inv (inner s) → (∀ s', Inv (inner s') → una_tight (inner s') → Q tt s') →
  wp no_panic shrink_buf Q R s.
Proof.
  intros HI HQ. unfold shrink_buf. estep. apply HQ; [|done].
  pose proof (snd_buf_ok_shrink _ _ _ _ _ (i_una _ HI) (i_nxt _ HI) (i_snd_buf _ HI)) as Hb.
  inv_fields. destruct (e_snd_buf (inner s)) as [|seg l]; [done|].
  eapply (sn_range (mss_of (e_config (inner s)))). by apply sb_segments, Forall_cons in Hb as [? _].
Qed.

Lemma ack_push_inv sn0 ts : in_u 32 sn0 → in_u 32 ts → keeps_inv (ack_push sn0 ts).
Proof.
  intros H1 H2 s HI. unfold ack_push. estep. inv_fields.
  apply Forall_app. split; [done|]. by apply Forall_singleton.
Qed.
End AckFacts.

(** * The RTT estimator *)

(** One sample, in exact integers: the first sets the estimate, later ones are
    smoothed with weights 1/8 and 1/4, and the average never goes back to 0,
    which stands for "no estimate". *)
Definition rtt_sample (rtt avg var : Z) : Z * Z :=
  if avg =? 0 then (rtt, rtt / 2)
  else (Z.max 1 ((7 * avg + rtt) / 8), (3 * var + Z.abs (rtt - avg)) / 4).

Definition rto_of (interval min_rto avg var : Z) : Z :=
  clamp min_rto IKCP_RTO_MAX (wrap 32 (avg + Z.max interval (4 * var))).

(** The engine after [update_ack rtt]. *)
Definition acked (rtt : Z) (e : KcpEngine) : KcpEngine :=
  let r := e_rtt e in
  let '(avg, var) := rtt_sample (clamp 0 IKCP_RTO_MAX rtt) (r_avg r) (r_var r) in
  let rto := rto_of (nd_interval (c_nodelay (e_config e))) (r_min_rto r) avg var in
  e <| e_rtt := Build_RttState avg var rto (r_min_rto r) |>
    <| e_stats ::= λ s, s <| st_rtt := avg |> <| st_rtt_var := var |> <| st_rto := rto |> |>.

Lemma rtt_sample_bounds rtt avg var avg' var' :
  0 ≤ rtt ≤ IKCP_RTO_MAX → 0 ≤ avg ≤ IKCP_RTO_MAX → 0 ≤ var ≤ IKCP_RTO_MAX →
  rtt_sample rtt avg var = (avg', var') →
  0 ≤ avg' ≤ IKCP_RTO_MAX ∧ 0 ≤ var' ≤ IKCP_RTO_MAX.
Proof.
  unfold rtt_sample, IKCP_RTO_MAX. intros Hr Ha Hv.
  destruct (avg =? 0); intros [= <- <-]; zmod; lia.
Qed.

Lemma clamp_bounds lo hi x : lo ≤ hi → lo ≤ clamp lo hi x ≤ hi.
Proof. unfold clamp. lia. Qed.

Lemma RTO_MAX_pos : 0 ≤ IKCP_RTO_MAX.
Proof. unfold IKCP_RTO_MAX. lia. Qed.

Lemma acked_inv rtt e : Inv e → Inv (acked rtt e).
Proof.
  intros HI. pose proof (i_rtt _ HI) as [Ha Hv Hr Hm]. unfold acked.
  destruct (rtt_sample _ _ _) as [avg var] eqn:Hs.
  apply rtt_sample_bounds in Hs as [Ha' Hv']; [|by apply clamp_bounds, RTO_MAX_pos|done..].
  assert (r_min_rto (e_rtt e) ≤ IKCP_RTO_MAX) by lia.
  inv_fields.
  - constructor; cbn; try done. by apply clamp_bounds.
  - solve_stats.
Qed.

Section RttFacts.
Context {prof : Profile} {clk : Clock} (K : panic → Prop).

Lemma smooth_rtt_spec rtt avg var Q (R : KcpCoreError → St → Prop) s :
  0 ≤ rtt ≤ IKCP_RTO_MAX → 0 ≤ avg ≤ IKCP_RTO_MAX → 0 ≤ var ≤ IKCP_RTO_MAX →
  Q (rtt_sample rtt avg var) s → wp K (smooth_rtt rtt avg var) Q R s.
Proof.
  unfold smooth_rtt, rtt_sample, IKCP_RTO_MAX. intros Hr Ha Hv HQ.
  rewrite !(as_u32_small rtt), !(as_i32_small avg) by zlia.
  apply wp_if; intros H0; rewrite H0 in HQ; [by estep|].
  estep. eapply (wp_post _ _ (λ d s', d = Z.abs (rtt - avg) ∧ s' = s)).
  { destruct (Z.ltb_spec avg rtt); (apply wp_isub32_exact; [lia|split; [lia|done]]). }
  intros ? ? [-> ->]. rewrite as_u32_small by zlia.
  estep. wp_exact; [zlia|]. estep. wp_exact; [zlia|].
  estep. wp_exact; [zlia|]. estep. wp_exact; [zlia|]. estep.
  match goal with |- Q ?p _ => match type of HQ with Q ?q _ => replace p with q; [done|] end end.
  f_equal. destruct (Z.ltb_spec ((7 * avg + rtt) / 8) 1); lia.
Qed.
End RttFacts.

Section RttSpec.
Context {prof : Profile} {clk : Clock} (K : panic → Prop).

(** [update_ack] is [acked], whatever panics are excluded, when the one
    addition that depends on the configuration does not overflow or its
    overflow is allowed for. *)
Lemma update_ack_spec rtt Q (R : KcpCoreError → St → Prop) s :
  Inv (inner s) → - H31 ≤ rtt < H31 →
  (∀ z (Q' : Z → St → Prop) st, 0 ≤ z ≤ IKCP_RTO_MAX + Z.max (nd_interval (c_nodelay (e_config (inner s)))) (4 * IKCP_RTO_MAX) →
     Q' (wrap 32 z) st → wp K (arith 32 z) Q' R st) →
  Q tt (Timed (acked rtt (inner s)) (ticks s)) → wp K (update_ack rtt) Q R s.
Proof.
  intros HI Hrtt Harith HQ. pose proof (i_rtt _ HI) as [Ha Hv Hr Hm]. unfold update_ack.
  assert (HM : as_i32 IKCP_RTO_MAX = IKCP_RTO_MAX) by (apply as_i32_small; unfold IKCP_RTO_MAX; lia).
  rewrite HM. estep. apply wp_clamp; [apply RTO_MAX_pos|]. do 3 estep.
  pose proof (clamp_bounds 0 IKCP_RTO_MAX rtt RTO_MAX_pos) as Hc.
  apply smooth_rtt_spec; [done..|]. unfold acked in HQ.
  destruct (rtt_sample _ _ _) as [avg var] eqn:Hs.
  apply rtt_sample_bounds in Hs as [Ha' Hv']; [|done..].
  do 4 estep. unfold IKCP_RTO_MAX in *. estep. wp_exact; [zlia|].
  estep. apply Harith; [cbn; lia|]. estep. apply wp_clamp; [lia|]. do 3 estep.
  exact HQ.
Qed.
End RttSpec.

(** * Congestion window growth *)

Lemma cwnd_inv e cwnd incr :
  Inv e → 1 ≤ cwnd < 2 ^ 32 → in_u 32 incr →
  Inv (e <| e_wnd ::= λ w, w <| w_cwnd := cwnd |> <| w_incr := incr |> |>).
Proof. intros HI Hc Hi. inv_fields. destruct i_wnd. by constructor. Qed.

Section CwndFacts.
Context {prof : Profile} {clk : Clock}.

Lemma update_ack_inv rtt : - H31 ≤ rtt < H31 → keeps_inv (update_ack rtt).
Proof.
  intros Hr s HI. apply update_ack_spec; [done|done| |by apply acked_inv].
  intros z Q' st Hz HQ. by apply wp_arith.
Qed.

(** Growth never shrinks the congestion window nor takes it past the remote
    window; everything but [cwnd] and [incr] stays. *)
Lemma update_cwnd_spec prev_una s :
  Inv (inner s) →
  wp checked_overflow (update_cwnd prev_una)
    (λ _ s', Inv (inner s') ∧ ticks s' = ticks s ∧ ∃ cwnd incr,
       inner s' = (inner s) <| e_wnd ::= λ w, w <| w_cwnd := cwnd |> <| w_incr := incr |> |> ∧
       w_cwnd (e_wnd (inner s)) ≤ cwnd ∧
       (cwnd = w_cwnd (e_wnd (inner s)) ∨
        seq_after (e_snd_una (inner s)) prev_una = true ∧ cwnd ≤ w_rmt (e_wnd (inner s))))
    (λ _ _, False) s.
Proof.
  intros HI. unfold update_cwnd, set_cwnd, set_incr. do 4 estep. apply wp_when; intros Hc.
  2:{ split_and!; [done..|]. exists (w_cwnd (e_wnd (inner s))), (w_incr (e_wnd (inner s))).
      split_and!; [by destruct (inner s) as [? ? ? ? ? ? []]|lia|by left]. }
  apply andb_prop in Hc as [Hseq Hc]. apply Z.ltb_lt in Hc.
  pose proof (windows_mss _ (i_config _ HI)) as Hm.
  destruct (i_wnd _ HI) as [Hsnd Hrcv Hrmt Hcw Hss Hin].
  estep. apply wp_mss; [apply HI|]. set (m := mss_of _) in *.
  estep. eapply (wp_post _ _ (λ _ s', ticks s' = ticks s ∧ ∃ cwnd incr,
    inner s' = (inner s) <| e_wnd ::= λ w, w <| w_cwnd := cwnd |> <| w_incr := incr |> |> ∧
    in_u 32 incr ∧ w_cwnd (e_wnd (inner s)) ≤ cwnd < 2 ^ 32)).
  - apply wp_if; intros Hslow.
    + estep. wp_exact; [zlia|]. do 5 estep. cbn [inner ticks]. split; [done|].
      eexists _, _. split; [reflexivity|]. split; [apply wrap_in_u; lia|zlia].
    + set (incr0 := if _ <? _ then _ else _).
      assert (Hi0 : m ≤ incr0 < 2 ^ 32) by (unfold incr0; zlia).
      do 3 estep. wp_exact; [unfold in_u; rewrite pow32; nia|]. estep.
      apply wp_udiv; [lia|]. do 4 estep. set (incr := wrap 32 (_ + _)).
      assert (Hincr : in_u 32 incr) by (apply wrap_in_u; lia).
      do 2 estep. estep. wp_exact; [zlia|]. estep. wp_exact; [zunfold; nia|].
      estep; cbn [inner ticks].
      * match goal with H : (_ <=? incr) = true |- _ => apply Z.leb_le in H; rename H into Hneed end.
        rewrite (proj2 (Z.ltb_lt 0 m)) by lia. estep. apply wp_udiv_ceil; [lia|]. estep.
        split; [done|]. exists (div_ceil incr m), incr. split; [reflexivity|]. split; [done|].
        unfold div_ceil. split.
        -- apply Z.div_le_lower_bound; nia.
        -- apply Z.div_lt_upper_bound; unfold in_u in Hincr; nia.
      * split; [done|]. exists (w_cwnd (e_wnd (inner s))), incr. split; [|split; [done|split; [lia|apply Hcw]]].
        by destruct (inner s) as [? ? ? ? ? ? []].
  - intros _ s1 (Ht & cwnd & incr & Hs1 & Hincr & Hcwnd). cbv beta. do 2 estep. rewrite Hs1.
    cbn [e_wnd set_field w_rmt w_cwnd KcpEngine_eta]. unfold set_field at 1 2; cbn [e_wnd w_rmt w_cwnd].
    apply wp_when; intros Hcap.
    + apply Z.ltb_lt in Hcap. do 3 estep. cbn [inner ticks e_wnd].
      wp_exact; [zunfold; nia|]. estep. rewrite Hs1. cbn [inner ticks]. split_and!; [|done|].
      * apply (cwnd_inv (inner s) (w_rmt (e_wnd (inner s))) (w_rmt (e_wnd (inner s)) * m));
          [done|zlia|zunfold; nia].
      * exists (w_rmt (e_wnd (inner s))), (w_rmt (e_wnd (inner s)) * m).
        split_and!; [done|lia|right; split; [done|lia]].
    + apply Z.ltb_ge in Hcap. split_and!; [|done|].
      * rewrite Hs1. apply cwnd_inv; [done|zlia|done].
      * exists cwnd, incr. split_and!; [done|lia|right; split; [done|lia]].
Qed.
End CwndFacts.

(** * Theorems *)

Section AckTheorems.
Context {prof : Profile} {clk : Clock}.

(** C30: a cumulative acknowledgement inside the window removes from the send
    buffer exactly the segments before it, wherever the 32-bit numbers wrap,
    and changes nothing else. *)
Theorem parse_una_exact una s :
  Inv (inner s) → in_u 32 una →
  offset_from (e_snd_una (inner s)) una ≤ offset_from (e_snd_una (inner s)) (e_snd_nxt (inner s)) →
  wp no_panic (parse_una una)
    (λ _ s', Inv (inner s') ∧ inner s' = (inner s) <| e_snd_buf ::= filter (λ t,
       offset_from (e_snd_una (inner s)) una ≤ offset_from (e_snd_una (inner s)) (sn t)) |>)
    (λ _ _, False) s.
Proof.
  intros HI Hu Ho. unfold parse_una. estep. cbn [inner].
  pose proof (wo_snd _ (i_config _ HI)) as Hw.
  assert (Heq : (inner s) <| e_snd_buf ::= drop_before una |> = (inner s) <| e_snd_buf ::= filter (λ t,
       offset_from (e_snd_una (inner s)) una ≤ offset_from (e_snd_una (inner s)) (sn t)) |>).
  { unfold set_field. by rewrite (drop_before_filter _ _ _ _ _ una (i_una _ HI) Hu (proj2 Hw) (i_snd_buf _ HI) Ho). }
  split; [|done]. rewrite Heq. by apply filter_sublist_inv.
Qed.

(** C31: a selective acknowledgement removes exactly the segment with that
    number, if it is in flight: the binary search of a buffer ordered around
    the wrap never misses it, never removes another and never goes out of
    bounds. *)
Theorem parse_ack_exact sn0 s :
  Inv (inner s) → in_u 32 sn0 →
  wp no_panic (parse_ack sn0)
    (λ _ s', Inv (inner s') ∧ inner s' = (inner s) <| e_snd_buf ::= filter (λ t, sn t ≠ sn0) |>)
    (λ _ _, False) s.
Proof.
  intros HI Hs. apply parse_ack_spec; [done..|]. split; [|done]. by apply filter_sublist_inv.
Qed.

(** C32: the RTT estimator computes the smoothed average, the deviation and
    the timeout of [acked] with no overflow on the way, for any sample a peer
    can make it take, and keeps the timeout between its two bounds. *)
Theorem rtt_estimate rtt s :
  Inv (inner s) → - H31 ≤ rtt < H31 →
  nd_interval (c_nodelay (e_config (inner s))) < 2 ^ 32 - IKCP_RTO_MAX →
  wp no_panic (update_ack rtt)
    (λ _ s', inner s' = acked rtt (inner s) ∧ Inv (inner s') ∧
       r_min_rto (e_rtt (inner s)) ≤ r_rto (e_rtt (inner s')) ≤ IKCP_RTO_MAX)
    (λ _ _, False) s.
Proof.
  intros HI Hr Hint. apply update_ack_spec; [done|done| |].
  - intros z Q' st Hz HQ. pose proof (interval_u32 _ (wo_config _ (i_config _ HI))) as Hi.
    unfold in_u, IKCP_RTO_MAX in *. apply wp_arith_exact; [unfold in_u; rewrite pow32 in *; lia|].
    rewrite wrap_small in HQ by (unfold in_u; rewrite pow32 in *; lia). exact HQ.
  - pose proof (acked_inv rtt _ HI) as HIa. split_and!; [done..| |]; cbn [inner].
    + unfold acked in *. destruct (rtt_sample _ _ _). apply (i_rtt _ HIa).
    + apply (i_rtt _ HIa).
Qed.

(** The congestion window grows only when an acknowledgement has moved
    [snd_una], never shrinks by it and never passes the peer's window. *)
Theorem cwnd_growth prev_una s :
  Inv (inner s) →
  wp checked_overflow (update_cwnd prev_una)
    (λ _ s', Inv (inner s') ∧ ∃ cwnd incr,
       inner s' = (inner s) <| e_wnd ::= λ w, w <| w_cwnd := cwnd |> <| w_incr := incr |> |> ∧
       w_cwnd (e_wnd (inner s)) ≤ cwnd ∧
       (cwnd = w_cwnd (e_wnd (inner s)) ∨
        seq_after (e_snd_una (inner s)) prev_una = true ∧ cwnd ≤ w_rmt (e_wnd (inner s))))
    (λ _ _, False) s.
Proof. intros HI. eapply wp_post; [by apply update_cwnd_spec|]. by intros _ s' (HI' & _ & H). Qed.
End AckTheorems.

Module AckSample.
(** Three segments in flight around the wrap: numbers 2^32 - 1, 0 and 1. *)
Definition seg (n : Z) : KcpSegment :=
  Build_KcpSegment (Build_KcpHeader 7 IKCP_CMD_PUSH 0 128 900 n 0 1) [x61] 1100 200 0 1.
Definition engine : KcpEngine := Sample.engine <| e_snd_una := 4294967295 |> <| e_snd_nxt := 2 |>
  <| e_snd_buf := [seg 4294967295; seg 0; seg 1] |>.
Definition state : St := Timed engine 2.

Lemma inflight_good : Inv engine.
Proof.
  assert (Hs : ∀ n, in_u 32 n → sendable (mss_of Sample.config) (seg n)).
  { intros n Hn. constructor; try (vm_compute; split; congruence). split; [|done].
    constructor; cbn; try done; vm_compute; split; congruence. }
  destruct (proj1 Sample.good). constructor; try assumption; try (vm_compute; split; congruence).
  constructor; cbn.
  - vm_compute. congruence.
  - repeat (apply Forall_cons; split; [apply Hs; vm_compute; split; congruence|]). by apply Forall_nil.
  - by repeat (apply Forall_cons; split; [reflexivity|]).
  - by repeat (apply Forall_cons; split; [vm_compute; reflexivity|]).
  - repeat (apply StronglySorted_cons; split; [by repeat (apply Forall_cons; split; [vm_compute; reflexivity|])|]).
    constructor.
Qed.
End AckSample.

Lemma parse_una_exact_witness :
  e_snd_buf (inner (parse_una 1 AckSample.state).2) = [AckSample.seg 1].
Proof.
  pose proof (parse_una_exact 1 AckSample.state AckSample.inflight_good ltac:(vm_compute; split; congruence)
    ltac:(vm_compute; congruence)) as H.
  apply wp_run in H. destruct (parse_una 1 AckSample.state) as [[a|err|p] s']; [|done..].
  destruct H as [_ H]. cbn. rewrite H. vm_compute. reflexivity.
Defined.

Lemma parse_ack_exact_witness :
  e_snd_buf (inner (parse_ack 0 AckSample.state).2) = [AckSample.seg 4294967295; AckSample.seg 1].
Proof.
  pose proof (parse_ack_exact 0 AckSample.state AckSample.inflight_good ltac:(vm_compute; split; congruence)) as H.
  apply wp_run in H. destruct (parse_ack 0 AckSample.state) as [[a|err|p] s']; [|done..].
  destruct H as [_ H]. cbn. rewrite H. vm_compute. reflexivity.
Defined.

Lemma rtt_estimate_witness :
  e_rtt (inner (update_ack (prof := debug_build) 50 AckSample.state).2) = Build_RttState 50 25 150 100.
Proof.
  pose proof (rtt_estimate (prof := debug_build) 50 AckSample.state AckSample.inflight_good ltac:(lia)
    ltac:(vm_compute; congruence)) as H.
  apply wp_run in H. destruct (update_ack _ _) as [[a|err|p] s']; [|done..].
  destruct H as [H _]. cbn. rewrite H. vm_compute. reflexivity.
Defined.

Lemma cwnd_growth_witness :
  let r := update_cwnd (prof := release_build) 4294967290 AckSample.state in
  32 ≤ w_cwnd (e_wnd (inner r.2)) ≤ 128.
Proof.
  pose proof (cwnd_growth (prof := release_build) 4294967290 AckSample.state AckSample.inflight_good) as H.
  apply wp_run in H. cbn zeta. destruct (update_cwnd _ _) as [[a|err|p] s']; [|done|by destruct H].
  destruct H as (_ & cwnd & incr & Hs & H1 & H2). cbn. rewrite Hs. cbn in *. lia.
Defined.
