(* ===== verification/Input.v ===== *)
(** kcp-core/src/engine.rs, [input]: parsing a datagram into segments and
    dispatching each on its command. *)
From S2P Require Import Prelude Monad Protocol Error Config Engine Recv Ack.

(** The locals of [input]'s loop. *)
Record rx := { x_buf : bytes; x_flag : bool; x_max_ack : Z; x_latest_ts : Z }.
#[export] Instance rx_eta : Eta rx := λ x,
  Build_rx (x_buf x) (x_flag x) (x_max_ack x) (x_latest_ts x).

Section Input.
Context {prof : Profile} {clk : Clock} {api : BytesApi}.

(** The header of a segment at the front of [buf] and the segment itself, or
    [None] where the loop breaks; the slices are in range by the length
    tests before them ([KcpHeader::decode] reads a clone of [buf]). *)
Definition next_segment (buf : bytes) : T (option (KcpSegment * bytes)) :=
  if len buf <? SIZE then mret None
  else
    match KcpHeader_decode buf with
    | None => mret None
    | Some (header, _) =>
        let seg_len := SIZE + h_len header in
        if len buf <? seg_len then mret None
        else
          chunk ← slice 0 seg_len buf;
          match KcpSegment_decode chunk with
          | None => mret None
          | Some seg =>
              rest ← slice seg_len (len buf) buf;
              mret (Some (seg, rest))
          end
    end.

Definition ack_segment (current : Z) (segment : KcpSegment) (x : rx) : T rx :=
  let h := s_header segment in
  whenM (0 <=? time_diff current (h_ts h)) (update_ack (time_diff current (h_ts h)));;
  parse_ack (h_sn h);;
  if negb (x_flag x) then
    mret (x <| x_flag := true |> <| x_max_ack := h_sn h |> <| x_latest_ts := h_ts h |>)
  else if seq_after (h_sn h) (x_max_ack x) && (0 <? time_diff (h_ts h) (x_latest_ts x)) then
    mret (x <| x_max_ack := h_sn h |> <| x_latest_ts := h_ts h |>)
  else mret x.

Definition push_segment (segment : KcpSegment) : T () :=
  rcv_nxt ← get e_rcv_nxt;
  rcv ← get w_rcv_of;
  limit ← uadd 32 rcv_nxt rcv;
  whenM (seq_before (sn segment) limit)
    (ack_push (sn segment) (h_ts (s_header segment));;
     rcv_nxt ← get e_rcv_nxt;
     whenM (negb (seq_before (sn segment) rcv_nxt)) (parse_data segment)).

(** The body of the loop from the check of [conv] on. *)
Definition process_segment (current : Z) (segment : KcpSegment) (x : rx) : T rx :=
  let h := s_header segment in
  conv ← get e_conv;
  if negb (h_conv h =? conv) then mret x
  else
    update_self (λ e, e <| e_wnd ::= λ w, w <| w_rmt := h_wnd h |> |>);;
    parse_una (h_una h);;
    if h_cmd h =? IKCP_CMD_ACK then ack_segment current segment x
    else if h_cmd h =? IKCP_CMD_PUSH then push_segment segment;; mret x
    else if h_cmd h =? IKCP_CMD_WASK then
      update_self (λ e, e <| e_probe ::= λ p,
        p <| p_flags := Z.lor (p_flags p) IKCP_ASK_TELL |> |>);; mret x
    else mret x.

Definition input_step (current : Z) (x : rx) : T (rx + rx) :=
  next ← next_segment (x_buf x);
  match next with
  | None => mret (inr x)
  | Some (segment, rest) =>
      x ← process_segment current segment (x <| x_buf := rest |>);
      mret (inl x)
  end.

(** Each turn that goes on consumes a header, so this fuel is enough. *)
Definition input (data : bytes) : T () :=
  current ← current_timestamp;
  update_self (λ e, e <| e_last_activity := current |>);;
  if len data <? SIZE then fail (Protocol "Packet too small")
  else
    prev_una ← get e_snd_una;
    x ← iterM (S (length data)) (input_step current) (Build_rx data false 0 0);
    shrink_buf;;
    whenM (x_flag x) (parse_fastack (x_max_ack x) (x_latest_ts x));;
    update_cwnd prev_una;;
    count_stat packets_received 1.
End Input.

(** * Parsing, apart from processing *)

Section Parse.
Context {api : BytesApi}.

(** The segment at the front of a buffer and what follows it. *)
Definition parse_one (buf : bytes) : option (KcpSegment * bytes) :=
  '(h, rest) ← KcpHeader_decode buf;
  if len rest <? h_len h then None
  else Some (Build_KcpSegment h (take (Z.to_nat (h_len h)) rest) 0 IKCP_RTO_DEF 0 0,
             drop (Z.to_nat (h_len h)) rest).

(** All of them, each with what follows it. *)
Fixpoint parse_all (fuel : nat) (buf : bytes) : list (KcpSegment * bytes) :=
  match fuel with
  | O => []
  | S fuel =>
      match parse_one buf with
      | Some (seg, rest) => (seg, rest) :: parse_all fuel rest
      | None => []
      end
  end.
Definition parse_datagram (d : bytes) : list KcpSegment :=
  map fst (parse_all (length d) d).
End Parse.

Section ParseFacts.
Context {api : BytesApi} {spec : BytesApiSpec api}.

Lemma parse_one_Some buf seg rest :
  parse_one buf = Some (seg, rest) →
  segment_ok seg ∧ wire_segment seg = seg ∧ buf = segment_bytes seg ++ rest.
Proof.
  unfold parse_one. destruct (KcpHeader_decode buf) as [[h r]|] eqn:Hd; [|done].
  apply KcpHeader_decode_Some in Hd as [Hok ->]. cbn.
  destruct (Z.ltb_spec (len r) (h_len h)) as [|Hl]; [done|]. intros [= <- <-].
  split_and!; [|done|].
  - split; [done|]. cbn. rewrite len_take. pose proof (len_u32 _ Hok). zlia.
  - unfold segment_bytes. cbn. by rewrite <- (assoc (++)), take_drop.
Qed.

Lemma parse_one_bytes seg rest :
  segment_ok seg → parse_one (segment_bytes seg ++ rest) = Some (wire_segment seg, rest).
Proof.
  intros [Hh Hl]. unfold parse_one, segment_bytes. rewrite <- (assoc (++)).
  rewrite KcpHeader_decode_bytes by done. cbn. rewrite Hl, len_app.
  pose proof (len_nonneg rest). rewrite (proj2 (Z.ltb_ge _ _)) by lia.
  unfold len. rewrite Nat2Z.id, take_app_length, drop_app_length. done.
Qed.

Lemma parse_one_shorter buf seg rest :
  parse_one buf = Some (seg, rest) → (length rest + 24 ≤ length buf)%nat.
Proof.
  intros (_ & _ & ->)%parse_one_Some. pose proof (len_segment_bytes seg) as Hl.
  unfold KcpSegment_size, SIZE, len in Hl. rewrite length_app. lia.
Qed.

Lemma parse_all_bytes segs : Forall segment_ok segs → ∀ fuel,
  (length segs ≤ fuel)%nat →
  map fst (parse_all fuel (concat (map segment_bytes segs))) = map wire_segment segs.
Proof.
  induction 1 as [|seg segs Hseg Hsegs IH]; intros fuel Hf; cbn [map concat].
  - destruct fuel; [done|]. cbn. unfold parse_one.
    by rewrite (proj2 (KcpHeader_decode_None _)).
  - destruct fuel as [|fuel]; [cbn in Hf; lia|]. cbn. rewrite parse_one_bytes by done.
    cbn. f_equal. apply IH. cbn in Hf. lia.
Qed.

Lemma length_concat_segments segs : (length segs ≤ length (concat (map segment_bytes segs)))%nat.
Proof.
  induction segs as [|seg segs IH]; [done|]. cbn [map concat]. rewrite length_app.
  pose proof (len_segment_bytes seg) as Hl. unfold KcpSegment_size, SIZE, len in Hl. cbn. lia.
Qed.

Lemma parse_datagram_bytes segs :
  Forall segment_ok segs → parse_datagram (concat (map segment_bytes segs)) = map wire_segment segs.
Proof. intros H. apply parse_all_bytes; [done|]. apply length_concat_segments. Qed.

Context {prof : Profile} {clk : Clock}.

Lemma next_segment_run buf s : next_segment buf s = (Ok (parse_one buf), s).
Proof.
  unfold next_segment, parse_one.
  destruct (Z.ltb_spec (len buf) SIZE) as [Hs|Hs].
  { by rewrite (proj2 (KcpHeader_decode_None _) Hs). }
  destruct (KcpHeader_decode buf) as [[h rest]|] eqn:Hd; [|done].
  apply KcpHeader_decode_Some in Hd as [Hok ->]. cbn. pose proof (len_u32 _ Hok) as Hlen.
  rewrite len_app, len_header_bytes.
  destruct (Z.ltb_spec (len rest) (h_len h)) as [Hl|Hl].
  { rewrite (proj2 (Z.ltb_lt _ _)) by lia. done. }
  rewrite (proj2 (Z.ltb_ge _ _)) by lia.
  set (d := take (Z.to_nat (h_len h)) rest).
  assert (Hd : len d = h_len h) by (unfold d; rewrite len_take; unfold in_u in Hlen; lia).
  set (seg := Build_KcpSegment h d 0 IKCP_RTO_DEF 0 0).
  assert (Hseg : segment_ok seg) by done.
  assert (Hcut : header_bytes h ++ rest = segment_bytes seg ++ drop (Z.to_nat (h_len h)) rest).
  { unfold segment_bytes. cbn. unfold d. by rewrite <- (assoc (++)), take_drop. }
  assert (Hlb : len (segment_bytes seg) = SIZE + h_len h)
    by (rewrite len_segment_bytes, <- Hd; reflexivity).
  unfold in_u, SIZE in *. pose proof (len_nonneg rest). unfold mbind, M_bind.
  rewrite slice_run by (rewrite ?len_app, ?len_header_bytes; unfold SIZE; lia).
  rewrite Hcut, Z.sub_0_r, drop_0, take_app_length' by (unfold len in Hlb; lia).
  rewrite KcpSegment_decode_bytes by done.
  rewrite slice_run by (rewrite <- ?Hcut, ?len_app, ?len_header_bytes; unfold SIZE; lia).
  rewrite drop_app_length' by (unfold len in Hlb; lia). cbn.
  rewrite (take_ge (drop _ rest)) by (rewrite length_drop; unfold len in *; lia). done.
Qed.
End ParseFacts.

(** * The loop *)

(** The locals of the loop are [u32]s. *)
Record rx_ok (x : rx) : Prop := {
  xo_max : in_u 32 (x_max_ack x);
  xo_ts : in_u 32 (x_latest_ts x);
}.

Section InputFacts.
Context {prof : Profile} {clk : Clock} {api : BytesApi} {spec : BytesApiSpec api}.

Lemma parse_ack_inv sn0 : in_u 32 sn0 → keeps_inv (parse_ack sn0).
Proof.
  intros Hs s HI. apply (wp_weaken_K _ no_panic); [done|].
  apply parse_ack_spec; [done..|]. by apply filter_sublist_inv.
Qed.

Lemma ack_segment_inv current seg x s :
  Inv (inner s) → segment_ok seg → rx_ok x →
  wp checked_overflow (ack_segment current seg x)
    (λ x' s', Inv (inner s') ∧ rx_ok x' ∧ x_buf x' = x_buf x) (λ _ _, False) s.
Proof.
  intros HI [[] _] [Hm Ht]. unfold ack_segment. estep.
  eapply (wp_post _ _ (λ _ s', Inv (inner s'))).
  { apply wp_when; intros _; [|done]. apply update_ack_inv; [apply time_diff_range|done]. }
  intros _ s1 HI1. estep. eapply wp_post; [by apply parse_ack_inv|]. intros [] s2 HI2. cbv beta.
  apply wp_if; intros _; [|apply wp_if; intros _]; estep; (split; [exact HI2|]); split; try done; by constructor.
Qed.

(** A data segment before the end of the receive window is acknowledged; if
    it is inside the window it is filed, otherwise it is a duplicate. *)
Lemma push_segment_spec seg s :
  Inv (inner s) → segment_ok seg →
  let e := inner s in
  let ack := (sn seg, h_ts (s_header seg)) in
  wp checked_overflow (push_segment seg)
    (λ _ s', Inv (inner s') ∧
      if seq_before (sn seg) (as_u32 (e_rcv_nxt e + c_rcv_wnd (e_config e))) then
        e_ack_list (inner s') = e_ack_list e ++ [ack] ∧
        if decide (offset_from (e_rcv_nxt e) (sn seg) < c_rcv_wnd (e_config e)) then
          stalled (inner s') ∧ ∃ segs,
            moved segs (e <| e_ack_list ::= λ l, l ++ [ack] |> <| e_rcv_buf ::= λ m,
              match m !! sn seg with Some _ => m | None => <[sn seg := seg]> m end |>)
              (inner s')
        else inner s' = e <| e_ack_list ::= λ l, l ++ [ack] |>
      else s' = s)
    (λ _ _, False) s.
Proof.
  intros HI Hseg e ack. unfold push_segment. do 6 estep.
  assert (Hrcv : w_rcv_of (inner s) = c_rcv_wnd (e_config (inner s))) by apply HI.
  rewrite Hrcv. unfold as_u32. subst e. destruct (seq_before (sn seg) (wrap 32 _)) eqn:Hlim; [|done].
  cbn [whenM]. estep. unfold ack_push. do 3 estep. fold ack.
  match goal with |- wp _ _ _ _ ?st => set (s1 := st) end.
  assert (HI1 : Inv (inner s1)).
  { inv_fields. apply Forall_app. split; [done|]. apply Forall_singleton.
    destruct Hseg as [[] _]. done. }
  apply wp_when; intros Hnxt.
  - eapply wp_post; [by apply parse_data_spec|]. intros _ s' [HI' Hd]. split; [done|].
    change (e_rcv_nxt (inner s1)) with (e_rcv_nxt (inner s)) in Hd.
    change (e_config (inner s1)) with (e_config (inner s)) in Hd.
    destruct (decide _) as [Hw|Hw].
    + destruct Hd as (Hst & segs & Hmv). split; [by rewrite (mv_frame _ _ _ Hmv)|].
      split; [done|]. by exists segs.
    + subst s'. done.
  - split; [done|]. split; [done|]. rewrite decide_False; [done|].
    intros Hw. apply negb_false_iff in Hnxt.
    pose proof (in_window _ _ (sn seg) (i_rcv_nxt _ HI) (sn_u32 _ (proj1 Hseg)) (wo_rcv _ (i_config _ HI))) as Hiw.
    apply Hiw in Hw. cbn in Hnxt. rewrite Hnxt, andb_false_r in Hw. done.
Qed.

Lemma process_segment_inv current seg x s :
  Inv (inner s) → segment_ok seg → rx_ok x →
  wp checked_overflow (process_segment current seg x)
    (λ x' s', Inv (inner s') ∧ rx_ok x' ∧ x_buf x' = x_buf x) (λ _ _, False) s.
Proof.
  intros HI Hseg Hx. unfold process_segment. do 2 estep.
  apply wp_if; intros _; [by estep|]. do 3 estep.
  set (s1 := Timed _ _).
  assert (HI1 : Inv (inner s1)).
  { destruct Hseg as [[] _]. inv_fields. destruct i_wnd. by constructor. }
  eapply wp_post; [by apply parse_una_inv|]. intros [] s2 HI2. cbv beta.
  apply wp_if; intros _; [by apply ack_segment_inv|].
  apply wp_if; intros _.
  { estep. eapply wp_post; [by apply push_segment_spec|]. intros _ s3 [HI3 _]. by estep. }
  apply wp_if; intros _; [|by estep]. do 3 estep. split_and!; [|done|done]. cbn [inner].
  pose proof (flags_or _ 2 (i_probe _ HI2) ltac:(lia)). inv_fields. destruct i_probe. by constructor.
Qed.

(** ** The loop is a fold over the parsed datagram *)

Lemma process_segment_buf current seg x s :
  wp (λ _, True) (process_segment current seg x) (λ x' _, x_buf x' = x_buf x) (λ _ _, True) s.
Proof.
  unfold process_segment. do 2 estep. apply wp_if; intros _; [by estep|]. do 2 estep.
  estep. eapply wp_post; [apply wp_true|]. intros _ s1 _.
  apply wp_if; intros _.
  { unfold ack_segment. do 2 (estep; eapply wp_post; [apply wp_true|]; intros _ ? _).
    do 2 (apply wp_if; intros _; [by estep|]). by estep. }
  apply wp_if; intros _; [estep; eapply wp_post; [apply wp_true|]; intros _ ? _; by estep|].
  apply wp_if; intros _; [|by estep]. by do 3 estep.
Qed.

(** [input] with parsing and processing apart. *)
Definition process_all (current : Z) (x : rx) (l : list (KcpSegment * bytes)) : T rx :=
  foldM (λ x p, process_segment current p.1 (x <| x_buf := p.2 |>)) x l.

Definition input_two_phase (data : bytes) : T () :=
  current ← current_timestamp;
  update_self (λ e, e <| e_last_activity := current |>);;
  if len data <? SIZE then fail (Protocol "Packet too small")
  else
    prev_una ← get e_snd_una;
    x ← process_all current (Build_rx data false 0 0) (parse_all (S (length data)) data);
    shrink_buf;;
    whenM (x_flag x) (parse_fastack (x_max_ack x) (x_latest_ts x));;
    update_cwnd prev_una;;
    count_stat packets_received 1.

Lemma input_loop_fold current fuel : ∀ x s,
  (length (x_buf x) < fuel)%nat →
  iterM fuel (input_step current) x s = process_all current x (parse_all fuel (x_buf x)) s.
Proof.
  induction fuel as [|fuel IH]; intros x s Hf; [lia|].
  cbn [iterM parse_all]. unfold input_step, process_all in *. unfold mbind, M_bind in *.
  rewrite next_segment_run. destruct (parse_one (x_buf x)) as [[seg rest]|] eqn:Hp; [|done].
  cbn [foldM fst snd]. unfold mbind, M_bind.
  pose proof (process_segment_buf current seg (x <| x_buf := rest |>) s) as Hbuf. unfold wp in Hbuf.
  destruct (process_segment _ _ _ s) as [[x'|e|p] s']; [|done..]. cbn in Hbuf.
  apply parse_one_shorter in Hp. cbn. rewrite IH by (rewrite Hbuf; lia). by rewrite Hbuf.
Qed.

Lemma input_is_two_phase data s : input data s = input_two_phase data s.
Proof.
  unfold input, input_two_phase, mbind, M_bind, current_timestamp, update_self, get, gets, modify.
  cbn -[iterM process_all parse_all]. destruct (len data <? SIZE); [done|].
  cbn -[iterM process_all parse_all]. by rewrite input_loop_fold by (cbn; lia).
Qed.

Lemma process_all_inv current l : ∀ x s,
  Forall (λ p, segment_ok p.1) l → Inv (inner s) → rx_ok x →
  wp checked_overflow (process_all current x l)
    (λ x' s', Inv (inner s') ∧ rx_ok x') (λ _ _, False) s.
Proof.
  unfold process_all. induction l as [|[seg rest] l IH]; intros x s Hl HI Hx; cbn [foldM].
  - by estep.
  - apply Forall_cons in Hl as [Hseg Hl]. estep.
    eapply wp_post; [apply process_segment_inv; [done|done|by destruct Hx]|].
    intros x' s' (HI' & Hx' & _). by apply IH.
Qed.

Lemma parse_all_ok fuel : ∀ buf, Forall (λ p, segment_ok p.1) (parse_all fuel buf).
Proof.
  induction fuel as [|fuel IH]; intros buf; cbn; [constructor|].
  destruct (parse_one buf) as [[seg rest]|] eqn:Hp; [|constructor].
  apply parse_one_Some in Hp as (Hok & _). by constructor.
Qed.

Lemma input_inv data s :
  Inv (inner s) →
  wp checked_overflow (input data) (λ _ s', Inv (inner s') ∧ una_tight (inner s') ∧ SIZE ≤ len data)
    (λ err s', err = Protocol "Packet too small" ∧ len data < SIZE ∧
       ∃ now, inner s' = (inner s) <| e_last_activity := now |> ∧ Inv (inner s')) s.
Proof.
  intros HI. unfold wp. rewrite input_is_two_phase.
  change (wp checked_overflow (input_two_phase data)
    (λ _ s', Inv (inner s') ∧ una_tight (inner s') ∧ SIZE ≤ len data)
    (λ err s', err = Protocol "Packet too small" ∧ len data < SIZE ∧
       ∃ now, inner s' = (inner s) <| e_last_activity := now |> ∧ Inv (inner s')) s).
  unfold input_two_phase. do 4 estep. cbn [inner ticks].
  assert (HI1 : Inv ((inner s) <| e_last_activity := now |>)) by (by inv_fields).
  apply wp_if; intros Hlen.
  { apply Z.ltb_lt in Hlen. estep. split_and!; [done..|]. by exists now. }
  apply Z.ltb_ge in Hlen. do 3 estep.
  eapply wp_mono; [apply process_all_inv; [apply parse_all_ok|done|by split]| |done].
  intros x s1 [HIs1 _]. cbv beta. estep. apply (wp_weaken_K _ no_panic); [done|].
  apply shrink_buf_spec; [done|]. intros s2 HI2 Ht2.
  estep. eapply (wp_mono _ _ (λ _ s', Inv (inner s') ∧ una_tight (inner s'))).
  { apply wp_when; intros _; [|done]. eapply wp_mono; [by apply parse_fastack_spec| |done].
    intros _ s3 (HI3 & buf & He & H2). split; [done|].
    eapply una_tight_ext; [..|exact Ht2]; rewrite He; [done..|]. cbn.
    clear - H2. induction H2 as [|? ? ? ? -> _ IH]; cbn; [done|]. by rewrite IH. }
  2: by intros ? ? [].
  intros [] s3 [HI3 Ht3]. cbv beta. estep. eapply wp_mono; [by apply update_cwnd_spec| |by intros ? ? []].
  intros [] s4 (HI4 & _ & cwnd & incr & He & _). cbv beta. apply wp_count_stat. cbn [inner].
  assert (Ht4 : una_tight (inner s4)) by (by rewrite He).
  split_and!; [|exact Ht4|done]. inv_fields. solve_stats.
Qed.
End InputFacts.

(** * Theorems *)

Section InputTheorems.
Context {prof : Profile} {clk : Clock} {api : BytesApi} {spec : BytesApiSpec api}.

(** [input]'s loop over the buffer is a fold over the segments the
    datagram parses into: parsing does not depend on the connection, and the
    loop always ends. *)
Theorem input_parses_then_processes data s : input data s = input_two_phase data s.
Proof. apply input_is_two_phase. Qed.

(** C21: whatever bytes arrive, [input] leaves the engine in order, with
    [snd_una] the first unacknowledged number; the only bytes it refuses are
    those too short for a header, and they change nothing but the time of
    the last activity. *)
Theorem input_any_bytes data s :
  Inv (inner s) →
  wp checked_overflow (input data)
    (λ _ s', Inv (inner s') ∧ una_tight (inner s') ∧ SIZE ≤ len data)
    (λ err s', err = Protocol "Packet too small" ∧ len data < SIZE ∧
       ∃ now, inner s' = (inner s) <| e_last_activity := now |> ∧ Inv (inner s')) s.
Proof. apply input_inv. Qed.

Lemma process_all_foreign current l : ∀ x s,
  Forall (λ p, h_conv (s_header p.1) ≠ e_conv (inner s)) l →
  ∃ x', process_all current x l s = (Ok x', s) ∧ x_flag x' = x_flag x.
Proof.
  unfold process_all. induction l as [|[seg rest] l IH]; intros x s Hl; cbn [foldM]; [by exists x|].
  apply Forall_cons in Hl as [Hseg Hl]. unfold mbind, M_bind in *.
  unfold process_segment, mbind, M_bind, get, gets.
  apply Z.eqb_neq in Hseg. cbn [fst snd] in *. rewrite Hseg. cbn [negb mret M_ret].
  destruct (IH (x <| x_buf := rest |>) s Hl) as (x' & Hx' & Hf). exists x'. by split.
Qed.

(** The segments of another conversation are ignored: a datagram that
    holds no other leaves everything but the activity time and the packet
    count as it was. *)
Theorem input_foreign data s :
  Inv (inner s) → una_tight (inner s) → SIZE ≤ len data →
  Forall (λ p, h_conv (s_header p.1) ≠ e_conv (inner s)) (parse_all (S (length data)) data) →
  wp checked_overflow (input data)
    (λ _ s', ∃ now, inner s' = (inner s) <| e_last_activity := now |>
       <| e_stats ::= λ st, st <| packets_received := wrap 64 (packets_received st + 1) |> |>)
    (λ _ _, False) s.
Proof.
  intros HI Ht Hlen Hl. unfold wp. rewrite input_is_two_phase.
  change (wp checked_overflow (input_two_phase data)
    (λ _ s', ∃ now, inner s' = (inner s) <| e_last_activity := now |>
       <| e_stats ::= λ st, st <| packets_received := wrap 64 (packets_received st + 1) |> |>)
    (λ _ _, False) s).
  unfold input_two_phase. do 4 estep. cbn [inner ticks]. apply wp_if; intros Hs; [apply Z.ltb_lt in Hs; lia|].
  do 3 estep. set (s1 := Timed _ _).
  destruct (process_all_foreign now _ (Build_rx data false 0 0) s1 Hl) as (x' & Hx & Hf).
  unfold wp at 1. rewrite Hx. cbn in Hf. unfold shrink_buf. do 2 estep. rewrite Hf. cbn [whenM]. do 2 estep.
  estep. unfold update_cwnd. do 4 estep. cbn [inner].
  set (e2 := (inner s1) <| e_snd_una := _ |>).
  assert (He2 : e2 = inner s1).
  { subst e2. unfold una_tight in Ht. subst s1. cbn. rewrite <- Ht. by destruct (inner s). }
  rewrite He2. replace (seq_after (e_snd_una (inner s1)) (e_snd_una (inner s1))) with false.
  2:{ symmetry. apply not_true_iff_false. rewrite seq_after_true. zlia. }
  cbn [andb whenM]. estep. apply wp_count_stat. by exists now.
Qed.

(** C22: a data segment before the end of the receive window is
    acknowledged; if it is inside the window it is filed under its number
    unless that number is there already, and the receive queue then takes
    every segment that is next in sequence and fits; anything else is
    ignored. *)
Theorem push_in_window seg s :
  Inv (inner s) → segment_ok seg →
  let e := inner s in
  let ack := (sn seg, h_ts (s_header seg)) in
  wp checked_overflow (push_segment seg)
    (λ _ s', Inv (inner s') ∧
      if seq_before (sn seg) (as_u32 (e_rcv_nxt e + c_rcv_wnd (e_config e))) then
        e_ack_list (inner s') = e_ack_list e ++ [ack] ∧
        if decide (offset_from (e_rcv_nxt e) (sn seg) < c_rcv_wnd (e_config e)) then
          stalled (inner s') ∧ ∃ segs,
            moved segs (e <| e_ack_list ::= λ l, l ++ [ack] |> <| e_rcv_buf ::= λ m,
              match m !! sn seg with Some _ => m | None => <[sn seg := seg]> m end |>)
              (inner s')
        else inner s' = e <| e_ack_list ::= λ l, l ++ [ack] |>
      else s' = s)
    (λ _ _, False) s.
Proof. apply push_segment_spec. Qed.
End InputTheorems.

Module InputSample.
(** A datagram with one data segment, from conversation [conv]. *)
Definition datagram (conv : Z) : bytes :=
  segment_bytes (Build_KcpSegment (Build_KcpHeader conv IKCP_CMD_PUSH 0 64 900 0 0 3) [x61; x62; x63] 0 0 0 0).
End InputSample.

Lemma input_parses_then_processes_witness :
  (input (prof := release_build) (clk := Sample.clock) (InputSample.datagram 7) Sample.state).1 = Ok tt.
Proof.
  rewrite (input_parses_then_processes (spec := bytes_le_spec) (InputSample.datagram 7) Sample.state).
  vm_compute. reflexivity.
Defined.

Lemma input_any_bytes_witness :
  Inv (inner (input (prof := release_build) (clk := Sample.clock) (InputSample.datagram 7) Sample.state).2).
Proof.
  pose proof (input_any_bytes (prof := release_build) (clk := Sample.clock) (InputSample.datagram 7) Sample.state
    (proj1 Sample.good)) as H.
  apply wp_run in H. destruct (input _ _) as [[a|err|p] s'].
  - exact (proj1 H).
  - destruct H as (_ & _ & now & _ & HI). exact HI.
  - destruct H as [_ H]. discriminate H.
Defined.

Lemma input_foreign_witness :
  ∃ now, inner (input (prof := release_build) (clk := Sample.clock) (InputSample.datagram 8) Sample.state).2 =
    Sample.engine <| e_last_activity := now |> <| e_stats ::= λ st, st <| packets_received := 1 |> |>.
Proof.
  pose proof (input_foreign (prof := release_build) (clk := Sample.clock) (InputSample.datagram 8) Sample.state
    (proj1 Sample.good) (proj2 Sample.good) ltac:(vm_compute; congruence)
    ltac:(apply Forall_cons; split; [vm_compute; congruence|by apply Forall_nil])) as H.
  apply wp_run in H. destruct (input _ _) as [[[]|err|p] s']; [|done|by destruct H].
  destruct H as [now H]. exists now. exact H.
Defined.

Lemma push_in_window_witness :
  let seg := RecvSample.seg 0 0 [x61] in
  let r := push_segment (prof := release_build) seg Sample.state in
  e_ack_list (inner r.2) = [(0, 0)].
Proof.
  pose proof (push_in_window (prof := release_build) (RecvSample.seg 0 0 [x61]) Sample.state
    (proj1 Sample.good) ltac:(split; [split; vm_compute; split; congruence|done])) as H.
  apply wp_run in H. cbn zeta in *. destruct (push_segment _ _) as [[[]|err|p] s']; [|done|by destruct H].
  by destruct H as (_ & H & _).
Defined.
