(* ===== verification/Flush.v ===== *)
(** kcp-core/src/engine.rs, [flush] and the timer: acknowledgements, window
    probes, moving data into the send buffer, (re)transmission, loss response,
    and the deadlines [check] and [update] compute. *)
From S2P Require Import Prelude Monad Protocol Error Config Engine Output Ack.

(** What one scan of the send buffer accumulates: the segments after it, the
    indices to send, and the flags [lost] and [change]. *)
Record scan := { k_segs : list KcpSegment; k_send : list nat; k_lost : bool; k_change : bool }.
#[export] Instance scan_eta : Eta scan := λ k,
  Build_scan (k_segs k) (k_send k) (k_lost k) (k_change k).

Section Flush.
Context {prof : Profile} {clk : Clock} {api : BytesApi}.

Definition flush_acks : T () :=
  ack_list ← get e_ack_list;
  if is_empty ack_list then mret tt
  else
    wnd ← wnd_unused;
    una ← get e_rcv_nxt;
    update_self (λ e, e <| e_ack_list := [] |>);;
    forM ack_list (λ '(sn0, ts),
      conv ← get e_conv;
      seg ← KcpSegment_ack conv sn0 ts;
      output_segment
        (seg <| s_header ::= λ h, h <| h_wnd := as_u16 wnd |> <| h_una := una |> |>)).

Definition set_probe (f : ProbeState → ProbeState) : T () :=
  update_self (λ e, e <| e_probe ::= f |>).

(** The timer part of [handle_window_probe]. *)
Definition probe_timer (current : Z) : T () :=
  w ← get e_wnd;
  p ← get e_probe;
  if w_rmt w =? 0 then
    if p_wait p =? 0 then
      set_probe (λ p, p <| p_wait := IKCP_PROBE_INIT |>);;
      ts ← uadd 32 current IKCP_PROBE_INIT;
      set_probe (λ p, p <| p_ts := ts |>)
    else
      whenM (0 <=? time_diff current (p_ts p))
        (let wait := if p_wait p <? IKCP_PROBE_INIT then IKCP_PROBE_INIT else p_wait p in
         wait ← uadd 32 wait (wait / 2);
         let wait := if IKCP_PROBE_LIMIT <? wait then IKCP_PROBE_LIMIT else wait in
         set_probe (λ p, p <| p_wait := wait |>);;
         ts ← uadd 32 current wait;
         set_probe (λ p, p <| p_ts := ts |>
           <| p_flags := Z.lor (p_flags p) IKCP_ASK_SEND |>))
  else set_probe (λ p, p <| p_ts := 0 |> <| p_wait := 0 |>).

Definition send_probe (flag cmd : Z) : T () :=
  p ← get e_probe;
  whenM (negb (Z.land (p_flags p) flag =? 0))
    (segment ← create_probe_segment cmd; output_segment segment).

Definition handle_window_probe (current : Z) : T () :=
  probe_timer current;;
  send_probe IKCP_ASK_SEND IKCP_CMD_WASK;;
  send_probe IKCP_ASK_TELL IKCP_CMD_WINS;;
  set_probe (λ p, p <| p_flags := 0 |>).

(** The window [move_to_send_buf] sends within. *)
Definition send_window_of (e : KcpEngine) : Z :=
  let w := e_wnd e in
  let cwnd := Z.min (w_snd w) (w_rmt w) in
  if nd_no_congestion_control (c_nodelay (e_config e)) then cwnd else Z.min (w_cwnd w) cwnd.

Definition move_to_send_one (current cwnd : Z) (_ : ()) : T (() + ()) :=
  snd_nxt ← get e_snd_nxt;
  snd_una ← get e_snd_una;
  limit ← uadd 32 snd_una cwnd;
  if time_diff snd_nxt limit <? 0 then
    snd_queue ← get e_snd_queue;
    match snd_queue with
    | [] => mret (inr tt)
    | segment :: rest =>
        update_self (λ e, e <| e_snd_queue := rest |>);;
        conv ← get e_conv;
        wnd ← wnd_unused;
        rcv_nxt ← get e_rcv_nxt;
        rtt ← get e_rtt;
        let segment :=
          segment <| s_header ::= λ h,
            h <| h_conv := conv |> <| h_cmd := IKCP_CMD_PUSH |> <| h_wnd := as_u16 wnd |>
              <| h_ts := current |> <| h_sn := snd_nxt |> <| h_una := rcv_nxt |> |>
          <| s_resendts := current |> <| s_rto := r_rto rtt |>
          <| s_fastack := 0 |> <| s_xmit := 0 |> in
        update_self (λ e, e <| e_snd_buf ::= λ q, q ++ [segment] |>);;
        nxt ← uadd 32 snd_nxt 1;
        update_self (λ e, e <| e_snd_nxt := nxt |>);;
        mret (inl tt)
    end
  else mret (inr tt).

(** Each turn that goes on pops [snd_queue], so this fuel is enough. *)
Definition move_to_send_buf (current : Z) : T () :=
  cwnd ← get send_window_of;
  snd_queue ← get e_snd_queue;
  iterM (S (length snd_queue)) (move_to_send_one current cwnd) tt.

(** The body of [mark_segments_for_send]'s loop, without the header fields it
    sets on a segment to send: the segment, [needsend], [lost], [change]. *)
Definition mark_one (current resend rtomin : Z) (segment : KcpSegment)
    : T (KcpSegment * bool * bool * bool) :=
  rtt ← get e_rtt;
  config ← get e_config;
  let nodelay := c_nodelay config in
  if s_xmit segment =? 0 then
    a ← uadd 32 current (r_rto rtt);
    resendts ← uadd 32 a rtomin;
    mret (segment <| s_xmit := 1 |> <| s_rto := r_rto rtt |> <| s_resendts := resendts |>,
          true, false, false)
  else if 0 <=? time_diff current (s_resendts segment) then
    xmit ← uadd 32 (s_xmit segment) 1;
    count_stat retransmissions 1;;
    rto ← (if nd_nodelay nodelay then
             let step := if nd_no_congestion_control nodelay then r_rto rtt else s_rto segment in
             uadd 32 (s_rto segment) (step / 2)
           else uadd 32 (s_rto segment) (Z.max (s_rto segment) (nd_interval nodelay)));
    resendts ← uadd 32 current rto;
    mret (segment <| s_xmit := xmit |> <| s_rto := rto |> <| s_resendts := resendts |>,
          true, true, false)
  else if (resend <=? s_fastack segment) &&
          ((s_xmit segment <=? IKCP_FASTACK_LIMIT) || (IKCP_FASTACK_LIMIT =? 0)) then
    xmit ← uadd 32 (s_xmit segment) 1;
    resendts ← uadd 32 current (s_rto segment);
    count_stat fast_retransmissions 1;;
    mret (segment <| s_xmit := xmit |> <| s_fastack := 0 |> <| s_resendts := resendts |>,
          true, false, true)
  else mret (segment, false, false, false).

(** The end of the loop's body, given what [mark_one] decided. *)
Definition scan_push (current wnd rcv_nxt : Z) (k : scan)
    (r : KcpSegment * bool * bool * bool) : scan :=
  let '(segment, needsend, lost, change) := r in
  let segment :=
    if needsend then
      segment <| s_header ::= λ h,
        h <| h_ts := current |> <| h_wnd := as_u16 wnd |> <| h_una := rcv_nxt |> |>
    else segment in
  {| k_segs := k_segs k ++ [segment];
     k_send := if needsend then k_send k ++ [length (k_segs k)] else k_send k;
     k_lost := k_lost k || lost;
     k_change := k_change k || change |}.

Definition mark_segments_for_send (current resend rtomin : Z) : T scan :=
  wnd ← wnd_unused;
  rcv_nxt ← get e_rcv_nxt;
  snd_buf ← get e_snd_buf;
  k ← foldM (λ k segment,
      r ← mark_one current resend rtomin segment;
      mret (scan_push current wnd rcv_nxt k r)) (Build_scan [] [] false false) snd_buf;
  update_self (λ e, e <| e_snd_buf := k_segs k |>);;
  mret k.

Definition update_congestion_on_loss (lost change : bool) (resend : Z) : T () :=
  whenM change
    (snd_nxt ← get e_snd_nxt;
     snd_una ← get e_snd_una;
     inflight ← usub 32 snd_nxt snd_una;
     let ssthresh := Z.max (inflight / 2) IKCP_THRESH_MIN in
     update_self (λ e, e <| e_wnd ::= λ w, w <| w_ssthresh := ssthresh |> |>);;
     cwnd ← uadd 32 ssthresh resend;
     set_cwnd cwnd;;
     mss ← mss;
     incr ← umul 32 cwnd mss;
     set_incr incr);;
  whenM lost
    (update_self (λ e, e <| e_wnd ::= λ w,
       w <| w_ssthresh := Z.max (w_cwnd w / 2) IKCP_THRESH_MIN |> |>);;
     reset_cwnd);;
  w ← get e_wnd;
  whenM (w_cwnd w <? 1) reset_cwnd.

Definition flush_data_segments (current : Z) : T () :=
  config ← get e_config;
  rtt ← get e_rtt;
  let nodelay := c_nodelay config in
  let resend := if 0 <? nd_resend nodelay then nd_resend nodelay else u32_MAX in
  let rtomin := if nd_nodelay nodelay then 0 else r_rto rtt / 8 in
  k ← mark_segments_for_send current resend rtomin;
  forM (k_send k) (λ i,
    snd_buf ← get e_snd_buf;
    segment ← index snd_buf i;
    dead_link ← get e_dead_link;
    output_segment segment;;
    if dead_link <=? s_xmit segment then fail ConnectionLost else mret tt);;
  update_congestion_on_loss (k_lost k) (k_change k) resend.

Definition update_congestion_control : T () :=
  update_self (λ e, e <| e_stats ::= λ s,
    s <| st_snd_wnd := w_snd (e_wnd e) |> <| st_rcv_wnd := w_rcv (e_wnd e) |>
      <| st_cwnd := w_cwnd (e_wnd e) |> <| snd_buf_size := as_u32 (len (e_snd_buf e)) |>
      <| rcv_buf_size := as_u32 (Z.of_nat (size (e_rcv_buf e))) |> |>).

Definition flush : T () :=
  current ← current_timestamp;
  flush_acks;;
  handle_window_probe current;;
  move_to_send_buf current;;
  flush_data_segments current;;
  flush_out_buf;;
  update_congestion_control.

Definition update : T () :=
  current ← current_timestamp;
  last_update ← get e_last_update;
  let last_update := if current <? last_update then current else last_update in
  update_self (λ e, e <| e_last_update := last_update |>);;
  config ← get e_config;
  diff ← usub 32 current last_update;
  whenM (nd_interval (c_nodelay config) <=? diff)
    (update_self (λ e, e <| e_last_update := current |>);; flush).

Definition keep_alive_probe : T () :=
  set_probe (λ p, p <| p_flags := Z.lor (p_flags p) IKCP_ASK_SEND |>);;
  flush.

(** [check] at time [current]. *)
Definition check_at (current : Z) (e : KcpEngine) : Z :=
  if negb (is_empty (e_ack_list e)) || negb (p_flags (e_probe e) =? 0) then 0
  else
    let next := foldl (λ next seg, Z.min next (as_u32 (Z.max (time_diff (s_resendts seg) current) 0)))
                  u32_MAX (e_snd_buf e) in
    let next :=
      if (w_rmt (e_wnd e) =? 0) && negb (p_ts (e_probe e) =? 0)
      then Z.min next (as_u32 (Z.max (time_diff (p_ts (e_probe e)) current) 0)) else next in
    if next =? u32_MAX then 30000 else next.
Definition check : T Z :=
  current ← current_timestamp;
  get (check_at current).
End Flush.

(** * What the parts of [flush] do *)

(** The acknowledgement of one entry of [ack_list], and those of all. *)
Definition ack_of (e : KcpEngine) (a : Z * Z) : KcpSegment :=
  Build_KcpSegment
    (Build_KcpHeader (e_conv e) IKCP_CMD_ACK 0 (as_u16 (wnd_unused_of e)) a.2 a.1 (e_rcv_nxt e) 0)
    [] 0 IKCP_RTO_DEF 0 0.
Definition acks_of (e : KcpEngine) : list KcpSegment := map (ack_of e) (e_ack_list e).

Definition probe_of (e : KcpEngine) (cmd now : Z) : KcpSegment :=
  Build_KcpSegment
    (Build_KcpHeader (e_conv e) cmd 0 (as_u16 (wnd_unused_of e)) now 0 (e_rcv_nxt e) 0)
    [] 0 IKCP_RTO_DEF 0 0.

(** [probe_timer] as a function. *)
Definition probe_after (current rmt : Z) (p : ProbeState) : ProbeState :=
  if rmt =? 0 then
    if p_wait p =? 0 then
      Build_ProbeState (p_flags p) IKCP_PROBE_INIT (wrap 32 (current + IKCP_PROBE_INIT))
    else if 0 <=? time_diff current (p_ts p) then
      let wait := Z.max (p_wait p) IKCP_PROBE_INIT in
      let wait := Z.min (wait + wait / 2) IKCP_PROBE_LIMIT in
      Build_ProbeState (Z.lor (p_flags p) IKCP_ASK_SEND) wait (wrap 32 (current + wait))
    else p
  else Build_ProbeState (p_flags p) 0 0.

(** How many segments fit between [snd_nxt] and the end of the send window. *)
Definition room_of (e : KcpEngine) : Z :=
  send_window_of e - offset_from (e_snd_una e) (e_snd_nxt e).

(** A segment as [move_to_send_buf] numbers and stamps it. *)
Definition stamp (e : KcpEngine) (current sn0 : Z) (segment : KcpSegment) : KcpSegment :=
  Build_KcpSegment
    (Build_KcpHeader (e_conv e) IKCP_CMD_PUSH (frg segment) (as_u16 (wnd_unused_of e)) current sn0
       (e_rcv_nxt e) (h_len (s_header segment)))
    (s_data segment) current (r_rto (e_rtt e)) 0 0.

(** [n] segments moved. *)
Definition moved_out (current : Z) (n : nat) (e : KcpEngine) : KcpEngine :=
  e <| e_snd_buf ::= λ buf, buf ++
         imap (λ i, stamp e current (wrap 32 (e_snd_nxt e + Z.of_nat i))) (take n (e_snd_queue e)) |>
    <| e_snd_queue ::= drop n |>
    <| e_snd_nxt := wrap 32 (e_snd_nxt e + Z.of_nat n) |>.

(** [mark_one] as a function. *)
Definition mark_of (current resend rtomin : Z) (nodelay : NodeDelayConfig) (rto : Z)
    (segment : KcpSegment) : KcpSegment * bool * bool * bool :=
  if s_xmit segment =? 0 then
    (segment <| s_xmit := 1 |> <| s_rto := rto |>
       <| s_resendts := wrap 32 (current + rto + rtomin) |>, true, false, false)
  else if 0 <=? time_diff current (s_resendts segment) then
    let rto' :=
      wrap 32 (s_rto segment +
        (if nd_nodelay nodelay then
           (if nd_no_congestion_control nodelay then rto else s_rto segment) / 2
         else Z.max (s_rto segment) (nd_interval nodelay))) in
    (segment <| s_xmit := wrap 32 (s_xmit segment + 1) |> <| s_rto := rto' |>
       <| s_resendts := wrap 32 (current + rto') |>, true, true, false)
  else if (resend <=? s_fastack segment) && (s_xmit segment <=? IKCP_FASTACK_LIMIT) then
    (segment <| s_xmit := wrap 32 (s_xmit segment + 1) |> <| s_fastack := 0 |>
       <| s_resendts := wrap 32 (current + s_rto segment) |>, true, false, true)
  else (segment, false, false, false).

(** What a timeout adds to a segment's own RTO. *)
Definition backoff (nodelay : NodeDelayConfig) (rto seg_rto : Z) : Z :=
  if nd_nodelay nodelay then (if nd_no_congestion_control nodelay then rto else seg_rto) / 2
  else Z.max seg_rto (nd_interval nodelay).

Lemma backoff_grows nodelay rto seg_rto : 2 ≤ rto → 0 ≤ seg_rto →
  let step := backoff nodelay rto seg_rto in
  0 ≤ step ∧ (2 ≤ seg_rto → 0 < step) ∧ (nd_nodelay nodelay = false → seg_rto ≤ step).
Proof.
  intros Hr Hs. cbv zeta. unfold backoff. repeat case_match; split_and!; intros; try done; zlia.
Qed.

Section FlushFacts.
Context {prof : Profile} {clk : Clock} {api : BytesApi} {spec : BytesApiSpec api}.

Lemma ack_of_fits e a :
  Inv e → in_u 32 a.1 → in_u 32 a.2 → fits (c_mtu (e_config e)) (ack_of e a).
Proof.
  intros HI H1 H2. pose proof (wo_mtu _ (i_config _ HI)). split; [|unfold KcpSegment_size, SIZE; cbn; rewrite len_nil; lia].
  split; [|done]. constructor; cbn; try apply HI; try done; try apply as_u16_range; zlia.
Qed.

Lemma acks_of_fit e : Inv e → Forall (fits (c_mtu (e_config e))) (acks_of e).
Proof.
  intros HI. apply Forall_map. eapply Forall_impl; [apply (i_acks _ HI)|].
  intros a [? ?]. by apply ack_of_fits.
Qed.

Lemma probe_of_fits e cmd now :
  Inv e → in_u 8 cmd → in_u 32 now → fits (c_mtu (e_config e)) (probe_of e cmd now).
Proof.
  intros HI H1 H2. pose proof (wo_mtu _ (i_config _ HI)). split; [|unfold KcpSegment_size, SIZE; cbn; rewrite len_nil; lia].
  split; [|done]. constructor; cbn; try apply HI; try done; try apply as_u16_range; zlia.
Qed.

Lemma flush_acks_spec Q (R : KcpCoreError → St → Prop) s :
  Inv (inner s) →
  (∀ s', inner s' = emit_all (acks_of (inner s)) ((inner s) <| e_ack_list := [] |>) → Q tt s') →
  wp checked_overflow flush_acks Q R s.
Proof.
  intros HI HQ. unfold flush_acks. do 2 estep. apply wp_if; intros He.
  { apply is_empty_true in He. estep. apply HQ. unfold acks_of. rewrite He. cbn.
    rewrite <- He. by destruct (inner s). }
  estep. apply wp_wnd_unused; [done|]. do 4 estep. set (e := inner s) in *.
  pose proof (i_acks _ HI) as Ha. fold e in Ha.
  eapply (wp_post _ _ (λ _ s', inner s' = emit_all (acks_of e) (e <| e_ack_list := [] |>)));
    [|intros [] s' H; by apply HQ].
  unfold forM. apply (wp_foldM _ _ (λ done _ s', inner s' = emit_all (map (ack_of e) done) (e <| e_ack_list := [] |>)));
    [done| |done].
  intros done [sn0 ts] [] s1 Hs1 [rest Hl]. rewrite Hl in Ha. apply Forall_app in Ha as [_ Ha].
  apply Forall_cons in Ha as [[Hsn Hts] _].
  pose proof (emit_all_frame (map (ack_of e) done) (e <| e_ack_list := [] |>)) as Hfr.
  do 3 estep. unfold KcpSegment_ack, KcpSegment_new, KcpHeader_new. esteps.
  apply wp_output_segment; cbn [inner]; rewrite Hs1.
  - rewrite Hfr. by apply (ack_of_fits e (sn0, ts)).
  - cbn [inner]. rewrite map_app, emit_all_app. cbn. do 2 f_equal. rewrite Hfr. done.
Qed.

Lemma probe_timer_spec current Q (R : KcpCoreError → St → Prop) s :
  Inv (inner s) →
  (∀ s', inner s' = (inner s) <| e_probe ::= probe_after current (w_rmt (e_wnd (inner s))) |> → Q tt s') →
  wp checked_overflow (probe_timer current) Q R s.
Proof.
  intros HI HQ. unfold probe_timer, set_probe. do 4 estep.
  set (p := e_probe (inner s)). pose proof (i_probe _ HI) as Hp. fold p in Hp. destruct Hp as [Hf Hw Ht].
  assert (Hex : ∀ f, f p = probe_after current (w_rmt (e_wnd (inner s))) p → ∀ k,
    Q tt (Timed ((inner s) <| e_probe ::= f |>) k)).
  { intros f Heq k. apply HQ. unfold set_field. cbn [inner]. fold p. by rewrite Heq. }
  assert (Hsame : probe_after current (w_rmt (e_wnd (inner s))) p = p → Q tt s).
  { intros Heq. apply HQ. unfold set_field. fold p. rewrite Heq. by destruct s as [[]]. }
  unfold probe_after in *. destruct (w_rmt (e_wnd (inner s)) =? 0) eqn:Hr.
  2:{ estep. apply (Hex (λ p, p <| p_ts := 0 |> <| p_wait := 0 |>)). by destruct p. }
  destruct (p_wait p =? 0) eqn:Hz.
  { esteps. exact (Hex (λ p, p <| p_wait := IKCP_PROBE_INIT |> <| p_ts := _ |>) eq_refl _). }
  apply wp_when; intros Hd; rewrite Hd in *; [|by apply Hsame].
  estep. unfold uadd.
  assert (Hmax : (if p_wait p <? IKCP_PROBE_INIT then IKCP_PROBE_INIT else p_wait p) = Z.max (p_wait p) IKCP_PROBE_INIT).
  { zcases; lia. }
  rewrite Hmax. unfold IKCP_PROBE_INIT, IKCP_PROBE_LIMIT in *.
  wp_exact; [zlia|]. esteps. cbn [inner ticks].
  set (wait := Z.max (p_wait p) 7000) in *.
  assert (Hmin : (if 120000 <? wait + wait / 2 then 120000 else wait + wait / 2) = Z.min (wait + wait / 2) 120000).
  { zcases; lia. }
  rewrite Hmin. exact (Hex (λ p, p <| p_wait := _ |> <| p_ts := _ |> <| p_flags := Z.lor (p_flags p) IKCP_ASK_SEND |>) eq_refl _).
Qed.

Lemma probe_after_ok current rmt p :
  in_u 32 current → probe_ok p → probe_ok (probe_after current rmt p).
Proof.
  intros Hc [Hf Hw Ht]. unfold probe_after, IKCP_PROBE_INIT, IKCP_PROBE_LIMIT in *.
  repeat case_match; constructor; cbn; unfold IKCP_PROBE_LIMIT; try done; try lia;
    try (apply wrap_in_u; lia); try (zunfold; zmod; lia).
  by apply flags_or; [constructor|unfold IKCP_ASK_SEND; lia].
Qed.

(** One probe goes out for each flag that is set. *)
Definition probe_if (flag cmd now : Z) (e : KcpEngine) : list KcpSegment :=
  if Z.land (p_flags (e_probe e)) flag =? 0 then [] else [probe_of e cmd now].

Lemma send_probe_spec flag cmd Q (R : KcpCoreError → St → Prop) s :
  Inv (inner s) → in_u 8 cmd →
  (∀ now s', in_u 32 now → inner s' = emit_all (probe_if flag cmd now (inner s)) (inner s) → Q tt s') →
  wp checked_overflow (send_probe flag cmd) Q R s.
Proof.
  intros HI Hcmd HQ. unfold send_probe, probe_if in *. do 2 estep.
  apply wp_when; intros Hf; [apply negb_true_iff in Hf|apply negb_false_iff in Hf]; rewrite Hf in HQ.
  2: by apply (HQ 0); [zlia|].
  estep. unfold create_probe_segment, KcpSegment_new, KcpHeader_new. do 9 estep.
  apply wp_wnd_unused; [done|]. esteps. cbn [inner].
  apply wp_output_segment; [|by apply (HQ now)].
  by apply (probe_of_fits (inner s) cmd now).
Qed.

(** The engine when the probe timer has run. *)
Definition probed (current : Z) (e : KcpEngine) : KcpEngine :=
  e <| e_probe ::= probe_after current (w_rmt (e_wnd e)) |>.

Lemma probed_inv current e : in_u 32 current → Inv e → Inv (probed current e).
Proof. intros Hc HI. unfold probed. inv_fields. by apply probe_after_ok. Qed.

(** What [handle_window_probe] puts out, at the clock readings it makes. *)
Definition probes_of (e : KcpEngine) (t t' : Z) : list KcpSegment :=
  probe_if IKCP_ASK_SEND IKCP_CMD_WASK t e ++ probe_if IKCP_ASK_TELL IKCP_CMD_WINS t' e.

Lemma probes_of_fit e t t' :
  Inv e → in_u 32 t → in_u 32 t' → Forall (fits (c_mtu (e_config e))) (probes_of e t t').
Proof.
  intros HI Ht Ht'. unfold probes_of, probe_if.
  destruct (_ =? 0), (_ =? 0); cbn; repeat constructor; apply probe_of_fits; done.
Qed.

Lemma probe_if_frame flag cmd t e e' :
  same_but_output e e' → probe_if flag cmd t e' = probe_if flag cmd t e.
Proof. unfold same_but_output. by intros ->. Qed.

Lemma handle_window_probe_spec current Q (R : KcpCoreError → St → Prop) s :
  Inv (inner s) → in_u 32 current →
  (∀ t t' s', in_u 32 t → in_u 32 t' →
     let e := probed current (inner s) in
     inner s' = (emit_all (probes_of e t t') e) <| e_probe ::= λ p, p <| p_flags := 0 |> |> → Q tt s') →
  wp checked_overflow (handle_window_probe current) Q R s.
Proof.
  intros HI Hc HQ. unfold handle_window_probe. estep. apply probe_timer_spec; [done|].
  intros s1 H1. fold (probed current (inner s)) in H1. pose proof (probed_inv _ _ Hc HI) as HI1.
  rewrite <- H1 in HI1. estep. apply send_probe_spec; [done..|]. intros t s2 Ht H2.
  assert (HI2 : Inv (inner s2)).
  { rewrite H2. apply emit_all_inv; [|done]. unfold probe_if.
    destruct (_ =? 0); repeat constructor; by apply probe_of_fits. }
  estep. apply send_probe_spec; [done..|]. intros t' s3 Ht' H3. unfold set_probe. estep.
  apply (HQ t t'); [done..|]. cbn [inner].
  replace (emit_all (probes_of _ t t') _) with (inner s3); [done|].
  unfold probes_of. rewrite emit_all_app, <- H1, <- H2, H3.
  by rewrite (probe_if_frame _ _ _ (inner s1)) by (rewrite H2; apply emit_all_frame).
Qed.

Lemma send_window_range e : Inv e → 0 ≤ send_window_of e ≤ c_snd_wnd (e_config e).
Proof.
  intros HI. destruct (i_wnd _ HI) as [Hs _ Hr Hc _ _]. pose proof (wo_snd _ (i_config _ HI)).
  unfold send_window_of. rewrite Hs. destruct (nd_no_congestion_control _); zlia.
Qed.

(** The loop test, at [n] segments past [snd_nxt]. *)
Lemma room_test una nxt cwnd n :
  in_u 32 una → in_u 32 nxt → 0 ≤ cwnd ≤ 65535 → 0 ≤ n ≤ 65535 → offset_from una nxt ≤ 65535 →
  (time_diff (wrap 32 (nxt + n)) (wrap 32 (una + cwnd)) <? 0) = (n <? cwnd - offset_from una nxt).
Proof.
  intros Hu Hn Hc Hk Ho. apply eq_bool_prop_intro. rewrite !Is_true_true, !Z.ltb_lt.
  unfold time_diff. unfold in_u, as_i32, wrapping_sub, wrap in *. rewrite pow32 in *. zcases; zmod; lia.
Qed.

Lemma moved_out_sendable e current n :
  Inv e → in_u 32 current →
  Forall (sendable (mss_of (e_config e)))
    (imap (λ i, stamp e current (wrap 32 (e_snd_nxt e + Z.of_nat i))) (take n (e_snd_queue e))).
Proof.
  intros HI Hc. apply Forall_lookup. intros i x Hx. rewrite list_lookup_imap in Hx.
  destruct (take n (e_snd_queue e) !! i) as [seg|] eqn:Hs; [|done]. cbn in Hx. injection Hx as <-.
  apply lookup_take_Some in Hs as [Hs _].
  pose proof (Forall_lookup_1 _ _ _ _ (i_snd_queue _ HI) Hs) as [[[] Hl] Hd _ _ _ _].
  destruct (i_rtt _ HI) as [_ _ Hr Hm].
  constructor; cbn; try done; try zlia.
  - split; [|done]. constructor; cbn; try done; try apply HI; try apply as_u16_range; by apply wrap_in_u.
  - unfold IKCP_RTO_NDL, IKCP_RTO_MIN, IKCP_RTO_MAX in *. zlia.
Qed.

Lemma offset_add una nxt i :
  in_u 32 una → in_u 32 nxt → 0 ≤ i → offset_from una nxt + i < 2 ^ 32 →
  offset_from una (wrap 32 (nxt + i)) = offset_from una nxt + i.
Proof. intros. unfold in_u, wrapping_sub, wrap in *. rewrite pow32 in *. zmod. lia. Qed.

(** Appending consecutively numbered segments to the send buffer. *)
Lemma snd_buf_ok_append mss wnd una nxt buf (f : nat → KcpSegment → KcpSegment) l :
  in_u 32 una → in_u 32 nxt → wnd ≤ 65535 → snd_buf_ok mss wnd una nxt buf →
  offset_from una nxt + len l ≤ wnd →
  (∀ i s, sn (f i s) = wrap 32 (nxt + Z.of_nat i) ∧ h_cmd (s_header (f i s)) = IKCP_CMD_PUSH) →
  Forall (sendable mss) (imap f l) →
  snd_buf_ok mss wnd una (wrap 32 (nxt + len l)) (buf ++ imap f l).
Proof.
  intros Hu Hn Hw [_ Hse Hp Hr Hs] Hroom Hf Hl. pose proof (wrapping_sub_range nxt una) as Ho.
  assert (Hoff : ∀ i, (i ≤ length l)%nat → offset_from una (wrap 32 (nxt + Z.of_nat i)) = offset_from una nxt + Z.of_nat i).
  { intros i Hi. apply offset_add; [done..|lia|]. unfold len in Hroom. zlia. }
  assert (Hnew : ∀ i s, imap f l !! i = Some s →
    (i < length l)%nat ∧ sn s = wrap 32 (nxt + Z.of_nat i) ∧ h_cmd (s_header s) = IKCP_CMD_PUSH).
  { intros i s Hi. pose proof (lookup_lt_Some _ _ _ Hi) as Hlt. rewrite length_imap in Hlt.
    rewrite list_lookup_imap in Hi. destruct (l !! i); [|done]. cbn in Hi. injection Hi as <-. by split. }
  assert (Hend : offset_from una (wrap 32 (nxt + len l)) = offset_from una nxt + len l) by (by apply Hoff).
  constructor.
  - by rewrite Hend.
  - by apply Forall_app.
  - apply Forall_app. split; [done|]. apply Forall_lookup. intros i s Hi. destruct (Hnew i s Hi) as (_ & _ & Hc). exact Hc.
  - rewrite Hend. apply Forall_app. split.
    + eapply Forall_impl; [exact Hr|]. cbn. intros s ?. pose proof (len_nonneg l). lia.
    + apply Forall_lookup. intros i s Hi. apply Hnew in Hi as (Hi & -> & _).
      rewrite Hoff by lia. unfold len. lia.
  - apply StronglySorted_app. split_and!; [|done|].
    + intros s t Hs' Ht. rewrite Forall_forall in Hr. specialize (Hr s Hs'). cbn in Hr.
      apply list_elem_of_lookup in Ht as [i Hi]. apply Hnew in Hi as (Hi & -> & _). rewrite Hoff by lia. lia.
    + apply StronglySorted_from_lookup. intros i j s t Hi Hj Hij.
      apply Hnew in Hi as (Hi & -> & _), Hj as (Hj & -> & _). rewrite !Hoff by lia. lia.
Qed.

Lemma moved_out_inv e current n :
  Inv e → in_u 32 current → (n ≤ length (e_snd_queue e))%nat → (n ≤ Z.to_nat (room_of e))%nat →
  Inv (moved_out current n e).
Proof.
  intros HI Hc Hq Hr. pose proof (moved_out_sendable e current n HI Hc) as Hse.
  pose proof (send_window_range _ HI) as Hw. pose proof (wo_snd _ (i_config _ HI)) as Hs.
  pose proof (sb_window _ _ _ _ _ (i_snd_buf _ HI)) as Hwin. unfold room_of in Hr.
  assert (Hlen : len (take n (e_snd_queue e)) = Z.of_nat n) by (unfold len; rewrite length_take; lia).
  pose proof (snd_buf_ok_append _ _ _ _ _ (λ i, stamp e current (wrap 32 (e_snd_nxt e + Z.of_nat i)))
    (take n (e_snd_queue e)) (i_una _ HI) (i_nxt _ HI) (proj2 Hs) (i_snd_buf _ HI)) as Hb.
  rewrite Hlen in Hb. unfold moved_out. inv_fields.
  - by apply wrap_in_u.
  - by apply Forall_drop.
  - destruct n as [|n].
    + cbn in *. rewrite Z.add_0_r, wrap_small, app_nil_r by done. done.
    + apply Hb; [lia| |done]. by intros.
Qed.

Lemma moved_out_snoc current n e seg :
  in_u 32 (e_snd_nxt e) → e_snd_queue e !! n = Some seg →
  moved_out current (S n) e =
    (moved_out current n e)
      <| e_snd_queue := drop (S n) (e_snd_queue e) |>
      <| e_snd_buf ::= λ buf, buf ++ [stamp e current (wrap 32 (e_snd_nxt e + Z.of_nat n)) seg] |>
      <| e_snd_nxt := wrap 32 (wrap 32 (e_snd_nxt e + Z.of_nat n) + 1) |>.
Proof.
  intros Hn Hs. unfold moved_out.
  assert (Hnxt : wrap 32 (wrap 32 (e_snd_nxt e + Z.of_nat n) + 1) = wrap 32 (e_snd_nxt e + Z.of_nat (S n))) by zlia.
  rewrite Hnxt, (take_S_r _ _ _ Hs), imap_app, length_take. pose proof (lookup_lt_Some _ _ _ Hs).
  cbn [imap]. unfold compose. rewrite Nat.add_0_r, Nat.min_l by lia.
  apply KcpEngine_ext; try reflexivity. cbn -[take drop]. by rewrite app_assoc.
Qed.

Definition move_count (e : KcpEngine) : nat :=
  Nat.min (length (e_snd_queue e)) (Z.to_nat (room_of e)).

(** The loop moves as much as there is and as fits. *)
Lemma move_to_send_buf_spec current Q (R : KcpCoreError → St → Prop) s :
  Inv (inner s) → in_u 32 current →
  Q tt (Timed (moved_out current (move_count (inner s)) (inner s)) (ticks s)) →
  wp checked_overflow (move_to_send_buf current) Q R s.
Proof.
  intros HI Hc HQ. unfold move_to_send_buf. do 4 estep.
  set (e := inner s) in *. set (cwnd := send_window_of e).
  pose proof (send_window_range _ HI) as Hw. fold cwnd in Hw. pose proof (wo_snd _ (i_config _ HI)) as Hs.
  pose proof (sb_window _ _ _ _ _ (i_snd_buf _ HI)) as Hwin.
  destruct (wrapping_sub_range (e_snd_nxt e) (e_snd_una e)) as [Ho _].
  apply (wp_iterM _ _ (λ _ s', ∃ n, s' = Timed (moved_out current n e) (ticks s) ∧ (n ≤ move_count e)%nat)
    (λ _ s', length (e_snd_queue (inner s')))).
  3: unfold e; lia.
  2: { exists 0%nat. split; [|lia]. destruct s as [e0 k]. subst e. cbn.
       unfold moved_out, set_field. cbn. rewrite app_nil_r, Z.add_0_r, wrap_small by apply HI.
       by destruct e0. }
  intros [] s' (n & -> & Hn). unfold move_to_send_one. do 6 estep.
  pose proof (moved_out_inv e current n HI Hc ltac:(unfold move_count in Hn; lia) ltac:(unfold move_count in Hn; lia)) as HIn.
  cbn [inner ticks].
  change (e_snd_nxt (moved_out current n e)) with (wrap 32 (e_snd_nxt e + Z.of_nat n)).
  change (e_snd_una (moved_out current n e)) with (e_snd_una e).
  unfold move_count, room_of in Hn, HQ. fold cwnd in Hn, HQ.
  rewrite room_test; [|apply HI|apply HI|lia|lia|lia].
  apply wp_if; intros Ht; [apply Z.ltb_lt in Ht|apply Z.ltb_ge in Ht].
  2:{ estep. replace (Nat.min _ _) with n in HQ by lia. exact HQ. }
  do 2 estep. cbn [inner]. change (e_snd_queue (moved_out current n e)) with (drop n (e_snd_queue e)).
  destruct (drop n (e_snd_queue e)) as [|seg rest] eqn:Hd.
  { estep. assert (length (drop n (e_snd_queue e)) = 0%nat) as Hl by (by rewrite Hd).
    rewrite length_drop in Hl. replace (Nat.min _ _) with n in HQ by lia. exact HQ. }
  assert (Hlk : e_snd_queue e !! n = Some seg).
  { pose proof (lookup_drop (e_snd_queue e) n 0) as Hl. by rewrite Hd, Nat.add_0_r in Hl. }
  do 5 estep. apply wp_wnd_unused.
  { revert HIn. clear - Hd. intros HIn. inv_fields.
    match goal with H : Forall _ (drop _ _) |- _ => rewrite Hd in H; by apply Forall_cons in H as [_ ?] end. }
  esteps. cbn [inner ticks]. split.
  2:{ change (length rest < length (seg :: rest))%nat. cbn. lia. }
  exists (S n). pose proof (lookup_lt_Some _ _ _ Hlk). split; [|unfold move_count, room_of; lia]. f_equal.
  rewrite (moved_out_snoc _ _ _ _ (i_nxt _ HI) Hlk).
  assert (Hr : rest = drop (S n) (e_snd_queue e)) by (by rewrite <- Nat.add_1_r, <- drop_drop, Hd).
  rewrite Hr. done.
Qed.

(** The counters of one marked segment. *)
Definition count_mark (st : KcpStats) (r : KcpSegment * bool * bool * bool) : KcpStats :=
  let '(_, _, lost, change) := r in
  let st := if lost : bool then st <| retransmissions := wrap 64 (retransmissions st + 1) |> else st in
  if change : bool then st <| fast_retransmissions := wrap 64 (fast_retransmissions st + 1) |> else st.

Lemma count_mark_ok st r : stats_ok st → stats_ok (count_mark st r).
Proof. intros H. destruct r as [[[? ?] []] []]; cbn; try done; try solve_stats. Qed.

Lemma mark_one_spec current resend rtomin seg Q (R : KcpCoreError → St → Prop) s :
  (let r := mark_of current resend rtomin (c_nodelay (e_config (inner s))) (r_rto (e_rtt (inner s))) seg in
   Q r (Timed ((inner s) <| e_stats ::= λ st, count_mark st r |>) (ticks s))) →
  wp checked_overflow (mark_one current resend rtomin seg) Q R s.
Proof.
  intros HQ. unfold mark_one. do 4 estep. unfold mark_of in HQ. rewrite <- (orb_false_r (_ <=? IKCP_FASTACK_LIMIT)) in HQ.
  destruct (s_xmit seg =? 0).
  { do 5 estep. unfold wrap in HQ |- *. rewrite Zplus_mod_idemp_l. cbn in HQ. destruct s as [[] ?]. exact HQ. }
  destruct (0 <=? time_diff current (s_resendts seg)).
  { do 3 estep. apply wp_count_stat. cbn in HQ |- *. estep.
    destruct (nd_nodelay _); do 4 estep; exact HQ. }
  apply wp_if; intros Hf; change (IKCP_FASTACK_LIMIT =? 0) with false in Hf; rewrite Hf in HQ.
  { do 5 estep. apply wp_count_stat. estep. exact HQ. }
  estep. destruct s as [[] ?]. exact HQ.
Qed.

(** The scan as a function: everything [flush_data_segments] decides. *)
Definition marks (current resend rtomin : Z) (e : KcpEngine) : list (KcpSegment * bool * bool * bool) :=
  map (mark_of current resend rtomin (c_nodelay (e_config e)) (r_rto (e_rtt e))) (e_snd_buf e).

Definition scan_of (current : Z) (e : KcpEngine) (l : list (KcpSegment * bool * bool * bool)) : scan :=
  foldl (scan_push current (wnd_unused_of e) (e_rcv_nxt e)) (Build_scan [] [] false false) l.

Lemma mark_segments_for_send_spec current resend rtomin Q (R : KcpCoreError → St → Prop) s :
  Inv (inner s) →
  (let l := marks current resend rtomin (inner s) in
   let k := scan_of current (inner s) l in
   Q k (Timed ((inner s) <| e_stats ::= λ st, foldl count_mark st l |>
                 <| e_snd_buf := k_segs k |>) (ticks s))) →
  wp checked_overflow (mark_segments_for_send current resend rtomin) Q R s.
Proof.
  intros HI HQ. unfold mark_segments_for_send. estep. apply wp_wnd_unused; [done|]. do 5 estep.
  set (e := inner s) in *. set (m := mark_of current resend rtomin (c_nodelay (e_config e)) (r_rto (e_rtt e))).
  eapply (wp_post _ _ (λ k s', k = scan_of current e (map m (e_snd_buf e)) ∧
    s' = Timed (e <| e_stats ::= λ st, foldl count_mark st (map m (e_snd_buf e)) |>) (ticks s))).
  - apply (wp_foldM _ _ (λ done k s', k = scan_of current e (map m done) ∧
      s' = Timed (e <| e_stats ::= λ st, foldl count_mark st (map m done) |>) (ticks s))); [|..|done].
    { split; [done|]. subst e. by destruct s as [[] ?]. }
    intros done seg k s' [-> ->] _. estep. apply mark_one_spec. cbv beta zeta. estep. cbn [inner ticks].
    rewrite map_app. unfold scan_of. rewrite !foldl_app. split; [done|].
    f_equal. apply KcpEngine_ext; try reflexivity. cbn. by rewrite foldl_app.
  - intros k s' [-> ->]. do 2 estep. exact HQ.
Qed.

Definition needs (r : KcpSegment * bool * bool * bool) : bool := r.1.1.2.
(** The segment the scan leaves in the buffer, and the segments to send. *)
Definition final (current : Z) (e : KcpEngine) (r : KcpSegment * bool * bool * bool) : KcpSegment :=
  let segment := r.1.1.1 in
  if needs r then
    segment <| s_header ::= λ h, h <| h_ts := current |> <| h_wnd := as_u16 (wnd_unused_of e) |>
      <| h_una := e_rcv_nxt e |> |>
  else segment.
Definition sent_of (current : Z) (e : KcpEngine) (l : list (KcpSegment * bool * bool * bool))
    : list KcpSegment := map (final current e) (filter (λ r, needs r = true) l).

Lemma scan_of_spec current e l :
  let k := scan_of current e l in
  k_segs k = map (final current e) l ∧
  k_lost k = existsb (λ r, r.1.2) l ∧ k_change k = existsb snd l ∧
  Forall2 (λ i seg, k_segs k !! i = Some seg) (k_send k) (sent_of current e l).
Proof.
  unfold scan_of. induction l as [|r l IH] using rev_ind; [cbn; auto|].
  rewrite foldl_app. cbn zeta in *. set (k := foldl _ _ l) in *. destruct IH as (Hs & Hl & Hc & H2).
  destruct r as [[[seg []] lost] change]; cbn; unfold sent_of in *;
    rewrite !existsb_app, filter_app, !map_app, <- Hl, <- Hc, Hs; cbn; rewrite !orb_false_r.
  - split_and!; [done..|]. apply Forall2_app; [|repeat constructor].
    + eapply Forall2_impl; [exact H2|]. intros i x Hi. rewrite <- Hs. by apply lookup_app_l_Some.
    + apply list_lookup_middle. by rewrite length_map.
  - split_and!; [done..|]. rewrite app_nil_r.
    eapply Forall2_impl; [exact H2|]. intros i x Hi. rewrite <- Hs. by apply lookup_app_l_Some.
Qed.

(** A mark touches the timers and counters of the segment only. *)
Lemma mark_of_ok current resend rtomin nd rto mss seg :
  in_u 32 current → in_u 32 rto → sendable mss seg →
  let seg' := (mark_of current resend rtomin nd rto seg).1.1.1 in
  sendable mss seg' ∧ s_header seg' = s_header seg ∧ s_data seg' = s_data seg.
Proof.
  intros Hc Hr []. cbn zeta. unfold mark_of. assert (H0 : in_u 32 0) by zlia. assert (H1 : in_u 32 1) by zlia.
  repeat case_match; split_and!; try done; constructor; cbn; try done; by apply wrap_in_u.
Qed.

Lemma final_ok current e mss r :
  Inv e → in_u 32 current → sendable mss r.1.1.1 →
  sendable mss (final current e r) ∧ sn (final current e r) = sn r.1.1.1 ∧
  h_cmd (s_header (final current e r)) = h_cmd (s_header r.1.1.1).
Proof.
  intros HI Hc [[[] Hl] ? ? ? ? ?]. unfold final. destruct (needs r); split_and!; try done.
  - constructor; try done. split; [|done]. constructor; cbn; try done; [apply as_u16_range|apply HI].
Qed.

Lemma marks_final_ok current resend rtomin e :
  Inv e → in_u 32 current →
  Forall2 (λ s s', sn s' = sn s ∧ h_cmd (s_header s') = h_cmd (s_header s) ∧
      sendable (mss_of (e_config e)) s')
    (e_snd_buf e) (map (final current e) (marks current resend rtomin e)).
Proof.
  intros HI Hc. unfold marks. rewrite map_map. apply Forall2_fmap_r, Forall_Forall2_diag.
  eapply Forall_impl; [apply (sb_segments _ _ _ _ _ (i_snd_buf _ HI))|]. intros seg Hseg. cbn beta.
  destruct (mark_of_ok current resend rtomin (c_nodelay (e_config e)) (r_rto (e_rtt e))
    (mss_of (e_config e)) seg Hc) as (Hm & Hh & _); [|done|].
  { destruct (i_rtt _ HI) as [_ _ ? ?]. unfold IKCP_RTO_NDL, IKCP_RTO_MIN, IKCP_RTO_MAX in *. zlia. }
  destruct (final_ok current e _ _ HI Hc Hm) as (? & Hsn & Hcmd).
  split_and!; [|by rewrite Hcmd, Hh|done]. rewrite Hsn. unfold sn. by rewrite Hh.
Qed.

Lemma count_marks_ok l : ∀ st, stats_ok st → stats_ok (foldl count_mark st l).
Proof. induction l as [|r l IH]; intros st H; cbn; [done|]. by apply IH, count_mark_ok. Qed.

Lemma marked_inv current resend rtomin e :
  Inv e → in_u 32 current →
  Inv (e <| e_stats ::= λ st, foldl count_mark st (marks current resend rtomin e) |>
         <| e_snd_buf := map (final current e) (marks current resend rtomin e) |>).
Proof.
  intros HI Hc. pose proof (marks_final_ok current resend rtomin e HI Hc) as H2.
  inv_fields; [|by apply count_marks_ok]. by eapply snd_buf_ok_map.
Qed.

(** [send_one] of the segments, up to and including the first dead one. *)
Definition alive (dead_link : Z) (seg : KcpSegment) : Prop := s_xmit seg < dead_link.

Definition send_marked (indices : list nat) : T () :=
  forM indices (λ i,
    snd_buf ← get e_snd_buf;
    segment ← index snd_buf i;
    dead_link ← get e_dead_link;
    output_segment segment;;
    if dead_link <=? s_xmit segment then fail ConnectionLost else mret tt).

Lemma send_marked_spec l segs s :
  Inv (inner s) →
  Forall2 (λ i seg, e_snd_buf (inner s) !! i = Some seg) l segs →
  wp checked_overflow (send_marked l)
    (λ _ s', Inv (inner s') ∧ inner s' = emit_all segs (inner s) ∧
       Forall (alive (e_dead_link (inner s))) segs)
    (λ err s', err = ConnectionLost ∧ Inv (inner s') ∧ ∃ done dead rest,
       segs = done ++ dead :: rest ∧ Forall (alive (e_dead_link (inner s))) done ∧
       ¬ alive (e_dead_link (inner s)) dead ∧ dead ∈ e_snd_buf (inner s) ∧
       inner s' = emit_all (done ++ [dead]) (inner s)) s.
Proof.
  intros HI H2. set (e := inner s) in *.
  assert (Hfit : Forall (λ seg, seg ∈ e_snd_buf e ∧ fits (c_mtu (e_config e)) seg) segs).
  { pose proof (sb_segments _ _ _ _ _ (i_snd_buf _ HI)) as Hse.
    clear - H2 Hse. induction H2 as [|i seg ? ? Hi _ IH]; constructor; [|done].
    apply list_elem_of_lookup_2 in Hi as Hin. split; [done|]. rewrite Forall_forall in Hse.
    destruct (Hse _ Hin) as [Hok [_ Hd] _ _ _ _]. split; [done|].
    unfold KcpSegment_size, mss_of, IKCP_OVERHEAD, SIZE in *. lia. }
  unfold send_marked, forM.
  apply (wp_foldM _ _ (λ done _ s', ∃ sent rest, segs = sent ++ rest ∧ length sent = length done ∧
    inner s' = emit_all sent e ∧ Forall (alive (e_dead_link e)) sent)).
  { by exists [], segs. }
  - intros done i [] s1 (sent & rest & -> & Hlen & Hs1 & Hal) [l' ->].
    apply Forall2_app_inv in H2 as [_ H2]; [|done].
    apply Forall2_cons_inv_l in H2 as (seg & segs' & Hi & _ & ->).
    apply Forall_app in Hfit as [Hfs Hfit]. apply Forall_cons in Hfit as [[Hin Hfit] _].
    pose proof (emit_all_frame sent e) as Hfr.
    do 3 estep. eapply wp_index; [rewrite Hs1, Hfr; exact Hi|]. do 3 estep.
    apply wp_output_segment; [by destruct Hfit|]. cbn [inner].
    assert (He : emit seg (inner s1) = emit_all (sent ++ [seg]) e) by (rewrite Hs1, emit_all_app; done).
    rewrite He, Hs1, Hfr. change (e_dead_link (e <| e_output_queue := _ |> <| e_out_buf := _ |> <| e_stats := _ |>)) with (e_dead_link e).
    apply wp_if; intros Hd; [apply Z.leb_le in Hd|apply Z.leb_gt in Hd]; estep.
    + split; [done|]. split.
      { cbn [inner]. apply emit_all_inv; [|done]. apply Forall_app. split; [|by apply Forall_singleton].
        eapply Forall_impl; [exact Hfs|]. by intros ? [_ ?]. }
      exists sent, seg, segs'. split_and!; try done. unfold alive. lia.
    + exists (sent ++ [seg]), segs'. rewrite <- (assoc (++)), !length_app, Hlen. split_and!; try done.
      apply Forall_app. split; [done|]. by apply Forall_singleton.
  - intros _ s1 (sent & rest & -> & Hlen & Hs1 & Hal).
    pose proof (Forall2_length _ _ _ H2) as Hl. rewrite length_app in Hl.
    assert (rest = []) as -> by (destruct rest; [done|cbn in Hl; lia]).
    rewrite app_nil_r in *. split_and!; [|done..]. rewrite Hs1. apply emit_all_inv; [|done].
    eapply Forall_impl; [exact Hfit|]. by intros ? [_ ?].
Qed.

(** [update_congestion_on_loss] as a function on the window. *)
Definition loss_response (lost change : bool) (resend : Z) (e : KcpEngine) : WindowState :=
  let mss := mss_of (e_config e) in
  let w := e_wnd e in
  let w := if change then
      let ssthresh := Z.max (offset_from (e_snd_una e) (e_snd_nxt e) / 2) IKCP_THRESH_MIN in
      let cwnd := wrap 32 (ssthresh + resend) in
      w <| w_ssthresh := ssthresh |> <| w_cwnd := cwnd |> <| w_incr := wrap 32 (cwnd * mss) |>
    else w in
  let w := if lost then
      w <| w_ssthresh := Z.max (w_cwnd w / 2) IKCP_THRESH_MIN |> <| w_cwnd := 1 |> <| w_incr := mss |>
    else w in
  if w_cwnd w <? 1 then w <| w_cwnd := 1 |> <| w_incr := mss |> else w.

Lemma reset_cwnd_spec K Q (R : KcpCoreError → St → Prop) s :
  windows_ok (e_config (inner s)) →
  Q tt (Timed ((inner s) <| e_wnd ::= λ w, w <| w_cwnd := 1 |>
                  <| w_incr := mss_of (e_config (inner s)) |> |>) (ticks s)) →
  wp K reset_cwnd Q R s.
Proof. intros Hc HQ. unfold reset_cwnd. do 2 estep. estep. apply wp_mss; [done|]. estep. exact HQ. Qed.

Lemma update_congestion_on_loss_spec lost change resend Q (R : KcpCoreError → St → Prop) s :
  windows_ok (e_config (inner s)) →
  Q tt (Timed ((inner s) <| e_wnd := loss_response lost change resend (inner s) |>) (ticks s)) →
  wp checked_overflow (update_congestion_on_loss lost change resend) Q R s.
Proof.
  intros Hc HQ. unfold update_congestion_on_loss, set_cwnd, set_incr.
  set (e := inner s) in *. set (w1 := if change then
      let ssthresh := Z.max (offset_from (e_snd_una e) (e_snd_nxt e) / 2) IKCP_THRESH_MIN in
      let cwnd := wrap 32 (ssthresh + resend) in
      (e_wnd e) <| w_ssthresh := ssthresh |> <| w_cwnd := cwnd |>
         <| w_incr := wrap 32 (cwnd * mss_of (e_config e)) |>
    else e_wnd e).
  estep. eapply (wp_post _ _ (λ _ s', s' = Timed (e <| e_wnd := w1 |>) (ticks s))).
  { subst w1. destruct change; cbn [whenM]; [|estep; subst e; by destruct s as [[] ?]].
    do 6 estep. do 6 estep. estep. apply wp_mss; [done|]. esteps. done. }
  intros [] ? ->. estep.
  set (w2 := if lost then
      w1 <| w_ssthresh := Z.max (w_cwnd w1 / 2) IKCP_THRESH_MIN |> <| w_cwnd := 1 |>
         <| w_incr := mss_of (e_config e) |>
    else w1).
  eapply (wp_post _ _ (λ _ s', s' = Timed (e <| e_wnd := w2 |>) (ticks s))).
  { subst w2. destruct lost; cbn [whenM]; [|by estep]. do 2 estep. by apply reset_cwnd_spec. }
  intros [] ? ->. do 2 estep. cbn [inner]. change (e_wnd (e <| e_wnd := w2 |>)) with w2.
  unfold loss_response in HQ. fold w1 in HQ. fold w2 in HQ.
  apply wp_when; intros Hw; rewrite Hw in HQ; [by apply reset_cwnd_spec|exact HQ].
Qed.

Lemma loss_response_ok lost change resend e :
  Inv e → wnd_ok (e_config e) (loss_response lost change resend e).
Proof.
  intros HI. pose proof (windows_mss _ (i_config _ HI)) as Hm.
  pose proof (wrapping_sub_range (e_snd_nxt e) (e_snd_una e)) as Ho. destruct (i_wnd _ HI).
  unfold loss_response. set (m := mss_of (e_config e)) in *.
  assert (H1 : in_u 32 1) by zlia. assert (H2 : in_u 32 m) by zlia.
  assert (H3 : ∀ x, in_u 32 x → in_u 32 (Z.max (x / 2) IKCP_THRESH_MIN)).
  { unfold IKCP_THRESH_MIN. intros. zlia. }
  assert (H4 : ∀ x, (wrap 32 x <? 1) = false → 1 ≤ wrap 32 x < 2 ^ 32).
  { intros x Hx%Z.ltb_ge. pose proof (wrap_in_u 32 x ltac:(lia)) as [_ ?]. done. }
  assert (H5 : ∀ x, 1 ≤ x < 2 ^ 32 → in_u 32 x) by (unfold in_u; lia).
  destruct change, lost; cbn -[wrapping_sub IKCP_THRESH_MIN]; try case_match;
    constructor; cbn -[wrapping_sub IKCP_THRESH_MIN]; try done; try (by apply wrap_in_u); try (by apply H4);
    apply H3; try done; try (by apply H5); by apply wrap_in_u.
Qed.

Lemma loss_response_rmt lost change resend e : w_rmt (loss_response lost change resend e) = w_rmt (e_wnd e).
Proof. unfold loss_response. by destruct change, lost; cbn -[wrap]; try case_match. Qed.

(** ** The whole of [flush] *)

Definition resend_of (e : KcpEngine) : Z :=
  let r := nd_resend (c_nodelay (e_config e)) in if 0 <? r then r else u32_MAX.
Definition rtomin_of (e : KcpEngine) : Z :=
  if nd_nodelay (c_nodelay (e_config e)) then 0 else r_rto (e_rtt e) / 8.
Definition marks_at (now : Z) (e : KcpEngine) := marks now (resend_of e) (rtomin_of e) e.

(** [flush_data_segments] up to the congestion response. *)
Definition marked (now : Z) (e : KcpEngine) : KcpEngine :=
  e <| e_stats ::= λ st, foldl count_mark st (marks_at now e) |>
    <| e_snd_buf := map (final now e) (marks_at now e) |>.

Lemma flush_data_segments_spec now s :
  Inv (inner s) → in_u 32 now →
  let e := inner s in
  let sent := sent_of now e (marks_at now e) in
  wp checked_overflow (flush_data_segments now)
    (λ _ s', Inv (inner s') ∧ Forall (alive (e_dead_link e)) sent ∧
       inner s' = (emit_all sent (marked now e)) <| e_wnd :=
         loss_response (existsb (λ r, r.1.2) (marks_at now e)) (existsb snd (marks_at now e))
           (resend_of e) e |>)
    (λ err s', err = ConnectionLost ∧ Inv (inner s') ∧ same_but_output (marked now e) (inner s') ∧
       (∃ dead, dead ∈ sent ∧ ¬ alive (e_dead_link e) dead ∧ dead ∈ e_snd_buf (inner s')) ∧
       ∃ l, l `prefix_of` sent ∧ pending_bytes (inner s') = pending_bytes e ++ segments_bytes l) s.
Proof.
  intros HI Hc e sent. unfold flush_data_segments. do 4 estep.
  fold (resend_of (inner s)). fold (rtomin_of (inner s)). subst e. set (e := inner s) in *.
  estep. apply mark_segments_for_send_spec; [done|]. cbv zeta. fold e. fold (marks_at now e).
  destruct (scan_of_spec now e (marks_at now e)) as (Hk & Hl & Hch & H2). fold sent in H2.
  rewrite Hk in *. fold (marked now e).
  pose proof (marked_inv now (resend_of e) (rtomin_of e) e HI Hc) as HI1. fold (marks_at now e) in HI1. fold (marked now e) in HI1.
  fold (send_marked (k_send (scan_of now e (marks_at now e)))).
  estep. eapply wp_mono; [apply (send_marked_spec _ sent); [exact HI1|exact H2]|..]; cbn [inner]; cbv beta.
  - intros _ s1 (HI2 & Hs1 & Hal).
    pose proof (emit_all_frame sent (marked now e)) as Hfr. rewrite <- Hs1 in Hfr.
    assert (Hc1 : e_config (inner s1) = e_config e) by (by rewrite Hfr).
    apply update_congestion_on_loss_spec; [rewrite Hc1; apply HI|]. cbn [inner].
    rewrite Hl, Hch.
    assert (Hr : ∀ a b r, loss_response a b r (inner s1) = loss_response a b r e) by (intros; by rewrite Hfr).
    rewrite Hr. split_and!; [|done|by rewrite Hs1].
    pose proof (loss_response_ok (existsb (λ r, r.1.2) (marks_at now e)) (existsb snd (marks_at now e)) (resend_of e) e HI) as Hw.
    rewrite <- Hc1 in Hw. by inv_fields.
  - intros err s1 (-> & HI2 & done & dead & rest & Hseg & _ & Hd & Hin & Hs1). split_and!; [done..| | |].
    + rewrite Hs1. apply emit_all_frame.
    + exists dead. split_and!; [rewrite Hseg; set_solver|done|].
      rewrite Hs1. by rewrite (emit_all_frame (done ++ [dead]) (marked now e)).
    + exists (done ++ [dead]). split; [exists rest; by rewrite <- (assoc (++))|].
      by rewrite Hs1, emit_all_pending.
Qed.

(** What a flush moves and sends, read off the engine before it. *)
Definition flush_from (now : Z) (e : KcpEngine) : KcpEngine := moved_out now (move_count e) e.
Definition sent_at (now : Z) (e : KcpEngine) : list KcpSegment :=
  sent_of now (flush_from now e) (marks_at now (flush_from now e)).
Definition buf_at (now : Z) (e : KcpEngine) : list KcpSegment :=
  map (final now (flush_from now e)) (marks_at now (flush_from now e)).

(** Acknowledgements and probes touch the output, the counters and the probe. *)
Lemma flush_front now (m : T ()) Q (R : KcpCoreError → St → Prop) s :
  Inv (inner s) → in_u 32 now →
  (∀ s' t t' q b st p, in_u 32 t → in_u 32 t' → Inv (inner s') →
     p = (e_probe (probed now (inner s))) <| p_flags := 0 |> →
     inner s' = (inner s) <| e_ack_list := [] |> <| e_output_queue := q |> <| e_out_buf := b |>
       <| e_stats := st |> <| e_probe := p |> →
     pending_bytes (inner s') = pending_bytes (inner s) ++
       segments_bytes (acks_of (inner s) ++ probes_of (probed now (inner s)) t t') →
     wp checked_overflow m Q R s') →
  wp checked_overflow (flush_acks;; handle_window_probe now;; m) Q R s.
Proof.
  intros HI Hc HQ. estep. apply flush_acks_spec; [done|]. intros s1 H1.
  set (e := inner s) in *. set (e0 := e <| e_ack_list := [] |>) in *.
  assert (HI0 : Inv e0) by (subst e0; inv_fields; by apply Forall_nil).
  pose proof (emit_all_frame (acks_of e) e0) as Hf1. rewrite <- H1 in Hf1.
  assert (HI1 : Inv (inner s1)).
  { rewrite H1. apply emit_all_inv; [|done]. by apply (acks_of_fit e). }
  estep. apply handle_window_probe_spec; [done..|]. intros t t' s2 Ht Ht'. cbv zeta. intros H2.
  pose proof (emit_all_frame (probes_of (probed now (inner s1)) t t') (probed now (inner s1))) as Hf2.
  pose proof (emit_all_pending (acks_of e) e0) as Hp1. rewrite <- H1 in Hp1.
  pose proof (emit_all_pending (probes_of (probed now (inner s1)) t t') (probed now (inner s1))) as Hp2.
  pose proof (probed_inv now (inner s1) Hc HI1) as HIp.
  pose proof (emit_all_inv _ _ (probes_of_fit _ t t' HIp Ht Ht') HIp) as HIe.
  assert (Hpr : probes_of (probed now (inner s1)) t t' = probes_of (probed now e) t t') by (by rewrite Hf1).
  set (e2 := emit_all (probes_of (probed now (inner s1)) t t') (probed now (inner s1))) in *.
  eapply (HQ s2 t t' (e_output_queue e2) (e_out_buf e2) (e_stats e2) (e_probe (inner s2))); [done..| | | |].
  - rewrite H2. clear - HIe. inv_fields. destruct i_probe. by constructor.
  - rewrite H2. cbn. by rewrite Hf2, Hf1.
  - clear - H2 Hf2 Hf1. clearbody e2. revert Hf1 Hf2 H2. unfold probed, same_but_output.
    generalize (inner s1), (inner s2). intros e1 e3 Hf1 Hf2 H2.
    apply KcpEngine_ext; cbn; try reflexivity; rewrite H2; cbn; try reflexivity;
      rewrite Hf2; cbn; try reflexivity; rewrite Hf1; reflexivity.
  - rewrite H2. change (pending_bytes (e2 <| e_probe ::= λ p, p <| p_flags := 0 |> |>)) with (pending_bytes e2).
    rewrite Hp2. change (pending_bytes (probed now (inner s1))) with (pending_bytes (inner s1)).
    rewrite Hp1, Hpr, segments_bytes_app, (assoc (++)). done.
Qed.

(** What a flush that succeeds leaves, given the time it read. *)
Record flushed (now : Z) (e e' : KcpEngine) : Prop := {
  fl_queue : e_snd_queue e' = drop (move_count e) (e_snd_queue e);
  fl_buf : e_snd_buf e' = buf_at now e;
  fl_nxt : e_snd_nxt e' = wrap 32 (e_snd_nxt e + Z.of_nat (move_count e));
  fl_una : e_snd_una e' = e_snd_una e;
  fl_acks : e_ack_list e' = [];
  fl_probe : e_probe e' = (e_probe (probed now e)) <| p_flags := 0 |>;
  fl_rmt : w_rmt (e_wnd e') = w_rmt (e_wnd e);
  fl_out_buf : e_out_buf e' = [];
  fl_alive : Forall (alive (e_dead_link e)) (sent_at now e);
  fl_output : ∃ t t', in_u 32 t ∧ in_u 32 t' ∧
    concat (e_output_queue e') = pending_bytes e ++
      segments_bytes (acks_of e ++ probes_of (probed now e) t t' ++ sent_at now e);
  fl_receiver : e_rcv_nxt e' = e_rcv_nxt e ∧ e_rcv_queue e' = e_rcv_queue e ∧
    e_rcv_buf e' = e_rcv_buf e;
  fl_config : e_config e' = e_config e ∧ e_conv e' = e_conv e ∧ e_rtt e' = e_rtt e ∧
    e_last_update e' = e_last_update e ∧ e_last_activity e' = e_last_activity e;
}.

(** What any flush leaves, also one that lost the connection on the way, when
    it has put out the segments [l]. *)
Record flush_reached (now : Z) (l : list KcpSegment) (e e' : KcpEngine) : Prop := {
  fr_queue : e_snd_queue e' = drop (move_count e) (e_snd_queue e);
  fr_buf : e_snd_buf e' = buf_at now e;
  fr_nxt : e_snd_nxt e' = wrap 32 (e_snd_nxt e + Z.of_nat (move_count e));
  fr_acks : e_ack_list e' = [];
  fr_output : ∃ t t', in_u 32 t ∧ in_u 32 t' ∧
    pending_bytes e' = pending_bytes e ++
      segments_bytes (acks_of e ++ probes_of (probed now e) t t' ++ l);
  fr_receiver : e_rcv_nxt e' = e_rcv_nxt e ∧ e_rcv_queue e' = e_rcv_queue e ∧
    e_rcv_buf e' = e_rcv_buf e;
}.

Lemma flushed_reached now e e' : flushed now e e' → flush_reached now (sent_at now e) e e'.
Proof.
  intros []. constructor; try done. destruct fl_output0 as (t & t' & ? & ? & Hq). exists t, t'.
  split_and!; [done..|]. unfold pending_bytes at 1. by rewrite fl_out_buf0, app_nil_r.
Qed.

Lemma map_sn_final now e resend rtomin l :
  map sn (map (final now e) (map (mark_of now resend rtomin (c_nodelay (e_config e)) (r_rto (e_rtt e))) l))
  = map sn l.
Proof.
  rewrite !map_map. apply map_ext. intros seg. unfold final, mark_of.
  repeat case_match; by destruct seg as [[] ? ? ? ? ?].
Qed.

Lemma marked_tight now e : una_tight e → una_tight (marked now e).
Proof. apply una_tight_ext; [done..|]. apply map_sn_final. Qed.

Lemma moved_out_tight now n e : Inv e → (n ≤ length (e_snd_queue e))%nat →
  una_tight e → una_tight (moved_out now n e).
Proof.
  intros HI Hn Ht. unfold una_tight in *. cbn. rewrite Ht. destruct (e_snd_buf e); [|done]. cbn.
  destruct n as [|n]; cbn; [by rewrite Z.add_0_r, wrap_small by apply HI|].
  destruct (e_snd_queue e); cbn in *; [lia|]. unfold sn. cbn. by rewrite Z.add_0_r, wrap_small by apply HI.
Qed.

Lemma flush_out_buf_frame (e : KcpEngine) :
  let e' := if is_empty (e_out_buf e) then e else
    e <| e_output_queue ::= λ q, q ++ [e_out_buf e] |> <| e_out_buf := [] |> in
  same_but_output e e' ∧ e_out_buf e' = [] ∧ concat (e_output_queue e') = pending_bytes e.
Proof.
  destruct e as [? ? ? ? ? ? ? ? ? ? ? ? ? ? [|b out_buf]]; unfold pending_bytes, same_but_output; cbn.
  - by rewrite app_nil_r.
  - by rewrite concat_app; cbn; rewrite app_nil_r.
Qed.

Lemma flush_tail now s :
  Inv (inner s) → in_u 32 now →
  let e := inner s in
  let sent := sent_of now e (marks_at now e) in
  wp checked_overflow (flush_data_segments now;; flush_out_buf;; update_congestion_control)
    (λ _ s', Inv (inner s') ∧ Forall (alive (e_dead_link e)) sent ∧ ∃ q st w,
       inner s' = (marked now e) <| e_output_queue := q |> <| e_out_buf := [] |>
         <| e_stats := st |> <| e_wnd := w |> ∧ w_rmt w = w_rmt (e_wnd e) ∧
       concat q = pending_bytes e ++ segments_bytes sent)
    (λ err s', err = ConnectionLost ∧ Inv (inner s') ∧ same_but_output (marked now e) (inner s') ∧
       (∃ dead, dead ∈ sent ∧ ¬ alive (e_dead_link e) dead ∧ dead ∈ e_snd_buf (inner s')) ∧
       ∃ l, l `prefix_of` sent ∧ pending_bytes (inner s') = pending_bytes e ++ segments_bytes l) s.
Proof.
  intros HI Hc e sent. estep. eapply wp_mono; [by apply flush_data_segments_spec| |done].
  fold e sent. intros _ s1 (HI1 & Hal & H1). cbv beta.
  pose proof (emit_all_frame sent (marked now e)) as Hf.
  pose proof (emit_all_pending sent (marked now e)) as Hp.
  assert (Hp1 : pending_bytes (inner s1) = pending_bytes e ++ segments_bytes sent).
  { rewrite H1. exact Hp. }
  destruct (flush_out_buf_frame (inner s1)) as (Hf2 & Ho & Hq).
  estep. eapply (wp_post _ _ (λ _ s2, Inv (inner s2) ∧ inner s2 = if is_empty (e_out_buf (inner s1)) then inner s1 else
    (inner s1) <| e_output_queue ::= λ q, q ++ [e_out_buf (inner s1)] |> <| e_out_buf := [] |>)).
  { pose proof (flush_out_buf_inv s1 HI1) as Hi.
    pose proof (flush_out_buf_spec (λ _ s2, inner s2 = if is_empty (e_out_buf (inner s1)) then inner s1 else
      (inner s1) <| e_output_queue ::= λ q, q ++ [e_out_buf (inner s1)] |> <| e_out_buf := [] |>)
      (λ _ _, False) s1 eq_refl) as Hs.
    unfold wp in *. destruct (flush_out_buf s1) as [[] ?]; done. }
  intros [] s2 [HI2 H2]. cbv beta. rewrite <- H2 in *. unfold update_congestion_control. estep. cbn [inner].
  split_and!; [|done|].
  { inv_fields. destruct i_stats. by constructor. }
  lazymatch goal with |- ∃ q st w, ?x = _ ∧ _ =>
    exists (e_output_queue (inner s2)), (e_stats x), (e_wnd (inner s2)) end.
  split_and!; [|rewrite Hf2, H1; apply loss_response_rmt|by rewrite Hq, Hp1].
  clear - Hf Hf2 Ho H1. revert Hf H1. generalize (loss_response (existsb (λ r, r.1.2) (marks_at now e))
    (existsb snd (marks_at now e)) (resend_of e) e), (emit_all sent (marked now e)), (marked now e).
  unfold same_but_output in *. revert Hf2 Ho. generalize (inner s1), (inner s2).
  intros e1 e2 Hf2 Ho w x m Hf H1. apply KcpEngine_ext; cbn; first [exact Ho|reflexivity|by rewrite Hf2, H1, Hf].
Qed.

Lemma flush_spec s :
  Inv (inner s) →
  wp checked_overflow flush
    (λ _ s', Inv (inner s') ∧ (una_tight (inner s) → una_tight (inner s')) ∧
       flushed (now_of s) (inner s) (inner s'))
    (λ err s', err = ConnectionLost ∧ Inv (inner s') ∧
       (una_tight (inner s) → una_tight (inner s')) ∧ is_dead_of (inner s') = true ∧
       ∃ l, l `prefix_of` sent_at (now_of s) (inner s) ∧
         flush_reached (now_of s) l (inner s) (inner s')) s.
Proof.
  intros HI. unfold flush. estep. apply wp_now_of. pose proof (now_of_u32 s) as Hnow.
  set (now := now_of s) in *. apply flush_front; [done..|].
  set (e := inner s) in *. change (inner (Timed e _)) with e.
  intros s1 t t' q b st p Ht Ht' HI1 Hp H1 Hpend. estep. apply move_to_send_buf_spec; [done..|].
  set (e2 := moved_out now (move_count (inner s1)) (inner s1)).
  assert (HI2 : Inv e2) by (apply moved_out_inv; [done..| |]; unfold move_count; lia).
  assert (Ht3 : una_tight e → una_tight (marked now e2)).
  { intros Hti. apply marked_tight, moved_out_tight; [done|unfold move_count; lia|]. by rewrite H1. }
  assert (Hsent : sent_of now e2 (marks_at now e2) = sent_at now e) by (subst e2; rewrite H1; reflexivity).
  eapply wp_mono; [by apply (flush_tail now (Timed e2 _))|..]; cbn [inner]; cbv beta; rewrite Hsent.
  - intros _ s3 (HI3 & Hal & q' & st' & w & H3 & Hw & Hq). split; [done|]. split.
    { intros Hti. rewrite H3. by apply Ht3. }
    constructor; try (rewrite H3; subst e2; rewrite H1; reflexivity).
    + rewrite H3. subst e2. rewrite H1. exact Hp.
    + rewrite H3. cbn. rewrite Hw. subst e2. by rewrite H1.
    + revert Hal. subst e2. rewrite H1. done.
    + exists t, t'. split_and!; [done..|]. rewrite H3.
      change (concat q' = pending_bytes e ++ segments_bytes (acks_of e ++ probes_of (probed now e) t t' ++ sent_at now e)).
      rewrite Hq. change (pending_bytes e2) with (pending_bytes (inner s1)).
      rewrite Hpend, (assoc (++) (acks_of e)), (segments_bytes_app _ (sent_at now e)), (assoc (++)). done.
    + rewrite H3. subst e2. rewrite H1. done.
    + rewrite H3. subst e2. rewrite H1. done.
  - intros err s3 (-> & HI3 & Hf & (dead & _ & Hd & Hin) & l & Hl & Hpl). split_and!; [done..| | |].
    + intros Hti. rewrite Hf. by apply Ht3.
    + unfold is_dead_of. apply existsb_exists. exists dead. split; [by apply list_elem_of_In|].
      rewrite Hf. apply Z.leb_le. unfold alive in Hd. change (e_dead_link _) with (e_dead_link e2). lia.
    + exists l. split; [done|]. constructor; try (rewrite Hf; subst e2; rewrite H1; reflexivity).
      * exists t, t'. split_and!; [done..|]. rewrite Hpl. change (pending_bytes e2) with (pending_bytes (inner s1)).
        by rewrite Hpend, <- (assoc (++)), <- segments_bytes_app, <- (assoc (++)).
      * rewrite Hf. subst e2. rewrite H1. done.
Qed.

(** ** The timer *)

(** With nothing to send, a flush sends no data. *)
Lemma nothing_to_send now e :
  e_snd_queue e = [] → e_snd_buf e = [] → move_count e = 0%nat ∧ sent_at now e = [] ∧ buf_at now e = [].
Proof.
  intros Hq Hb. assert (Hm : move_count e = 0%nat) by (unfold move_count; rewrite Hq; cbn; lia). split; [done|].
  assert (Hbuf : e_snd_buf (flush_from now e) = []) by (unfold flush_from; rewrite Hm; unfold moved_out; cbn; by rewrite Hb).
  unfold sent_at, buf_at, marks_at, marks. by rewrite Hbuf.
Qed.
Lemma no_unsent e : has_unsent_data_of e = false ↔ e_snd_queue e = [] ∧ e_snd_buf e = [].
Proof. unfold has_unsent_data_of. destruct (e_snd_queue e), (e_snd_buf e); naive_solver. Qed.
Lemma flush_nothing s :
  Inv (inner s) → has_unsent_data_of (inner s) = false →
  wp checked_overflow flush (λ _ s', has_unsent_data_of (inner s') = false) (λ _ s', has_unsent_data_of (inner s') = false) s.
Proof.
  intros HI [Hq Hb]%no_unsent. destruct (nothing_to_send (now_of s) _ Hq Hb) as (Hm & _ & Hbuf).
  eapply wp_mono; [by apply flush_spec|..].
  - intros _ s' (_ & _ & F). apply no_unsent. by rewrite (fl_queue _ _ _ F), (fl_buf _ _ _ F), Hm, Hq, Hbuf.
  - intros err s' (_ & _ & _ & _ & l & _ & F). apply no_unsent. by rewrite (fr_queue _ _ _ _ F), (fr_buf _ _ _ _ F), Hm, Hq, Hbuf.
Qed.

Lemma flush_good s :
  Inv (inner s) ∧ una_tight (inner s) →
  wp checked_overflow flush (λ _ s', Inv (inner s') ∧ una_tight (inner s'))
    (λ _ s', Inv (inner s') ∧ una_tight (inner s')) s.
Proof.
  intros [HI Ht]. eapply wp_mono; [by apply flush_spec|..].
  - intros _ s' (HI' & Ht' & _). auto.
  - intros err s' (_ & HI' & Ht' & _). auto.
Qed.

Lemma keep_alive_probe_good s :
  Inv (inner s) ∧ una_tight (inner s) →
  wp checked_overflow keep_alive_probe (λ _ s', Inv (inner s') ∧ una_tight (inner s'))
    (λ _ s', Inv (inner s') ∧ una_tight (inner s')) s.
Proof.
  intros [HI Ht]. unfold keep_alive_probe, set_probe. do 2 estep. apply flush_good. split; [|exact Ht].
  pose proof (flags_or _ IKCP_ASK_SEND (i_probe _ HI) ltac:(unfold IKCP_ASK_SEND; lia)).
  cbn [inner]. inv_fields. destruct i_probe. by constructor.
Qed.

(** [update] flushes exactly when the interval has passed. *)
Lemma update_good s :
  Inv (inner s) ∧ una_tight (inner s) →
  wp checked_overflow update (λ _ s', Inv (inner s') ∧ una_tight (inner s'))
    (λ _ s', Inv (inner s') ∧ una_tight (inner s')) s.
Proof.
  intros [HI Ht]. unfold update. do 6 estep. cbn [inner ticks].
  set (last := if now <? e_last_update (inner s) then now else e_last_update (inner s)).
  assert (Hl : in_u 32 last ∧ last ≤ now).
  { pose proof (i_update _ HI). subst last. destruct (Z.ltb_spec now (e_last_update (inner s))); split; (done || lia). }
  destruct Hl as [Hl Hlt]. do 3 estep. unfold usub. wp_exact; [unfold in_u in *; lia|].
  apply wp_when; intros _.
  - do 2 estep. apply flush_good. split; [cbn [inner]; by inv_fields|exact Ht].
  - split; [cbn [inner]; by inv_fields|exact Ht].
Qed.

(** The only error of the timer is a lost connection. *)
Lemma update_fails s :
  Inv (inner s) → wp checked_overflow update (λ _ _, True) (λ err _, err = ConnectionLost) s.
Proof.
  intros HI. unfold update. do 6 estep. cbn [inner ticks].
  set (last := if now <? e_last_update (inner s) then now else e_last_update (inner s)).
  assert (Hl : 0 ≤ last ≤ now).
  { destruct (i_update _ HI), H. subst last. destruct (Z.ltb_spec now (e_last_update (inner s))); lia. }
  do 3 estep. unfold usub. wp_exact; [unfold in_u in *; lia|].
  apply wp_when; intros _; [|done]. do 2 estep.
  eapply wp_mono; [apply flush_spec; cbn [inner]; by inv_fields|done|]. by intros err s' [-> _].
Qed.
End FlushFacts.

Section DeadlineFacts.
(** The minimum [check] computes: below each, and one of them unless none. *)
Lemma check_min (f : KcpSegment → Z) l : ∀ z,
  let m := foldl (λ next seg, Z.min next (f seg)) z l in
  m ≤ z ∧ Forall (λ seg, m ≤ f seg) l ∧ (m = z ∨ Exists (λ seg, m = f seg) l).
Proof.
  induction l as [|seg l IH]; intros z; cbn; [auto with lia|].
  destruct (IH (Z.min z (f seg))) as (H1 & H2 & H3). cbn zeta in *. split_and!; [lia| |].
  - constructor; [lia|done].
  - destruct H3 as [H3|H3]; [|auto]. rewrite H3.
    destruct (Z.min_spec z (f seg)) as [[_ ->]|[_ ->]]; auto.
Qed.

(** How long until a deadline. *)
Definition until (deadline now : Z) : Z := Z.max (time_diff deadline now) 0.

Lemma until_cast deadline now :
  as_u32 (Z.max (time_diff deadline now) 0) = until deadline now ∧ 0 ≤ until deadline now < H31.
Proof.
  pose proof (time_diff_range deadline now). unfold until in *. split; [|lia]. zlia.
Qed.

(** A deadline is not reached before it. *)
Lemma until_not_due deadline now t :
  0 ≤ t < until deadline now → time_diff (wrap 32 (now + t)) deadline < 0.
Proof.
  unfold until, time_diff. intros Ht. unfold as_i32, wrapping_sub, wrap in *. rewrite pow32 in *. zcases; zmod; lia.
Qed.

(** A window probe is scheduled. *)
Definition probing (e : KcpEngine) : Prop := w_rmt (e_wnd e) = 0 ∧ p_ts (e_probe e) ≠ 0.
Definition probing_b (e : KcpEngine) : bool := (w_rmt (e_wnd e) =? 0) && negb (p_ts (e_probe e) =? 0).
Lemma probing_spec e : probing e ↔ probing_b e = true.
Proof. unfold probing, probing_b. by rewrite andb_true_iff, negb_true_iff, Z.eqb_eq, Z.eqb_neq. Qed.

(** What [check] computes when nothing is to be sent at once. *)
Definition next_deadline (now : Z) (e : KcpEngine) : Z :=
  let next := foldl (λ next seg, Z.min next (as_u32 (Z.max (time_diff (s_resendts seg) now) 0)))
                u32_MAX (e_snd_buf e) in
  if probing_b e then Z.min next (as_u32 (Z.max (time_diff (p_ts (e_probe e)) now) 0)) else next.

Lemma next_deadline_below now e :
  (∀ seg, seg ∈ e_snd_buf e → next_deadline now e ≤ until (s_resendts seg) now) ∧
  (probing e → next_deadline now e ≤ until (p_ts (e_probe e)) now).
Proof.
  unfold next_deadline.
  destruct (check_min (λ seg, as_u32 (Z.max (time_diff (s_resendts seg) now) 0)) (e_snd_buf e) u32_MAX)
    as (_ & Hall & _). cbn zeta in *. rewrite Forall_forall in Hall.
  rewrite (proj1 (until_cast (p_ts (e_probe e)) now)). split.
  - intros seg Hin. specialize (Hall _ Hin). cbv beta in Hall. rewrite (proj1 (until_cast _ now)) in Hall.
    destruct (probing_b e); lia.
  - intros Hp%probing_spec. rewrite Hp. lia.
Qed.

Lemma next_deadline_one now e :
  (next_deadline now e = u32_MAX ∧ e_snd_buf e = [] ∧ ¬ probing e) ∨
  0 ≤ next_deadline now e < H31 ∧
    ((∃ seg, seg ∈ e_snd_buf e ∧ next_deadline now e = until (s_resendts seg) now) ∨
     (probing e ∧ next_deadline now e = until (p_ts (e_probe e)) now)).
Proof.
  destruct (next_deadline_below now e) as [Hb _]. rewrite probing_spec. unfold next_deadline in *.
  destruct (check_min (λ seg, as_u32 (Z.max (time_diff (s_resendts seg) now) 0)) (e_snd_buf e) u32_MAX)
    as (Hm & _ & Hex). cbn zeta in *. set (m := foldl _ _ _) in *. unfold u32_MAX in *.
  destruct (until_cast (p_ts (e_probe e)) now) as [Hpc Hpr]. rewrite Hpc in *. destruct Hex as [Hex|Hex].
  - destruct (e_snd_buf e) as [|seg buf].
    + destruct (probing_b e); [right|by left]. split; [lia|]. right. split; [done|]. lia.
    + pose proof (Hb seg ltac:(left)). destruct (until_cast (s_resendts seg) now) as [_ ?].
      right. destruct (probing_b e); [|lia]. split; [lia|]. right. split; [done|]. lia.
  - apply Exists_exists in Hex as (seg & Hin & Hex). destruct (until_cast (s_resendts seg) now) as [Hc ?].
    rewrite Hc in Hex. right. destruct (probing_b e).
    + split; [lia|]. destruct (Z.min_spec m (until (p_ts (e_probe e)) now)) as [[_ ->]|[_ ->]]; [left; by exists seg|by right].
    + split; [lia|]. left. by exists seg.
Qed.
End DeadlineFacts.

Section SentFacts.
Context {prof : Profile} {clk : Clock} {api : BytesApi}.

(** What [sent_at] is made of. *)
Lemma sent_at_split now e :
  ∃ resent fresh, sent_at now e = resent ++ fresh ∧
    map s_data fresh = map s_data (take (move_count e) (e_snd_queue e)) ∧
    map sn fresh = map (λ i, wrap 32 (e_snd_nxt e + Z.of_nat i)) (seq 0 (length fresh)) ∧
    Forall (λ seg, s_xmit seg = 1 ∧ h_ts (s_header seg) = now) fresh ∧
    Forall (λ seg, ∃ old, old ∈ e_snd_buf e ∧ sn seg = sn old ∧ s_data seg = s_data old ∧
      s_xmit seg = wrap 32 (s_xmit old + 1) ∧
      (s_xmit old = 0 ∨ time_diff now (s_resendts old) >= 0 ∨ resend_of e ≤ s_fastack old)) resent.
Proof.
  set (f := final now (flush_from now e)). set (q := take (move_count e) (e_snd_queue e)).
  set (m := mark_of now (resend_of e) (rtomin_of e) (c_nodelay (e_config e)) (r_rto (e_rtt e))).
  set (st := λ i, stamp e now (wrap 32 (e_snd_nxt e + Z.of_nat i))).
  assert (Hsent : sent_at now e =
    map f (filter (λ r, needs r = true) (map m (e_snd_buf e))) ++
    map f (filter (λ r, needs r = true) (map m (imap st q)))).
  { unfold sent_at, sent_of, marks_at, marks. cbn. rewrite map_app, filter_app, map_app. reflexivity. }
  exists (map f (filter (λ r, needs r = true) (map m (e_snd_buf e)))), (map f (map m (imap st q))).
  assert (Hall : filter (λ r, needs r = true) (map m (imap st q)) = map m (imap st q)).
  { apply filter_all, Forall_map, Forall_lookup. intros i r Hr.
    apply list_lookup_imap_Some in Hr as (x & _ & ->). reflexivity. }
  rewrite Hall in Hsent. split; [exact Hsent|]. rewrite !map_map, !length_map, length_imap. split_and!.
  - by apply map_imap_elem.
  - by apply map_imap_index.
  - apply Forall_map, Forall_lookup. intros i r Hr.
    apply list_lookup_imap_Some in Hr as (x & _ & ->). split; reflexivity.
  - apply Forall_map. apply Forall_forall. intros r Hr. apply list_elem_of_filter in Hr as [Hn Hr].
    apply list_elem_of_fmap in Hr as (old & -> & Hin). exists old. split; [done|].
    revert Hn. subst f m. unfold final, mark_of, needs.
    destruct (Z.eqb_spec (s_xmit old) 0) as [H0|H0]; [by rewrite H0; auto|].
    destruct (Z.leb_spec 0 (time_diff now (s_resendts old))); [cbn; auto with lia|].
    destruct (Z.leb_spec (resend_of e) (s_fastack old)); [|done].
    destruct (_ <=? _); cbn; auto with lia.
Qed.
End SentFacts.

(** * Theorems *)

Section FlushTheorems.
Context {prof : Profile} {clk : Clock} {api : BytesApi} {spec : BytesApiSpec api}.

(** C33: [check] gives a deadline nothing is due before: it is 0 when an
    acknowledgement or a probe waits, no segment times out and no probe falls
    due before it has passed, and it is the very deadline of a segment or of
    the probe (30 s when there is none). *)
Theorem check_deadline s :
  let e := inner s in let now := now_of s in
  ∃ d, check s = (Ok d, Timed e (S (ticks s))) ∧ 0 ≤ d < H31 ∧
    (e_ack_list e ≠ [] ∨ p_flags (e_probe e) ≠ 0 → d = 0) ∧
    (∀ seg t, seg ∈ e_snd_buf e → 0 ≤ t < d → time_diff (wrap 32 (now + t)) (s_resendts seg) < 0) ∧
    (∀ t, probing e → 0 ≤ t < d → time_diff (wrap 32 (now + t)) (p_ts (e_probe e)) < 0) ∧
    (e_ack_list e = [] → p_flags (e_probe e) = 0 →
       (∃ seg, seg ∈ e_snd_buf e ∧ d = until (s_resendts seg) now) ∨
       (probing e ∧ d = until (p_ts (e_probe e)) now) ∨
       (e_snd_buf e = [] ∧ ¬ probing e ∧ d = 30000)).
Proof.
  cbn zeta. set (e := inner s). set (now := now_of s). exists (check_at now e). split; [done|].
  unfold check_at. fold (probing_b e). fold (next_deadline now e).
  destruct (is_empty (e_ack_list e)) eqn:Ha; cbn [negb orb].
  2:{ apply is_empty_false in Ha. split_and!; [lia|lia|done| | |]; intros; [lia|lia|done]. }
  apply is_empty_true in Ha. destruct (Z.eqb_spec (p_flags (e_probe e)) 0) as [Hf|Hf]; cbn [negb].
  2:{ split_and!; [lia|lia|done| | |]; intros; [lia|lia|done]. }
  destruct (next_deadline_below now e) as [Hsegs Hprobe]. unfold u32_MAX.
  destruct (next_deadline_one now e) as [(Hn & Hb & Hp)|[Hr Hd]].
  - rewrite Hn, Hb. cbn. split_and!; [lia|lia|by intros [?|?]| |by intros|by auto]. set_solver.
  - destruct (Z.eqb_spec (next_deadline now e) 4294967295) as [Hn|_]; [lia|].
    split_and!; [lia|lia|by intros [?|?]| | |].
    + intros seg t Hin Ht. apply until_not_due. specialize (Hsegs _ Hin). lia.
    + intros t Hpr Ht. apply until_not_due. specialize (Hprobe Hpr). lia.
    + intros _ _. destruct Hd as [Hd|Hd]; [by left|by right; left].
Qed.

(** C18: a successful [flush] puts out exactly what was pending, one
    acknowledgement for each segment received, the probes that are asked for and
    the data segments the scan selects, none of them out of retries, leaves
    nothing unsent in the output buffer, and touches neither the receiver nor
    the configuration.  Its only error is [ConnectionLost]. *)
Theorem flush_output s :
  Inv (inner s) →
  wp checked_overflow flush
    (λ _ s', Inv (inner s') ∧ flushed (now_of s) (inner s) (inner s'))
    (λ err s', Inv (inner s') ∧ err = ConnectionLost ∧ is_dead_of (inner s') = true) s.
Proof.
  intros HI. eapply wp_mono; [by apply flush_spec|..].
  - by intros _ s' (HI' & _ & Hf).
  - by intros err s' (-> & HI' & _ & Hd & _).
Qed.

(** The data segments a [flush] sends are the due ones of the send buffer,
    followed by the queue as far as the window reaches, each once, in order,
    with its payload untouched and the next sequence numbers. *)
Theorem flush_sends_in_order now e :
  ∃ resent fresh, sent_at now e = resent ++ fresh ∧
    map s_data fresh = map s_data (take (move_count e) (e_snd_queue e)) ∧
    map sn fresh = map (λ i, wrap 32 (e_snd_nxt e + Z.of_nat i)) (seq 0 (length fresh)) ∧
    Forall (λ seg, s_xmit seg = 1 ∧ h_ts (s_header seg) = now) fresh ∧
    Forall (λ seg, ∃ old, old ∈ e_snd_buf e ∧ sn seg = sn old ∧ s_data seg = s_data old ∧
      s_xmit seg = wrap 32 (s_xmit old + 1) ∧
      (s_xmit old = 0 ∨ time_diff now (s_resendts old) >= 0 ∨ resend_of e ≤ s_fastack old)) resent.
Proof. apply sent_at_split. Qed.

(** An engine allowed one retry, which [validate] accepts, loses its
    connection on the first segment it sends: the first transmission counts. *)
Theorem one_retry_is_lost s :
  Inv (inner s) → e_dead_link (inner s) = 1 → (0 < move_count (inner s))%nat →
  wp checked_overflow flush (λ _ _, False) (λ err _, err = ConnectionLost) s.
Proof.
  intros HI Hd Hm. eapply wp_mono; [by apply flush_spec| |by intros err s' [-> _]].
  intros _ s' (_ & _ & Hf). pose proof (fl_alive _ _ _ Hf) as Hal.
  destruct (sent_at_split (now_of s) (inner s)) as (resent & fresh & Hs & Hdat & _ & Hx & _).
  rewrite Hs, Forall_app in Hal. destruct Hal as [_ Hal]. apply (f_equal length) in Hdat.
  rewrite !length_map, length_take in Hdat. destruct fresh as [|seg fresh]; cbn in Hdat.
  { unfold move_count in *. lia. }
  apply Forall_cons in Hal as [Hal _]. apply Forall_cons in Hx as [[Hx _] _]. unfold alive in Hal. lia.
Qed.

(** C19: [move_to_send_buf] moves the head of the queue to the send buffer,
    numbered on from [snd_nxt], until the queue is empty or the window (the
    smallest of the send window, the peer's and, with congestion control, the
    congestion window) is full, and never sends past that window. *)
Theorem send_window_respected now s :
  Inv (inner s) → in_u 32 now →
  let e := inner s in
  let w := e_wnd e in
  let window := if nd_no_congestion_control (c_nodelay (e_config e)) then Z.min (w_snd w) (w_rmt w)
    else Z.min (w_cwnd w) (Z.min (w_snd w) (w_rmt w)) in
  wp checked_overflow (move_to_send_buf now)
    (λ _ s', let e' := inner s' in Inv e' ∧ ∃ n,
       e_snd_queue e' = drop n (e_snd_queue e) ∧
       map s_data (e_snd_buf e') = map s_data (e_snd_buf e) ++ map s_data (take n (e_snd_queue e)) ∧
       map sn (e_snd_buf e') = map sn (e_snd_buf e) ++
         map (λ i, wrap 32 (e_snd_nxt e + Z.of_nat i)) (seq 0 n) ∧
       offset_from (e_snd_una e) (e_snd_nxt e') = offset_from (e_snd_una e) (e_snd_nxt e) + Z.of_nat n ∧
       offset_from (e_snd_una e) (e_snd_nxt e') ≤
         Z.max (offset_from (e_snd_una e) (e_snd_nxt e)) window ∧
       (e_snd_queue e' = [] ∨ window ≤ offset_from (e_snd_una e) (e_snd_nxt e')))
    (λ _ _, False) s.
Proof.
  intros HI Hc e w window. change window with (send_window_of e). apply move_to_send_buf_spec; [done..|]. cbn [inner]. fold e.
  set (n := move_count e).
  assert (Hn : (n ≤ length (e_snd_queue e))%nat ∧ (n ≤ Z.to_nat (room_of e))%nat ∧
    (n = length (e_snd_queue e) ∨ n = Z.to_nat (room_of e))) by (unfold n, move_count; lia).
  destruct Hn as (Hq & Hr & Hmin). split; [by apply moved_out_inv|]. exists n.
  pose proof (send_window_range _ HI) as Hw. pose proof (wo_snd _ (i_config _ HI)) as Hs.
  pose proof (sb_window _ _ _ _ _ (i_snd_buf _ HI)) as Hwin. fold e in Hw, Hs, Hwin.
  destruct (wrapping_sub_range (e_snd_nxt e) (e_snd_una e)) as [Ho _]. unfold room_of in Hr, Hmin.
  assert (Hoff : offset_from (e_snd_una e) (wrap 32 (e_snd_nxt e + Z.of_nat n)) =
    offset_from (e_snd_una e) (e_snd_nxt e) + Z.of_nat n).
  { apply offset_add; [apply HI|apply HI|lia|zlia]. }
  cbn. rewrite Hoff, !map_app. split_and!; [done| | |done|lia|].
  - f_equal. by apply map_imap_elem.
  - f_equal. rewrite (map_imap_index sn _ (λ i, wrap 32 (e_snd_nxt e + Z.of_nat i))) by done.
    by rewrite length_take, Nat.min_l.
  - destruct Hmin as [->|Hmin]; [left; by apply drop_all|right]. lia.
Qed.

(** C20: a segment is (re)sent exactly when it is new, its timer has run out or
    enough later segments have been acknowledged, with its transmission
    counted.  A new segment starts with the connection's RTO and the margin it is
    given on top as its deadline.  A timeout alone reports a loss and backs the
    timer off by [backoff]: it doubles at least without [nodelay]; with it, it
    grows by half of itself, or, without congestion control, by half of the
    connection's RTO; a retransmission's deadline is its RTO from now.  A fast
    retransmission clears the skip count; otherwise the segment is left alone.
    Its number and payload never change. *)
Theorem retransmit_policy now resend rtomin seg s :
  sendable (mss_of (e_config (inner s))) seg → rtt_ok (e_rtt (inner s)) → in_u 32 now →
  let nodelay := c_nodelay (e_config (inner s)) in
  let rto := r_rto (e_rtt (inner s)) in
  let step := backoff nodelay rto (s_rto seg) in
  let expired := 0 <=? time_diff now (s_resendts seg) in
  wp checked_overflow (mark_one now resend rtomin seg)
    (λ '(seg', needsend, lost, change) s',
       s_header seg' = s_header seg ∧ s_data seg' = s_data seg ∧
       (needsend = true ↔ s_xmit seg = 0 ∨ expired = true ∨
          (resend ≤ s_fastack seg ∧ s_xmit seg ≤ IKCP_FASTACK_LIMIT)) ∧
       (lost = true ↔ s_xmit seg ≠ 0 ∧ expired = true) ∧
       (change = true → s_xmit seg ≠ 0 ∧ expired = false ∧ s_fastack seg' = 0) ∧
       s_xmit seg' = (if needsend then wrap 32 (s_xmit seg + 1) else s_xmit seg) ∧
       (needsend = false → seg' = seg) ∧
       (s_xmit seg = 0 → s_rto seg' = rto ∧
          (0 ≤ rto + rtomin < H31 → time_diff (s_resendts seg') now = rto + rtomin)) ∧
       (lost = true → s_rto seg + step < 2 ^ 32 →
          s_rto seg' = s_rto seg + step ∧ (2 ≤ s_rto seg → s_rto seg < s_rto seg') ∧
          (nd_nodelay nodelay = false → 2 * s_rto seg ≤ s_rto seg')) ∧
       (lost = false → s_xmit seg ≠ 0 → s_rto seg' = s_rto seg) ∧
       (needsend = true → s_xmit seg ≠ 0 → s_rto seg' < H31 →
          time_diff (s_resendts seg') now = s_rto seg'))
    (λ _ _, False) s.
Proof.
  intros Hs Hrtt Hnow nodelay rto step expired. apply mark_one_spec. cbv zeta. fold nodelay rto.
  pose proof (se_rto _ _ Hs) as Hrto. pose proof (ro_rto _ Hrtt) as Hcr. pose proof (ro_min _ Hrtt) as Hmin.
  fold rto in Hcr. unfold IKCP_RTO_NDL, IKCP_RTO_MAX in *.
  assert (Hdue : ∀ t, 0 ≤ t < H31 → time_diff (wrap 32 (now + t)) now = t).
  { unfold time_diff. intros. zlia. }
  unfold mark_of. fold expired. destruct (Z.eqb_spec (s_xmit seg) 0) as [H0|H0].
  { rewrite H0. cbn. split_and!; try done; try (intros; done); try (split; intros; try done; by auto).
    - split; intros; try done. by destruct H.
    - intros _. split; [done|]. intros Hlt. rewrite <- Hdue by done. f_equal. f_equal. lia. }
  destruct expired eqn:He.
  { cbn [fst snd]. fold (backoff nodelay rto (s_rto seg)). fold step.
    cbn. split_and!; try done; try (intros; done); try (split; intros; try done; by auto).
    - intros _ Hlt. pose proof (backoff_grows nodelay rto (s_rto seg) ltac:(lia) (proj1 Hrto)) as (Hb1 & Hb2 & Hb3).
      fold step in Hb1, Hb2, Hb3. unfold in_u in *. rewrite wrap_small by (unfold in_u; lia). split_and!; [done|lia|].
      intros Hnd. specialize (Hb3 Hnd). lia.
    - intros _ _ Hlt. apply Hdue. split; [apply wrap_in_u; lia|done]. }
  destruct (Z.leb_spec resend (s_fastack seg)); destruct (Z.leb_spec (s_xmit seg) IKCP_FASTACK_LIMIT); cbn;
    split_and!; try done; try (intros; done); try (split; intros; try done; auto; naive_solver lia).
  intros _ _ Hlt. apply Hdue. by split; [apply Hrto|].
Qed.

(** The congestion response: a timeout puts the congestion window back to
    one segment and the threshold to half of it, a fast retransmission sets the
    threshold to half of what is in flight and the window [resend] above it, and
    without a loss the window stays; it is never left empty. *)
Theorem loss_backoff lost change resend s :
  Inv (inner s) →
  let e := inner s in let w := e_wnd e in
  let inflight := offset_from (e_snd_una e) (e_snd_nxt e) in
  wp checked_overflow (update_congestion_on_loss lost change resend)
    (λ _ s', let w' := e_wnd (inner s') in Inv (inner s') ∧ 1 ≤ w_cwnd w' ∧
       (lost = true → w_cwnd w' = 1 ∧ w_incr w' = mss_of (e_config e)) ∧
       (lost = true → change = false → w_ssthresh w' = Z.max (w_cwnd w / 2) IKCP_THRESH_MIN) ∧
       (lost = false → change = true → w_ssthresh w' = Z.max (inflight / 2) IKCP_THRESH_MIN ∧
          (0 ≤ resend < H31 → w_cwnd w' = w_ssthresh w' + resend)) ∧
       (lost = false → change = false → 1 ≤ w_cwnd w → w' = w))
    (λ _ _, False) s.
Proof.
  intros HI e w inflight. apply update_congestion_on_loss_spec; [apply HI|]. cbn [inner]. fold e.
  assert (Hin : 0 ≤ inflight ≤ 65535).
  { pose proof (sb_window _ _ _ _ _ (i_snd_buf _ HI)). pose proof (wo_snd _ (i_config _ HI)).
    destruct (wrapping_sub_range (e_snd_nxt e) (e_snd_una e)) as [? _]. subst inflight e. lia. }
  pose proof (loss_response_ok lost change resend e HI) as Hok.
  split; [inv_fields|]. destruct (wk_cwnd _ _ Hok) as [Hc0 _]. clear Hok. change (e_wnd (_ <| e_wnd := ?w |>)) with w.
  revert Hc0. unfold loss_response. fold inflight. unfold IKCP_THRESH_MIN. fold w.
  set (m := mss_of _). set (cw := wrap 32 (Z.max (inflight / 2) 2 + resend)).
  assert (Hcw : 0 ≤ resend < H31 → cw = Z.max (inflight / 2) 2 + resend).
  { intros ?. subst cw. apply wrap_small. zlia. }
  destruct lost, change; cbn; try case_match; cbn; intros; split_and!; try done; try zlia; intros; try split; try done; try zlia.
Qed.

(** The window probe timer: with the peer's window open it is off; with it
    closed the first flush arms it 7 s ahead, and from then on it asks for the
    window exactly when it has run out, each time half as long again as the
    last, never more than 120 s ahead. *)
Theorem probe_backoff now s :
  Inv (inner s) → in_u 32 now →
  let p := e_probe (inner s) in
  let due := 0 <=? time_diff now (p_ts p) in
  wp checked_overflow (probe_timer now)
    (λ _ s', let p' := e_probe (inner s') in Inv (inner s') ∧
       (w_rmt (e_wnd (inner s)) ≠ 0 → p' = Build_ProbeState (p_flags p) 0 0) ∧
       (w_rmt (e_wnd (inner s)) = 0 →
          (p_wait p = 0 → p_wait p' = IKCP_PROBE_INIT ∧ p_flags p' = p_flags p) ∧
          (p_wait p ≠ 0 → due = false → p' = p) ∧
          (p_wait p ≠ 0 → due = true → Z.testbit (p_flags p') 0 = true ∧
             (IKCP_PROBE_INIT ≤ p_wait p → p_wait p' = Z.min (p_wait p + p_wait p / 2) IKCP_PROBE_LIMIT)) ∧
          (p_wait p = 0 ∨ due = true → IKCP_PROBE_INIT ≤ p_wait p' ≤ IKCP_PROBE_LIMIT ∧
             time_diff (p_ts p') now = p_wait p')))
    (λ _ _, False) s.
Proof.
  intros HI Hc p due. apply probe_timer_spec; [done|]. intros s' H1. fold (probed now (inner s)) in H1.
  pose proof (probed_inv _ _ Hc HI) as HI'. rewrite <- H1 in HI'. split; [done|].
  rewrite H1. unfold probed. cbn. fold p. fold due. pose proof (po_wait _ (i_probe _ HI)) as Hw. fold p in Hw.
  assert (Hdue : ∀ t, 0 ≤ t < H31 → time_diff (wrap 32 (now + t)) now = t) by (unfold time_diff; intros; zlia).
  assert (Hlor : ∀ z, Z.testbit (Z.lor z 1) 0 = true) by (intros z; rewrite Z.lor_spec; apply orb_true_r).
  unfold probe_after. fold due. destruct (Z.eqb_spec (w_rmt (e_wnd (inner s))) 0); [|by split].
  split; [done|]. intros _. unfold IKCP_PROBE_INIT, IKCP_PROBE_LIMIT, IKCP_ASK_SEND in *.
  destruct (Z.eqb_spec (p_wait p) 0) as [Hz|Hz]; [|destruct due eqn:Hd]; cbn.
  - split_and!; try done. intros _. rewrite Hdue by lia. split; [lia|done].
  - split_and!; try done.
    + intros _ _. split; [exact (Hlor _)|]. intros ?. by rewrite Z.max_l.
    + intros _. rewrite Hdue by zlia. split; [zlia|done].
  - split_and!; try done. by intros [?|?].
Qed.

(** Sending a batch of segments fails exactly when one of them has been
    transmitted [dead_link] times, this transmission included; that is a lost
    connection, and [is_dead] then says so. *)
Theorem dead_link_exact now s :
  Inv (inner s) → in_u 32 now →
  let e := inner s in let sent := sent_of now e (marks_at now e) in
  wp checked_overflow (flush_data_segments now)
    (λ _ s', Inv (inner s') ∧ ∀ seg, seg ∈ sent → s_xmit seg < e_dead_link e)
    (λ err s', Inv (inner s') ∧ err = ConnectionLost ∧ is_dead_of (inner s') = true ∧
       ∃ seg, seg ∈ sent ∧ e_dead_link e ≤ s_xmit seg) s.
Proof.
  intros HI Hc e sent. eapply wp_mono; [by apply flush_data_segments_spec|..].
  - intros _ s' (HI' & Hal & _). rewrite Forall_forall in Hal. by split.
  - intros err s' (-> & HI' & Hf & (dead & Hin & Hd & Hbuf) & _). fold sent in Hin. unfold alive in Hd. fold e in Hd.
    split_and!; [done..| |exists dead; split; [done|lia]].
    unfold is_dead_of. apply existsb_exists. exists dead. split; [by apply list_elem_of_In|].
    rewrite Hf. apply Z.leb_le. change (e_dead_link _) with (e_dead_link e). lia.
Qed.

(** [update] flushes when the flush interval has passed since the last
    update and only then; a clock that has wrapped restarts the interval. *)
Theorem update_interval s :
  Inv (inner s) →
  let e := inner s in let now := now_of s in
  let last := if now <? e_last_update e then now else e_last_update e in
  wp checked_overflow update
    (λ _ s', Inv (inner s') ∧
       if nd_interval (c_nodelay (e_config e)) <=? now - last
       then e_last_update (inner s') = now ∧
            flushed (as_u32 (elapsed_ms (S (ticks s)))) (e <| e_last_update := now |>) (inner s')
       else inner s' = e <| e_last_update := last |>)
    (λ err s', Inv (inner s') ∧ err = ConnectionLost ∧
       nd_interval (c_nodelay (e_config e)) ≤ now - last) s.
Proof.
  intros HI e now last. unfold update. estep. apply wp_now_of. pose proof (now_of_u32 s) as Hnow. fold now in Hnow |- *.
  do 4 estep. cbn [inner ticks]. fold e. fold last.
  assert (Hl : 0 ≤ last ≤ now).
  { destruct (i_update _ HI) as [? _]. destruct Hnow. fold e in H. subst last.
    destruct (Z.ltb_spec now (e_last_update e)); lia. }
  do 3 estep. unfold usub. wp_exact; [unfold in_u in *; lia|]. cbn [inner].
  change (e_config (e <| e_last_update := last |>)) with (e_config e). apply wp_when; intros Hd; rewrite Hd; cbn [inner].
  - do 2 estep. eapply wp_mono; [apply flush_spec; cbn [inner]; by inv_fields|..]; cbn [inner ticks].
    + intros _ s' (HI' & _ & Hf). split; [done|]. unfold now_of in Hf. cbn [ticks] in Hf.
      change (e <| e_last_update := last |> <| e_last_update := now |>) with (e <| e_last_update := now |>) in Hf.
      split; [|done]. destruct (fl_config _ _ _ Hf) as (_ & _ & _ & -> & _). done.
    + intros err s' (-> & HI' & _). apply Z.leb_le in Hd. done.
  - split; [|done]. assert (in_u 32 last) by (unfold in_u in *; lia). by inv_fields.
Qed.
End FlushTheorems.

Module FlushSample.
(** Segments in flight around the wrap, one queued, one acknowledgement owed,
    a window the peer has closed. *)
Definition engine : KcpEngine := AckSample.engine
  <| e_snd_queue := [AckSample.seg 0] |> <| e_ack_list := [(3, 900)] |>.
Definition state : St := Timed engine 2.
Definition closed : St := Timed (engine <| e_wnd ::= λ w, w <| w_rmt := 0 |> |>) 2.
(** The same with the timers of the segments run out. *)
Definition late : St := Timed (engine <| e_dead_link := 2 |>) 20.

Lemma seg_sendable : sendable (mss_of Sample.config) (AckSample.seg 0).
Proof. constructor; try (vm_compute; split; congruence). split; [|done]. constructor; vm_compute; split; congruence. Qed.
Lemma pending_good : Inv engine.
Proof.
  destruct AckSample.inflight_good. constructor; try assumption.
  - cbn. apply Forall_singleton, seg_sendable.
  - apply Forall_singleton. split; vm_compute; split; congruence.
Qed.
Lemma good_closed : Inv (inner closed).
Proof. pose proof pending_good as HI. cbn. inv_fields. destruct i_wnd. constructor; cbn; try assumption. Qed.
Lemma good_late : Inv (inner late).
Proof. pose proof pending_good as HI. cbn. by inv_fields. Qed.
End FlushSample.

Lemma flush_output_witness :
  let s' := (flush (prof := release_build) (clk := Sample.clock) (api := bytes_le) FlushSample.state).2 in
  e_snd_queue (inner s') = [] ∧ e_ack_list (inner s') = [] ∧ len (concat (e_output_queue (inner s'))) = 49.
Proof.
  pose proof (wp_ok _ _ _ _ _ _ _ (flush_output (prof := release_build) (clk := Sample.clock) (api := bytes_le)
    FlushSample.state FlushSample.pending_good) ltac:(vm_compute; reflexivity)) as [_ H].
  cbn zeta. destruct H as [Hq _ _ _ Ha _ _ _ _ _ _]. vm_compute in Hq, Ha |- *. auto.
Defined.

Lemma check_deadline_witness : (check (clk := Sample.clock) AckSample.state).1 = Ok 80.
Proof.
  destruct (check_deadline (clk := Sample.clock) AckSample.state) as (d & Hd & _ & _ & _ & _ & H).
  rewrite Hd. cbn [fst]. f_equal. destruct (H eq_refl eq_refl) as [(seg & Hin & ->)|[[Hp _]|[Hb _]]].
  - change (e_snd_buf (inner AckSample.state)) with [AckSample.seg 4294967295; AckSample.seg 0; AckSample.seg 1] in Hin.
    rewrite !elem_of_cons, elem_of_nil in Hin. by destruct Hin as [->|[->|[->|[]]]].
  - exfalso. vm_compute in Hp. by destruct Hp.
  - discriminate Hb.
Defined.

Lemma send_window_respected_witness :
  let s' := (move_to_send_buf (prof := release_build) 1020 FlushSample.state).2 in
  offset_from 4294967295 (e_snd_nxt (inner s')) ≤ 32.
Proof.
  pose proof (wp_ok _ _ _ _ _ _ _ (send_window_respected (prof := release_build) 1020 FlushSample.state
    FlushSample.pending_good ltac:(split; vm_compute; congruence)) ltac:(vm_compute; reflexivity))
    as (_ & n & _ & _ & _ & _ & Hw & _).
  cbn zeta. etransitivity; [exact Hw|]. vm_compute. congruence.
Defined.

Lemma retransmit_policy_witness :
  let r := mark_one (prof := release_build) 1200 2 0 (AckSample.seg 0) FlushSample.state in
  ∃ seg', r.1 = Ok (seg', true, true, false) ∧ s_rto seg' = 400 ∧ s_resendts seg' = 1600.
Proof.
  pose proof (retransmit_policy (prof := release_build) 1200 2 0 (AckSample.seg 0) FlushSample.state
    FlushSample.seg_sendable (i_rtt _ FlushSample.pending_good) ltac:(split; vm_compute; congruence)) as H.
  apply wp_run in H. cbn zeta in *. destruct (mark_one _ _ _ _ _) as [[[[[seg' needsend] lost] change]|err|p] s'] eqn:E;
    [|done|by destruct H].
  destruct H as (_ & _ & [_ Hn] & [_ Hl] & Hc & _). exists seg'.
  rewrite Hn in * by (right; by left). rewrite Hl in * by (by split).
  destruct change; [destruct (Hc eq_refl) as (_ & Hx & _); vm_compute in Hx; discriminate Hx|]. split; [done|].
  vm_compute in E. injection E. intros. subst. split; reflexivity.
Defined.

Lemma loss_backoff_witness :
  let s' := (update_congestion_on_loss (prof := release_build) true false 2 FlushSample.state).2 in
  w_cwnd (e_wnd (inner s')) = 1 ∧ w_ssthresh (e_wnd (inner s')) = 16.
Proof.
  pose proof (wp_ok _ _ _ _ _ _ _ (loss_backoff (prof := release_build) true false 2 FlushSample.state
    FlushSample.pending_good) ltac:(vm_compute; reflexivity)) as (_ & _ & Hc & Ht & _).
  cbn zeta. split; [exact (proj1 (Hc eq_refl))|exact (Ht eq_refl eq_refl)].
Defined.

Lemma probe_backoff_witness :
  let s' := (probe_timer (prof := release_build) 1020 FlushSample.closed).2 in
  p_wait (e_probe (inner s')) = 7000 ∧ p_ts (e_probe (inner s')) = 8020.
Proof.
  pose proof (wp_ok _ _ _ _ _ _ _ (probe_backoff (prof := release_build) 1020 FlushSample.closed
    FlushSample.good_closed ltac:(split; vm_compute; congruence)) ltac:(vm_compute; reflexivity)) as (_ & _ & H).
  destruct (H eq_refl) as (Hi & _). cbn zeta. split; [exact (proj1 (Hi eq_refl))|vm_compute; reflexivity].
Defined.

Lemma dead_link_exact_witness :
  let s' := (flush_data_segments (prof := release_build) (api := bytes_le) 1300 FlushSample.late).2 in
  is_dead_of (inner s') = true.
Proof.
  pose proof (wp_err _ _ _ _ _ _ _ (dead_link_exact (prof := release_build) (api := bytes_le) 1300 FlushSample.late
    FlushSample.good_late ltac:(split; vm_compute; congruence)) ltac:(vm_compute; reflexivity)) as (_ & _ & H & _).
  exact H.
Defined.

Lemma update_interval_witness :
  let s' := (update (prof := release_build) (clk := Sample.clock) (api := bytes_le) FlushSample.state).2 in
  inner s' = FlushSample.engine.
Proof.
  pose proof (wp_ok _ _ _ _ _ _ _ (update_interval (prof := release_build) (clk := Sample.clock) (api := bytes_le)
    FlushSample.state FlushSample.pending_good) ltac:(vm_compute; reflexivity)) as (_ & H).
  cbn zeta. vm_compute in H |- *. exact H.
Defined.

Lemma one_retry_is_lost_witness :
  (flush (prof := release_build) (clk := Sample.clock) (api := bytes_le)
    (Timed (FlushSample.engine <| e_dead_link := 1 |>) 2)).1 = Err ConnectionLost.
Proof.
  pose proof (one_retry_is_lost (prof := release_build) (clk := Sample.clock) (api := bytes_le)
    (Timed (FlushSample.engine <| e_dead_link := 1 |>) 2)
    ltac:(pose proof FlushSample.pending_good; cbn [inner]; by inv_fields) eq_refl ltac:(vm_compute; lia)) as H.
  apply wp_run in H. destruct (flush _) as [[a|err|p] s']; [done|by cbn; rewrite H|by destruct H].
Defined.
