(* ===== verification/Frame.v ===== *)
(** What no operation of the engine changes: its configuration, its retry limit
    and (but for [set_conv]) its conversation number.

    [keeps proj m] says that [m] leaves [proj] of the engine alone, whatever it
    returns.  The lemmas of the [keeps] hint database follow the syntax of a
    computation, so a frame fact about an operation is one [keeps] call. *)
From S2P Require Import Prelude Monad Protocol Error Config Engine Output Send Recv Ack Input Flush.

Section Keeps.
Context {prof : Profile} {clk : Clock} {X : Type} (proj : KcpEngine → X).

Definition keeps {A} (m : T A) : Prop :=
  ∀ s, proj (inner (m s).2) = proj (inner s).

Lemma keeps_ret {A} (a : A) : keeps (mret a).
Proof. done. Qed.
Lemma keeps_fail {A} err : keeps (A:=A) (fail err).
Proof. done. Qed.
Lemma keeps_panic {A} p : keeps (A:=A) (panicM p).
Proof. done. Qed.
Lemma keeps_get {A} (f : KcpEngine → A) : keeps (get f).
Proof. done. Qed.
Lemma keeps_now : keeps current_timestamp.
Proof. done. Qed.
Lemma keeps_update f : (∀ e, proj (f e) = proj e) → keeps (update_self f).
Proof. intros H s. apply H. Qed.

Lemma keeps_bind {A B} (m : T A) (k : A → T B) :
  keeps m → (∀ a, keeps (k a)) → keeps (m ≫= k).
Proof.
  intros Hm Hk s. specialize (Hm s). unfold mbind, M_bind.
  destruct (m s) as [[a|err|p] s']; [|done..]. by rewrite (Hk a s').
Qed.
Lemma keeps_if {A} (c : bool) (m n : T A) : keeps m → keeps n → keeps (if c then m else n).
Proof. by destruct c. Qed.
Lemma keeps_when c (m : T ()) : keeps m → keeps (whenM c m).
Proof. by destruct c. Qed.
Lemma keeps_foldM {A B} (f : B → A → T B) l : (∀ b a, keeps (f b a)) → ∀ b, keeps (foldM f b l).
Proof.
  intros Hf. induction l as [|a l IH]; intros b; cbn; [done|]. by apply keeps_bind.
Qed.
Lemma keeps_forM {A} (f : A → T ()) l : (∀ a, keeps (f a)) → keeps (forM l f).
Proof. intros Hf. by apply keeps_foldM. Qed.
Lemma keeps_iterM {B C} (body : B → T (B + C)) fuel : (∀ b, keeps (body b)) → ∀ b, keeps (iterM fuel body b).
Proof.
  intros Hb. induction fuel as [|fuel IH]; intros b; cbn; [done|].
  apply keeps_bind; [done|]. intros [b'|c]; [done|by apply keeps_ret].
Qed.

Lemma keeps_arith w z : keeps (arith w z).
Proof. intros s. unfold arith. by repeat case_match. Qed.
Lemma keeps_isub32 a b : keeps (isub32 a b).
Proof. intros s. unfold isub32. by repeat case_match. Qed.
Lemma keeps_udiv a b : keeps (udiv a b).
Proof. intros s. unfold udiv. by case_match. Qed.
Lemma keeps_udiv_ceil a b : keeps (udiv_ceil a b).
Proof. intros s. unfold udiv_ceil. by case_match. Qed.
Lemma keeps_clamp lo hi x : keeps (clampM lo hi x).
Proof. intros s. unfold clampM. by case_match. Qed.
Lemma keeps_slice lo hi buf : keeps (slice lo hi buf).
Proof. intros s. unfold slice. by case_match. Qed.
Lemma keeps_index {A} (v : list A) i : keeps (index v i).
Proof. intros s. unfold index. by case_match. Qed.
End Keeps.

Create HintDb keeps.
#[export] Hint Resolve keeps_ret keeps_fail keeps_panic keeps_get keeps_now keeps_arith keeps_isub32
  keeps_udiv keeps_udiv_ceil keeps_clamp keeps_slice keeps_index : keeps.
#[export] Hint Extern 1 (keeps _ (uadd _ _ _)) => apply keeps_arith : keeps.
#[export] Hint Extern 1 (keeps _ (usub _ _ _)) => apply keeps_arith : keeps.
#[export] Hint Extern 1 (keeps _ (umul _ _ _)) => apply keeps_arith : keeps.
#[export] Hint Extern 1 (keeps _ (update_self _)) => apply keeps_update; intros; reflexivity : keeps.

(** One step down the syntax of a computation. *)
Ltac keeps_step :=
  match goal with
  | |- keeps _ (mbind _ _) => apply keeps_bind; [|intros ?]
  | |- keeps _ (whenM _ _) => apply keeps_when
  | |- keeps _ (forM _ _) => apply keeps_forM; intros ?
  | |- keeps _ (foldM _ _ _) => apply keeps_foldM; intros ? ?
  | |- keeps _ (iterM _ _ _) => apply keeps_iterM; intros ?
  | |- keeps _ (if _ then _ else _) => apply keeps_if
  | |- keeps _ (match ?x with _ => _ end) => destruct x
  | |- keeps _ _ => solve [eauto 2 with keeps]
  end.
Ltac keeps := intros; cbv beta zeta; repeat (keeps_step; cbv beta zeta).

(** A projection that looks at none of the fields the operations write. *)
Class Fixed {X} (proj : KcpEngine → X) : Prop := fixed : ∀ e e',
  e_config e = e_config e' → e_dead_link e = e_dead_link e' → e_conv e = e_conv e' → proj e = proj e'.
#[export] Instance fixed_config : Fixed e_config.
Proof. intros e e' H _ _. exact H. Qed.
#[export] Instance fixed_dead_link : Fixed e_dead_link.
Proof. intros e e' _ H _. exact H. Qed.
#[export] Instance fixed_conv : Fixed e_conv.
Proof. intros e e' _ _ H. exact H. Qed.

Section Frames.
Context {prof : Profile} {clk : Clock} {api : BytesApi} {X : Type} (proj : KcpEngine → X) `{!Fixed proj}.

Local Ltac fixed := apply keeps_update; intros; apply fixed; reflexivity.
#[local] Hint Extern 1 (keeps _ (update_self _)) => fixed : keeps.

Lemma keeps_count_stat p `{!Setter p} n : keeps proj (count_stat p n).
Proof. unfold count_stat. keeps. Qed.
Lemma keeps_mss : keeps proj mss.
Proof. unfold mss. keeps. Qed.
Lemma keeps_wnd_unused : keeps proj wnd_unused.
Proof. unfold wnd_unused. keeps. Qed.
Lemma keeps_reset_cwnd : keeps proj reset_cwnd.
Proof. pose proof keeps_mss. unfold reset_cwnd. keeps. Qed.
Hint Resolve keeps_count_stat keeps_mss keeps_wnd_unused keeps_reset_cwnd : keeps.

Lemma keeps_segment_new conv cmd data : keeps proj (KcpSegment_new conv cmd data).
Proof. unfold KcpSegment_new, KcpHeader_new. keeps. Qed.
Hint Resolve keeps_segment_new : keeps.

Lemma keeps_send data : keeps proj (send data).
Proof. unfold send, merge_last, push_fragment, KcpSegment_push. keeps. Qed.

Lemma keeps_move_to_recv_queue : keeps proj move_to_recv_queue.
Proof. unfold move_to_recv_queue, move_one. keeps. Qed.
Hint Resolve keeps_move_to_recv_queue : keeps.
Lemma keeps_recv : keeps proj recv.
Proof. unfold recv, peek_size. keeps. Qed.

Lemma keeps_parse_una una : keeps proj (parse_una una).
Proof. unfold parse_una. keeps. Qed.
Lemma keeps_parse_ack sn0 : keeps proj (parse_ack sn0).
Proof. unfold parse_ack. keeps. Qed.
Lemma keeps_bump_fastack sn0 ts buf : keeps proj (bump_fastack sn0 ts buf).
Proof. induction buf as [|seg buf IH]; cbn [bump_fastack]; keeps; apply IH. Qed.
Hint Resolve keeps_bump_fastack : keeps.
Lemma keeps_parse_fastack sn0 ts : keeps proj (parse_fastack sn0 ts).
Proof. unfold parse_fastack. keeps. Qed.
Lemma keeps_shrink_buf : keeps proj shrink_buf.
Proof. unfold shrink_buf. keeps. Qed.
Lemma keeps_update_ack rtt : keeps proj (update_ack rtt).
Proof. unfold update_ack, smooth_rtt. keeps. Qed.
Lemma keeps_update_cwnd una : keeps proj (update_cwnd una).
Proof. unfold update_cwnd, set_cwnd, set_incr. keeps. Qed.
Hint Resolve keeps_parse_una keeps_parse_ack keeps_parse_fastack keeps_shrink_buf keeps_update_ack
  keeps_update_cwnd : keeps.

Lemma keeps_next_segment x : keeps proj (next_segment x).
Proof. unfold next_segment. keeps. Qed.
Lemma keeps_push_segment seg : keeps proj (push_segment seg).
Proof. unfold push_segment, ack_push, parse_data. keeps. Qed.
Lemma keeps_ack_segment current seg x : keeps proj (ack_segment current seg x).
Proof. unfold ack_segment. keeps. Qed.
Hint Resolve keeps_next_segment keeps_push_segment keeps_ack_segment : keeps.
Lemma keeps_process_segment current seg x : keeps proj (process_segment current seg x).
Proof. unfold process_segment. keeps. Qed.
Hint Resolve keeps_process_segment : keeps.
Lemma keeps_input data : keeps proj (input data).
Proof. unfold input, input_step. keeps. Qed.

Lemma keeps_output_segment seg : keeps proj (output_segment seg).
Proof. unfold output_segment. keeps. Qed.
Lemma keeps_flush_out_buf : keeps proj flush_out_buf.
Proof. unfold flush_out_buf. keeps. Qed.
Hint Resolve keeps_output_segment keeps_flush_out_buf : keeps.
Lemma keeps_flush_acks : keeps proj flush_acks.
Proof. unfold flush_acks, KcpSegment_ack. keeps. Qed.
Lemma keeps_handle_window_probe current : keeps proj (handle_window_probe current).
Proof. unfold handle_window_probe, probe_timer, send_probe, set_probe, create_probe_segment. keeps. Qed.
Lemma keeps_move_to_send_buf current : keeps proj (move_to_send_buf current).
Proof. unfold move_to_send_buf, move_to_send_one. keeps. Qed.
Lemma keeps_mark_segments current resend rtomin : keeps proj (mark_segments_for_send current resend rtomin).
Proof. unfold mark_segments_for_send, mark_one. keeps. Qed.
Lemma keeps_congestion_on_loss lost change resend : keeps proj (update_congestion_on_loss lost change resend).
Proof. unfold update_congestion_on_loss, set_cwnd, set_incr. keeps. Qed.
Hint Resolve keeps_flush_acks keeps_handle_window_probe keeps_move_to_send_buf keeps_mark_segments
  keeps_congestion_on_loss : keeps.
Lemma keeps_flush : keeps proj flush.
Proof. unfold flush, flush_data_segments, update_congestion_control. keeps. Qed.
Hint Resolve keeps_flush : keeps.
Lemma keeps_update_timer : keeps proj update.
Proof. unfold update. keeps. Qed.
Lemma keeps_keep_alive_probe : keeps proj keep_alive_probe.
Proof. unfold keep_alive_probe, set_probe. keeps. Qed.
Lemma keeps_drain_output : keeps proj drain_output.
Proof. unfold drain_output. keeps. Qed.
End Frames.

#[export] Hint Resolve keeps_send keeps_recv keeps_input keeps_flush keeps_update_timer
  keeps_keep_alive_probe keeps_drain_output : keeps.

(** A frame fact added to a [wp] fact. *)
Lemma wp_keeps {prof : Profile} {X A} (proj : KcpEngine → X) K (m : T A) Q R s :
  keeps proj m → wp K m Q R s →
  wp K m (λ a s', Q a s' ∧ proj (inner s') = proj (inner s))
         (λ err s', R err s' ∧ proj (inner s') = proj (inner s)) s.
Proof. intros Hk. specialize (Hk s). unfold wp. destruct (m s) as [[]]; auto. Qed.

Ltac unfold_input := unfold input, input_step, next_segment, process_segment, push_segment, ack_push, parse_data,
  move_to_recv_queue, move_one, ack_segment, parse_una, parse_ack, parse_fastack, shrink_buf,
  update_ack, smooth_rtt, update_cwnd, set_cwnd, set_incr, mss, count_stat.

(** [input] leaves the send queue and the output alone. *)
Lemma keeps_input_output {prof : Profile} {clk : Clock} {api : BytesApi} data :
  keeps (λ e, (e_snd_queue e, e_output_queue e, e_out_buf e)) (input data).
Proof.
  assert (Hb : ∀ sn0 ts buf, keeps (λ e, (e_snd_queue e, e_output_queue e, e_out_buf e)) (bump_fastack sn0 ts buf)).
  { induction buf as [|seg buf IH]; cbn [bump_fastack]; keeps; apply IH. }
  unfold_input. keeps.
Qed.
Lemma keeps_input_queue {prof : Profile} {clk : Clock} {api : BytesApi} data :
  keeps e_snd_queue (input data).
Proof. intros s. exact (f_equal (λ p, p.1.1) (keeps_input_output data s)). Qed.

(** ** The send buffer

    [buffered m]: what holds of every segment of the send buffer holds of them
    after [m], if it does not depend on the count of skipping acknowledgements. *)
Section Buffered.
Context {prof : Profile} {clk : Clock} {api : BytesApi} (Q : KcpSegment → Prop).
Context (HQ : ∀ seg n, Q seg → Q (seg <| s_fastack := n |>)).

Definition buffered {A} (m : T A) : Prop :=
  ∀ s, Forall Q (e_snd_buf (inner s)) → Forall Q (e_snd_buf (inner (m s).2)).

Lemma buffered_keeps {A} (m : T A) : keeps e_snd_buf m → buffered m.
Proof. intros Hm s Hs. by rewrite (Hm s). Qed.
Lemma buffered_bind {A B} (m : T A) (k : A → T B) : buffered m → (∀ a, buffered (k a)) → buffered (m ≫= k).
Proof.
  intros Hm Hk s Hs. specialize (Hm s Hs). unfold mbind, M_bind.
  destruct (m s) as [[a|err|p] s']; [|done..]. by apply Hk.
Qed.
Lemma buffered_iterM {B C} (body : B → T (B + C)) fuel : (∀ b, buffered (body b)) → ∀ b, buffered (iterM fuel body b).
Proof.
  intros Hb. induction fuel as [|fuel IH]; intros b; cbn; [by intros s|].
  apply buffered_bind; [done|]. intros [b'|c]; [done|by intros s].
Qed.

Lemma drop_before_subset una buf : drop_before una buf ⊆ buf.
Proof.
  induction buf as [|seg buf IH]; cbn; [done|]. destruct (seq_before _ _); [|done]. intros x Hx. right. by apply IH.
Qed.
Lemma buffered_parse_una una : buffered (parse_una una).
Proof. intros s Hs. rewrite !Forall_forall in *. intros x Hx. apply Hs. by apply (drop_before_subset una). Qed.
Lemma buffered_parse_ack sn0 : buffered (parse_ack sn0).
Proof.
  intros s Hs. unfold parse_ack, mbind, M_bind. cbn -[binary_search]. destruct (_ || _); [done|].
  destruct (binary_search _ _ _ _ _) as [pos|]; [|done]. cbn. by apply Forall_delete.
Qed.
Lemma keeps_bump_buf sn0 ts buf : keeps e_snd_buf (bump_fastack sn0 ts buf).
Proof. induction buf as [|seg buf IH]; cbn [bump_fastack]; keeps; apply IH. Qed.
Lemma bump_fastack_all sn0 ts buf : ∀ s buf' s',
  Forall Q buf → bump_fastack sn0 ts buf s = (Ok buf', s') → Forall Q buf'.
Proof.
  induction buf as [|seg buf IH]; intros s buf' s' Hall; cbn [bump_fastack]; [by intros [= <- _]|].
  destruct (negb _); [by intros [= <- _]|]. apply Forall_cons in Hall as [Hseg Hbuf].
  unfold mbind at 1, M_bind at 1. lazymatch goal with |- (match ?m s with _ => _ end) = _ → _ =>
    assert (Hm : ∀ seg' s1, m s = (Ok seg', s1) → Q seg'); [|destruct (m s) as [[seg'|x|q] s1]; [|done..]] end.
  { intros seg' s1. destruct (0 <=? _); [|by intros [= <- _]]. unfold mbind, M_bind.
    destruct (uadd _ _ _ _) as [[v|x|q] s2]; [|done..]. intros [= <- _]. by apply HQ. }
  specialize (Hm seg' s1 eq_refl). unfold mbind, M_bind.
  destruct (bump_fastack sn0 ts buf s1) as [[l|x|q] s2] eqn:Hb; [|done..]. intros [= <- _].
  apply Forall_cons. split; [done|by eapply IH].
Qed.
Lemma buffered_parse_fastack sn0 ts : buffered (parse_fastack sn0 ts).
Proof.
  intros s Hs. unfold parse_fastack, mbind, M_bind. cbn -[bump_fastack]. destruct (_ || _); [done|].
  pose proof (keeps_bump_buf sn0 ts (e_snd_buf (inner s)) s) as Hk.
  destruct (bump_fastack sn0 ts (e_snd_buf (inner s)) s) as [[l|x|q] s2] eqn:Hb; cbn in *; [|by rewrite Hk..].
  by eapply bump_fastack_all.
Qed.

Ltac buffered_step :=
  match goal with
  | |- buffered (mbind _ _) => apply buffered_bind; [|intros ?]
  | |- buffered (iterM _ _ _) => apply buffered_iterM; intros ?
  | |- buffered (if ?b then _ else _) => destruct b
  | |- buffered (match ?x with _ => _ end) => destruct x
  | |- buffered (parse_una _) => apply buffered_parse_una
  | |- buffered (parse_ack _) => apply buffered_parse_ack
  | |- buffered (whenM ?b (parse_fastack _ _)) => destruct b; [apply buffered_parse_fastack|by intros ?]
  | |- buffered (ack_segment _ _ _) => unfold ack_segment
  | |- buffered (process_segment _ _ _) => unfold process_segment
  | |- buffered (input_step _ _) => unfold input_step
  | |- buffered _ => apply buffered_keeps; unfold_input; solve [keeps]
  end.
Lemma buffered_input data : buffered (input data).
Proof. unfold input. repeat buffered_step. Qed.
End Buffered.
