(* ===== verification/Safety.v ===== *)
(** The engine as a state machine: its public operations as steps, the
    states a connection can reach, and what holds in all of them.

    The application, the network and the timer are all environment here: any
    operation may come at any time, with any bytes. *)
From S2P Require Import Prelude Monad Protocol Error Config Engine Output Send Recv Ack Input Flush Frame.

(** A call of a public method that takes [&mut self]. *)
Inductive op :=
  | OpStart
  | OpSend (data : bytes)
  | OpRecv
  | OpInput (data : bytes)
  | OpFlush
  | OpUpdate
  | OpKeepAliveProbe
  | OpDrainOutput
  | OpSetConv (conv : Z).

(** What it returns. *)
Inductive reply :=
  | RUnit
  | RData (data : option bytes)
  | RDatagrams (l : list bytes).

Section Machine.
Context {prof : Profile} {clk : Clock} {api : BytesApi}.

Definition perform (o : op) : T reply :=
  match o with
  | OpStart => start;; mret RUnit
  | OpSend data => send data;; mret RUnit
  | OpRecv => r ← recv; mret (RData r)
  | OpInput data => input data;; mret RUnit
  | OpFlush => flush;; mret RUnit
  | OpUpdate => update;; mret RUnit
  | OpKeepAliveProbe => keep_alive_probe;; mret RUnit
  | OpDrainOutput => l ← drain_output; mret (RDatagrams l)
  | OpSetConv c => set_conv c;; mret RUnit
  end.

(** An operation's arguments are values of their Rust types. *)
Definition op_ok (o : op) : Prop :=
  match o with OpSetConv c => in_u 32 c | _ => True end.

(** Time passes between calls as it likes: only the reading count moves. *)
Inductive step : St → op → outcome KcpCoreError reply → St → Prop :=
  | step_call s o r s' : op_ok o → perform o s = (r, s') → step s o r s'.

(** A connection goes on after an error (the caller decides), not after a panic. *)
Inductive reachable (s0 : St) : St → Prop :=
  | reach_start : reachable s0 s0
  | reach_step s o r s' :
      reachable s0 s → step s o r s' → (∀ p, r ≠ Panicked p) → reachable s0 s'.
End Machine.

Definition good (e : KcpEngine) : Prop := Inv e ∧ una_tight e.

Section MachineFacts.
Context {prof : Profile} {clk : Clock} {api : BytesApi} {spec : BytesApiSpec api}.

Lemma perform_good o s :
  op_ok o → good (inner s) →
  wp checked_overflow (perform o) (λ _ s', good (inner s')) (λ _ s', good (inner s')) s.
Proof.
  intros Ho [HI Ht]. destruct o; cbn in *; estep.
  - unfold start. do 2 estep. by split.
  - eapply wp_mono; [by apply send_spec|..].
    + intros _ s' (HI' & Hf & _). cbv beta. estep. split; [done|]. by rewrite Hf.
    + intros err s' (HI' & Hf & _). split; [done|]. by rewrite Hf.
  - eapply wp_mono; [by apply recv_spec| |done].
    intros r s' (HI' & popped & rest & _ & Hr). cbv beta. estep. split; [done|].
    destruct r as [data|]; [|by rewrite (proj2 Hr)].
    destruct Hr as (_ & _ & segs & e1 & Hmv & _ & He). rewrite He.
    pose proof (mv_frame _ _ _ Hmv) as Hf. destruct (_ && _); by rewrite Hf.
  - eapply wp_mono; [by apply input_inv|..].
    + intros _ s' (HI' & Ht' & _). cbv beta. by estep.
    + intros err s' (_ & _ & now & He & HI'). split; [done|]. by rewrite He.
  - eapply wp_mono; [by apply flush_good|..]; [intros; cbv beta; by estep|done].
  - eapply wp_mono; [by apply update_good|..]; [intros; cbv beta; by estep|done].
  - eapply wp_mono; [by apply keep_alive_probe_good|..]; [intros; cbv beta; by estep|done].
  - unfold drain_output. do 6 estep. split; [|exact Ht]. cbn [inner]. inv_fields. by apply Forall_nil.
  - unfold set_conv. do 2 estep. split; [|exact Ht]. cbn [inner]. by inv_fields.
Qed.

Lemma reachable_good s0 s : good (inner s0) → reachable s0 s → good (inner s).
Proof.
  intros H0. induction 1 as [|s o r s' _ IH Hstep Hr]; [done|].
  inversion Hstep as [? ? ? ? Ho Hp]; subst.
  pose proof (perform_good o s Ho IH) as Hw. unfold wp in Hw. rewrite Hp in Hw.
  destruct r; [done..|]. by destruct (Hr p).
Qed.

(** No operation changes the configuration. *)
Lemma keeps_perform o : keeps e_config (perform o).
Proof.
  destruct o; unfold perform; (apply keeps_bind; [|intros ?; apply keeps_ret]).
  - apply keeps_ret.
  - apply keeps_send, _.
  - apply keeps_recv, _.
  - apply keeps_input, _.
  - apply keeps_flush, _.
  - apply keeps_update_timer, _.
  - apply keeps_keep_alive_probe, _.
  - apply keeps_drain_output, _.
  - by apply keeps_update.
Qed.
Lemma reachable_config s0 s : reachable s0 s → e_config (inner s) = e_config (inner s0).
Proof.
  induction 1 as [|s o r s' _ IH Hstep _]; [done|]. inversion Hstep as [? ? ? ? _ Hp]; subst.
  pose proof (keeps_perform o s) as Hk. rewrite Hp in Hk. cbn in Hk. congruence.
Qed.
End MachineFacts.

(** * Theorems *)

Section SafetyTheorems.
Context {prof : Profile} {clk : Clock} {api : BytesApi} {spec : BytesApiSpec api}.

(** C4: an engine made by [new] stays in order whatever calls are made of it, in
    whatever order, with whatever bytes from the application and the network,
    also after calls that failed; no call ever panics or runs forever, except
    that a build with overflow checks may panic on an arithmetic overflow. *)
Theorem engine_never_panics conv c s0 e s1 s o :
  in_u 32 conv → core_config_ok c → c_mtu c ≤ 65535 →
  1 ≤ c_snd_wnd c ≤ 65535 → 1 ≤ c_rcv_wnd c ≤ 65535 →
  new (S := ()) (E := KcpCoreError) conv c s0 = (Ok e, s1) →
  reachable (Timed e (ticks s1)) s → op_ok o →
  good (inner s) ∧
  match perform o s with
  | (Panicked p, _) => p = OverflowPanic ∧ overflow_checks = true
  | (_, s') => good (inner s')
  end.
Proof.
  intros Hconv Hc Hm Hs Hr He Hre Ho.
  assert (Hg : good (inner s)).
  { apply (reachable_good (Timed e (ticks s1))); [|done].
    apply (wp_ok no_panic _ (λ e _, good e) (λ _ _, False) _ _ _
      (new_inv _ _ _ _ _ Hconv Hc Hm Hs Hr (λ _ _ HI Ht, conj HI Ht)) He). }
  split; [done|]. pose proof (perform_good o s Ho Hg) as Hw. apply wp_run in Hw.
  destruct (perform o s) as [[r|err|p] s']; done.
Qed.

(** C29: each operation fails only the way its documentation says: [send] with a
    [Buffer] error, and only when the message would need more fragments than
    the header can count; [input] with a [Protocol] error on a datagram shorter
    than a header; flushing with [ConnectionLost]; the others never. *)
Theorem errors_by_operation o s :
  op_ok o → good (inner s) →
  wp checked_overflow (perform o) (λ _ _, True)
    (λ err _, match o with
     | OpSend data => (∃ b, err = Buffer b) ∧
         max_frags (inner s) * mss_of (e_config (inner s)) < len data
     | OpInput data => (∃ p, err = Protocol p) ∧ len data < SIZE
     | OpFlush | OpUpdate | OpKeepAliveProbe => err = ConnectionLost
     | _ => False
     end) s.
Proof.
  intros Ho [HI Ht]. destruct o; cbn in *; estep.
  - unfold start. by do 2 estep.
  - eapply wp_mono; [by apply send_spec|done|].
    intros err s' (_ & _ & d & (_ & _ & _ & _ & Hd & _) & Hmax & -> & _). split; [by eexists|].
    destruct (Hd d eq_refl) as [k ->]. destruct (Z.lt_ge_cases (max_frags (inner s) * mss_of (e_config (inner s))) (len data)) as [|Hle]; [done|].
    pose proof (windows_mss _ (i_config _ HI)) as Hm. pose proof (wo_rcv _ (i_config _ HI)) as Hr.
    assert (1 ≤ max_frags (inner s)) by (unfold max_frags, IKCP_WND_RCV; lia).
    assert (frag_count (mss_of (e_config (inner s))) (drop k data) ≤ max_frags (inner s)); [|lia].
    apply frag_count_le; [lia|lia|]. rewrite len_drop. pose proof (len_nonneg data). lia.
  - eapply wp_mono; [by apply recv_spec|done|done].
  - eapply wp_mono; [by apply input_inv|done|]. intros err s' (-> & Hl & _). by split; [eexists|].
  - eapply wp_mono; [by apply flush_spec|done|]. by intros err s' [-> _].
  - by apply update_fails.
  - unfold keep_alive_probe, set_probe. do 2 estep.
    eapply wp_mono; [apply flush_spec|done|by intros err s' [-> _]]. cbn [inner].
    pose proof (flags_or _ IKCP_ASK_SEND (i_probe _ HI) ltac:(unfold IKCP_ASK_SEND; lia)).
    inv_fields. destruct i_probe. by constructor.
  - unfold drain_output. by do 6 estep.
  - unfold set_conv. by do 2 estep.
Qed.

(** C28: what an engine puts on the wire is well formed, whatever calls were made of
    it: every datagram [drain_output] returns is non-empty, no longer than the
    MTU, and parses into exactly the segments it was packed from, with nothing
    left over; and none is returned twice. *)
Theorem output_well_formed conv c s0 e s1 s l s' :
  in_u 32 conv → core_config_ok c → c_mtu c ≤ 65535 →
  1 ≤ c_snd_wnd c ≤ 65535 → 1 ≤ c_rcv_wnd c ≤ 65535 →
  new (S := ()) (E := KcpCoreError) conv c s0 = (Ok e, s1) →
  reachable (Timed e (ticks s1)) s → perform OpDrainOutput s = (Ok (RDatagrams l), s') →
  e_output_queue (inner s') = [] ∧
  Forall (λ d, 0 < len d ≤ Z.max (c_mtu c) (IKCP_OVERHEAD + 1) ∧
    ∃ segs, Forall segment_ok segs ∧ d = concat (map segment_bytes segs) ∧
      parse_datagram d = map wire_segment segs) l.
Proof.
  intros Hconv Hc Hm Hs Hr He Hre Hd.
  assert (Hg : good (inner s)).
  { apply (reachable_good (Timed e (ticks s1))); [|done].
    apply (wp_ok no_panic _ (λ e _, good e) (λ _ _, False) _ _ _
      (new_inv _ _ _ _ _ Hconv Hc Hm Hs Hr (λ _ _ HI Ht, conj HI Ht)) He). }
  apply reachable_config in Hre. injection He as <- _. cbn [e_config inner] in Hre.
  injection Hd as <- <-. split; [done|]. pose proof (i_output _ (proj1 Hg)) as Ho. rewrite Hre in Ho.
  eapply Forall_impl; [exact Ho|]. intros d [Hne (segs & Hs' & Heq & Hl)]. split.
  - split; [|exact Hl]. destruct d; [done|]. rewrite len_cons. pose proof (len_nonneg d). lia.
  - exists segs. split_and!; [done..|]. rewrite Heq. by apply parse_datagram_bytes.
Qed.
End SafetyTheorems.

Module SafetySample.
(** A clock about to wrap: the process has run for 49.7 days. *)
Definition late_clock : Clock := λ n, 4294967200 + Z.of_nat n.
Definition late_engine : KcpEngine :=
  Sample.engine <| e_last_update := 4294967200 |> <| e_last_activity := 4294967201 |>.
Definition sent : St := (perform (prof := debug_build) (clk := late_clock) (OpSend [x61]) (Timed late_engine 2)).2.

Lemma reachable_sent : reachable (prof := debug_build) (clk := late_clock) (api := bytes_le) (Timed late_engine 2) sent.
Proof.
  apply (reach_step (prof := debug_build) (clk := late_clock) _ (Timed late_engine 2) (OpSend [x61]) (Ok RUnit));
    [apply reach_start|apply step_call; [done|vm_compute; reflexivity]|done].
Qed.

(** A message sent and flushed. *)
Definition new_engine : outcome KcpCoreError KcpEngine * timed () := new (clk := Sample.clock) 7 Sample.config (Timed tt 0).
Definition engine : KcpEngine := match new_engine.1 with Ok e => e | _ => late_engine end.
Abbreviation do o s := (perform (prof := release_build) (clk := Sample.clock) (api := bytes_le) o s).
Definition queued : St := (do (OpSend (replicate 2000 x61)) (Timed engine (ticks new_engine.2))).2.
Definition flushed : St := (do OpFlush queued).2.

Lemma reachable_flushed :
  reachable (prof := release_build) (clk := Sample.clock) (api := bytes_le) (Timed engine (ticks new_engine.2)) flushed.
Proof.
  apply (reach_step (prof := release_build) (clk := Sample.clock) _ queued OpFlush (Ok RUnit));
    [|apply step_call; [done|vm_compute; reflexivity]|done].
  apply (reach_step (prof := release_build) (clk := Sample.clock) _ (Timed engine (ticks new_engine.2))
    (OpSend (replicate 2000 x61)) (Ok RUnit)); [apply reach_start|apply step_call; [done|vm_compute; reflexivity]|done].
Qed.
End SafetySample.

Lemma engine_never_panics_witness :
  good (inner SafetySample.sent) ∧
  (perform (prof := debug_build) (clk := SafetySample.late_clock) (api := bytes_le) OpRecv SafetySample.sent).1 = Ok (RData None).
Proof.
  destruct (engine_never_panics (prof := debug_build) (clk := SafetySample.late_clock) (api := bytes_le)
    7 Sample.config (Timed tt 0) SafetySample.late_engine (Timed tt 2) SafetySample.sent OpRecv
    ltac:(vm_compute; split; congruence) Sample.config_ok ltac:(vm_compute; congruence)
    ltac:(split; vm_compute; congruence) ltac:(split; vm_compute; congruence)
    ltac:(vm_compute; reflexivity) SafetySample.reachable_sent I) as [H _].
  split; [exact H|vm_compute; reflexivity].
Defined.

Lemma errors_by_operation_witness :
  ∃ p, (perform (prof := release_build) (clk := Sample.clock) (api := bytes_le) (OpInput [x61]) Sample.state).1
    = Err (Protocol p).
Proof.
  pose proof (errors_by_operation (prof := release_build) (clk := Sample.clock) (api := bytes_le) (OpInput [x61])
    Sample.state I Sample.good) as H.
  pose proof (wp_err _ _ _ _ _ _ _ H ltac:(vm_compute; reflexivity)) as [[p Hp] _].
  exists p. rewrite <- Hp. vm_compute. reflexivity.
Defined.

Lemma output_well_formed_witness :
  match (SafetySample.do OpDrainOutput SafetySample.flushed).1 with
  | Ok (RDatagrams l) => map len l = [1400; 648] ∧ Forall (λ d, 0 < len d ≤ 1400) l
  | _ => False
  end.
Proof.
  destruct (SafetySample.do OpDrainOutput SafetySample.flushed) as [[[| |l]|err|p] s'] eqn:Hrun;
    [vm_compute in Hrun; discriminate Hrun..| | |]; [|vm_compute in Hrun; discriminate Hrun..].
  destruct (output_well_formed (prof := release_build) (clk := Sample.clock) (api := bytes_le)
    7 Sample.config (Timed tt 0) SafetySample.engine SafetySample.new_engine.2 SafetySample.flushed l s'
    ltac:(vm_compute; split; congruence) Sample.config_ok ltac:(vm_compute; congruence)
    ltac:(split; vm_compute; congruence) ltac:(split; vm_compute; congruence)
    ltac:(vm_compute; reflexivity) SafetySample.reachable_flushed Hrun) as [_ H].
  cbn [fst]. split; [|eapply Forall_impl; [exact H|by intros d [Hd _]]].
  apply (f_equal (λ r, match r.1 with Ok (RDatagrams l) => map len l | _ => [] end)) in Hrun. cbn [fst] in Hrun.
  rewrite <- Hrun. vm_compute. reflexivity.
Defined.

(** The documentation says the clock's wrap is handled, and comparisons are;
    but deadlines are computed with a plain [+], so a build with overflow checks
    panics in the flush of a fresh connection when the process has run for
    2^32 ms, where a release build goes on. *)
Theorem debug_panics_at_clock_wrap :
  let clk := SafetySample.late_clock in
  ∃ e s1 s, new (clk := clk) (S := ()) (E := KcpCoreError) 7 Sample.config (Timed tt 0) = (Ok e, s1) ∧
    reachable (prof := debug_build) (clk := clk) (api := bytes_le) (Timed e (ticks s1)) s ∧
    (perform (prof := debug_build) (clk := clk) (api := bytes_le) OpFlush s).1 = Panicked OverflowPanic ∧
    (perform (prof := release_build) (clk := clk) (api := bytes_le) OpFlush s).1 = Ok RUnit.
Proof.
  exists SafetySample.late_engine, (Timed tt 2), SafetySample.sent.
  split_and!; [vm_compute; reflexivity|apply SafetySample.reachable_sent|vm_compute; reflexivity..].
Qed.
