(* ===== verification/Actor.v ===== *)
(** kcp/actor.rs: the task that owns an engine.  One turn of its [select!] loop
    is one [turn]: the event that won the race, handled to the end.

    The channels and the transport are not code of the repository: what they
    answer is part of the event ([more] is what [try_recv] yields before it
    first fails, [permits] how often [try_reserve] succeeds before it first
    fails), and what the actor gives them and takes from its send channel is
    recorded in the state, in order ([a_wire], [a_data], [a_replies]; [a_taken]).  [instant] is what [Instant::now()]
    returns at each reading, in milliseconds. *)
From S2P Require Import Prelude Monad Protocol Error Config Engine Output Send Recv Ack Input Flush Frame Safety.

Inductive EngineCmd := CFlush | CStats | CIsAlive | CClose.

(** What goes back through a [oneshot] reply channel. *)
Inductive answer :=
  | AFlush (r : KcpError + ())
  | AStats (s : KcpStats)
  | AIsAlive (b : bool).

Class Instants := instant : nat → Z.

(** The arguments of [run_engine_actor] that are not channels or the engine;
    [loses] is the outcome of [random_unit_f32() < p] at each draw. *)
Record actor_config := {
  update_interval_ms : Z;
  keep_alive_ms : option Z;
  simulate_loss : option (nat → bool);
  send_high_water : Z;
}.

Record Actor := {
  a_engine : St;
  a_instants : nat;
  a_draws : nat;
  a_last_probe : Z;
  a_send_closed : bool;
  a_closing : bool;
  a_close_deadline : option Z;
  a_wire : list bytes;
  a_data : list bytes;
  a_replies : list answer;
  a_taken : list bytes;
}.
#[export] Instance Actor_eta : Eta Actor := λ a,
  Build_Actor (a_engine a) (a_instants a) (a_draws a) (a_last_probe a) (a_send_closed a)
    (a_closing a) (a_close_deadline a) (a_wire a) (a_data a) (a_replies a) (a_taken a).

(** The actor's own code does not fail: a [Result] of the engine is a value. *)
Abbreviation AM := (M Actor Empty_set).

(** Whether the loop goes on. *)
Inductive flow := Continue | Break.
#[export] Instance flow_eq_dec : EqDecision flow.
Proof. solve_decision. Defined.

(** [f()?] of the loop: [m] then the rest, unless [m] broke out. *)
Definition and_then (m : AM flow) (rest : AM flow) : AM flow :=
  r ← m; match r with Break => mret Break | Continue => rest end.

Inductive event :=
  | EvTimer (permits : nat)
  | EvCmd (cmd : option EngineCmd) (more : list bytes)
  | EvPacket (packet : option bytes) (permits : nat)
  | EvSend (data : option bytes) (more : list bytes).

Section Actor.
Context {prof : Profile} {clk : Clock} {ins : Instants} {api : BytesApi} (cfg : actor_config).

(** A call of the engine, its error as a value. *)
Definition engine {A} (m : T A) : AM (KcpCoreError + A) := λ a,
  match m (a_engine a) with
  | (Ok v, e) => (Ok (inr v), a <| a_engine := e |>)
  | (Err x, e) => (Ok (inl x), a <| a_engine := e |>)
  | (Panicked p, e) => (Panicked p, a <| a_engine := e |>)
  end.
Definition engine_get {A} (f : KcpEngine → A) : AM A := gets (λ a, f (inner (a_engine a))).

Definition now : AM Z := λ a, (Ok (instant (a_instants a)), a <| a_instants ::= S |>).

(** Data from the stream's channel goes to the engine, which may refuse it. *)
Definition take_data (data : bytes) : AM (KcpCoreError + ()) :=
  modify (λ a, a <| a_taken ::= λ l, l ++ [data] |>);; engine (send data).

(** [random_unit_f32() < p]. *)
Definition draw (p : nat → bool) : AM bool := λ a, (Ok (p (a_draws a)), a <| a_draws ::= S |>).

Definition flush_output : AM () :=
  r ← engine drain_output;
  match r with
  | inl _ => mret tt
  | inr l =>
      forM l (λ buf,
        lost ← (match simulate_loss cfg with Some p => draw p | None => mret false end);
        if lost : bool then mret tt else modify (λ a, a <| a_wire ::= λ w, w ++ [buf] |>))
  end.

Fixpoint drain_recv (permits : nat) : AM () :=
  match permits with
  | O => mret tt
  | S permits =>
      r ← engine recv;
      match r with
      | inr (Some msg) => modify (λ a, a <| a_data ::= λ l, l ++ [msg] |>);; drain_recv permits
      | _ => mret tt
      end
  end.

(** [if let Err(e) = m { if e.is_fatal() { break; } }]. *)
Definition break_if_fatal {A} (m : T A) : AM flow :=
  r ← engine m;
  match r with
  | inl e => mret (if KcpCoreError_is_fatal e then Break else Continue)
  | inr _ => mret Continue
  end.

Definition start_actor (permits : nat) : AM () :=
  t ← now;
  modify (λ a, a <| a_last_probe := t |>);;
  engine update;;
  flush_output;;
  drain_recv permits.

(** [u64::saturating_mul]. *)
Definition saturating_mul (a b : Z) : Z := Z.min (a * b) (2 ^ 64 - 1).

Definition keep_alive_check : AM flow :=
  match keep_alive_ms cfg with
  | None => mret Continue
  | Some ka =>
      idle ← engine idle_ms;
      match idle with
      | inl _ => mret Continue
      | inr idle =>
          if saturating_mul ka 3 <=? idle then mret Break
          else
            idle ← engine idle_ms;
            match idle with
            | inl _ => mret Continue
            | inr idle =>
                if idle <? ka then mret Continue
                else
                  t ← now;
                  last ← gets a_last_probe;
                  if Z.max 0 (t - last) <? ka then mret Continue
                  else
                    t ← now;
                    modify (λ a, a <| a_last_probe := t |>);;
                    break_if_fatal keep_alive_probe
            end
      end
  end.

Definition on_timer (permits : nat) : AM flow :=
  and_then (break_if_fatal flush)
    (and_then keep_alive_check
      (flush_output;; drain_recv permits;; mret Continue)).

Definition reply (x : answer) : AM () := modify (λ a, a <| a_replies ::= λ l, l ++ [x] |>).

Definition on_cmd (cmd : option EngineCmd) (more : list bytes) : AM flow :=
  match cmd with
  | Some CFlush =>
      r ← engine flush;
      flush_output;;
      reply (AFlush match r with inl e => inl (KcpError_from e) | inr u => inr u end);;
      mret Continue
  | Some CStats => s ← engine_get e_stats; reply (AStats s);; mret Continue
  | Some CIsAlive => d ← engine_get is_dead_of; reply (AIsAlive (negb d));; mret Continue
  | Some CClose | None =>
      forM more (λ data, take_data data;; mret tt);;
      t ← now;
      modify (λ a, a <| a_send_closed := true |> <| a_closing := true |>
        <| a_close_deadline := Some (t + 10000) |>);;
      engine flush;;
      flush_output;;
      mret Continue
  end.

Definition on_packet (packet : option bytes) (permits : nat) : AM flow :=
  match packet with
  | None => mret Break
  | Some data =>
      engine (input data);;
      and_then (break_if_fatal flush) (flush_output;; drain_recv permits;; mret Continue)
  end.

(** The loop that absorbs what is queued, while there is room. *)
Fixpoint absorb (more : list bytes) : AM () :=
  n ← engine_get (λ e, len (e_snd_queue e));
  if n <? send_high_water cfg then
    match more with
    | [] => mret tt
    | data :: more => take_data data;; absorb more
    end
  else mret tt.

Definition on_send (data : option bytes) (more : list bytes) : AM flow :=
  match data with
  | Some data =>
      take_data data;;
      absorb more;;
      and_then (break_if_fatal flush) (flush_output;; mret Continue)
  | None => modify (λ a, a <| a_send_closed := true |>);; mret Continue
  end.

(** The [if] guards of the [select!] branches. *)
Definition enabled (ev : event) (a : Actor) : bool :=
  match ev with
  | EvTimer _ | EvPacket _ _ => true
  | EvCmd _ _ => negb (a_closing a)
  | EvSend _ _ =>
      negb (a_send_closed a) && (len (e_snd_queue (inner (a_engine a))) <? send_high_water cfg)
  end.

Definition handle (ev : event) : AM flow :=
  match ev with
  | EvTimer permits => on_timer permits
  | EvCmd cmd more => on_cmd cmd more
  | EvPacket packet permits => on_packet packet permits
  | EvSend data more => on_send data more
  end.

(** After the [select!]. *)
Definition close_check : AM flow :=
  closing ← gets a_closing;
  if negb closing then mret Continue
  else
    unsent ← engine_get has_unsent_data_of;
    done ← (if negb unsent then mret true
            else
              deadline ← gets a_close_deadline;
              match deadline with
              | None => mret false
              | Some d => t ← now; mret (d <=? t)
              end);
    if done : bool then engine flush;; flush_output;; mret Break else mret Continue.

Definition turn (ev : event) : AM flow := and_then (handle ev) close_check.

(** How long the timer of a turn is set to: the engine's next deadline. *)
Definition idle_cap_ms : Z :=
  Z.max (default 1000 (keep_alive_ms cfg)) (Z.max (update_interval_ms cfg) 1).
Definition timer_wait : AM Z :=
  r ← engine check;
  clampM 1 idle_cap_ms (match r with inl _ => 0 | inr d => d end).

(** The actor, over the events it sees; a branch that is disabled cannot win. *)
Fixpoint run_actor (evs : list event) : AM flow :=
  match evs with
  | [] => mret Continue
  | ev :: evs =>
      timer_wait;;
      a ← gets (enabled ev);
      if a : bool then and_then (turn ev) (run_actor evs) else run_actor evs
  end.
Definition run_engine_actor (permits : nat) (evs : list event) : AM flow :=
  start_actor permits;; run_actor evs.
End Actor.

(** ** The handle

    [sent] is whether the actor's channel took the command, [answer] what came
    back through the reply channel ([None]: the actor dropped it). *)

Definition request {X} (sent : bool) (answer : option X) : KcpError + X :=
  if sent then match answer with Some x => inr x | None => inl (KConnection Closed) end
  else inl (KConnection Closed).
Definition handle_flush (sent : bool) (answer : option (KcpError + ())) : KcpError + () :=
  match request sent answer with inl e => inl e | inr r => r end.
Definition handle_stats (sent : bool) (answer : option KcpStats) : KcpError + KcpStats := request sent answer.
Definition handle_is_alive (sent : bool) (answer : option bool) : bool :=
  match request sent answer with inl _ => false | inr b => b end.

(** What [close] and [close_graceful] put in the command channel: the first gives
    up when there is no room, the second when the actor is gone. *)
Definition handle_close (room : bool) : list EngineCmd := if room then [CClose] else [].
Definition handle_close_graceful (alive : bool) : list EngineCmd := if alive then [CClose] else [].

(** * The actor's invariant *)

(** The engine is good and still has the configuration it was made with; what
    went to the transport are whole datagrams, and no message given to the
    stream is empty (which the reader would take for the end of the stream). *)
Record actor_ok (c : KcpCoreConfig) (a : Actor) : Prop := {
  ao_good : good (inner (a_engine a));
  ao_config : e_config (inner (a_engine a)) = c;
  ao_wire : Forall (datagram_ok (c_mtu c)) (a_wire a);
  ao_data : Forall (λ d, d ≠ []) (a_data a);
}.

(** An engine call as the actor may make it. *)
Definition safe_call {prof : Profile} {A} (m : T A) : Prop :=
  ∀ s, good (inner s) →
    wp checked_overflow m
      (λ _ s', good (inner s') ∧ e_config (inner s') = e_config (inner s))
      (λ _ s', good (inner s') ∧ e_config (inner s') = e_config (inner s)) s.

Create HintDb actor_ok.

Section ActorFacts.
Context {prof : Profile} {clk : Clock} {ins : Instants} {api : BytesApi} {spec : BytesApiSpec api}.
Context (cfg : actor_config).

Lemma wp_engine {A} (m : T A) Q R (a : Actor) :
  wp checked_overflow m (λ v e, Q (inr v) (a <| a_engine := e |>))
    (λ x e, Q (inl x) (a <| a_engine := e |>)) (a_engine a) →
  wp checked_overflow (engine m) Q R a.
Proof. unfold wp, engine. by destruct (m (a_engine a)) as [[] ?]. Qed.

Lemma safe_op {A} (m : T A) :
  keeps e_config m →
  (∀ s, good (inner s) → wp checked_overflow m (λ _ s', good (inner s')) (λ _ s', good (inner s')) s) →
  safe_call m.
Proof. intros Hk Hm s Hg. by apply (wp_keeps e_config); [|apply Hm]. Qed.

Lemma safe_send data : safe_call (send data).
Proof.
  apply safe_op; [eauto with keeps typeclass_instances|]. intros s [HI Ht].
  eapply wp_mono; [by apply send_spec|..].
  - intros _ s' (HI' & Hf & _). split; [done|]. by rewrite Hf.
  - intros err s' (HI' & Hf & _). split; [done|]. by rewrite Hf.
Qed.
Lemma safe_flush : safe_call flush.
Proof. apply safe_op; [apply keeps_flush, _|apply flush_good]. Qed.
Lemma safe_update : safe_call update.
Proof. apply safe_op; [apply keeps_update_timer, _|apply update_good]. Qed.
Lemma safe_keep_alive_probe : safe_call keep_alive_probe.
Proof. apply safe_op; [apply keeps_keep_alive_probe, _|apply keep_alive_probe_good]. Qed.
Lemma safe_input data : safe_call (input data).
Proof.
  apply safe_op; [apply keeps_input, _|]. intros s [HI Ht]. eapply wp_mono; [by apply input_inv|..].
  - by intros _ s' (HI' & Ht' & _).
  - intros err s' (_ & _ & now & He & HI'). split; [done|]. by rewrite He.
Qed.
Lemma safe_idle_ms : safe_call idle_ms.
Proof. apply safe_op; [unfold idle_ms; keeps|]. intros s Hg. unfold idle_ms. by esteps. Qed.

Lemma check_run s : check s = (Ok (check_at (now_of s) (inner s)), Timed (inner s) (S (ticks s))).
Proof. done. Qed.
Lemma safe_check : safe_call check.
Proof. intros s Hg. unfold wp. by rewrite check_run. Qed.

(** [preserves P m]: the actor code [m] preserves [P] and does not panic but
    for a checked overflow. *)
Definition preserves (P : Actor → Prop) {A} (m : AM A) : Prop :=
  ∀ a, P a → wp checked_overflow m (λ _ a', P a') (λ _ _, False) a.

Section Preserves.
Context (P : Actor → Prop).

Lemma pres_bind {A B} (m : AM A) (k : A → AM B) :
  preserves P m → (∀ x, preserves P (k x)) → preserves P (m ≫= k).
Proof.
  intros Hm Hk a Ha. apply wp_bind. eapply wp_post; [by apply Hm|]. intros x a' Ha'. by apply Hk.
Qed.
Lemma pres_ret {A} (x : A) : preserves P (mret x).
Proof. by intros a Ha. Qed.
Lemma pres_gets {A} (f : Actor → A) : preserves P (gets f).
Proof. by intros a Ha. Qed.
Lemma pres_modify f : (∀ a, P a → P (f a)) → preserves P (modify f).
Proof. intros Hf a Ha. by apply Hf. Qed.
Lemma pres_forM {A} (f : A → AM ()) l : (∀ x, x ∈ l → preserves P (f x)) → preserves P (forM l f).
Proof. intros Hf a Ha. apply wp_forM; [done|]. intros x a' Hx Ha'. by apply Hf. Qed.
Lemma pres_and_then m rest : preserves P m → preserves P rest → preserves P (and_then m rest).
Proof. intros Hm Hr. apply pres_bind; [done|]. intros []; [done|apply pres_ret]. Qed.
Lemma pres_fatal {A} (m : T A) : preserves P (engine m) → preserves P (break_if_fatal m).
Proof. intros Hm. apply pres_bind; [done|]. intros []; apply pres_ret. Qed.
End Preserves.

Abbreviation keeps_ok m := (∀ c, preserves (actor_ok c) m).

Lemma ok_engine {A} (m : T A) : safe_call m → keeps_ok (engine m).
Proof.
  intros Hm c a [Hg Hc Hw Hd]. apply wp_engine.
  eapply wp_mono; [by apply Hm|..]; intros ? s' [Hg' Hc']; constructor; cbn; try done; congruence.
Qed.

Lemma ok_now : keeps_ok now.
Proof. intros c a [Hg Hc Hw Hd]. by constructor. Qed.
Lemma ok_draw p : keeps_ok (draw p).
Proof. intros c a [Hg Hc Hw Hd]. by constructor. Qed.
Lemma ok_flush_output : keeps_ok (flush_output cfg).
Proof.
  intros c a [Hg Hc Hw Hd]. unfold flush_output. apply wp_bind, wp_engine. unfold drain_output.
  destruct Hg as [HI Ht]. pose proof (i_output _ HI) as Ho. rewrite Hc in Ho.
  do 5 estep. set (a1 := a <| a_engine := _ |>).
  assert (Ha1 : actor_ok c a1).
  { constructor; try done. split; [|exact Ht]. subst a1. cbn. clear - HI. inv_fields. by apply Forall_nil. }
  clearbody a1. apply wp_forM; [done|]. intros buf a2 Hin Ha2. apply wp_bind.
  eapply wp_post.
  { destruct (simulate_loss cfg); [by apply ok_draw|by apply (pres_ret _ false)]. }
  intros lost a3 [Hg3 Hc3 Hw3 Hd3]. cbv beta. destruct lost; [by apply wp_ret|]. apply wp_modify.
  constructor; try done. apply Forall_app. split; [done|]. apply Forall_singleton.
  by rewrite Forall_forall in Ho; apply Ho.
Qed.

Lemma ok_drain_recv permits : keeps_ok (drain_recv permits).
Proof.
  induction permits as [|n IH]; cbn [drain_recv]; [intros c; apply pres_ret|].
  intros c a [[HI Ht] Hc Hw Hd]. apply wp_bind, wp_engine.
  eapply wp_mono; [apply (wp_keeps e_config); [apply keeps_recv, _|by apply recv_spec]| |by intros ? ? [[] _]].
  intros r s' [(HI' & popped & rest & _ & Hr) Hc']. cbv beta.
  assert (Ht' : una_tight (inner s')).
  { destruct r as [data|]; [|by rewrite (proj2 Hr)].
    destruct Hr as (_ & _ & segs & e1 & Hmv & _ & He). rewrite He.
    pose proof (mv_frame _ _ _ Hmv) as Hf. destruct (_ && _); by rewrite Hf. }
  assert (Ha' : actor_ok c (a <| a_engine := s' |>)).
  { constructor; try done. cbn. congruence. }
  destruct r as [msg|]; [|by apply wp_ret]. apply wp_bind, wp_modify. apply IH.
  destruct Ha'. constructor; try done. apply Forall_app. split; [done|]. apply Forall_singleton. by apply Hr.
Qed.

Lemma ok_modify_other f :
  (∀ a, a_engine (f a) = a_engine a ∧ a_wire (f a) = a_wire a ∧ a_data (f a) = a_data a) →
  keeps_ok (modify f).
Proof.
  intros Hf c. apply pres_modify. intros a [Hg Hc Hw Hd]. destruct (Hf a) as (He & Hw' & Hd').
  constructor; rewrite ?He, ?Hw', ?Hd'; done.
Qed.
Lemma ok_take data : keeps_ok (take_data data).
Proof. intros c. apply pres_bind; [by apply ok_modify_other|]. intros _. apply ok_engine, safe_send. Qed.
Hint Resolve pres_ret pres_gets ok_take ok_now ok_draw ok_flush_output ok_drain_recv : actor_ok.
Hint Resolve safe_send safe_flush safe_update safe_keep_alive_probe safe_input safe_idle_ms : actor_ok.
Hint Extern 1 (preserves _ (engine _)) => apply ok_engine : actor_ok.
Hint Extern 1 (preserves _ (engine_get _)) => apply pres_gets : actor_ok.
Hint Extern 2 (preserves _ (modify _)) => apply ok_modify_other; by intros : actor_ok.

(** One step down the syntax of actor code. *)
Ltac ok_step :=
  match goal with
  | |- preserves _ (mbind _ _) => apply pres_bind; [|intros ?]
  | |- preserves _ (and_then _ _) => apply pres_and_then
  | |- preserves _ (forM _ _) => apply pres_forM; intros ? _
  | |- preserves _ (if ?b then _ else _) => destruct b
  | |- preserves _ (match ?x with _ => _ end) => destruct x
  | |- preserves _ (break_if_fatal _) => apply pres_fatal
  | |- preserves _ _ => solve [eauto 3 with actor_ok]
  end.
Ltac ok := intros; cbv beta; repeat (ok_step; cbv beta).

Lemma ok_absorb more : keeps_ok (absorb cfg more).
Proof. induction more as [|data more IH]; cbn [absorb]; ok. Qed.
Lemma ok_start permits : keeps_ok (start_actor cfg permits).
Proof. unfold start_actor. ok. Qed.
Lemma ok_keep_alive : keeps_ok (keep_alive_check cfg).
Proof. unfold keep_alive_check. ok. Qed.
Hint Resolve ok_absorb ok_keep_alive : actor_ok.
Lemma ok_handle ev : keeps_ok (handle cfg ev).
Proof. destruct ev; cbn [handle]; unfold on_timer, on_cmd, on_packet, on_send, reply; ok. Qed.
Lemma ok_close_check : keeps_ok (close_check cfg).
Proof. unfold close_check. ok. Qed.
Hint Resolve ok_handle ok_close_check : actor_ok.
Lemma ok_turn ev : keeps_ok (turn cfg ev).
Proof. unfold turn. ok. Qed.
Hint Resolve ok_turn : actor_ok.
Lemma ok_timer_wait : keeps_ok (timer_wait cfg).
Proof.
  intros c. unfold timer_wait. apply pres_bind; [apply ok_engine, safe_check|]. intros r a Ha.
  apply wp_clamp; [unfold idle_cap_ms; lia|done].
Qed.
Hint Resolve ok_timer_wait : actor_ok.
Lemma ok_run evs : keeps_ok (run_actor cfg evs).
Proof. induction evs; cbn [run_actor]; ok. Qed.
End ActorFacts.

(** * Delivery to the stream *)

(** [deliver l a a']: from [a] to [a'] the messages [l] went to the stream.
    They are what the receive queue held and what followed it in sequence, in
    order, with nothing lost: what is not yet delivered is still queued. *)
Definition deliver (l : list bytes) (a a' : Actor) : Prop :=
  a_data a' = a_data a ++ l ∧
  ∃ segs, let e := inner (a_engine a) in let e' := inner (a_engine a') in
    map sn segs = consecutive (e_rcv_nxt e) (length segs) ∧
    (∀ seg, seg ∈ segs → e_rcv_buf e !! sn seg = Some seg) ∧
    e_rcv_nxt e' = as_u32 (e_rcv_nxt e + len segs) ∧
    concat l ++ queue_payload (e_rcv_queue e') =
      queue_payload (e_rcv_queue e) ++ queue_payload segs.

Lemma consecutive_app nxt n m :
  consecutive nxt (n + m) = consecutive nxt n ++ consecutive (as_u32 (nxt + Z.of_nat n)) m.
Proof.
  unfold consecutive. rewrite Nat2Z.inj_add, seqZ_app, map_app by lia. f_equal.
  rewrite <- (Z.add_0_r (0 + Z.of_nat n)), <- fmap_add_seqZ. rewrite map_map. apply map_ext.
  intros i. unfold as_u32, wrap. rewrite Zplus_mod_idemp_l. f_equal. lia.
Qed.

Section DeliverFacts.
Context {prof : Profile} {clk : Clock} {ins : Instants} {api : BytesApi} {spec : BytesApiSpec api}.
Context (cfg : actor_config).

Lemma deliver_nil a e' :
  Inv (inner (a_engine a)) → recv_post (inner (a_engine a)) None (inner e') →
  deliver [] a (a <| a_engine := e' |>).
Proof.
  intros HI (popped & rest & [Hq _] & Hp & He). split; [by rewrite app_nil_r|]. exists []. cbn.
  rewrite He. cbn. split_and!; [done|set_solver|by rewrite Z.add_0_r, as_u32_small by apply HI|].
  by rewrite Hq, queue_payload_app, Hp, app_nil_r.
Qed.

Lemma deliver_one msg a e' :
  recv_post (inner (a_engine a)) (Some msg) (inner e') →
  deliver [msg] a (a <| a_engine := e' |> <| a_data ::= λ l, l ++ [msg] |>).
Proof.
  intros (popped & rest & [Hq _] & -> & _ & segs & e1 & [Hf Hmq Hn Hs Hb] & _ & He). split; [done|].
  exists segs. cbn. cbn in Hs, Hn, Hmq, Hb.
  assert (Hsame : e_rcv_nxt (inner e') = e_rcv_nxt e1 ∧ e_rcv_queue (inner e') = e_rcv_queue e1).
  { rewrite He. by destruct (_ && _). }
  destruct Hsame as [-> ->]. split_and!; [done| |done|].
  - intros seg Hin. apply Hb. right. by split.
  - rewrite Hmq, Hq, app_nil_r, !queue_payload_app. by rewrite (assoc (++)).
Qed.

Lemma deliver_trans l l' a a' a'' :
  (∀ seg, e_rcv_buf (inner (a_engine a')) !! sn seg = Some seg → e_rcv_buf (inner (a_engine a)) !! sn seg = Some seg) →
  deliver l a a' → deliver l' a' a'' → deliver (l ++ l') a a''.
Proof.
  intros Hsub [Hd (segs & Hs & Hb & Hn & Hp)] [Hd' (segs' & Hs' & Hb' & Hn' & Hp')].
  split; [by rewrite Hd', Hd, (assoc (++))|]. exists (segs ++ segs'). cbn. split_and!.
  - rewrite map_app, length_app, consecutive_app, Hs, Hs', Hn. done.
  - intros seg [Hin|Hin]%elem_of_app; auto.
  - rewrite Hn', Hn, len_app. unfold as_u32, wrap. rewrite Zplus_mod_idemp_l. f_equal. lia.
  - by rewrite concat_app, <- (assoc (++)), Hp', (assoc (++)), Hp, queue_payload_app, (assoc (++)).
Qed.

(** [drain_recv] moves at most [permits] messages, and stops early only when
    the engine has no complete message left. *)
Lemma drain_recv_spec permits : ∀ a,
  Inv (inner (a_engine a)) →
  wp checked_overflow (drain_recv permits)
    (λ _ a', Inv (inner (a_engine a')) ∧ ∃ l, (length l ≤ permits)%nat ∧ deliver l a a' ∧
       ((length l < permits)%nat → ∃ e, (recv e).1 = Ok None ∧ (recv e).2 = a_engine a'))
    (λ _ _, False) a.
Proof.
  induction permits as [|n IH]; intros a HI; cbn [drain_recv].
  - apply wp_ret. split; [done|]. exists []. split_and!; [done| |cbn; lia].
    split; [by rewrite app_nil_r|]. exists []. cbn. rewrite !app_nil_r.
    split_and!; try done; [set_solver|]. by rewrite Z.add_0_r, as_u32_small by apply HI.
  - apply wp_bind, wp_engine. pose proof (recv_spec _ HI) as Hr. unfold wp in *.
    destruct (recv (a_engine a)) as [[r|err|p] e1] eqn:He; [|done..]. destruct Hr as [HI1 Hr]. cbv beta.
    destruct r as [msg|].
    + pose proof (deliver_one _ _ _ Hr) as Hd1. set (a1 := a <| a_engine := e1 |> <| a_data ::= _ |>) in *.
      change (wp checked_overflow (drain_recv n) (λ _ a', Inv (inner (a_engine a')) ∧ ∃ l, (length l ≤ S n)%nat ∧ deliver l a a' ∧
       ((length l < S n)%nat → ∃ e, (recv e).1 = Ok None ∧ (recv e).2 = a_engine a')) (λ _ _, False) a1).
      eapply wp_post; [by apply (IH a1)|]. intros _ a2 (HI2 & l & Hl & Hd2 & Hstop). split; [done|].
      exists (msg :: l). split_and!; [cbn; lia| |intros; apply Hstop; cbn in *; lia].
      apply (deliver_trans [msg] l _ a1); [|done..]. intros seg. cbn.
      destruct Hr as (popped & rest & _ & _ & _ & segs & e2 & [_ _ _ _ Hb] & _ & ->).
      cbn in Hb. intros Hin. apply Hb. left. revert Hin. by destruct (_ && _).
    + cbn. split; [done|]. exists []. split_and!; [cbn; lia|by apply deliver_nil|].
      intros _. exists (a_engine a). by rewrite He.
Qed.
End DeliverFacts.

(** * Backpressure *)

Create HintDb under.

Section QueueBound.
Context {prof : Profile} {clk : Clock} {ins : Instants} {api : BytesApi} {spec : BytesApiSpec api}.
Context (cfg : actor_config).

(** One [send] queues no more segments than a message may have fragments. *)
Lemma send_queue_growth data s :
  Inv (inner s) →
  wp checked_overflow (send data)
    (λ _ s', len (e_snd_queue (inner s')) ≤ len (e_snd_queue (inner s)) + IKCP_WND_RCV)
    (λ _ s', len (e_snd_queue (inner s')) ≤ len (e_snd_queue (inner s)) + IKCP_WND_RCV) s.
Proof.
  intros HI. pose proof (windows_mss _ (i_config _ HI)) as Hm. unfold IKCP_WND_RCV.
  eapply wp_mono; [by apply send_spec|..].
  - intros _ s' (_ & _ & [[_ ->]|(_ & r & q & (_ & Hne & _ & Hl & _) & Hr)]); [lia|].
    apply (f_equal length) in Hl. rewrite !length_map in Hl. destruct r as [d|]; [|unfold len; rewrite Hr, Hl; lia].
    destruct Hr as (Hc & segs & -> & Hs & _). rewrite len_app. apply (f_equal length) in Hs.
    assert (Hd : d ≠ []) by naive_solver.
    destruct (frag_count_bounds (mss_of (e_config (inner s))) d ltac:(lia) Hd) as [Hc1 _].
    rewrite !length_map, length_seqZ in Hs. unfold max_frags, IKCP_WND_RCV in Hc. unfold len in *. lia.
  - intros err s' (_ & _ & d & (_ & _ & _ & Hl & _) & _). apply (f_equal length) in Hl.
    rewrite !length_map in Hl. unfold len. rewrite Hl. lia.
Qed.

Lemma flush_queue_shrinks s :
  Inv (inner s) →
  wp checked_overflow flush
    (λ _ s', len (e_snd_queue (inner s')) ≤ len (e_snd_queue (inner s)))
    (λ _ s', len (e_snd_queue (inner s')) ≤ len (e_snd_queue (inner s))) s.
Proof.
  intros HI. pose proof (len_nonneg (e_snd_queue (inner s))).
  eapply wp_mono; [by apply flush_spec|..].
  - intros _ s' (_ & _ & [-> _]). rewrite len_drop. lia.
  - intros err s' (_ & _ & _ & _ & l & _ & [-> _]). rewrite len_drop. lia.
Qed.

Definition queue_of (a : Actor) : Z := len (e_snd_queue (inner (a_engine a))).

(** The actor is in order and its send queue holds at most [b] segments. *)
Definition bounded (c : KcpCoreConfig) (b : Z) (a : Actor) : Prop := actor_ok c a ∧ queue_of a ≤ b.

Definition shrinks {A} (m : T A) : Prop := ∀ s, good (inner s) →
  wp checked_overflow m
    (λ _ s', len (e_snd_queue (inner s')) ≤ len (e_snd_queue (inner s)))
    (λ _ s', len (e_snd_queue (inner s')) ≤ len (e_snd_queue (inner s))) s.

Lemma keeps_shrinks {A} (m : T A) : safe_call m → keeps e_snd_queue m → shrinks m.
Proof.
  intros Hm Hk s Hg. specialize (Hk s). specialize (Hm s Hg). unfold wp in *.
  destruct (m s) as [[] ?]; cbn in *; rewrite ?Hk; done.
Qed.
Lemma shrinks_flush : shrinks flush.
Proof. intros s [HI _]. by apply flush_queue_shrinks. Qed.
Lemma shrinks_update : shrinks update.
Proof.
  intros s [HI _]. unfold update. do 6 estep. cbn [inner ticks].
  set (last := if now0 <? e_last_update (inner s) then now0 else e_last_update (inner s)).
  assert (Hl : in_u 32 last ∧ last ≤ now0).
  { pose proof (i_update _ HI). subst last. destruct (Z.ltb_spec now0 (e_last_update (inner s))); split; (done || lia). }
  destruct Hl as [Hl Hlt]. do 3 estep. unfold usub. wp_exact; [unfold in_u in *; lia|].
  apply wp_when; intros _; [|cbn [inner]; done].
  do 2 estep. eapply wp_mono; [apply flush_queue_shrinks; cbn [inner]; by inv_fields|done..].
Qed.
Lemma shrinks_keep_alive_probe : shrinks keep_alive_probe.
Proof.
  intros s [HI _]. unfold keep_alive_probe, set_probe. do 2 estep.
  eapply wp_mono; [apply flush_queue_shrinks|done..].
  pose proof (flags_or _ IKCP_ASK_SEND (i_probe _ HI) ltac:(unfold IKCP_ASK_SEND; lia)).
  cbn [inner]. inv_fields. destruct i_probe. by constructor.
Qed.
Lemma shrinks_input data : shrinks (input data).
Proof. apply keeps_shrinks; [apply safe_input|apply keeps_input_queue]. Qed.
Lemma shrinks_idle_ms : shrinks idle_ms.
Proof. apply keeps_shrinks; [apply safe_idle_ms|unfold idle_ms; keeps]. Qed.

Lemma bounded_engine {A} (m : T A) c b :
  safe_call m → shrinks m → preserves (bounded c b) (engine m).
Proof.
  intros Hs Hq a [Ha Hb]. pose proof (ok_engine m Hs c a Ha) as Hok.
  pose proof (Hq (a_engine a) (ao_good _ _ Ha)) as Hl. unfold wp, engine in *.
  destruct (m (a_engine a)) as [[x|x|p] e]; cbn in *;
    [split; [done|unfold queue_of in *; cbn in *; lia]..|done].
Qed.

(** Code that does not touch the queue. *)
Lemma bounded_other {A} (m : AM A) c b :
  (∀ c, preserves (actor_ok c) m) → (∀ a, queue_of (m a).2 = queue_of a) → preserves (bounded c b) m.
Proof.
  intros Hok Hq a [Ha Hb]. specialize (Hok c a Ha). specialize (Hq a). unfold wp in *.
  destruct (m a) as [[] ?]; cbn in *; [|done..]. split; [done|lia].
Qed.

Lemma wire_queue l : ∀ a, queue_of (forM l (λ buf,
        lost ← (match simulate_loss cfg with Some p => draw p | None => mret false end);
        if lost : bool then mret tt else modify (λ a, a <| a_wire ::= λ w, w ++ [buf] |>)) a).2 = queue_of a.
Proof.
  unfold forM. induction l as [|buf l IH]; intros a; cbn [foldM]; [done|]. unfold mbind, M_bind in *.
  destruct (simulate_loss cfg) as [p|]; cbn; [destruct (p (a_draws a)); cbn|]; by rewrite IH.
Qed.
Lemma flush_output_queue a : queue_of (flush_output cfg a).2 = queue_of a.
Proof.
  exact (wire_queue (e_output_queue (inner (a_engine a))) (a <| a_engine :=
    Timed ((inner (a_engine a)) <| e_output_queue := [] |>) (ticks (a_engine a)) |>)).
Qed.

Lemma drain_recv_queue permits : ∀ a, queue_of (drain_recv permits a).2 = queue_of a.
Proof.
  induction permits as [|n IH]; intros a; cbn [drain_recv]; [done|].
  assert (Hk : keeps e_snd_queue recv).
  { unfold recv, peek_size, move_to_recv_queue, move_one, count_stat. keeps. }
  specialize (Hk (a_engine a)). unfold mbind, M_bind, engine.
  destruct (recv (a_engine a)) as [[[msg|]|x|p] e]; cbn in *; unfold queue_of in *; cbn; try by rewrite Hk.
  rewrite IH. cbn. by rewrite Hk.
Qed.

(** The high-water mark bounds the queue whatever the peer and the writer do,
    until the stream is closed. *)
Definition high_water_bound : Z := Z.max 0 (send_high_water cfg) + IKCP_WND_RCV.
Abbreviation under c := (bounded c high_water_bound).

Lemma under_send data c a :
  actor_ok c a → queue_of a < send_high_water cfg →
  wp checked_overflow (take_data data) (λ _ a', under c a') (λ _ _, False) a.
Proof.
  intros Ha Hb. apply wp_bind, wp_modify. set (a1 := _ <| a_taken ::= _ |>).
  assert (Ha1 : actor_ok c a1) by (by destruct Ha; constructor).
  change (queue_of a) with (queue_of a1) in Hb. clearbody a1. clear a Ha. rename a1 into a, Ha1 into Ha.
  pose proof (ok_engine _ (safe_send data) c a Ha) as Hok.
  pose proof (send_queue_growth data (a_engine a) (proj1 (ao_good _ _ Ha))) as Hl.
  unfold wp, engine, high_water_bound, bounded in *.
  destruct (send data (a_engine a)) as [[x|x|p] e]; cbn in *;
    [split; [done|unfold queue_of in *; cbn in *; lia]..|done].
Qed.

Lemma under_absorb more c : preserves (under c) (absorb cfg more).
Proof.
  induction more as [|data more IH]; intros a [Ha Hb]; cbn [absorb]; apply wp_bind, wp_gets;
    (destruct (_ <? _) eqn:Hlt; [|by apply wp_ret]); [by apply wp_ret|].
  apply Z.ltb_lt in Hlt. apply wp_bind. eapply wp_post; [by apply under_send|]. intros x a2 Ha2. by apply IH.
Qed.

Hint Resolve pres_ret pres_gets under_absorb : under.
Hint Resolve safe_flush safe_update safe_keep_alive_probe safe_input safe_idle_ms : under.
Hint Resolve shrinks_flush shrinks_update shrinks_keep_alive_probe shrinks_input shrinks_idle_ms : under.
Hint Extern 1 (preserves _ (engine _)) => apply bounded_engine : under.
Hint Extern 1 (preserves _ (engine_get _)) => apply pres_gets : under.
Hint Extern 1 (preserves _ (flush_output _)) =>
  apply bounded_other; [apply ok_flush_output|apply flush_output_queue] : under.
Hint Extern 1 (preserves _ (drain_recv _)) =>
  apply bounded_other; [apply ok_drain_recv|apply drain_recv_queue] : under.
Hint Extern 1 (preserves _ now) => apply bounded_other; [apply ok_now|done] : under.
Hint Extern 2 (preserves _ (modify _)) =>
  apply bounded_other; [apply ok_modify_other; by intros|by intros] : under.
Local Ltac under_step :=
  match goal with
  | |- preserves _ (mbind _ _) => apply pres_bind; [|intros ?]
  | |- preserves _ (and_then _ _) => apply pres_and_then
  | |- preserves _ (forM _ _) => apply pres_forM; intros ? _
  | |- preserves _ (if ?b then _ else _) => destruct b
  | |- preserves _ (match ?x with _ => _ end) => destruct x
  | |- preserves _ (break_if_fatal _) => apply pres_fatal
  | |- preserves _ _ => solve [eauto 3 with under]
  end.
Local Ltac under := intros; cbv beta; repeat (under_step; cbv beta).

(** The events of a stream that is not being closed. *)
Definition not_close (ev : event) : Prop :=
  match ev with EvCmd (Some CClose) _ | EvCmd None _ => False | _ => True end.

Lemma under_close_check c : preserves (under c) (close_check cfg).
Proof. unfold close_check. under. Qed.
Hint Resolve under_close_check : under.

Lemma under_turn ev c a :
  not_close ev → enabled cfg ev a = true → under c a →
  wp checked_overflow (turn cfg ev) (λ _ a', under c a') (λ _ _, False) a.
Proof.
  intros Hev Hen [Ha Hb]. unfold turn, and_then at 1. apply wp_bind.
  apply (wp_post _ _ (λ _ a', under c a')); [|intros [] a' Ha'; [by apply under_close_check|by apply wp_ret]].
  destruct ev as [permits|[[]|] more|packet permits|[data|] more]; cbn in *; try done.
  - assert (Hp : preserves (under c) (on_timer cfg permits)); [|by apply Hp].
    unfold on_timer, keep_alive_check. under.
  - assert (Hp : preserves (under c) (on_cmd cfg (Some CFlush) more)); [|by apply Hp].
    unfold on_cmd, reply. under.
  - assert (Hp : preserves (under c) (on_cmd cfg (Some CStats) more)); [|by apply Hp].
    unfold on_cmd, reply. under.
  - assert (Hp : preserves (under c) (on_cmd cfg (Some CIsAlive) more)); [|by apply Hp].
    unfold on_cmd, reply. under.
  - assert (Hp : preserves (under c) (on_packet cfg packet permits)); [|by apply Hp].
    unfold on_packet. under.
  - apply andb_prop in Hen as [_ Hlt%Z.ltb_lt]. apply wp_bind.
    eapply wp_post; [by apply under_send|]. intros x a' Ha'.
    lazymatch goal with |- wp _ ?m _ _ _ => assert (Hp : preserves (under c) m); [|by apply Hp] end. under.
  - apply wp_bind, wp_modify, wp_ret. destruct Ha. split; [by constructor|done].
Qed.
End QueueBound.

(** * Graceful close *)

Create HintDb draining.

Section Close.
Context {prof : Profile} {clk : Clock} {ins : Instants} {api : BytesApi} {spec : BytesApiSpec api}.
Context (cfg : actor_config).

(** The actor is draining, until [d] at the latest, [n] readings of the time
    or more into its life. *)
Record draining (c : KcpCoreConfig) (d : Z) (n : nat) (a : Actor) : Prop := {
  dr_ok : actor_ok c a;
  dr_closing : a_closing a = true;
  dr_send_closed : a_send_closed a = true;
  dr_deadline : a_close_deadline a = Some d;
  dr_instants : (n ≤ a_instants a)%nat;
}.

Lemma draining_engine {A} (m : T A) c d n : safe_call m → preserves (draining c d n) (engine m).
Proof.
  intros Hm a [Ha H1 H2 H3 H4]. pose proof (ok_engine m Hm c a Ha) as Hok. unfold wp, engine in *.
  by destruct (m (a_engine a)) as [[x|x|p] e].
Qed.

Lemma draining_other {A} (m : AM A) c d n :
  (∀ c, preserves (actor_ok c) m) →
  (∀ a, let a' := (m a).2 in (a_closing a', a_send_closed a', a_close_deadline a')
    = (a_closing a, a_send_closed a, a_close_deadline a)) →
  (∀ a, (a_instants a ≤ a_instants (m a).2)%nat) → preserves (draining c d n) m.
Proof.
  intros Hok Hq Hi a [Ha H1 H2 H3 H4]. specialize (Hok c a Ha). specialize (Hq a). specialize (Hi a). unfold wp in *.
  destruct (m a) as [[] ?]; cbn in *; [|done..]. constructor; [done|congruence..|lia].
Qed.

Abbreviation status a := (a_closing a, a_send_closed a, a_close_deadline a, a_instants a).
Lemma wire_status l : ∀ a, status (forM l (λ buf,
        lost ← (match simulate_loss cfg with Some p => draw p | None => mret false end);
        if lost : bool then mret tt else modify (λ a, a <| a_wire ::= λ w, w ++ [buf] |>)) a).2 = status a.
Proof.
  unfold forM. induction l as [|buf l IH]; intros a; cbn [foldM]; [done|]. unfold mbind, M_bind in *.
  destruct (simulate_loss cfg) as [p|]; cbn; [destruct (p (a_draws a)); cbn|]; by rewrite IH.
Qed.
Lemma flush_output_status a : status (flush_output cfg a).2 = status a.
Proof.
  exact (wire_status (e_output_queue (inner (a_engine a))) (a <| a_engine :=
    Timed ((inner (a_engine a)) <| e_output_queue := [] |>) (ticks (a_engine a)) |>)).
Qed.
Lemma wire_run l : ∀ a, let r := forM l (λ buf,
        lost ← (match simulate_loss cfg with Some p => draw p | None => mret false end);
        if lost : bool then mret tt else modify (λ a, a <| a_wire ::= λ w, w ++ [buf] |>)) a in
  r.1 = Ok tt ∧ a_engine r.2 = a_engine a.
Proof.
  unfold forM. induction l as [|buf l IH]; intros a; cbn [foldM]; [done|]. unfold mbind, M_bind in *.
  destruct (simulate_loss cfg) as [p|]; cbn; [destruct (p (a_draws a)); cbn|]; (split; [by rewrite (proj1 (IH _))|by rewrite (proj2 (IH _))]).
Qed.
Lemma flush_output_unsent (a : Actor) :
  wp checked_overflow (flush_output cfg)
    (λ _ a', has_unsent_data_of (inner (a_engine a')) = has_unsent_data_of (inner (a_engine a))) (λ _ _, False) a.
Proof.
  destruct (wire_run (e_output_queue (inner (a_engine a))) (a <| a_engine :=
    Timed ((inner (a_engine a)) <| e_output_queue := [] |>) (ticks (a_engine a)) |>)) as [H1 H2].
  unfold flush_output. apply wp_bind, wp_engine. unfold drain_output. do 5 estep. cbv beta iota.
  unfold wp. destruct (forM _ _ _) as [r a']. cbn in H1, H2. subst r. by rewrite H2.
Qed.
Lemma drain_recv_status permits : ∀ a, status (drain_recv permits a).2 = status a.
Proof.
  induction permits as [|n IH]; intros a; cbn [drain_recv]; [done|]. unfold mbind, M_bind, engine.
  destruct (recv (a_engine a)) as [[[msg|]|x|p] e]; cbn in *; [by rewrite IH|done..].
Qed.

Lemma draining_status {A} (m : AM A) c d n :
  (∀ c, preserves (actor_ok c) m) → (∀ a, status (m a).2 = status a) → preserves (draining c d n) m.
Proof.
  intros Hok Hs. apply draining_other; [done|..]; intros a; specialize (Hs a); cbn in *; injection Hs; intros; [congruence|lia].
Qed.

Hint Resolve pres_ret pres_gets : draining.
Hint Resolve safe_flush safe_update safe_keep_alive_probe safe_input safe_idle_ms : draining.
Hint Extern 1 (preserves _ (engine _)) => apply draining_engine : draining.
Hint Extern 1 (preserves _ (flush_output _)) =>
  apply draining_status; [apply ok_flush_output|apply flush_output_status] : draining.
Hint Extern 1 (preserves _ (drain_recv _)) =>
  apply draining_status; [apply ok_drain_recv|apply drain_recv_status] : draining.
Hint Extern 1 (preserves _ now) => apply draining_other; [apply ok_now|done|cbn; lia] : draining.
Hint Extern 2 (preserves _ (modify _)) =>
  apply draining_status; [apply ok_modify_other; by intros|by intros] : draining.
Local Ltac draining_step :=
  match goal with
  | |- preserves _ (mbind _ _) => apply pres_bind; [|intros ?]
  | |- preserves _ (and_then _ _) => apply pres_and_then
  | |- preserves _ (if ?b then _ else _) => destruct b
  | |- preserves _ (match ?x with _ => _ end) => destruct x
  | |- preserves _ (break_if_fatal _) => apply pres_fatal
  | |- preserves _ _ => solve [eauto 3 with draining]
  end.
Local Ltac draining := intros; cbv beta; repeat (draining_step; cbv beta).

Lemma draining_handle ev c d n a :
  enabled cfg ev a = true → draining c d n a →
  wp checked_overflow (handle cfg ev) (λ _ a', draining c d n a') (λ _ _, False) a.
Proof.
  intros Hen Hd. destruct ev as [permits|cmd more|packet permits|data more]; cbn in *.
  - assert (Hp : preserves (draining c d n) (on_timer cfg permits)); [|by apply Hp].
    unfold on_timer, keep_alive_check. draining.
  - by rewrite (dr_closing _ _ _ _ Hd) in Hen.
  - assert (Hp : preserves (draining c d n) (on_packet cfg packet permits)); [|by apply Hp].
    unfold on_packet. draining.
  - by rewrite (dr_send_closed _ _ _ _ Hd) in Hen.
Qed.

Lemma wp_instant K Q (R : Empty_set → Actor → Prop) a :
  Q (instant (a_instants a)) (a <| a_instants ::= S |>) → wp K now Q R a.
Proof. done. Qed.

Lemma take_instants data c a : actor_ok c a →
  wp checked_overflow (take_data data) (λ _ a', actor_ok c a' ∧ a_instants a' = a_instants a) (λ _ _, False) a.
Proof.
  intros Ha. pose proof (ok_take data c a Ha) as Hok. unfold wp, take_data, modify, mbind, M_bind, engine in *. cbn in *.
  by destruct (send data (a_engine a)) as [[] ?].
Qed.

(** A draining actor goes on only while something is unacknowledged and the
    deadline has not passed; it ends once the deadline has. *)
Lemma draining_check c d n a :
  draining c d n a →
  wp checked_overflow (close_check cfg)
    (λ f a', draining c d n a' ∧ (f = Continue → has_unsent_data_of (inner (a_engine a')) = true ∧
       (a_instants a < a_instants a')%nat ∧ instant (a_instants a) < d) ∧
     (f = Break → has_unsent_data_of (inner (a_engine a)) = false ∨ d ≤ instant (a_instants a)))
    (λ _ _, False) a.
Proof.
  intros Hd. pose proof Hd as [Ha H1 H2 H3 H4]. unfold close_check, engine_get.
  apply wp_bind, wp_gets. rewrite H1. cbn [negb]. apply wp_bind, wp_gets. apply wp_bind.
  assert (Hend : ∀ a', draining c d n a' →
    has_unsent_data_of (inner (a_engine a)) = false ∨ d ≤ instant (a_instants a) →
    wp checked_overflow (engine flush;; flush_output cfg;; mret Break)
      (λ f a', draining c d n a' ∧ (f = Continue → has_unsent_data_of (inner (a_engine a')) = true ∧
         (a_instants a < a_instants a')%nat ∧ instant (a_instants a) < d) ∧
       (f = Break → has_unsent_data_of (inner (a_engine a)) = false ∨ d ≤ instant (a_instants a)))
      (λ _ _, False) a').
  { intros a' Ha' Hor. assert (Hp : preserves (draining c d n) (engine flush;; flush_output cfg)) by draining.
    apply wp_bind. pose proof (Hp a' Ha') as Hw. apply wp_bind_inv in Hw. eapply wp_post; [exact Hw|].
    intros x a2 Hw2. cbv beta in *. apply wp_bind. eapply wp_post; [exact Hw2|].
    intros x3 a3 Ha3. by apply wp_ret. }
  destruct (has_unsent_data_of (inner (a_engine a))) eqn:Hu; cbn [negb].
  - apply wp_bind, wp_gets. rewrite H3. apply wp_bind, wp_instant, wp_ret.
    destruct (Z.leb_spec d (instant (a_instants a))) as [Hle|Hlt].
    + apply Hend; [|by right]. constructor; [exact (ok_now c a Ha)|done..|cbn; lia].
    + apply wp_ret. split; [constructor; [exact (ok_now c a Ha)|done..|cbn; lia]|]. split; [|done]. intros _. split_and!; [done|cbn; lia|done].
  - apply wp_ret. apply Hend; [done|by left].
Qed.

(** Why [close_check] ends the loop: nothing is unsent, and then nothing is after
    the last flush, or the deadline has passed. *)
Lemma close_check_ends a :
  good (inner (a_engine a)) →
  wp checked_overflow (close_check cfg)
    (λ f a', f = Break → a_closing a = true ∧
       (has_unsent_data_of (inner (a_engine a')) = false ∨
        ∃ d, a_close_deadline a = Some d ∧ d ≤ instant (a_instants a))) (λ _ _, False) a.
Proof.
  intros Hg. unfold close_check, engine_get. apply wp_bind, wp_gets.
  destruct (a_closing a); cbn [negb]; [|by apply wp_ret]. apply wp_bind, wp_gets. apply wp_bind.
  assert (Hend : ∀ a1 (P : Actor → Prop), good (inner (a_engine a1)) →
    (∀ a2, (has_unsent_data_of (inner (a_engine a1)) = false → has_unsent_data_of (inner (a_engine a2)) = false) → P a2) →
    wp checked_overflow (engine flush;; flush_output cfg;; mret Break) (λ f a2, f = Break → P a2) (λ _ _, False) a1).
  { intros a1 P Hg1 HP. apply wp_bind, wp_engine.
    assert (Hfin : ∀ e, (has_unsent_data_of (inner (a_engine a1)) = false → has_unsent_data_of (inner e) = false) →
      wp checked_overflow (flush_output cfg;; mret Break) (λ f a2, f = Break → P a2) (λ _ _, False) (a1 <| a_engine := e |>)).
    { intros e He. apply wp_bind. eapply wp_post; [apply flush_output_unsent|]. intros u a2 Ha2. apply wp_ret. intros _.
      apply HP. intros Hu. rewrite Ha2. by apply He. }
    destruct (has_unsent_data_of (inner (a_engine a1))) eqn:Hu.
    - eapply wp_mono; [by apply safe_flush|..]; intros ? e _; by apply Hfin.
    - eapply wp_mono; [by apply flush_nothing; [apply Hg1|]|..]; intros ? e He; by apply Hfin. }
  destruct (has_unsent_data_of (inner (a_engine a))) eqn:Hu; cbn [negb].
  - apply wp_bind, wp_gets. destruct (a_close_deadline a) as [d|]; [|by apply wp_ret, wp_ret].
    apply wp_bind, wp_instant, wp_ret. destruct (Z.leb_spec d (instant (a_instants a))); [|by apply wp_ret].
    apply Hend; [done|]. intros a2 _. split; [done|]. right. by exists d.
  - apply wp_ret. apply Hend; [done|]. intros a2 Ha2. split; [done|]. left. by apply Ha2.
Qed.
End Close.

(** * Theorems *)

Section ActorTheorems.
Context {prof : Profile} {clk : Clock} {ins : Instants} {api : BytesApi} {spec : BytesApiSpec api}.
Context (cfg : actor_config).

(** C16: the actor, from its start and through any events in any order, keeps its
    engine in order and its configuration, puts only well-formed datagrams of
    at most an MTU on the wire, never gives the stream an empty message (which
    the reader would take for its end) and does not panic, but for a checked
    overflow. *)
Theorem actor_safe c a permits evs :
  actor_ok c a →
  wp checked_overflow (run_engine_actor cfg permits evs) (λ _ a', actor_ok c a') (λ _ _, False) a.
Proof.
  intros Ha. unfold run_engine_actor. apply wp_bind. eapply wp_post; [by apply ok_start|].
  intros [] a' Ha'. by apply ok_run.
Qed.

(** Draining the engine into the stream's channel loses, repeats and
    reorders nothing: it takes at most as many messages as there is room for,
    what it delivers followed by what is still queued is what was queued
    followed by what came next in sequence, and it stops before the room is used
    up only when the engine has no complete message. *)
Theorem drain_recv_lossless permits a :
  Inv (inner (a_engine a)) →
  wp checked_overflow (drain_recv permits)
    (λ _ a', Inv (inner (a_engine a')) ∧ ∃ l, (length l ≤ permits)%nat ∧ deliver l a a' ∧
       ((length l < permits)%nat → ∃ e, (recv e).1 = Ok None ∧ (recv e).2 = a_engine a'))
    (λ _ _, False) a.
Proof. apply drain_recv_spec. Qed.

(** C23: until the stream is closed the engine's send queue never holds more than
    the high-water mark and one message, whatever the writer, the peer and the
    timer do. *)
Theorem backpressure c evs a :
  Forall not_close evs → actor_ok c a → queue_of a ≤ high_water_bound cfg →
  wp checked_overflow (run_actor cfg evs)
    (λ _ a', actor_ok c a' ∧ queue_of a' ≤ high_water_bound cfg) (λ _ _, False) a.
Proof.
  intros Hev Ha Hq. pose proof (conj Ha Hq) as Hb. clear Ha Hq. revert a Hb.
  induction Hev as [|ev evs Hev _ IH]; intros a Hb; cbn [run_actor]; [by apply wp_ret|].
  apply wp_bind. apply (wp_post _ _ (λ _ a', bounded c (high_water_bound cfg) a')).
  { apply (pres_bind (bounded c (high_water_bound cfg))); [|intros r|exact Hb].
    - apply bounded_engine; [apply safe_check|]. intros s Hg. unfold wp. by rewrite check_run.
    - intros a1 Ha1. apply wp_clamp; [unfold idle_cap_ms; lia|done]. }
  intros _ a1 Ha1. cbv beta. apply wp_bind, wp_gets. destruct (enabled cfg ev a1) eqn:Hen; [|by apply IH].
  unfold and_then. apply wp_bind. eapply wp_post; [by apply under_turn|]. intros [] a2 Ha2; [by apply IH|by apply wp_ret].
Qed.

(** C24: closing is graceful: [Close] starts the drain with a deadline 10 s after the
    time it reads then, and goes on; a draining actor takes no more writes or
    commands; it goes on only while something is unsent or unacknowledged and the
    time it reads in that turn is before the deadline, so it ends in the first
    turn after it at the latest. *)
Theorem graceful_close c :
  (∀ a more, actor_ok c a →
     wp checked_overflow (on_cmd cfg (Some CClose) more)
       (λ f a', f = Continue ∧ draining c (instant (a_instants a) + 10000) (S (a_instants a)) a') (λ _ _, False) a) ∧
  (∀ d n a ev, draining c d n a → enabled cfg ev a = true →
     (∀ cmd more, ev ≠ EvCmd cmd more) ∧ (∀ data more, ev ≠ EvSend data more) ∧
     wp checked_overflow (turn cfg ev)
       (λ f a', draining c d n a' ∧
          (f = Continue → has_unsent_data_of (inner (a_engine a')) = true ∧
             ∃ m, (a_instants a ≤ m < a_instants a')%nat ∧ instant m < d))
       (λ _ _, False) a).
Proof.
  split.
  - intros a more Ha. unfold on_cmd. apply wp_bind.
    apply (wp_post _ _ (λ _ a', actor_ok c a' ∧ a_instants a' = a_instants a)).
    { apply (wp_forM _ _ (λ a', actor_ok c a' ∧ a_instants a' = a_instants a)); [by split|]. intros data a1 _ [Ha1 Hi].
      apply wp_bind. eapply wp_post; [apply (take_instants data c a1 Ha1)|]. intros _ a2 [Ha2 Hi2]. apply wp_ret. split; [done|congruence]. }
    intros _ a1 [Ha1 Hi]. cbv beta. apply wp_bind, wp_instant, wp_bind, wp_modify. rewrite Hi.
    set (a2 := _ <| a_close_deadline := _ |>).
    assert (Hd : draining c (instant (a_instants a) + 10000) (S (a_instants a)) a2).
    { destruct Ha1. constructor; [by constructor|done..|cbn; lia]. }
    clearbody a2. apply wp_bind. eapply wp_post; [apply draining_engine; [apply safe_flush|done]|].
    intros x3 a3 Ha3. cbv beta. apply wp_bind.
    eapply wp_post; [apply draining_status; [apply ok_flush_output|apply flush_output_status|exact Ha3]|].
    intros x4 a4 Ha4. by apply wp_ret.
  - intros d n a ev Hd Hen. split_and!.
    + intros cmd more ->. cbn in Hen. by rewrite (dr_closing _ _ _ _ Hd) in Hen.
    + intros data more ->. cbn in Hen. by rewrite (dr_send_closed _ _ _ _ Hd) in Hen.
    + assert (Hnow : draining c d (a_instants a) a) by (by destruct Hd).
      unfold turn, and_then. apply wp_bind. eapply wp_post; [by apply draining_handle|].
      intros f1 a1 Ha1; cbv beta. assert (Hn1 : draining c d n a1) by (destruct Ha1, Hd; split; try done; lia).
      destruct f1; [|by apply wp_ret].
      eapply wp_post; [by apply draining_check|]. intros f a2 (Ha2 & Hf & _). split; [done|].
      intros ->. destruct (Hf eq_refl) as (Hu & Hm & Hi). split; [done|]. eexists. split; [|exact Hi].
      pose proof (dr_instants _ _ _ _ Ha1). lia.
Qed.

Lemma engine_idle a :
  engine idle_ms a = (Ok (inr (saturating_sub (now_of (a_engine a)) (e_last_activity (inner (a_engine a))))),
    a <| a_engine := Timed (inner (a_engine a)) (S (ticks (a_engine a))) |>).
Proof. done. Qed.

(** The keep-alive check declares the peer dead, and ends the actor, when
    the engine has been idle for three keep-alive periods, and leaves the engine
    alone while it has been idle for less than one. *)
Theorem dead_peer ka a :
  keep_alive_ms cfg = Some ka →
  let s := a_engine a in let e := inner s in
  let idle := saturating_sub (now_of s) (e_last_activity e) in
  let idle' := saturating_sub (as_u32 (elapsed_ms (S (ticks s)))) (e_last_activity e) in
  (saturating_mul ka 3 ≤ idle →
     keep_alive_check cfg a = (Ok Break, a <| a_engine := Timed e (S (ticks s)) |>)) ∧
  (idle < saturating_mul ka 3 → idle' < ka →
     keep_alive_check cfg a = (Ok Continue, a <| a_engine := Timed e (S (S (ticks s))) |>)).
Proof.
  intros Hka. cbn zeta. unfold keep_alive_check. rewrite Hka. split.
  - intros H%Z.leb_le. unfold mbind, M_bind. rewrite engine_idle. by rewrite H.
  - intros H%Z.leb_gt H'%Z.ltb_lt. unfold mbind, M_bind. rewrite engine_idle, H, engine_idle.
    cbn [a_engine inner ticks]. change (now_of _) with (as_u32 (elapsed_ms (S (ticks (a_engine a))))).
    change (inner (a_engine (a <| a_engine := _ |>))) with (inner (a_engine a)). by rewrite H'.
Qed.
End ActorTheorems.

Module ActorSample.
#[export] Instance instants : Instants := λ n, 100 * Z.of_nat n.
Definition cfg : actor_config := Build_actor_config 40 (Some 30000) None 64.
Definition of_engine (e : KcpEngine) : Actor := Build_Actor (Timed e 2) 0 0 0 false false None [] [] [] [].
Definition actor : Actor := of_engine Sample.engine.

Lemma ok : actor_ok Sample.config actor.
Proof. constructor; [exact Sample.good|done|by apply Forall_nil..]. Qed.

(** A message of the application, an acknowledgement, the timer, and the close. *)
Definition events : list event :=
  [EvSend (Some [x61; x62]) [[x63]]; EvTimer 1; EvCmd (Some CStats) []; EvPacket (Some [x61]) 1].

(** An actor with two fragments of a message received. *)
Definition received : Actor := of_engine RecvSample.engine.
End ActorSample.

Lemma actor_safe_witness :
  let a := (run_engine_actor (prof := release_build) (clk := Sample.clock) (ins := ActorSample.instants)
    (api := bytes_le) ActorSample.cfg 1 ActorSample.events ActorSample.actor).2 in
  Forall (datagram_ok 1400) (a_wire a) ∧ length (a_wire a) = 1%nat.
Proof.
  pose proof (wp_ok _ _ _ _ _ _ _ (actor_safe (prof := release_build) (clk := Sample.clock) (ins := ActorSample.instants)
    (api := bytes_le) ActorSample.cfg Sample.config ActorSample.actor 1 ActorSample.events ActorSample.ok)
    ltac:(vm_compute; reflexivity)) as H.
  cbn zeta. split; [exact (ao_wire _ _ H)|vm_compute; reflexivity].
Defined.

Lemma drain_recv_lossless_witness :
  let a := (drain_recv (prof := release_build) 2 ActorSample.received).2 in a_data a = [[x61; x62; x63]].
Proof.
  pose proof (wp_ok _ _ _ _ _ _ _ (drain_recv_lossless (prof := release_build) 2 ActorSample.received
    RecvSample.message_good) ltac:(vm_compute; reflexivity)) as (_ & l & _ & [Hd _] & _).
  cbn zeta. vm_compute in Hd |- *. reflexivity.
Defined.

Lemma backpressure_witness :
  let a := (run_actor (prof := release_build) (clk := Sample.clock) (ins := ActorSample.instants)
    (api := bytes_le) ActorSample.cfg ActorSample.events ActorSample.actor).2 in
  queue_of a ≤ 192.
Proof.
  pose proof (wp_ok _ _ _ _ _ _ _ (backpressure (prof := release_build) (clk := Sample.clock)
    (ins := ActorSample.instants) (api := bytes_le) ActorSample.cfg Sample.config ActorSample.events ActorSample.actor
    ltac:(repeat constructor) ActorSample.ok ltac:(vm_compute; congruence)) ltac:(vm_compute; reflexivity)) as [_ H].
  cbn zeta. etransitivity; [exact H|]. vm_compute. congruence.
Defined.

Lemma graceful_close_witness :
  let a := (on_cmd (prof := release_build) (clk := Sample.clock) (ins := ActorSample.instants)
    (api := bytes_le) ActorSample.cfg (Some CClose) [[x61]] ActorSample.actor).2 in
  a_closing a = true ∧ a_close_deadline a = Some 10000.
Proof.
  destruct (graceful_close (prof := release_build) (clk := Sample.clock) (ins := ActorSample.instants)
    (api := bytes_le) ActorSample.cfg Sample.config) as [H _].
  pose proof (wp_ok _ _ _ _ _ _ _ (H ActorSample.actor [[x61]] ActorSample.ok) ltac:(vm_compute; reflexivity))
    as (_ & Hd).
  cbn zeta. split; [exact (dr_closing _ _ _ _ Hd)|exact (dr_deadline _ _ _ _ Hd)].
Defined.

Lemma dead_peer_witness :
  (keep_alive_check (prof := release_build) (clk := Sample.clock) (ins := ActorSample.instants)
    (api := bytes_le) (Build_actor_config 40 (Some 3) None 64) ActorSample.actor).1 = Ok Break.
Proof.
  destruct (dead_peer (prof := release_build) (clk := Sample.clock) (ins := ActorSample.instants)
    (api := bytes_le) (Build_actor_config 40 (Some 3) None 64) 3 ActorSample.actor eq_refl) as [H _].
  rewrite H by (vm_compute; congruence). reflexivity.
Defined.
