(* ===== verification/Stream.v ===== *)
(** kcp/stream.rs: the stream object the application holds, and how a
    connection's engine and actor are set up.

    As in Actor.v the channels and the transport are not code of the
    repository: what a channel answers is an argument ([try_result],
    [poll]), what the stream hands to one is recorded in [k_sent]. *)
From S2P Require Import Prelude Monad Protocol Error Config Engine Output Send Recv Ack Input Flush Frame Safety Actor.

Definition SEND_CHANNEL_CAPACITY : Z := 16.

Inductive poll (A : Type) := Ready (a : A) | Pending.
Arguments Ready {A} a.
Arguments Pending {A}.

(** [Sender::try_send]. *)
Inductive try_result := TryOk | TryClosed | TryFull.

Record KcpStream := {
  k_mss : Z;
  k_max_msg : Z;
  k_read_buf : bytes;
  k_pending_write : option bytes;
  k_pending_flush : bool;
  k_pending_shutdown : bool;
  k_actor_task : bool;
  k_recv_task : bool;
  k_connected : bool;
  k_closed : bool;
  k_sent : list bytes;
}.
#[export] Instance KcpStream_eta : Eta KcpStream := λ k,
  Build_KcpStream (k_mss k) (k_max_msg k) (k_read_buf k) (k_pending_write k) (k_pending_flush k)
    (k_pending_shutdown k) (k_actor_task k) (k_recv_task k) (k_connected k) (k_closed k) (k_sent k).

Section Setup.
Context {prof : Profile} {clk : Clock} {api : BytesApi} {f32 : Type} (loses : f32 → nat → bool).
Implicit Types config : KcpConfig (f32 := f32).

Definition send_high_water config : Z := Z.max (snd_wnd config * 4) 64.
Definition stream_mss config : Z := Z.max (saturating_sub (mtu config) IKCP_OVERHEAD) 1.
Definition stream_max_msg config : Z := stream_mss config * Z.min (rcv_wnd config) IKCP_WND_RCV.

Definition actor_config_of config : actor_config := {|
  update_interval_ms := nd_interval (nodelay config);
  keep_alive_ms := keep_alive config;
  simulate_loss := option_map loses (simulate_packet_loss config);
  Actor.send_high_water := send_high_water config;
|}.

Definition stream_of config (recv_task : bool) : KcpStream := {|
  k_mss := stream_mss config;
  k_max_msg := stream_max_msg config;
  k_read_buf := [];
  k_pending_write := None;
  k_pending_flush := false;
  k_pending_shutdown := false;
  k_actor_task := true;
  k_recv_task := recv_task;
  k_connected := true;
  k_closed := false;
  k_sent := [];
|}.

(** A connection being set up: its engine is a local, the clock the state. *)
Abbreviation SM := (M (timed ()) KcpError).
Definition on_engine {A} (e : KcpEngine) (m : T A) : SM KcpEngine := λ s,
  match m (Timed e (ticks s)) with
  | (Ok _, e') => (Ok (inner e'), Timed tt (ticks e'))
  | (Err x, e') => (Err (KcpError_from x), Timed tt (ticks e'))
  | (Panicked p, e') => (Panicked p, Timed tt (ticks e'))
  end.
Definition check_config config : SM () :=
  match validate config with inl e => fail e | inr _ => mret tt end.

Definition new_with_conv (conv : Z) config : SM (KcpEngine * KcpStream * actor_config) :=
  check_config config;;
  engine ← new conv (KcpCoreConfig_from config);
  engine ← on_engine engine start;
  mret (engine, stream_of config true, actor_config_of config).

Definition new_server_stream (client_conv server_conv : Z) config (initial_packet : bytes)
    : SM (KcpEngine * KcpStream * actor_config) :=
  check_config config;;
  engine ← new client_conv (KcpCoreConfig_from config);
  engine ← on_engine engine start;
  engine ← on_engine engine (input initial_packet);
  engine ← (if negb (client_conv =? server_conv) then on_engine engine (set_conv server_conv)
            else mret engine);
  engine ← on_engine engine update;
  engine ← on_engine engine flush;
  mret (engine, stream_of config false, actor_config_of config).

(** [draws] are the hashes [random_conv_id] sees; [None] is a loop that does
    not end with them. *)
Definition new_with_transport (draws : list Z) config (is_client : bool)
    : option (SM (KcpEngine * KcpStream * actor_config)) :=
  if is_client then
    conv ← random_conv_id draws; Some (new_with_conv conv config)
  else Some (new_with_conv 0 config).

Definition connect_with_transport (draws : list Z) config := new_with_transport draws config true.

(** The wildcard address of the target's family. *)
Definition bind_addr (is_ipv6 : bool) : string := if is_ipv6 then "[::]:0" else "0.0.0.0:0".
(** [bound] is what [UdpTransport::bind] answers: an error, or a socket and what
    it says of its local address. *)
Definition connect {Addr} (bound : string → io_error_kind + (io_error_kind + Addr)) (is_ipv6 : bool)
    (draws : list Z) config : option (SM (KcpEngine * KcpStream * actor_config)) :=
  match bound (bind_addr is_ipv6) with
  | inl kind | inr (inl kind) => Some (fail (KIo kind))
  | inr (inr _) => connect_with_transport draws config
  end.
(** [KcpConfig::connect]. *)
Definition config_connect {Addr} (bound : string → io_error_kind + (io_error_kind + Addr)) (is_ipv6 : bool)
    (draws : list Z) config : option (SM (KcpEngine * KcpStream * actor_config)) :=
  match validate config with
  | inl e => Some (fail e)
  | inr _ => connect bound is_ipv6 draws config
  end.
End Setup.

Section Stream.
(** [send(&self, data)]; [accepted] is what the channel's [send] returned. *)
Definition stream_send (data : bytes) (accepted : bool) (k : KcpStream) : (KcpError + ()) * KcpStream :=
  if k_closed k then (inl (KConnection Closed), k)
  else if k_max_msg k <? len data then
    (inl (KBuffer ("message of " +:+ pretty (len data) +:+ " bytes exceeds max "
      +:+ pretty (k_max_msg k) +:+ " for one send; use AsyncWrite for streaming")), k)
  else if accepted then (inr tt, k <| k_sent ::= λ l, l ++ [data] |>)
  else (inl (KConnection Closed), k).

(** [recv]; [next] is what the channel yields. *)
Definition stream_recv (next : option bytes) (k : KcpStream) : option bytes :=
  if k_closed k then None else next.

Definition is_connected (sent : bool) (answer : option bool) (k : KcpStream) : bool :=
  k_connected k && negb (k_closed k) && handle_is_alive sent answer.

Definition abort_tasks (k : KcpStream) : KcpStream :=
  k <| k_actor_task := false |> <| k_recv_task := false |>.

Definition close (k : KcpStream) : KcpStream :=
  if k_closed k then k
  else abort_tasks (k <| k_closed := true |> <| k_actor_task := false |>).

(** Dropping the stream: what the actor's command channel yields last, [None]
    when it is closed without a command. *)
Definition stream_drop (room : bool) : option EngineCmd := head (handle_close room).

(** What the receive task forwards of a datagram from [src]. *)
Definition recv_task_filter {Addr} `{!EqDecision Addr} (peer_addr src : Addr) (data : bytes)
    : option bytes := if decide (src = peer_addr) then Some data else None.

(** The receive task: what it forwards of what its [select!] sees, until the
    input channel is closed or the transport fails ([accepted]: the channel took
    the datagram). *)
Inductive recv_event (Addr : Type) :=
  | RvClosed
  | RvError
  | RvPacket (src : Addr) (data : bytes) (accepted : bool).
Arguments RvClosed {Addr}.
Arguments RvError {Addr}.
Arguments RvPacket {Addr} src data accepted.
Fixpoint recv_task {Addr} `{!EqDecision Addr} (peer_addr : Addr) (evs : list (recv_event Addr)) : list bytes :=
  match evs with
  | [] | RvClosed :: _ | RvError :: _ => []
  | RvPacket src data accepted :: evs =>
      match recv_task_filter peer_addr src data with
      | None => recv_task peer_addr evs
      | Some data => if accepted then data :: recv_task peer_addr evs else []
      end
  end.

(** [stats]: the default when the actor is gone. *)
Definition stream_stats (sent : bool) (answer : option KcpStats) : KcpStats :=
  match handle_stats sent answer with inl _ => KcpStats_default | inr s => s end.

(** Copies at most [remaining] bytes out of the read buffer. *)
Definition copy_out (remaining : Z) (k : KcpStream) : bytes * KcpStream :=
  let to_copy := Z.to_nat (Z.min remaining (len (k_read_buf k))) in
  (take to_copy (k_read_buf k), k <| k_read_buf ::= drop to_copy |>).

(** The result is what was put into the caller's buffer, which had room for
    [remaining] bytes; [chan] is what [poll_recv] returns. *)
Definition poll_read (remaining : Z) (chan : poll (option bytes)) (k : KcpStream)
    : poll bytes * KcpStream :=
  if negb (is_empty (k_read_buf k)) then
    let '(out, k) := copy_out remaining k in (Ready out, k)
  else if k_closed k then (Ready [], k)
  else
    match chan with
    | Ready (Some data) =>
        let '(out, k) := copy_out remaining (k <| k_read_buf ::= λ b, b ++ data |>) in
        (Ready out, k)
    | Ready None => (Ready [], k)
    | Pending => (Pending, k)
    end.

(** [fut] is how the boxed [send] future answers when it is polled. *)
Definition poll_write (buf : bytes) (t : try_result) (fut : poll (io_error_kind + ()))
    (k : KcpStream) : poll (io_error_kind + Z) * KcpStream :=
  if k_closed k then (Ready (inl BrokenPipe), k)
  else
    let poll_pending (data : bytes) (k : KcpStream) :=
      match fut with
      | Ready (inr _) =>
          (Ready (inr (len data)), k <| k_pending_write := None |> <| k_sent ::= λ l, l ++ [data] |>)
      | Ready (inl e) => (Ready (inl e), k <| k_pending_write := None |>)
      | Pending => (Pending, k)
      end in
    match k_pending_write k with
    | Some data => poll_pending data k
    | None =>
        let n := Z.min (len buf) (k_mss k) in
        let data := take (Z.to_nat n) buf in
        match t with
        | TryOk => (Ready (inr n), k <| k_sent ::= λ l, l ++ [data] |>)
        | TryClosed => (Ready (inl BrokenPipe), k)
        | TryFull => poll_pending data (k <| k_pending_write := Some data |>)
        end
    end.

Definition poll_flush (fut : poll (io_error_kind + ())) (k : KcpStream)
    : poll (io_error_kind + ()) * KcpStream :=
  if k_closed k then (Ready (inr tt), k)
  else
    match fut with
    | Ready result => (Ready result, k <| k_pending_flush := false |>)
    | Pending => (Pending, k <| k_pending_flush := true |>)
    end.

Definition poll_shutdown (fut : poll ()) (k : KcpStream) : poll (io_error_kind + ()) * KcpStream :=
  if k_closed k then (Ready (inr tt), k)
  else
    let k := if k_pending_shutdown k then k
             else k <| k_pending_shutdown := true |> <| k_actor_task := false |> in
    match fut with
    | Ready _ => (Ready (inr tt), k <| k_pending_shutdown := false |> <| k_closed := true |>)
    | Pending => (Pending, k)
    end.
End Stream.

(** * The stream keeps the engine's promises *)

Section SetupFacts.
Context {prof : Profile} {clk : Clock} {api : BytesApi} {spec : BytesApiSpec api}.
Context {f32 : Type} (loses : f32 → nat → bool).
Implicit Types config : KcpConfig (f32 := f32).

(** The configuration of an engine made from [config]. *)
Lemma validated_windows config :
  core_config_ok (KcpCoreConfig_from config) → validate config = inr () →
  windows_ok (KcpCoreConfig_from config) ∧ 64 ≤ mtu config.
Proof.
  intros Hc Hv. apply (validate_ok config Hc) in Hv as [H1 H2 H3 _ _]. cbn in *.
  split; [|lia]. constructor; cbn; [done|lia..].
Qed.

Lemma stream_mss_of config : 64 ≤ mtu config → stream_mss config = mss_of (KcpCoreConfig_from config).
Proof. intros H. unfold stream_mss, mss_of, saturating_sub, IKCP_OVERHEAD. cbn. lia. Qed.

(** What [KcpStream::send] lets through, the engine takes. *)
Lemma send_within_limit config data s :
  core_config_ok (KcpCoreConfig_from config) → validate config = inr () →
  Inv (inner s) → e_config (inner s) = KcpCoreConfig_from config →
  len data ≤ stream_max_msg config →
  wp checked_overflow (send data) (λ _ s', Inv (inner s')) (λ _ _, False) s.
Proof.
  intros Hc Hv HI He Hl. destruct (validated_windows config Hc Hv) as [_ Hm].
  apply send_fits; [done|]. unfold max_frags. rewrite He, <- stream_mss_of by done. exact Hl.
Qed.

(** ** Setting up *)

Lemma wp_on_engine {A} K e (m : T A) Q R (s : timed ()) :
  wp K m (λ _ e', Q (inner e') (Timed tt (ticks e'))) (λ x e', R (KcpError_from x) (Timed tt (ticks e')))
    (Timed e (ticks s)) →
  wp K (on_engine e m) Q R s.
Proof. unfold wp, on_engine. by destruct (m (Timed e (ticks s))) as [[] ?]. Qed.

Lemma check_config_run config (s : timed ()) Q R K :
  (validate config = inr () → Q tt s) → (∀ e, validate config = inl e → R e s) →
  wp K (check_config config) Q R s.
Proof. intros HQ HR. unfold check_config. destruct (validate config) as [e|[]]; [by apply HR|by apply HQ]. Qed.

Definition made_for config (conv : Z) (e : KcpEngine) : Prop :=
  good e ∧ e_config e = KcpCoreConfig_from config ∧ e_conv e = conv.

Lemma new_made_for config conv (Q : KcpEngine → timed () → Prop) (R : KcpError → timed () → Prop) s :
  core_config_ok (KcpCoreConfig_from config) → validate config = inr () → in_u 32 conv →
  (∀ e s', made_for config conv e → Q e s') →
  wp no_panic (new conv (KcpCoreConfig_from config)) Q R s.
Proof.
  intros Hc Hv Hconv HQ. destruct (validated_windows config Hc Hv) as [Hw Hm].
  assert (Hmax : Z.max (mtu config) (IKCP_OVERHEAD + 1) = mtu config) by (unfold IKCP_OVERHEAD; lia).
  pose proof (new_inv (S := ()) (E := KcpError) conv (KcpCoreConfig_from config)
    (λ e _, Inv e ∧ una_tight e) (λ _ _, False) s Hconv Hc (proj2 (wo_mtu _ Hw)) (wo_snd _ Hw) (wo_rcv _ Hw)
    (λ e _ HI Ht, conj HI Ht)) as Hn.
  unfold new, wp in *. cbn in *. apply HQ. split; [done|]. split; [|done].
  unfold set_field. cbn. rewrite Hmax. by destruct config.
Qed.

(** An operation of a connection being set up. *)
Lemma wp_made {A} config conv e (m : T A) Q R (s : timed ()) :
  safe_call m → keeps e_conv m → made_for config conv e →
  (∀ e' s', made_for config conv e' → Q e' s') →
  (∀ x e', m (Timed e (ticks s)) = (Err x, e') → R (KcpError_from x) (Timed tt (ticks e'))) →
  wp checked_overflow (on_engine e m) Q R s.
Proof.
  intros Hm Hk (Hg & Hc & Hv) HQ HR. apply wp_on_engine. specialize (Hm (Timed e (ticks s)) Hg).
  specialize (Hk (Timed e (ticks s))). unfold wp in *.
  destruct (m (Timed e (ticks s))) as [[x|x|p] e'] eqn:Hr; cbn in *.
  - apply HQ. destruct Hm as [Hg' Hc']. split_and!; [done|congruence|congruence].
  - by apply HR.
  - exact Hm.
Qed.

Lemma safe_start : safe_call start.
Proof. by intros s Hg. Qed.
Lemma safe_set_conv c : in_u 32 c → safe_call (set_conv c).
Proof.
  intros Hc s [HI Ht]. unfold set_conv. estep. split; [|done]. split; [|exact Ht]. cbn [inner]. by inv_fields.
Qed.

(** What an engine has received: nothing but [input] and [recv] changes it. *)
Definition received (e : KcpEngine) : list KcpSegment * gmap Z KcpSegment * Z :=
  (e_rcv_queue e, e_rcv_buf e, e_rcv_nxt e).
(** The acknowledgement of the entry [a] of [ack_list]. *)
Definition acknowledges (a : Z * Z) (seg : KcpSegment) : Prop :=
  h_cmd (s_header seg) = IKCP_CMD_ACK ∧ sn seg = a.1 ∧ h_ts (s_header seg) = a.2.

(** An engine that has nothing to send and speaks as [conv] only; the
    acknowledgements [A] are out or will be. *)
Record answering (conv : Z) (A : list (Z * Z)) (e : KcpEngine) : Prop := {
  an_inv : Inv e;
  an_queue : e_snd_queue e = [] ∧ e_snd_buf e = [];
  an_conv : e_conv e = conv;
  an_said : ∃ segs, pending_bytes e = segments_bytes segs ∧
    Forall (λ seg, h_conv (s_header seg) = conv) segs ∧
    ∀ a, a ∈ A → a ∈ e_ack_list e ∨ ∃ seg, seg ∈ segs ∧ acknowledges a seg;
}.

Lemma flush_answers conv A s :
  answering conv A (inner s) →
  wp checked_overflow flush
    (λ _ s', answering conv A (inner s') ∧ e_ack_list (inner s') = [] ∧ e_out_buf (inner s') = [] ∧
       received (inner s') = received (inner s)) (λ _ _, True) s.
Proof.
  intros [HI [Hq Hb] Hc (segs & Hp & Hcv & Ha)]. eapply wp_mono; [by apply flush_spec| |done].
  intros _ s' (HI' & _ & F). destruct (fl_receiver _ _ _ F) as (R1 & R2 & R3).
  pose proof (fl_out_buf _ _ _ F) as Ho. destruct (fl_output _ _ _ F) as (t & t' & _ & _ & Hout).
  destruct (nothing_to_send (now_of s) _ Hq Hb) as (Hmove & Hsent & Hbuf).
  rewrite Hsent, app_nil_r in Hout. split_and!; [|apply (fl_acks _ _ _ F)|done|unfold received; congruence]. split.
  - done.
  - by rewrite (fl_queue _ _ _ F), Hmove, (fl_buf _ _ _ F), Hbuf.
  - by rewrite (proj1 (proj2 (fl_config _ _ _ F))).
  - exists (segs ++ acks_of (inner s) ++ probes_of (probed (now_of s) (inner s)) t t').
    unfold pending_bytes. rewrite Ho, app_nil_r, Hout, Hp, (segments_bytes_app segs). split_and!; [done| |].
    + apply Forall_app. split; [done|]. apply Forall_app. split.
      * apply Forall_forall. intros seg (a & -> & _)%list_elem_of_fmap. exact Hc.
      * unfold probes_of, probe_if. apply Forall_app. split; case_match; by repeat constructor.
    + intros a Hin. right. destruct (Ha a Hin) as [Hl|(seg & Hseg & Hack)].
      * exists (ack_of (inner s) a). split; [|done]. apply elem_of_app. right. apply elem_of_app. left.
        by apply (list_elem_of_fmap_2 (ack_of (inner s))).
      * exists seg. split; [|done]. apply elem_of_app. by left.
Qed.

Lemma update_answers conv A s :
  answering conv A (inner s) →
  wp checked_overflow update
    (λ _ s', answering conv A (inner s') ∧ received (inner s') = received (inner s)) (λ _ _, True) s.
Proof.
  intros Han. pose proof (an_inv _ _ _ Han) as HI. unfold update. do 6 estep. cbn [inner ticks].
  set (last := if now <? e_last_update (inner s) then now else e_last_update (inner s)).
  assert (Hl : 0 ≤ last ≤ now).
  { destruct (i_update _ HI), H. subst last. destruct (Z.ltb_spec now (e_last_update (inner s))); lia. }
  assert (Hset : ∀ z, in_u 32 z → answering conv A ((inner s) <| e_last_update := z |>)).
  { intros z Hz. destruct Han as [_ Hq Hc Hs]. split; [by inv_fields|done..]. }
  do 3 estep. unfold usub. wp_exact; [unfold in_u in *; lia|].
  apply wp_when; intros _; [|split; [apply (Hset last); unfold in_u in *; lia|done]].
  do 2 estep. eapply wp_mono; [apply (flush_answers conv A)|intros _ s' (H1 & _ & _ & H2); by split|done].
  cbn [inner]. destruct (Hset now H) as [H1 H2 H3 H4]. split; [|done..]. clear - H1. by inv_fields.
Qed.

(** [s1] is a new engine with number [conv] that has read [packet]. *)
Definition hears (config : KcpConfig (f32 := f32)) (conv : Z) (packet : bytes) (s : timed ()) (s1 : St) : Prop :=
  ∃ e0 s0, new (S := ()) (E := KcpError) conv (KcpCoreConfig_from config) s = (Ok e0, s0) ∧
    input packet (Timed e0 (ticks s0)) = (Ok tt, s1).

(** The accepted connection: the first packet is read under the client's
    number, everything after goes out under the server's. *)
Lemma new_server_stream_spec client_conv server_conv config packet s :
  core_config_ok (KcpCoreConfig_from config) → in_u 32 client_conv → in_u 32 server_conv →
  wp checked_overflow (new_server_stream loses client_conv server_conv config packet)
    (λ r _, let '(e, k, ac) := r in
       made_for config server_conv e ∧ k = stream_of config false ∧
       ac = actor_config_of loses config ∧ validate config = inr () ∧ SIZE ≤ len packet)
    (λ err _, validate config = inl err ∨ len packet < SIZE ∧ err = KProtocol "Packet too small" ∨
       err = KConnection Lost) s.
Proof.
  intros Hc Hcc Hsc. unfold new_server_stream. apply wp_bind, check_config_run; [intros Hv|by left].
  apply wp_bind, (wp_weaken_K _ no_panic); [done|]. apply new_made_for; [done..|]. intros e1 s1 H1.
  apply wp_bind, (wp_made config client_conv); [apply safe_start|by intros ?|done| |done]. intros e2 s2 H2.
  apply wp_bind, wp_on_engine. destruct H2 as ([HI2 Ht2] & Hc2 & Hv2).
  eapply wp_mono; [apply (wp_keeps e_conv), (wp_keeps e_config), (input_inv packet); [apply keeps_input, _..|done]|..].
  2:{ intros err s3 [[(-> & Hl & _) _] _]. right. left. by split. }
  intros _ s3 [[(HI3 & Ht3 & Hl) Hc3] Hv3]. cbn in *.
  assert (H3 : made_for config client_conv (inner s3)) by (split_and!; [by split|congruence..]).
  apply wp_bind. eapply (wp_post _ _ (λ e _, made_for config server_conv e)).
  { destruct (Z.eqb_spec client_conv server_conv) as [->|Hne]; cbn [negb]; [by apply wp_ret|].
    apply wp_on_engine. cbn. destruct H3 as ([HI Ht] & Hcf & _).
    split_and!; [|done|done]. split; [by inv_fields|exact Ht]. }
  intros e4 s4 H4. cbv beta. apply wp_bind, (wp_made config server_conv); [apply safe_update|apply keeps_update_timer, _|done| |].
  - intros e5 s5 H5. apply wp_bind, (wp_made config server_conv); [apply safe_flush|apply keeps_flush, _|done| |].
    + intros e6 s6 H6. by apply wp_ret.
    + intros x e' He. right. right. destruct H5 as ([HI5 _] & _).
      pose proof (flush_spec _ (HI5 : Inv (inner (Timed e5 (ticks s5))))) as Hf. unfold wp in Hf. rewrite He in Hf.
      by destruct Hf as (-> & _).
  - intros x e' He. right. right. destruct H4 as ([HI4 _] & _).
    pose proof (update_fails (Timed e4 (ticks s4)) HI4) as Hf. unfold wp in Hf. rewrite He in Hf. by rewrite Hf.
Qed.

Lemma hears_answering config client_conv server_conv packet s s1 :
  core_config_ok (KcpCoreConfig_from config) → validate config = inr () → in_u 32 client_conv →
  hears config client_conv packet s s1 →
  let e := if negb (client_conv =? server_conv) then (inner s1) <| e_conv := server_conv |> else inner s1 in
  in_u 32 server_conv → answering server_conv (e_ack_list (inner s1)) e.
Proof.
  intros Hc Hv Hcc (e0 & s0 & Hnew & Hin) e Hsc. subst e.
  pose proof (new_made_for config client_conv (λ e _, made_for config client_conv e) (λ _ _, False) s Hc Hv Hcc ltac:(done)) as H0.
  apply (wp_ok _ _ _ _ _ _ _ H0) in Hnew as Hmade. clear H0. destruct Hmade as ([HI0 _] & _ & Hv0).
  assert (E0 : e_snd_buf e0 = [] ∧ e_snd_queue e0 = [] ∧ e_output_queue e0 = [] ∧ e_out_buf e0 = []).
  { unfold new in Hnew. cbn in Hnew. by injection Hnew as <- _. }
  destruct E0 as (B0 & Q0 & O0 & O0'). set (s2 := Timed e0 (ticks s0)) in *.
  pose proof (buffered_input (λ _, False) ltac:(done) packet s2) as Hb.
  pose proof (keeps_input_output packet s2) as Ho. pose proof (keeps_input e_conv packet s2) as Hk.
  pose proof (wp_ok _ _ _ _ _ _ _ (input_inv packet s2 HI0) Hin) as (HI1 & _).
  rewrite Hin in Hb, Ho, Hk. cbn in Hb, Ho, Hk. injection Ho as E1 E2 E3.
  assert (Hbuf : e_snd_buf (inner s1) = []).
  { destruct (e_snd_buf (inner s1)); [done|]. rewrite B0 in Hb. by specialize (Hb (Forall_nil_2 _)) as [[] _]%Forall_cons. }
  assert (Hp : pending_bytes (inner s1) = []) by (unfold pending_bytes; by rewrite E2, E3, O0, O0').
  assert (Ha : ∀ a, a ∈ e_ack_list (inner s1) → a ∈ e_ack_list (inner s1) ∨ ∃ seg, seg ∈ [] ∧ acknowledges a seg) by auto.
  destruct (Z.eqb_spec client_conv server_conv) as [<-|Hne]; cbn [negb].
  - split; [done|split; congruence|congruence|]. exists []. split_and!; [done|by apply Forall_nil|done].
  - split; [by inv_fields|cbn; split; congruence|done|]. exists []. split_and!; [exact Hp|by apply Forall_nil|done].
Qed.

(** What it heard is what the new connection has received, and its
    acknowledgements are on their way, under the server's number. *)
Lemma new_server_stream_hears client_conv server_conv config packet s :
  core_config_ok (KcpCoreConfig_from config) → in_u 32 client_conv → in_u 32 server_conv →
  wp checked_overflow (new_server_stream loses client_conv server_conv config packet)
    (λ r _, ∃ s1, hears config client_conv packet s s1 ∧ received r.1.1 = received (inner s1) ∧
       answering server_conv (e_ack_list (inner s1)) r.1.1 ∧ e_ack_list r.1.1 = [] ∧ e_out_buf r.1.1 = [])
    (λ _ _, True) s.
Proof.
  intros Hc Hcc Hsc. unfold new_server_stream. apply wp_bind, check_config_run; [intros Hv|done]. apply wp_bind.
  pose proof (new_made_for config client_conv (λ e _, made_for config client_conv e) (λ _ _, False) s Hc Hv Hcc ltac:(done)) as H0.
  unfold wp at 1 in H0. unfold wp at 1. destruct (new _ _ s) as [[e0|x|p] s0] eqn:Hnew in H0 |- *; [|done..].
  apply wp_bind, wp_on_engine. unfold start. apply wp_ret. cbn [inner ticks].
  apply wp_bind, wp_on_engine. cbn [ticks]. pose proof (input_inv packet (Timed e0 (ticks s0)) (proj1 (proj1 H0))) as Hi.
  unfold wp at 1 in Hi. unfold wp at 1. destruct (input packet (Timed e0 (ticks s0))) as [[[]|x|p] s1] eqn:Hin in Hi |- *; [|exact I|exact Hi].
  assert (Hh : hears config client_conv packet s s1) by (by exists e0, s0).
  pose proof (hears_answering _ _ server_conv _ _ _ Hc Hv Hcc Hh Hsc) as Ha. cbv zeta in Ha.
  apply wp_bind. eapply (wp_post _ _ (λ e _, received e = received (inner s1) ∧ answering server_conv (e_ack_list (inner s1)) e)).
  { destruct (negb _); [apply wp_on_engine|by apply wp_ret]. by split. }
  intros e4 s4 [R4 A4]. cbv beta. apply wp_bind, wp_on_engine.
  eapply wp_mono; [by apply (update_answers server_conv (e_ack_list (inner s1)))| |done]. intros _ s5 [A5 R5]. cbn [inner] in R5.
  apply wp_bind, wp_on_engine.
  eapply wp_mono; [by apply (flush_answers server_conv (e_ack_list (inner s1)))| |done]. intros _ s6 (A6 & L6 & O6 & R6).
  apply wp_ret. exists s1. cbn in *. split_and!; [done|congruence|done..].
Qed.
End SetupFacts.

Section StreamFacts.
(** ** Reading *)

(** Any number of polls: what they put out, and what they took off the channel. *)
Fixpoint poll_reads (polls : list (Z * poll (option bytes))) (k : KcpStream)
    : bytes * bytes * KcpStream :=
  match polls with
  | [] => ([], [], k)
  | (remaining, chan) :: polls =>
      let took := if is_empty (k_read_buf k) && negb (k_closed k) then
                    match chan with Ready (Some data) => data | _ => [] end else [] in
      let '(r, k) := poll_read remaining chan k in
      let out := match r with Ready out => out | Pending => [] end in
      let '(outs, tooks, k) := poll_reads polls k in
      (out ++ outs, took ++ tooks, k)
  end.

Lemma poll_reads_conserve polls : ∀ k,
  let '(outs, tooks, k') := poll_reads polls k in k_read_buf k ++ tooks = outs ++ k_read_buf k'.
Proof.
  induction polls as [|[remaining chan] polls IH]; intros k; cbn; [by rewrite app_nil_r|].
  unfold poll_read, copy_out. destruct (k_read_buf k) as [|b buf] eqn:Hb; cbn [is_empty negb andb].
  - destruct (k_closed k); cbn [negb]; [|destruct chan as [[data|]|]].
    + specialize (IH k). destruct (poll_reads polls k) as [[outs tooks] k']. rewrite Hb in IH. exact IH.
    + set (k1 := k <| k_read_buf ::= _ |> <| k_read_buf ::= _ |>). specialize (IH k1).
      destruct (poll_reads polls k1) as [[outs tooks] k']. subst k1. cbn in *. rewrite Hb in *. cbn in *.
      rewrite <- (assoc (++)), <- IH, (assoc (++)), take_drop. done.
    + specialize (IH k). destruct (poll_reads polls k) as [[outs tooks] k']. rewrite Hb in IH. exact IH.
    + specialize (IH k). destruct (poll_reads polls k) as [[outs tooks] k']. rewrite Hb in IH. exact IH.
  - set (k1 := k <| k_read_buf ::= _ |>). specialize (IH k1).
    destruct (poll_reads polls k1) as [[outs tooks] k']. subst k1. cbn in *. rewrite Hb in *.
    rewrite <- (assoc (++)), <- IH, (assoc (++)), take_drop. done.
Qed.

(** ** Writing *)

(** A caller that polls one write of [buf] until it is done, as [AsyncWrite]
    asks (the same buffer at each poll), then goes on with the rest. *)
Fixpoint write_polls (answers : list (try_result * poll (io_error_kind + ()))) (buf : bytes)
    (k : KcpStream) : option (bytes * KcpStream) :=
  match answers with
  | [] => Some (buf, k)
  | (t, fut) :: answers =>
      match poll_write buf t fut k with
      | (Ready (inr n), k) => write_polls answers (drop (Z.to_nat n) buf) k
      | (Pending, k) => write_polls answers buf k
      | (Ready (inl _), _) => None
      end
  end.

(** A write in progress holds the chunk that [buf] starts with. *)
Definition writing (buf : bytes) (k : KcpStream) : Prop :=
  match k_pending_write k with
  | None => True
  | Some data => data = take (Z.to_nat (Z.min (len buf) (k_mss k))) buf
  end.

Lemma poll_write_chunk buf t fut k :
  0 < k_mss k → writing buf k →
  let chunk := take (Z.to_nat (Z.min (len buf) (k_mss k))) buf in
  let '(r, k') := poll_write buf t fut k in
  k_mss k' = k_mss k ∧
  match r with
  | Ready (inr n) => n = len chunk ∧ k_sent k' = k_sent k ++ [chunk] ∧ k_pending_write k' = None
  | Ready (inl _) => k_sent k' = k_sent k
  | Pending => k_sent k' = k_sent k ∧ k_pending_write k' = Some chunk
  end.
Proof.
  intros Hm Hw chunk. unfold poll_write, writing in *.
  assert (Hn : Z.min (len buf) (k_mss k) = len chunk).
  { unfold chunk. rewrite len_take. pose proof (len_nonneg buf). lia. }
  destruct (k_closed k); [done|]. destruct (k_pending_write k) as [data|] eqn:Hp.
  - subst data. fold chunk. destruct fut as [[e|[]]|]; cbn; auto.
  - rewrite Hn. destruct t; [by cbn; subst chunk; rewrite <- Hn| by cbn|].
    replace (take (Z.to_nat (len chunk)) buf) with chunk by (unfold chunk at 1; by rewrite Hn).
    destruct fut as [[e|[]]|]; cbn; auto.
Qed.

Lemma write_polls_conserve answers : ∀ buf k,
  0 < k_mss k → writing buf k →
  match write_polls answers buf k with
  | Some (rest, k') => concat (k_sent k') ++ rest = concat (k_sent k) ++ buf ∧
      (∃ l, k_sent k' = k_sent k ++ l ∧ Forall (λ d, len d ≤ k_mss k) l)
  | None => True
  end.
Proof.
  induction answers as [|[t fut] answers IH]; intros buf k Hm Hw; cbn.
  { split; [done|]. exists []. by rewrite app_nil_r. }
  pose proof (poll_write_chunk buf t fut k Hm Hw) as Hc. cbn zeta in Hc.
  destruct (poll_write buf t fut k) as [[[e|n]|] k1]; destruct Hc as [Hm1 Hc]; [done|..].
  - destruct Hc as (-> & Hs & Hp). set (chunk := take _ buf) in *.
    assert (Hlc : len chunk ≤ k_mss k).
    { unfold chunk. rewrite len_take. pose proof (len_nonneg buf). lia. }
    specialize (IH (drop (Z.to_nat (len chunk)) buf) k1 ltac:(lia)).
    destruct (write_polls answers _ k1) as [[rest k']|]; [|done].
    destruct IH as (IH & l & Hl & Hf); [unfold writing; by rewrite Hp|]. split.
    + rewrite IH, Hs, concat_app. cbn. rewrite app_nil_r, <- (assoc (++)). f_equal.
      replace (Z.to_nat (len chunk)) with (Z.to_nat (Z.min (len buf) (k_mss k))).
      2:{ unfold chunk. rewrite len_take. pose proof (len_nonneg buf). lia. }
      apply take_drop.
    + exists (chunk :: l). split; [by rewrite Hl, Hs, <- (assoc (++))|]. constructor; [done|].
      by rewrite Hm1 in Hf.
  - destruct Hc as [Hs Hp]. specialize (IH buf k1 ltac:(lia)).
    destruct (write_polls answers _ k1) as [[rest k']|]; [|done].
    destruct IH as (IH & l & Hl & Hf); [unfold writing; by rewrite Hp, Hm1|]. rewrite Hs in *.
    split; [done|]. exists l. by rewrite Hm1 in Hf.
Qed.
End StreamFacts.

(** * Theorems *)

Section StreamTheorems.
Context {prof : Profile} {clk : Clock} {api : BytesApi} {spec : BytesApiSpec api}.
Context {f32 : Type} (loses : f32 → nat → bool).
Implicit Types config : KcpConfig (f32 := f32).

(** C38: an accepted connection has received what a new engine with the client's
    conversation number reads from the client's first packet, and acknowledges
    it; all it sends, from these acknowledgements on, bears the server's number.
    Setting it up fails only for a configuration [validate] rejects, a first
    packet shorter than a header, or a lost connection. *)
Theorem server_handshake client_conv server_conv config packet s :
  core_config_ok (KcpCoreConfig_from config) → in_u 32 client_conv → in_u 32 server_conv →
  wp checked_overflow (new_server_stream loses client_conv server_conv config packet)
    (λ r _, let '(e, k, ac) := r in
       good e ∧ e_config e = KcpCoreConfig_from config ∧ e_conv e = server_conv ∧
       k = stream_of config false ∧ ac = actor_config_of loses config ∧
       validate config = inr () ∧ SIZE ≤ len packet ∧
       ∃ s1, hears config client_conv packet s s1 ∧ received e = received (inner s1) ∧
         ∃ segs, concat (e_output_queue e) = segments_bytes segs ∧
           Forall (λ seg, h_conv (s_header seg) = server_conv) segs ∧
           Forall (λ a, Exists (acknowledges a) segs) (e_ack_list (inner s1)))
    (λ err _, validate config = inl err ∨ len packet < SIZE ∧ err = KProtocol "Packet too small" ∨
       err = KConnection Lost) s.
Proof.
  intros Hc Hcc Hsc. eapply wp_mono; [apply wp_and; [by apply new_server_stream_spec|by apply new_server_stream_hears]| |by intros ? ? [? _]].
  intros [[e k] ac] s' [((Hg & Hcf & Hcv) & ? & ? & ? & ?) (s1 & Hh & Hr & [_ _ _ (segs & Hp & Hcs & Ha)] & Hl & Ho)]. cbn in *.
  unfold pending_bytes in Hp. rewrite Ho, app_nil_r in Hp. split_and!; [done..|]. exists s1. split_and!; [done..|].
  exists segs. split_and!; [done..|]. apply Forall_forall. intros a Hin. apply Exists_exists.
  destruct (Ha a Hin) as [Hnil|?]; [|done]. rewrite Hl in Hnil. by apply elem_of_nil in Hnil.
Qed.

(** A message the stream's [send] accepts is one the engine takes: it is
    handed over whole, and no state of the engine makes it fail there. *)
Theorem accepted_is_sendable config data accepted k k' s :
  core_config_ok (KcpCoreConfig_from config) → validate config = inr () →
  k_max_msg k = stream_max_msg config →
  Inv (inner s) → e_config (inner s) = KcpCoreConfig_from config →
  stream_send data accepted k = (inr tt, k') →
  k_sent k' = k_sent k ++ [data] ∧
  wp checked_overflow (send data) (λ _ s', Inv (inner s')) (λ _ _, False) s.
Proof.
  intros Hc Hv Hk HI He Hs. unfold stream_send in Hs. destruct (k_closed k); [done|].
  destruct (Z.ltb_spec (k_max_msg k) (len data)); [done|]. destruct accepted; [|done].
  injection Hs as <-. split; [done|]. apply (send_within_limit config); [done..|lia].
Qed.

(** Reading loses, repeats and reorders nothing, whatever the sizes of the
    reader's buffers; and an end of stream (nothing read into a buffer with room)
    means the stream was closed or the channel ended, given that no empty message
    is put in the channel. *)
Theorem read_lossless polls k :
  (let '(outs, tooks, k') := poll_reads polls k in k_read_buf k ++ tooks = outs ++ k_read_buf k') ∧
  (∀ remaining chan k', 0 < remaining → chan ≠ Ready (Some []) →
     poll_read remaining chan k = (Ready [], k') →
     k_read_buf k = [] ∧ (k_closed k = true ∨ chan = Ready None)).
Proof.
  split; [apply poll_reads_conserve|]. intros remaining chan k' Hr Hc. unfold poll_read, copy_out.
  assert (Htake : ∀ b : bytes, take (Z.to_nat (Z.min remaining (len b))) b = [] → b = []).
  { intros [|x b]; [done|]. rewrite len_cons. pose proof (len_nonneg b).
    destruct (Z.to_nat _) eqn:E; [lia|done]. }
  destruct (k_read_buf k) as [|b buf] eqn:Hb; cbn [is_empty negb].
  - destruct (k_closed k); [auto|]. destruct chan as [[data|]|]; [intros [= Ht _]|by auto|done].
    apply Htake in Ht. cbn in Ht. rewrite Hb in Ht. cbn in Ht. congruence.
  - intros [= Ht _]. by apply Htake in Ht.
Qed.

(** A writer that repeats a write until it is taken, as [AsyncWrite] asks,
    and goes on with the rest, has its bytes handed over once, in order and in
    chunks of at most an [mss]. *)
Theorem write_lossless answers buf k :
  0 < k_mss k → k_pending_write k = None →
  match write_polls answers buf k with
  | Some (rest, k') => concat (k_sent k') ++ rest = concat (k_sent k) ++ buf ∧
      ∃ l, k_sent k' = k_sent k ++ l ∧ Forall (λ d, len d ≤ k_mss k) l
  | None => True
  end.
Proof. intros Hm Hp. apply write_polls_conserve; [done|]. unfold writing. by rewrite Hp. Qed.
End StreamTheorems.

Module StreamSample.
Definition config : KcpConfig (f32 := Z) := KcpConfig_default.
Definition loses (_ : Z) (_ : nat) : bool := false.
Definition stream : KcpStream := stream_of config true.
Lemma stream_config_ok : core_config_ok (KcpCoreConfig_from config).
Proof. split; vm_compute; split; congruence. Qed.
End StreamSample.

Lemma server_handshake_witness :
  ∃ r s', new_server_stream (prof := release_build) (clk := Sample.clock) (api := bytes_le) StreamSample.loses
    0 9 StreamSample.config (InputSample.datagram 0) (Timed tt 0) = (Ok r, s') ∧ e_conv r.1.1 = 9.
Proof.
  pose proof (server_handshake (prof := release_build) (clk := Sample.clock) (api := bytes_le) StreamSample.loses
    0 9 StreamSample.config (InputSample.datagram 0) (Timed tt 0) StreamSample.stream_config_ok
    ltac:(split; vm_compute; congruence) ltac:(split; vm_compute; congruence)) as H.
  pose proof (wp_ok _ _ _ _ _ _ _ H ltac:(vm_compute; reflexivity)) as (_ & _ & Hc & _).
  eexists _, _. split; [vm_compute; reflexivity|exact Hc].
Defined.

Lemma accepted_is_sendable_witness :
  (stream_send (replicate 2000 x61) true StreamSample.stream).1 = inr tt ∧
  wp (checked_overflow (H := release_build)) (send (prof := release_build) (clk := Sample.clock) (replicate 2000 x61))
    (λ _ s', Inv (inner s')) (λ _ _, False) Sample.state.
Proof.
  destruct (accepted_is_sendable (prof := release_build) (clk := Sample.clock) StreamSample.config
    (replicate 2000 x61) true StreamSample.stream
    (stream_send (replicate 2000 x61) true StreamSample.stream).2 Sample.state
    StreamSample.stream_config_ok eq_refl eq_refl (proj1 Sample.good) eq_refl ltac:(vm_compute; reflexivity)) as [_ H].
  split; [vm_compute; reflexivity|exact H].
Defined.

Lemma read_lossless_witness :
  poll_read 2 (Ready (Some [x61; x62; x63])) StreamSample.stream =
    (Ready [x61; x62], StreamSample.stream <| k_read_buf := [x63] |>) ∧
  let '(outs, tooks, k') := poll_reads [(2, Ready (Some [x61; x62; x63])); (5, Pending)] StreamSample.stream in
  tooks = outs ++ k_read_buf k'.
Proof.
  split; [reflexivity|].
  exact (proj1 (read_lossless [(2, Ready (Some [x61; x62; x63])); (5, Pending)] StreamSample.stream)).
Defined.

Lemma write_lossless_witness :
  ∃ k', write_polls [(TryFull, Pending); (TryOk, Ready (inr tt)); (TryOk, Pending)] (replicate 2000 x61)
    StreamSample.stream = Some ([], k') ∧ concat (k_sent k') = replicate 2000 x61.
Proof.
  pose proof (write_lossless [(TryFull, Pending); (TryOk, Ready (inr tt)); (TryOk, Pending)] (replicate 2000 x61)
    StreamSample.stream ltac:(vm_compute; reflexivity) eq_refl) as H.
  destruct (write_polls _ _ _) as [[rest k']|] eqn:E; [|vm_compute in E; discriminate E].
  destruct H as [H _]. assert (rest = []) as -> by (vm_compute in E; congruence).
  exists k'. split; [done|]. by rewrite app_nil_r in H.
Defined.

(** A write that waits for room in the channel is finished by the next
    [poll_write] whatever buffer that is given: a caller that gave the first
    write up (a dropped [select!] branch, say) is told that more bytes of the new
    buffer were written than it has, and the old ones are sent in their place. *)
Theorem abandoned_write_is_sent :
  let '(r, k) := poll_write [x61; x62; x63] TryFull Pending StreamSample.stream in
  let '(r', k') := poll_write [x78] TryOk (Ready (inr tt)) k in
  r = Pending ∧ r' = Ready (inr 3) ∧ k_sent k' = [[x61; x62; x63]].
Proof. vm_compute. done. Qed.

(** [recv] takes the next message off the channel even while part of the last one
    waits in the read buffer: the bytes after a partial read come out of order. *)
Theorem recv_overtakes_read :
  let '(r, k) := poll_read 2 (Ready (Some [x61; x62; x63])) StreamSample.stream in
  let next := stream_recv (Some [x78]) k in
  let '(r', k') := poll_read 2 Pending k in
  r = Ready [x61; x62] ∧ next = Some [x78] ∧ r' = Ready [x63].
Proof. vm_compute. done. Qed.
