(* ===== verification/Listener.v ===== *)
(** kcp/listener.rs: routing of datagrams, admission of new peers, and the
    bookkeeping shared by the listening task and [accept].

    The two tasks run concurrently and meet in [conn_state] (behind a lock) and
    [active_streams] (a concurrent map), so the model is a step relation whose
    steps are the code's critical sections; the program counters say where
    each task is between two of them.  [active_streams] is any [FinMap];
    the connection channel is a queue, which [try_send] may refuse for its own
    reasons. *)
From S2P Require Import Prelude Monad Protocol Error Config.

Record IncomingConnection {Addr : Type} := {
  in_peer_addr : Addr;
  in_conv : Z;
  in_client_conv : Z;
  in_handshake_data : bytes;
  in_created_at : Z;
}.
Arguments IncomingConnection : clear implicits.

Section Listener.
Context {api : BytesApi}.
Context {Addr : Type} {DashMap : Type → Type} `{FinMap Addr DashMap} `{!Countable Addr}.
(** [handle] identifies a stream's input channel. *)
Context {handle : Type}.
Abbreviation Incoming := (IncomingConnection Addr).

Record ConnectionState := {
  pending : gmap Addr Incoming;
  accepting : gset Addr;
  active : gset Addr;
}.
#[export] Instance ConnectionState_eta : Eta ConnectionState := λ s,
  Build_ConnectionState (pending s) (accepting s) (active s).
Definition ConnectionState_new : ConnectionState := Build_ConnectionState ∅ ∅ ∅.

(** ** [handle_incoming_packet] *)

Definition opens_connection (cmd : Z) : bool :=
  (cmd =? IKCP_CMD_PUSH) || (cmd =? IKCP_CMD_ACK) || (cmd =? IKCP_CMD_WASK) || (cmd =? IKCP_CMD_WINS).

(** Up to [drop(state)], under the read lock: the header of a datagram that
    may open a connection. *)
Definition admit_peer (data : bytes) (peer_addr : Addr) (state : ConnectionState) (max_pending : Z)
    : option KcpHeader :=
  if len data <? SIZE then None
  else
    '(header, _) ← KcpHeader_decode data;
    if negb (opens_connection (h_cmd header)) then None
    else if decide (peer_addr ∈ active state) then None
    else if decide (peer_addr ∈ accepting state) then None
    else if decide (is_Some (pending state !! peer_addr)) then None
    else if max_pending <=? Z.of_nat (size (pending state)) then None
    else Some header.

(** The connection it asks for; [random] is what [random_conv_id] returns,
    and [now] the time. *)
Definition incoming_of (data : bytes) (peer_addr : Addr) (header : KcpHeader) (random now : Z) : Incoming :=
  let client_conv := h_conv header in
  Build_IncomingConnection _ peer_addr (if client_conv =? 0 then random else client_conv)
    client_conv data now.

Definition insert_pending (i : Incoming) (s : ConnectionState) : ConnectionState :=
  s <| pending ::= <[in_peer_addr i := i]> |>.
Definition remove_pending (a : Addr) (s : ConnectionState) : ConnectionState :=
  s <| pending ::= delete a |>.

(** ** [accept] and [create_stream_for_connection] *)

(** [None]: the peer is active, go on with the next connection. *)
Definition mark_accepting (i : Incoming) (s : ConnectionState) : option ConnectionState :=
  if decide (in_peer_addr i ∈ active s) then None
  else Some (s <| accepting ::= λ a, a ∪ {[in_peer_addr i]} |>).
Definition mark_active (a : Addr) (s : ConnectionState) : ConnectionState :=
  s <| pending ::= delete a |> <| active ::= λ x, x ∪ {[a]} |>.
Definition unmark_accepting (a : Addr) (s : ConnectionState) : ConnectionState :=
  s <| accepting ::= λ x, x ∖ {[a]} |>.
Definition remove_active_connection (a : Addr) (s : ConnectionState) : ConnectionState :=
  s <| active ::= λ x, x ∖ {[a]} |>.

(** ** The cleanup of the listening task *)

(** The addresses whose input channel is closed. *)
Definition dead_addrs (closed : handle → bool) (streams : DashMap handle) : list Addr :=
  map fst (filter (λ p, closed p.2 = true) (map_to_list streams)).
Definition remove_streams (dead : list Addr) (streams : DashMap handle) : DashMap handle :=
  foldr delete streams dead.
Definition remove_actives (dead : list Addr) (s : ConnectionState) : ConnectionState :=
  s <| active ::= λ x, x ∖ list_to_set dead |>.
Definition cleanup_pending (now timeout : Z) (s : ConnectionState) : ConnectionState :=
  s <| pending ::= filter (λ p, now - in_created_at p.2 < timeout) |>.

(** ** The two tasks *)

Inductive listen_pc :=
  | LIdle
  | LRegister (i : Incoming)       (** admitted; before [pending.insert] *)
  | LEnqueue (i : Incoming)        (** pending; before [try_send] *)
  | LUndo (a : Addr)               (** [try_send] failed; before [pending.remove] *)
  | LDead (dead : list Addr)       (** [dead_addrs] collected; before they are removed *)
  | LExpire                        (** before [cleanup_pending_connections] *)
  | LStopped.                      (** ended, panicked or aborted *)

(** An abort takes effect where the task awaits; [try_send] does not. *)
Definition awaits (p : listen_pc) : bool :=
  match p with LEnqueue _ | LStopped => false | _ => true end.

Inductive accept_pc :=
  | AIdle                                  (** not called, or waiting for the queue *)
  | AReceived (i : Incoming)
  | ACreating (i : Incoming)               (** marked; before [new_server_stream] *)
  | ACreated (i : Incoming) (h : handle)   (** its actor runs; before [active.insert] *)
  | ARoute (i : Incoming) (h : handle)     (** active; before [active_streams.insert] *)
  | AUnmark (a : Addr) (r : option handle). (** the result of creating the stream *)

(** Dropping the future of [accept] takes effect where it awaits, which is for
    the lock: [new_server_stream] follows [mark_accepting], and
    [active_streams.insert] follows [mark_active], without waiting. *)
Definition accept_awaits (p : accept_pc) : bool :=
  match p with AIdle | ACreating _ | ARoute _ _ => false | _ => true end.

Record World := {
  w_state : ConnectionState;
  w_streams : DashMap handle;
  w_queue : list Incoming;
  w_task : bool;          (** [listen_task] is [Some] *)
  w_listen : listen_pc;
  w_accept : accept_pc;
}.
#[export] Instance World_eta : Eta World := λ w,
  Build_World (w_state w) (w_streams w) (w_queue w) (w_task w) (w_listen w) (w_accept w).

(** [start_listening]: the task that is spawned, whose [interval] panics on a
    period of 0. *)
Definition start_listening (cleanup_dur : Z) : listen_pc :=
  if cleanup_dur =? 0 then LStopped else LIdle.
Definition World_new (cleanup_dur : Z) : World :=
  Build_World ConnectionState_new ∅ [] true (start_listening cleanup_dur) AIdle.

(** [close], and [drop]: the task is taken and aborted. *)
Definition listener_close (w : World) : World := w <| w_task := false |>.
Definition listener_drop (w : World) : World := listener_close w.

(** The senders of the connection queue: the task's, and [connection_sender],
    which the listener keeps. *)
Definition senders (w : World) : Z :=
  1 + match w_listen w with LStopped => 0 | _ => 1 end.

Inductive label :=
  | Routed (a : Addr) (h : handle) (data : bytes)
  | Dropped (a : Addr) (data : bytes)
  | AdmitPeer (i : Incoming)
  | Created (i : Incoming) (h : handle)
  | Accepted (a : Addr) (h : handle)    (** routed from now on *)
  | Returned (a : Addr) (h : handle)    (** [accept] returns the stream *)
  | AcceptClosed                        (** [accept] returns [ConnectionError::Closed] *)
  | Cancelled                           (** the application drops the future of [accept] *)
  | RemoveActive (a : Addr)
  | Close                               (** [close], or the listener is dropped *)
  | Internal.

Context {f32 : Type} (config : KcpConfig (f32 := f32)).

Inductive lstep : World → label → World → Prop :=
  (* a datagram arrives *)
  | step_route w a h data :
      w_listen w = LIdle → w_streams w !! a = Some h → lstep w (Routed a h data) w
  | step_drop w a data :
      w_listen w = LIdle → w_streams w !! a = None →
      admit_peer data a (w_state w) (max_pending_connections config) = None → lstep w (Dropped a data) w
  | step_admit w a data header random now :
      w_listen w = LIdle → w_streams w !! a = None →
      admit_peer data a (w_state w) (max_pending_connections config) = Some header → in_u 32 random → random ≠ 0 →
      let i := incoming_of data a header random now in
      lstep w (AdmitPeer i) (w <| w_listen := LRegister i |>)
  | step_register w i :
      w_listen w = LRegister i →
      lstep w Internal (w <| w_state ::= insert_pending i |> <| w_listen := LEnqueue i |>)
  | step_enqueue w i :
      w_listen w = LEnqueue i →
      lstep w Internal (w <| w_queue ::= λ l, l ++ [i] |> <| w_listen := LIdle |>)
  | step_enqueue_fails w i :
      w_listen w = LEnqueue i → lstep w Internal (w <| w_listen := LUndo (in_peer_addr i) |>)
  | step_undo w a :
      w_listen w = LUndo a →
      lstep w Internal (w <| w_state ::= remove_pending a |> <| w_listen := LIdle |>)
  (* receiving fails *)
  | step_receive_error w :
      w_listen w = LIdle → lstep w Internal (w <| w_listen := LStopped |>)
  (* the cleanup interval ticks *)
  | step_tick w closed :
      w_listen w = LIdle → lstep w Internal (w <| w_listen := LDead (dead_addrs closed (w_streams w)) |>)
  | step_remove_dead w dead :
      w_listen w = LDead dead →
      lstep w Internal (w <| w_streams ::= remove_streams dead |> <| w_state ::= remove_actives dead |>
                          <| w_listen := LExpire |>)
  | step_expire w now :
      w_listen w = LExpire →
      lstep w Internal (w <| w_state ::= cleanup_pending now (connect_timeout config) |> <| w_listen := LIdle |>)
  (* accept *)
  | step_receive w i rest :
      w_accept w = AIdle → w_queue w = i :: rest →
      lstep w Internal (w <| w_queue := rest |> <| w_accept := AReceived i |>)
  | step_receive_none w :
      w_accept w = AIdle → w_queue w = [] → senders w = 0 → lstep w AcceptClosed w
  | step_mark w i s :
      w_accept w = AReceived i → mark_accepting i (w_state w) = Some s →
      lstep w Internal (w <| w_state := s |> <| w_accept := ACreating i |>)
  | step_ignore w i :
      w_accept w = AReceived i → mark_accepting i (w_state w) = None →
      lstep w Internal (w <| w_accept := AIdle |>)
  | step_created w i h :
      w_accept w = ACreating i →
      lstep w (Created i h) (w <| w_accept := ACreated i h |>)
  | step_create_fails w i :
      w_accept w = ACreating i → lstep w Internal (w <| w_accept := AUnmark (in_peer_addr i) None |>)
  | step_active w i h :
      w_accept w = ACreated i h →
      lstep w Internal (w <| w_state ::= mark_active (in_peer_addr i) |> <| w_accept := ARoute i h |>)
  | step_insert w i h :
      w_accept w = ARoute i h →
      lstep w (Accepted (in_peer_addr i) h)
        (w <| w_streams ::= <[in_peer_addr i := h]> |> <| w_accept := AUnmark (in_peer_addr i) (Some h) |>)
  | step_unmark w a r :
      w_accept w = AUnmark a r →
      lstep w (match r with Some h => Returned a h | None => Internal end)
        (w <| w_state ::= unmark_accepting a |> <| w_accept := AIdle |>)
  | step_cancel w :
      accept_awaits (w_accept w) = true → lstep w Cancelled (w <| w_accept := AIdle |>)
  (* [accept] borrows the listener exclusively, so these cannot run during it *)
  | step_remove_active w a :
      w_accept w = AIdle →
      lstep w (RemoveActive a) (w <| w_state ::= remove_active_connection a |>)
  | step_close w : w_accept w = AIdle → lstep w Close (listener_close w)
  | step_drop_listener w : w_accept w = AIdle → lstep w Close (listener_drop w)
  | step_aborted w :
      w_task w = false → awaits (w_listen w) = true → lstep w Internal (w <| w_listen := LStopped |>).

(** Reachable by steps whose labels are [allowed]: what the application does not
    do is left out of them. *)
Inductive lreachable (allowed : label → Prop) : World → Prop :=
  | lreach_new : lreachable allowed (World_new (cleanup_interval config))
  | lreach_step w l w' : lreachable allowed w → lstep w l w' → allowed l → lreachable allowed w'.

(** ** Making a listener *)

Record KcpListener := { l_local_addr : Addr; l_world : World }.

(** [local_addr] is the transport's answer; [mpsc::channel] panics on a
    capacity of 0. *)
Definition with_transport (local_addr : io_error_kind + Addr) : outcome KcpError KcpListener :=
  match validate config, local_addr with
  | inl e, _ => Err e
  | inr _, inl kind => Err (KIo kind)
  | inr _, inr a =>
      if max_pending_connections config =? 0 then Panicked AssertPanic
      else Ok (Build_KcpListener a (World_new (cleanup_interval config)))
  end.

(** [transport] is the answer of [UdpTransport::bind]: an error, or a socket
    with its local address. *)
Definition bind (transport : io_error_kind + (io_error_kind + Addr)) : outcome KcpError KcpListener :=
  match transport with
  | inl kind => Err (KIo kind)
  | inr local_addr => with_transport local_addr
  end.

(** [KcpConfig::listen]. *)
Definition config_listen (transport : io_error_kind + (io_error_kind + Addr)) : outcome KcpError KcpListener :=
  match validate config with inl e => Err e | inr _ => bind transport end.

Definition pending_count (w : World) : Z := Z.of_nat (size (pending (w_state w))).
End Listener.

(** * Invariants *)

Section ListenerFacts.
Context {api : BytesApi} {spec : BytesApiSpec api}.
Context {Addr : Type} {DashMap : Type → Type} `{FinMap Addr DashMap} `{!Countable Addr}.
Context {handle f32 : Type} (config : KcpConfig (f32 := f32)).
Abbreviation Incoming := (IncomingConnection Addr).
Abbreviation World := (World (Addr := Addr) (DashMap := DashMap) (handle := handle)).
Abbreviation label := (label (Addr := Addr) (handle := handle)).
Implicit Types (w : World) (i : Incoming) (allowed : label → Prop).
Abbreviation lstep := (lstep (DashMap := DashMap) (handle := handle) config).
Abbreviation lreachable := (lreachable (DashMap := DashMap) (handle := handle) config).
Abbreviation max_pending := (max_pending_connections config).

(** A connection the listener may offer: its first packet is a KCP segment
    and the server's number is not 0. *)
Record incoming_ok (i : Incoming) : Prop := {
  io_conv : in_u 32 (in_conv i) ∧ in_conv i ≠ 0;
  io_packet : ∃ header rest, KcpHeader_decode (in_handshake_data i) = Some (header, rest) ∧
    opens_connection (h_cmd header) = true ∧ in_client_conv i = h_conv header;
  io_echo : in_client_conv i ≠ 0 → in_conv i = in_client_conv i;
}.

Definition listen_incoming (p : listen_pc (Addr := Addr)) : list Incoming :=
  match p with LRegister i | LEnqueue i => [i] | _ => [] end.
Definition accept_incoming (p : accept_pc (Addr := Addr) (handle := handle)) : list Incoming :=
  match p with AReceived i | ACreating i | ACreated i _ | ARoute i _ => [i] | _ => [] end.

(** The stream [accept] has made and not yet routed to. *)
Definition created (p : accept_pc (Addr := Addr) (handle := handle)) : option (Incoming * handle) :=
  match p with ACreated i h | ARoute i h => Some (i, h) | _ => None end.

(** Everything the listener knows a connection from is as [P] says. *)
Record known (P : Incoming → Prop) w : Prop := {
  kn_pending : map_Forall (λ a i, in_peer_addr i = a ∧ P i) (pending (w_state w));
  kn_queue : Forall P (w_queue w);
  kn_listen : Forall P (listen_incoming (w_listen w));
  kn_accept : Forall P (accept_incoming (w_accept w));
}.

Definition pending_bound w : Prop :=
  Z.of_nat (size (pending (w_state w))) ≤ max_pending ∧
  match w_listen w with
  | LRegister _ => Z.of_nat (size (pending (w_state w))) < max_pending
  | _ => True
  end.

(** [accepting] holds the one address [accept] is at work on. *)
Definition accepting_of (p : accept_pc (Addr := Addr) (handle := handle)) : gset Addr :=
  match p with
  | ACreating i | ACreated i _ | ARoute i _ => {[in_peer_addr i]}
  | AUnmark a _ => {[a]}
  | AIdle | AReceived _ => ∅
  end.

Lemma admit_peer_ok data (a : Addr) s header :
  admit_peer data a s max_pending = Some header →
  (∃ rest, KcpHeader_decode data = Some (header, rest)) ∧ opens_connection (h_cmd header) = true ∧
  (a ∉ active s) ∧ (a ∉ accepting s) ∧ (pending s !! a = None) ∧ Z.of_nat (size (pending s)) < max_pending.
Proof.
  unfold admit_peer. destruct (_ <? SIZE); [done|].
  destruct (KcpHeader_decode data) as [[h rest]|] eqn:Hd; [|done]. cbn.
  destruct (opens_connection (h_cmd h)) eqn:Ho; [|done]. cbn.
  repeat case_decide; try done. destruct (Z.leb_spec max_pending (Z.of_nat (size (pending s)))); [done|].
  intros [= <-]. split_and!; try done; [by eexists|]. by apply eq_None_not_Some.
Qed.

Lemma incoming_of_ok data (a : Addr) header random now s :
  admit_peer data a s max_pending = Some header → in_u 32 random → random ≠ 0 →
  incoming_ok (incoming_of data a header random now).
Proof.
  intros ((rest & Hd) & Ho & _)%admit_peer_ok Hr Hne.
  assert (Hconv : in_u 32 (h_conv header)) by (by apply KcpHeader_decode_Some in Hd as [[] _]).
  constructor; cbn; [destruct (Z.eqb_spec (h_conv header) 0); done|by eexists _, rest|].
  by destruct (Z.eqb_spec (h_conv header) 0).
Qed.

Lemma size_insert_le (m : gmap Addr Incoming) a i : (size (<[a:=i]> m) ≤ S (size m))%nat.
Proof.
  destruct (m !! a) eqn:Hm; [rewrite map_size_insert_Some; [lia|by eexists]|].
  rewrite map_size_insert_None by done. lia.
Qed.

(** The step that was taken, its program counter substituted. *)
Local Ltac lcases w Hstep :=
  destruct w as [st strs sent tk lp ap]; inversion Hstep; clear Hstep; subst; cbn in *; subst; cbn in *;
  try done.

Lemma size_delete_le (m : gmap Addr Incoming) a : (size (delete a m) ≤ size m)%nat.
Proof. apply map_subseteq_size, delete_subseteq. Qed.

Lemma pending_bound_step w l w' : pending_bound w → lstep w l w' → pending_bound w'.
Proof.
  unfold pending_bound. intros [Hb Hl] Hstep. lcases w Hstep.
  - split; [done|]. by lazymatch goal with E : admit_peer _ _ _ _ = _ |- _ => apply admit_peer_ok in E as (_ & _ & _ & _ & _ & ?) end.
  - split; [|done]. pose proof (size_insert_le (pending st) (in_peer_addr i) i). lia.
  - split; [|done]. pose proof (size_delete_le (pending st) a). lia.
  - split; [|done]. unfold cleanup_pending. cbn.
    pose proof (map_subseteq_size _ _ (map_filter_subseteq (λ p, now - in_created_at p.2 < connect_timeout config) (pending st))). lia.
  - unfold mark_accepting in *. case_decide; [done|]. by simplify_eq.
  - pose proof (size_delete_le (pending st) (in_peer_addr i)).
    split; [lia|]. destruct lp; try done. lia.
Qed.

Lemma accepting_step w l w' :
  accepting_of (w_accept w) ⊆ accepting (w_state w) → lstep w l w' →
  accepting_of (w_accept w') ⊆ accepting (w_state w') ∧
  (accepting (w_state w) = accepting_of (w_accept w) → l ≠ Cancelled →
   accepting (w_state w') = accepting_of (w_accept w')).
Proof.
  intros Ha Hstep. lcases w Hstep; try (split; [|intros ? ?]; set_solver).
  unfold mark_accepting in *. case_decide; [done|]. simplify_eq. cbn. split; set_solver.
Qed.

Lemma known_step (P : Incoming → Prop) w l w' :
  known P w → lstep w l w' → (∀ i, l = AdmitPeer i → P i) → known P w'.
Proof.
  intros [Hp Hs Hl Ha] Hstep Hadmit. lcases w Hstep; try (by constructor).
  - constructor; cbn; try done. apply Forall_singleton. by apply Hadmit.
  - constructor; cbn; try done. apply map_Forall_insert_2; [|done]. split; [done|]. exact (proj1 (Forall_singleton _ _) Hl).
  - constructor; cbn; try done. apply Forall_app. split; [done|]. exact Hl.
  - constructor; cbn; try done. by apply map_Forall_delete.
  - constructor; cbn; try done. intros k x Hx%map_lookup_filter_Some. by apply Hp, Hx.
  - apply Forall_cons in Hs as [Hi Hs]. constructor; cbn; try done. by apply Forall_singleton.
  - unfold mark_accepting in *. case_decide; [done|]. simplify_eq. by constructor.
  - constructor; cbn; try done. by apply map_Forall_delete.
Qed.

Lemma admitted_ok w l w' i : lstep w l w' → l = AdmitPeer i → incoming_ok i.
Proof.
  intros Hstep ->. inversion Hstep; subst; [by eapply incoming_of_ok|].
  by lazymatch goal with r : option handle |- _ => destruct r end.
Qed.

(** ** Routing *)

Record routing_ok w : Prop := {
  rk_active a : is_Some (w_streams w !! a) → a ∈ active (w_state w);
  rk_accept : match w_accept w with
    | ACreating i | ACreated i _ => in_peer_addr i ∉ active (w_state w)
    | ARoute i _ => in_peer_addr i ∈ active (w_state w) ∧ w_streams w !! in_peer_addr i = None
    | _ => True
    end;
  rk_dead : match w_listen w with
    | LDead dead => ∀ a, a ∈ dead → is_Some (w_streams w !! a)
    | _ => True
    end;
}.

Lemma dead_addrs_routed closed (m : DashMap handle) a : a ∈ dead_addrs closed m → is_Some (m !! a).
Proof.
  unfold dead_addrs. rewrite list_elem_of_fmap. intros ([k h] & -> & Hin).
  apply list_elem_of_filter in Hin as [_ Hin]. apply elem_of_map_to_list in Hin. by exists h.
Qed.

Lemma remove_streams_lookup dead : ∀ (m : DashMap handle) a,
  remove_streams dead m !! a = if decide (a ∈ dead) then None else m !! a.
Proof.
  unfold remove_streams. induction dead as [|d dead IH]; intros m a; cbn; [done|].
  destruct (decide (a = d)) as [->|Hne].
  - rewrite lookup_delete_eq, decide_True; [done|set_solver].
  - rewrite lookup_delete_ne, IH by done. destruct (decide (a ∈ dead)), (decide (a ∈ d :: dead)); set_solver.
Qed.

Lemma known_weaken (P Q : Incoming → Prop) w : (∀ i, P i → Q i) → known P w → known Q w.
Proof.
  intros HPQ [Hp Hq Hl Ha]. split; [|by eapply Forall_impl..].
  eapply map_Forall_impl; [exact Hp|]. intros a i [? ?]. auto.
Qed.

(** Where the handles come from: the one routed to was accepted, the one
    accepted was created. *)
Lemma handle_step w l w' :
  lstep w l w' →
  (∀ a h, w_streams w' !! a = Some h →
     w_streams w !! a = Some h ∨ ∃ i, created (w_accept w) = Some (i, h) ∧ in_peer_addr i = a) ∧
  (∀ i h, created (w_accept w') = Some (i, h) → created (w_accept w) = Some (i, h) ∨ l = Created i h) ∧
  (∀ a h d, l = Routed a h d → w_streams w !! a = Some h) ∧
  (∀ i h, l = Created i h → w_accept w = ACreating i).
Proof.
  intros Hstep. lcases w Hstep; (split_and!; [intros a1 h1|intros i1 h1|intros a1 h1 d1|intros i1 h1]); intros Heq;
    repeat case_match; simplify_eq; auto.
  - left. rewrite remove_streams_lookup in Heq. by case_decide.
  - destruct (decide (a1 = in_peer_addr i)) as [->|Hne].
    + rewrite lookup_insert_eq in Heq. injection Heq as ->. right. by exists i.
    + rewrite lookup_insert_ne in Heq by done. by left.
Qed.

Lemma routing_ok_step w l w' :
  routing_ok w → lstep w l w' → (∀ a, l ≠ RemoveActive a) → routing_ok w'.
Proof.
  intros [Hact Hacc Hdead] Hstep Hl. lcases w Hstep; try (by constructor).
  - constructor; cbn; try done. by apply dead_addrs_routed.
  - assert (Hrm : ∀ a, a ∈ active st → a ∉ dead → a ∈ active st ∖ list_to_set dead) by set_solver.
    constructor; cbn; try done.
    + intros a. rewrite remove_streams_lookup. case_decide; [by intros []|]. intros Ha. apply Hrm; auto.
    + destruct ap; try done; [set_solver..|]. destruct Hacc as [Ha Hn]. split.
      * apply Hrm; [done|]. intros Hin. apply Hdead in Hin as [h' Hh]. congruence.
      * rewrite remove_streams_lookup. by case_decide.
  - unfold mark_accepting in *. case_decide; [done|]. simplify_eq. by constructor.
  - constructor; cbn; try done.
    + intros a Ha. apply Hact in Ha. set_solver.
    + split; [set_solver|]. apply eq_None_not_Some. intros Ha. by apply Hact in Ha.
  - destruct Hacc as [Ha Hn]. constructor; cbn; try done.
    + intros a. destruct (decide (a = in_peer_addr i)) as [->|Hne]; [done|].
      rewrite lookup_insert_ne by done. apply Hact.
    + destruct lp; try done. intros a Hin. destruct (decide (a = in_peer_addr i)) as [->|Hne].
      * rewrite lookup_insert_eq. by eexists.
      * rewrite lookup_insert_ne by done. auto.
  - by destruct (Hl a).
Qed.

(** ** Every reachable state *)

Lemma start_idle d : listen_incoming (start_listening d) = [] ∧ ∀ (P : listen_pc (Addr := Addr) → Prop),
  P LIdle → P LStopped → P (start_listening d).
Proof. unfold start_listening. by destruct (d =? 0). Qed.

Lemma lreachable_marked allowed w : lreachable allowed w → accepting_of (w_accept w) ⊆ accepting (w_state w).
Proof. induction 1 as [|w l w' _ IH Hstep _]; [done|]. by destruct (accepting_step w l w' IH Hstep). Qed.

Lemma lreachable_ok allowed w :
  0 ≤ max_pending → lreachable allowed w →
  pending_bound w ∧ known incoming_ok w ∧ accepting_of (w_accept w) ⊆ accepting (w_state w) ∧
  ((¬ allowed Cancelled) → accepting (w_state w) = accepting_of (w_accept w)).
Proof.
  intros Hmax. induction 1 as [|w l w' _ (IH1 & IH2 & IH3 & IH4) Hstep Hl].
  - split_and!; [| |done|done].
    + unfold pending_bound. cbn. rewrite map_size_empty. split; [done|].
      apply (proj2 (start_idle _) (λ p, match p with LRegister _ => _ | _ => True end)); done.
    + split; cbn; [apply map_Forall_empty|constructor| |constructor]. rewrite (proj1 (start_idle _)). constructor.
  - destruct (accepting_step w l w' IH3 Hstep) as [Hsub Heq].
    split_and!; [by eapply pending_bound_step|eapply known_step; [done..|]; intros i; by eapply admitted_ok|done|].
    intros Hno. apply Heq; [auto|]. by intros ->.
Qed.

Lemma lreachable_routing allowed w : (∀ a, ¬ allowed (RemoveActive a)) → lreachable allowed w → routing_ok w.
Proof.
  intros Hno. induction 1 as [|w l w' _ IH Hstep Hl]; [|eapply routing_ok_step; [done..|]; intros a ->; by eapply Hno].
  constructor; cbn; try done; [intros a [h Hh]; by rewrite lookup_empty in Hh|].
  by apply (proj2 (start_idle _) (λ p, match p with LDead _ => _ | _ => True end)).
Qed.

(** ** A peer that is shut out *)

(** [a] is marked as being accepted, but nothing known will unmark it. *)
Record barred (a : Addr) w : Prop := {
  bd_marked : a ∈ accepting (w_state w);
  bd_queue : Forall (λ i, in_peer_addr i ≠ a) (w_queue w);
  bd_listen : Forall (λ i, in_peer_addr i ≠ a) (listen_incoming (w_listen w));
  bd_accept : a ∉ accepting_of (w_accept w) ∧ Forall (λ i, in_peer_addr i ≠ a) (accept_incoming (w_accept w));
}.

Lemma barred_step (a : Addr) w l w' :
  barred a w → lstep w l w' → barred a w' ∧ ∀ i, l = AdmitPeer i → in_peer_addr i ≠ a.
Proof.
  intros [Hm Hq Hl [Ha Hi]] Hstep.
  assert (Hadmit : ∀ i, l = AdmitPeer i → in_peer_addr i ≠ a).
  { intros i ->. inversion Hstep; subst; [|by lazymatch goal with r : option handle |- _ => destruct r end].
    cbn. intros ->. lazymatch goal with E : admit_peer _ _ _ _ = _ |- _ => apply admit_peer_ok in E as (_ & _ & _ & ? & _) end. done. }
  split; [|done].
  lcases w Hstep; try (by constructor).
  - constructor; cbn; try done. apply Forall_singleton. by apply (Hadmit _ eq_refl).
  - constructor; cbn; try done. by apply Forall_app.
  - apply Forall_cons in Hq as [Hi1 Hq]. constructor; cbn; try done. split; [done|]. by apply Forall_singleton.
  - unfold mark_accepting in *. case_decide; [done|]. simplify_eq. constructor; cbn; try done; [set_solver|].
    split; [|done]. apply not_elem_of_singleton. intros Heq. by apply (proj1 (Forall_singleton _ _) Hi).
  - constructor; cbn; try done. apply elem_of_difference. by split.
Qed.

(** ** The end of the listening task *)

Lemma stopped_step w l w' :
  w_listen w = LStopped → lstep w l w' →
  w_listen w' = LStopped ∧ (∀ a h d i, l ≠ Routed a h d ∧ l ≠ Dropped a d ∧ l ≠ AdmitPeer i).
Proof.
  intros Hl Hstep. lcases w Hstep; split; try done; intros; repeat case_match; done.
Qed.

Lemma never_closed w l w' : lstep w l w' → l ≠ AcceptClosed.
Proof.
  intros Hstep ->. inversion Hstep; subst; [|by lazymatch goal with r : option handle |- _ => destruct r end].
  unfold senders in *. repeat case_match; lia.
Qed.
End ListenerFacts.

(** * Theorems *)

Section ListenerTheorems.
Context {api : BytesApi} {spec : BytesApiSpec api}.
Context {Addr : Type} {DashMap : Type → Type} `{FinMap Addr DashMap} `{!Countable Addr}.
Context {handle f32 : Type} (config : KcpConfig (f32 := f32)).
Abbreviation World := (World (Addr := Addr) (DashMap := DashMap) (handle := handle)).
Abbreviation label := (label (Addr := Addr) (handle := handle)).
Implicit Types (w : World) (allowed : label → Prop).

(** C34: whatever the interleaving of the listening task, [accept], the cleanup and
    closing, there are never more pending connections than the limit, every
    connection known comes from a datagram that begins with a KCP header, has a
    conversation number other than 0 (the client's own unless that is 0), and
    the peer [accept] is at work on is marked in [accepting]; it is the only one
    unless the application drops the future of [accept]. *)
Theorem listener_invariant allowed w :
  0 ≤ max_pending_connections config → lreachable config allowed w →
  pending_count w ≤ max_pending_connections config ∧ known incoming_ok w ∧
  accepting_of (w_accept w) ⊆ accepting (w_state w) ∧
  ((¬ allowed Cancelled) → accepting (w_state w) = accepting_of (w_accept w)).
Proof. intros Hm Hw. destruct (lreachable_ok config allowed w Hm Hw) as ([Hb _] & Hk & Ha & He). done. Qed.

(** C35: every routed peer is active, so it cannot be admitted again, and a
    connection that is accepted never takes the place of a stream that is still
    routed to, as long as the application leaves [remove_active_connection]
    alone. *)
Theorem accept_never_replaces allowed w l w' a h :
  (∀ a, ¬ allowed (RemoveActive a)) → lreachable config allowed w → lstep config w l w' →
  (w_streams w !! a = Some h →
     a ∈ active (w_state w) ∧ (∀ data, admit_peer data a (w_state w) (max_pending_connections config) = None) ∧
     l ≠ Accepted a h ∧
     (w_streams w' !! a = Some h ∨ ∃ dead, w_listen w = LDead dead ∧ a ∈ dead)) ∧
  (l = Accepted a h → w_streams w !! a = None ∧ w_streams w' !! a = Some h ∧ a ∈ active (w_state w')).
Proof.
  intros Hno Hw Hstep. destruct (lreachable_routing _ _ w Hno Hw) as [Hact Hacc _]. split.
  - intros Hh. assert (Ha : a ∈ active (w_state w)) by (apply Hact; by eexists).
    split_and!; [done| | |].
    + intros data. destruct (admit_peer data a (w_state w) _) eqn:E; [|done].
      apply admit_peer_ok in E as (_ & _ & ? & _). done.
    + intros ->. inversion Hstep; subst; [|by lazymatch goal with r : option handle |- _ => destruct r end].
      match goal with E : w_accept _ = _ |- _ => rewrite E in Hacc end. destruct Hacc as [_ Hn]. congruence.
    + inversion Hstep; subst; cbn; auto.
      * rewrite remove_streams_lookup. case_decide; [right; by exists dead|by left].
      * match goal with E : w_accept _ = _ |- _ => rewrite E in Hacc end. destruct Hacc as [_ Hn]. left. rewrite lookup_insert_ne; congruence.
  - intros ->. inversion Hstep; subst; [|by lazymatch goal with r : option handle |- _ => destruct r end].
    match goal with E : w_accept _ = _ |- _ => rewrite E in Hacc end. destruct Hacc as [Hin Hn].
    split_and!; [done| |done]. cbn. by rewrite lookup_insert_eq.
Qed.

(** What [with_transport] makes: on a valid configuration with a limit other
    than 0, a listener whose task runs unless its interval is 0; it panics on a
    limit of 0, and otherwise fails as [validate] or the transport does. *)
Theorem with_transport_spec local_addr (r : outcome KcpError (KcpListener (Addr := Addr) (DashMap := DashMap) (handle := handle))) :
  with_transport config local_addr = r →
  match r with
  | Ok l =>
      validate config = inr () ∧ local_addr = inr (l_local_addr l) ∧ max_pending_connections config ≠ 0 ∧
      lreachable config (λ _, False) (l_world l) ∧ pending_count (l_world l) = 0 ∧
      (w_listen (l_world l) = LStopped ↔ cleanup_interval config = 0)
  | Err e => validate config = inl e ∨ ∃ kind, local_addr = inl kind ∧ e = KIo kind
  | Panicked p => validate config = inr () ∧ max_pending_connections config = 0
  end.
Proof.
  unfold with_transport. intros <-. destruct (validate config) as [e|[]]; [by left|].
  destruct local_addr as [kind|a]; [right; by exists kind|]. destruct (Z.eqb_spec (max_pending_connections config) 0); [done|].
  split_and!; cbn; try done; [constructor|]. unfold start_listening. by destruct (Z.eqb_spec (cleanup_interval config) 0).
Qed.

(** C36: once the task has stopped (aborted by [close], or because receiving failed),
    no datagram is routed or admitted any more, to the accepted streams
    neither; and [accept], when the queue is empty, waits for ever: it does not
    return [ConnectionError::Closed], nor a stream. *)
Theorem accept_after_stop w w' :
  w_listen w = LStopped → rtc (λ w1 w2, ∃ l, lstep config w1 l w2) w w' →
  w_listen w' = LStopped ∧
  (∀ l w2, lstep config w' l w2 →
     l ≠ AcceptClosed ∧ ∀ a h d i, l ≠ Routed a h d ∧ l ≠ Dropped a d ∧ l ≠ AdmitPeer i) ∧
  (w_queue w = [] → w_accept w = AIdle → w_accept w' = AIdle).
Proof.
  intros Hl Hrun. assert (H' : w_listen w' = LStopped ∧ (w_queue w = [] → w_accept w = AIdle → w_queue w' = [] ∧ w_accept w' = AIdle)).
  { induction Hrun as [w|w w1 w2 [l Hs] _ IH]; [done|]. destruct (stopped_step _ _ _ _ Hl Hs) as [Hl1 _].
    destruct (IH Hl1) as [Hl2 Hi]. split; [done|]. intros Hq Ha. apply Hi; inversion Hs; subst; cbn; congruence. }
  destruct H' as [Hl' Hi]. split_and!; [done| |intros; by apply Hi].
  intros l w2 Hs. split; [by eapply never_closed|by eapply stopped_step].
Qed.

(** C37: [accept] is not cancel safe: wherever its future is dropped after it has
    marked a peer (while it waits to register the stream it has made, or to take
    the mark back), the peer stays marked, and when nothing else of it is queued
    it is never admitted again. *)
Theorem cancelled_accept_bars_peer allowed (a : Addr) w w1 w2 :
  lreachable config allowed w → a ∈ accepting_of (w_accept w) →
  Forall (λ i, in_peer_addr i ≠ a) (w_queue w) → Forall (λ i, in_peer_addr i ≠ a) (listen_incoming (w_listen w)) →
  lstep config w Cancelled w1 → rtc (λ w1 w2, ∃ l, lstep config w1 l w2) w1 w2 →
  a ∈ accepting (w_state w2) ∧ ∀ data, admit_peer data a (w_state w2) (max_pending_connections config) = None.
Proof.
  intros Hw Ha Hq Hl Hc Hrun. pose proof (lreachable_marked _ _ _ Hw a Ha) as Hm. assert (Hb : barred a w1).
  { inversion Hc; subst; [by lazymatch goal with r : option handle |- _ => destruct r end|]. by split. }
  assert (Hb2 : barred a w2).
  { clear Hw Ha Hm Hq Hl Hc. induction Hrun as [x|x y z [l Hs] _ IH]; [done|]. apply IH. by destruct (barred_step config a x l y Hb Hs). }
  split; [apply Hb2|]. intros data. destruct (admit_peer data a (w_state w2) _) eqn:E; [|done].
  apply admit_peer_ok in E as (_ & _ & _ & Hn & _). by destruct (Hn (bd_marked _ _ Hb2)).
Qed.
End ListenerTheorems.

Module ListenerSample.
Definition packet : bytes :=
  segment_bytes (Build_KcpSegment (Build_KcpHeader 0 IKCP_CMD_PUSH 0 64 900 0 0 1) [x61] 0 0 0 0).
Definition header : KcpHeader := Build_KcpHeader 0 IKCP_CMD_PUSH 0 64 900 0 0 1.
(** The client leaves the number to the server, which draws 77. *)
Definition incoming : IncomingConnection Z := incoming_of packet 5 header 77 0.
Definition config : KcpConfig (f32 := Z) := KcpConfig_default.
Abbreviation W := (World (Addr := Z) (DashMap := gmap Z) (handle := nat)).
Abbreviation L := (label (Addr := Z) (handle := nat)).
(** The application drops no future of [accept] and keeps the bookkeeping. *)
Definition allowed (l : L) : Prop := l ≠ Cancelled ∧ ∀ a, l ≠ RemoveActive a.
Abbreviation reach := (lreachable (DashMap := gmap Z) config allowed).
Abbreviation step := (lstep (DashMap := gmap Z) (handle := nat) config).

Definition pend : ConnectionState (Addr := Z) := insert_pending incoming ConnectionState_new.
Definition act : ConnectionState (Addr := Z) := Build_ConnectionState (delete 5 (pending pend)) (∅ ∪ {[5]}) (∅ ∪ {[5]}).
Definition marked : ConnectionState (Addr := Z) := Build_ConnectionState (pending pend) (∅ ∪ {[5]}) ∅.
Definition w0 : W := World_new (cleanup_interval config).
Definition w1 : W := Build_World ConnectionState_new ∅ [] true (LRegister incoming) AIdle.
Definition w2 : W := Build_World pend ∅ [] true (LEnqueue incoming) AIdle.
Definition w3 : W := Build_World pend ∅ [incoming] true LIdle AIdle.
Definition w4 : W := Build_World pend ∅ [] true LIdle (AReceived incoming).
Definition w5 : W := Build_World marked ∅ [] true LIdle (ACreating incoming).
Definition made : W := Build_World marked ∅ [] true LIdle (ACreated incoming 1%nat).
(** The future of [accept] is dropped while it waits to register the stream. *)
Definition dropped : W := Build_World marked ∅ [] true LIdle AIdle.
Definition w6 : W := Build_World act ∅ [] true LIdle (ARoute incoming 1%nat).
Definition w7 : W := Build_World act (<[5 := 1%nat]> ∅) [] true LIdle (AUnmark 5 (Some 1%nat)).
(** A listener that has been closed. *)
Definition c1 : W := Build_World ConnectionState_new ∅ [] false LIdle AIdle.
Definition c2 : W := Build_World ConnectionState_new ∅ [] false LStopped AIdle.

Lemma accepted : step w6 (Accepted 5 1%nat) w7.
Proof. exact (step_insert config w6 incoming 1%nat eq_refl). Qed.
Lemma cancelled : step made Cancelled dropped.
Proof. exact (step_cancel config made eq_refl). Qed.
Lemma closed : step w0 Close c1.
Proof. exact (step_close config w0 eq_refl). Qed.
Lemma aborted : step c1 Internal c2.
Proof. exact (step_aborted config c1 eq_refl eq_refl). Qed.

Lemma reachable_made : reach made.
Proof.
  apply (lreach_step _ _ w5 (Created incoming 1%nat)); [|by apply (step_created config w5 incoming 1%nat)|done].
  apply (lreach_step _ _ w4 Internal); [|by apply (step_mark config w4 incoming)|done].
  apply (lreach_step _ _ w3 Internal); [|by apply (step_receive config w3 incoming [])|done].
  apply (lreach_step _ _ w2 Internal); [|by apply (step_enqueue config w2 incoming)|done].
  apply (lreach_step _ _ w1 Internal); [|by apply (step_register config w1 incoming)|done].
  apply (lreach_step _ _ w0 (AdmitPeer incoming)); [apply lreach_new| |done].
  by apply (step_admit config w0 5 packet header 77 0);
    [..|vm_compute; reflexivity|vm_compute; split; congruence|].
Qed.
Lemma reachable_routed : reach w6.
Proof. apply (lreach_step _ _ made Internal); [apply reachable_made|by apply (step_active config made incoming 1%nat)|done]. Qed.
End ListenerSample.

Lemma listener_invariant_witness :
  accepting (w_state ListenerSample.w6) = {[5]} ∧ Forall incoming_ok [ListenerSample.incoming].
Proof.
  destruct (listener_invariant ListenerSample.config ListenerSample.allowed ListenerSample.w6 ltac:(by vm_compute)
    ListenerSample.reachable_routed) as (_ & [_ _ _ Hk] & _ & Ha).
  split; [apply Ha; intros []; congruence|exact Hk].
Defined.

Lemma accept_never_replaces_witness :
  w_streams ListenerSample.w6 !! 5 = None ∧ w_streams ListenerSample.w7 !! 5 = Some 1%nat.
Proof.
  destruct (accept_never_replaces ListenerSample.config ListenerSample.allowed ListenerSample.w6 (Accepted 5 1%nat)
    ListenerSample.w7 5 1%nat ltac:(intros a [_ Ha]; exact (Ha a eq_refl))
    ListenerSample.reachable_routed ListenerSample.accepted) as [_ H].
  destruct (H eq_refl) as (H1 & H2 & _). split; [exact H1|exact H2].
Defined.

Lemma with_transport_spec_witness :
  lreachable (DashMap := gmap Z) (handle := nat) ListenerSample.config (λ _, False) ListenerSample.w0.
Proof.
  destruct (with_transport_spec (DashMap := gmap Z) (handle := nat) ListenerSample.config (inr 5)
    (Ok (Build_KcpListener 5 ListenerSample.w0)) eq_refl) as (_ & _ & _ & H & _). exact H.
Defined.

Lemma accept_after_stop_witness :
  ¬ ∃ w, lstep ListenerSample.config ListenerSample.c2 AcceptClosed w.
Proof.
  intros [w Hw]. destruct (accept_after_stop ListenerSample.config ListenerSample.c2 ListenerSample.c2 eq_refl
    (rtc_refl _ _)) as (_ & H & _). exact (proj1 (H _ _ Hw) eq_refl).
Defined.

Lemma cancelled_accept_bars_peer_witness :
  admit_peer ListenerSample.packet 5 (w_state ListenerSample.dropped) 256 = None.
Proof.
  apply (cancelled_accept_bars_peer ListenerSample.config ListenerSample.allowed 5 ListenerSample.made
    ListenerSample.dropped ListenerSample.dropped); [exact ListenerSample.reachable_made|apply elem_of_singleton_2; reflexivity|
    constructor|constructor|exact ListenerSample.cancelled|apply rtc_refl].
Defined.
