(* ===== verification/History.v ===== *)
(** One endpoint of a connection against the histories of both: what it has
    numbered and sent out, and what the peer has.

    An outgoing segment gets its sequence number once, when it enters the send
    buffer; the list of the segments numbered so far is the endpoint's history,
    and a sequence number is an index into it as long as fewer than 2^31 were
    numbered.  The predicates here say that the send buffer and everything on
    the wire agree with the endpoint's own history, that the receive side
    agrees with the peer's, and that nothing is acknowledged that was not
    received; the lemmas say that each public operation keeps it so. *)
From S2P Require Import Prelude Monad Protocol Error Config Engine Output Send Recv Ack Input Flush Frame Safety.

(** What a segment carries end to end: its fragment number and its payload. *)
Abbreviation cell := (Z * bytes)%type.
Definition cell_of (seg : KcpSegment) : cell := (frg seg, s_data seg).
Definition payload (h : list cell) : bytes := concat (map snd h).

Lemma payload_app h h' : payload (h ++ h') = payload h ++ payload h'.
Proof. unfold payload. by rewrite map_app, concat_app. Qed.
Lemma payload_cells q : payload (map cell_of q) = queue_payload q.
Proof. unfold payload, queue_payload. by rewrite map_map. Qed.

(** The segment is the one its number stands for. *)
Definition numbered (h : list cell) (seg : KcpSegment) : Prop :=
  h !! Z.to_nat (sn seg) = Some (cell_of seg).

Lemma numbered_lt h seg : 0 ≤ sn seg → numbered h seg → sn seg < len h.
Proof. unfold numbered, len. intros Hs H%lookup_lt_Some. lia. Qed.
Lemma numbered_prefix h h' seg : h `prefix_of` h' → numbered h seg → numbered h' seg.
Proof. unfold numbered. intros Hp H. by eapply prefix_lookup_Some. Qed.

(** Number [n] has arrived. *)
Definition received (e : KcpEngine) (n : Z) : Prop :=
  n < e_rcv_nxt e ∨ is_Some (e_rcv_buf e !! n).

(** The receive side only moves forward. *)
Record later (e e' : KcpEngine) : Prop := {
  lt_nxt : e_rcv_nxt e ≤ e_rcv_nxt e';
  lt_received n : received e n → received e' n;
}.
#[export] Instance later_preorder : PreOrder later.
Proof.
  split; [by split|]. intros e1 e2 e3 [H1 H1'] [H2 H2']. split; [lia|auto].
Qed.

Lemma later_same e e' :
  e_rcv_nxt e' = e_rcv_nxt e → e_rcv_buf e' = e_rcv_buf e → later e e'.
Proof. intros Hn Hb. split; [lia|]. intros n. unfold received. by rewrite Hn, Hb. Qed.

(** The send side: every segment in flight is the one its number stands for. *)
Record sender_ok (h : list cell) (e : KcpEngine) : Prop := {
  sd_nxt : e_snd_nxt e = len h;
  sd_buf : Forall (numbered h) (e_snd_buf e);
}.

(** The receive side: what was delivered and what is queued is the beginning of
    the peer's history, what waits for reordering agrees with it, and only
    what has arrived is acknowledged. *)
Record receiver_ok (p done : list cell) (e : KcpEngine) : Prop := {
  rc_nxt : e_rcv_nxt e = len done + len (e_rcv_queue e);
  rc_queue : done ++ map cell_of (e_rcv_queue e) `prefix_of` p;
  rc_buf : map_Forall (λ _ seg, numbered p seg) (e_rcv_buf e);
  rc_acks : Forall (λ a, received e a.1) (e_ack_list e);
}.

(** A segment the endpoint may have put on the wire. *)
Record wire_ok (h : list cell) (e : KcpEngine) (seg : KcpSegment) : Prop := {
  wi_push : h_cmd (s_header seg) = IKCP_CMD_PUSH → numbered h seg;
  wi_una : h_una (s_header seg) ≤ e_rcv_nxt e;
  wi_ack : h_cmd (s_header seg) = IKCP_CMD_ACK → received e (sn seg);
}.

(** The bytes are encoded segments that satisfy [W]. *)
Definition carries (W : KcpSegment → Prop) (d : bytes) : Prop :=
  ∃ segs, Forall segment_ok segs ∧ Forall W segs ∧ d = segments_bytes segs.

Record endpoint_ok (h p done : list cell) (e : KcpEngine) : Prop := {
  ep_inv : Inv e;
  ep_sender : sender_ok h e;
  ep_receiver : receiver_ok p done e;
  ep_out : carries (wire_ok h e) (pending_bytes e);
}.

(** ** Monotonicity *)

Lemma carries_impl (W W' : KcpSegment → Prop) d :
  (∀ seg, W seg → W' seg) → carries W d → carries W' d.
Proof.
  intros H (segs & Hs & HW & ->). exists segs. split_and!; [done| |done].
  eapply Forall_impl; [exact HW|done].
Qed.
Lemma carries_app W d d' : carries W d → carries W d' → carries W (d ++ d').
Proof.
  intros (l & Hl & HW & ->) (l' & Hl' & HW' & ->). exists (l ++ l').
  rewrite segments_bytes_app, !Forall_app. auto.
Qed.
Lemma carries_nil W : carries W [].
Proof. exists []. split_and!; [by apply Forall_nil..|done]. Qed.

Lemma wire_ok_later h h' e e' seg :
  h `prefix_of` h' → later e e' → wire_ok h e seg → wire_ok h' e' seg.
Proof.
  intros Hh [Hn Hr] [Hp Hu Ha]. split; [|lia|by intros Hc; apply Hr, Ha].
  intros Hc. eapply numbered_prefix; [exact Hh|by apply Hp].
Qed.
Lemma carries_later h h' e e' d :
  h `prefix_of` h' → later e e' → carries (wire_ok h e) d → carries (wire_ok h' e') d.
Proof. intros Hh He. apply carries_impl. intros seg. by apply wire_ok_later. Qed.

(** The peer's history grows under a receiver that does not know it. *)
Lemma receiver_ok_peer p p' done e :
  p `prefix_of` p' → receiver_ok p done e → receiver_ok p' done e.
Proof.
  intros Hp [Hn Hq Hb Ha]. split; [done|by etrans| |done].
  intros k seg Hk. eapply numbered_prefix; [done|]. by eapply Hb.
Qed.
Lemma endpoint_ok_peer h p p' done e :
  p `prefix_of` p' → endpoint_ok h p done e → endpoint_ok h p' done e.
Proof. intros Hp []. split; [done..|by eapply receiver_ok_peer|done]. Qed.

(** ** Datagrams *)

Lemma wire_ok_wire h e seg : wire_ok h e (wire_segment seg) ↔ wire_ok h e seg.
Proof. split; intros [? ? ?]; by split. Qed.

Section Datagrams.
Context {api : BytesApi} {spec : BytesApiSpec api}.
Context (W : KcpSegment → Prop) (HW : ∀ seg, W (wire_segment seg) ↔ W seg).

Lemma Forall_wire segs : Forall W (map wire_segment segs) ↔ Forall W segs.
Proof. rewrite Forall_fmap. by apply Forall_iff. Qed.

(** What the bytes carry is what they parse into. *)
Lemma carries_parse d : carries W d → Forall W (parse_datagram d).
Proof.
  intros (segs & Hs & Hw & ->). unfold segments_bytes. rewrite parse_datagram_bytes by done.
  by apply Forall_wire.
Qed.

(** Segments do not run into each other, so bytes cut at a segment boundary
    carry what they carried together. *)
Lemma carries_app_inv s1 s2 :
  Forall segment_ok s1 → Forall segment_ok s2 →
  carries W (segments_bytes s1 ++ segments_bytes s2) → Forall W s1 ∧ Forall W s2.
Proof.
  intros H1 H2 Hc%carries_parse. rewrite <- segments_bytes_app in Hc. unfold segments_bytes in Hc.
  rewrite parse_datagram_bytes in Hc by (by apply Forall_app). by apply Forall_wire, Forall_app in Hc.
Qed.

Lemma packed_concat mtu l : Forall (packed mtu) l →
  ∃ segs, Forall segment_ok segs ∧ concat l = segments_bytes segs.
Proof.
  induction 1 as [|d l (s1 & H1 & -> & _) _ (s2 & H2 & IH)]; cbn; [by exists []|].
  exists (s1 ++ s2). rewrite Forall_app, segments_bytes_app, IH. done.
Qed.

Lemma carries_split mtu l :
  Forall (packed mtu) l → carries W (concat l) → Forall (carries W) l.
Proof.
  induction 1 as [|d l (s1 & H1 & -> & _) Hl IH]; cbn; [by constructor|]. intros Hc.
  destruct (packed_concat _ _ Hl) as (s2 & H2 & Heq). rewrite Heq in Hc.
  destruct (carries_app_inv s1 s2 H1 H2 Hc) as [Hw1 Hw2]. constructor; [by exists s1|].
  apply IH. rewrite Heq. by exists s2.
Qed.
End Datagrams.

(** ** Steps that leave the two streams alone *)

(** All that the predicates look at. *)
Definition core (e : KcpEngine) :=
  (e_snd_nxt e, e_snd_buf e, e_rcv_nxt e, e_rcv_queue e, e_rcv_buf e, e_ack_list e, pending_bytes e,
   c_rcv_wnd (e_config e)).

(** The receive queue has taken all it can: the next segment is missing, or there
    is no room for it. *)
Definition settled (e : KcpEngine) : Prop :=
  e_rcv_buf e !! e_rcv_nxt e = None ∨ c_rcv_wnd (e_config e) ≤ len (e_rcv_queue e).

Lemma settled_core e e' : core e' = core e → settled e → settled e'.
Proof. unfold core, settled. by intros [= _ _ -> -> -> _ _ ->]. Qed.
Lemma stalled_settled e : Inv e → stalled e → settled e.
Proof. intros HI. unfold stalled, settled. by rewrite <- (wk_rcv _ _ (i_wnd _ HI)). Qed.

Lemma later_core e e' : core e' = core e → later e e'.
Proof. unfold core. intros [=]. by apply later_same. Qed.

Lemma endpoint_ok_core h p done e e' :
  core e' = core e → Inv e' → endpoint_ok h p done e → endpoint_ok h p done e'.
Proof.
  intros Hc HI [_ [Hn Hb] [Rn Rq Rb Ra] Ho]. pose proof (later_core _ _ Hc) as Hl.
  unfold core in Hc. injection Hc as H1 H2 H3 H4 H5 H6 H7 _. split; [done|..].
  - split; [by rewrite H1|by rewrite H2].
  - split; [by rewrite H3, H4|by rewrite H4|by rewrite H5|]. rewrite H6.
    eapply Forall_impl; [exact Ra|]. intros a. apply Hl.
  - rewrite H7. by eapply carries_later.
Qed.

(** ** Arrival *)

Lemma prefix_extend {A} (l1 l2 p : list A) :
  l1 `prefix_of` p → (∀ i x, l2 !! i = Some x → p !! (length l1 + i)%nat = Some x) →
  l1 ++ l2 `prefix_of` p.
Proof.
  intros [k ->] H. apply prefix_app.
  assert (Hl : take (length l2) k = l2).
  { apply list_eq. intros i. destruct (l2 !! i) as [x|] eqn:Hi.
    - pose proof (lookup_lt_Some _ _ _ Hi). rewrite lookup_take_lt by lia.
      specialize (H i x Hi). rewrite lookup_app_r in H by lia.
      by replace (length l1 + i - length l1)%nat with i in H by lia.
    - apply lookup_ge_None in Hi. rewrite lookup_take_ge; [done|lia]. }
  exists (drop (length l2) k). rewrite <- Hl at 1. by rewrite take_drop.
Qed.

Lemma rcv_queue_max e : Inv e → len (e_rcv_queue e) ≤ 65535.
Proof. intros HI. pose proof (i_rcv_len _ HI). pose proof (wo_rcv _ (i_config _ HI)). lia. Qed.

(** The receive queue takes from the receive buffer what is next. *)
Lemma receiver_moved p done segs e e' :
  Inv e → len (e_rcv_queue e') ≤ 65535 → len p ≤ H31 → moved segs e e' → receiver_ok p done e →
  receiver_ok p done e' ∧ later e e'.
Proof.
  intros HI Hmax Hp [Hf Hq Hn Hs Hb] [Rn Rq Rb Ra].
  assert (Hseg : ∀ seg, seg ∈ segs → e_rcv_buf e !! sn seg = Some seg ∧ numbered p seg).
  { intros seg Hin. assert (Hl : e_rcv_buf e !! sn seg = Some seg) by (apply Hb; eauto).
    split; [done|]. by apply (Rb (sn seg)). }
  assert (Hlen : len segs ≤ 65535).
  { rewrite Hq, len_app in Hmax. pose proof (len_nonneg (e_rcv_queue e)). lia. }
  assert (Hle : e_rcv_nxt e ≤ H31).
  { apply prefix_length in Rq. rewrite length_app, length_map in Rq. unfold len in *. lia. }
  pose proof (i_rcv_nxt _ HI) as Hu. pose proof (len_nonneg segs).
  assert (Hn' : e_rcv_nxt e' = e_rcv_nxt e + len segs) by (rewrite Hn; zlia).
  assert (Hsn : ∀ i seg, segs !! i = Some seg → sn seg = e_rcv_nxt e + Z.of_nat i).
  { intros i seg Hi. pose proof (lookup_lt_Some _ _ _ Hi) as Hlt. unfold len in Hlen.
    apply (f_equal (λ l, l !! i)) in Hs. unfold consecutive in Hs.
    rewrite !list_lookup_fmap, Hi, lookup_seqZ_lt in Hs by lia. cbn in Hs. injection Hs as ->. zlia. }
  assert (Hlater : later e e').
  { split; [lia|]. intros n [Hlt|[seg Hl]]; [left; lia|]. apply Hb in Hl as [Hl|[Hin ->]]; [right; by eexists|].
    left. apply list_elem_of_lookup in Hin as [i Hi]. pose proof (lookup_lt_Some _ _ _ Hi).
    rewrite (Hsn i _ Hi). unfold len in Hn'. lia. }
  split; [|done]. split.
  - rewrite Hn', Hq, len_app. lia.
  - rewrite Hq, map_app, (assoc (++)). apply prefix_extend; [done|]. intros i x Hx.
    apply list_lookup_fmap_Some in Hx as (seg & -> & Hi).
    destruct (Hseg seg) as [_ Hnum]; [by eapply list_elem_of_lookup_2|]. unfold numbered in Hnum.
    rewrite (Hsn i _ Hi), Rn in Hnum. rewrite <- Hnum. f_equal. rewrite length_app, length_map. unfold len. lia.
  - intros k seg Hk. apply (Rb k). apply Hb. by left.
  - rewrite Hf. cbn. eapply Forall_impl; [exact Ra|]. intros a. apply Hlater.
Qed.

(** ** Input *)

(** A segment the peer may have sent: its data is what the peer numbered, and it
    acknowledges only what the peer received ([rcvd]). *)
Record arriving (p : list cell) (rcvd : Z → Prop) (seg : KcpSegment) : Prop := {
  ar_push : h_cmd (s_header seg) = IKCP_CMD_PUSH → numbered p seg;
  ar_una : h_una (s_header seg) ≤ H31;
  ar_rcvd n : 0 ≤ n < h_una (s_header seg) → rcvd n;
  ar_ack : h_cmd (s_header seg) = IKCP_CMD_ACK → rcvd (sn seg);
}.

(** What [input] leaves alone. *)
Definition outside (e : KcpEngine) := (e_conv e, e_snd_nxt e, e_snd_queue e, pending_bytes e, e_config e).

(** From [e] to [e'] while taking in segments: the receive side moves forward, and
    a segment leaves the send buffer only if the peer has it. *)
Record took (rcvd : Z → Prop) (e e' : KcpEngine) : Prop := {
  tk_later : later e e';
  tk_outside : outside e' = outside e;
  tk_kept n : n ∈ map sn (e_snd_buf e) → n ∈ map sn (e_snd_buf e') ∨ rcvd n;
  tk_shrinks : map s_header (e_snd_buf e') ⊆ map s_header (e_snd_buf e);
  tk_acks : e_ack_list e `prefix_of` e_ack_list e';
  tk_settled : settled e → settled e';
}.
#[export] Instance took_preorder rcvd : PreOrder (took rcvd).
Proof.
  split; [by split; auto|]. intros e1 e2 e3 [L1 O1 K1 H1 A1 S1] [L2 O2 K2 H2 A2 S2].
  split; [by etrans|congruence| |by etrans|by etrans|auto]. intros n [H|H]%K1; [by apply K2|by right].
Qed.

Lemma took_numbers rcvd e e' n : took rcvd e e' → n ∈ map sn (e_snd_buf e') → n ∈ map sn (e_snd_buf e).
Proof.
  intros Ht (seg & -> & Hseg)%list_elem_of_fmap. apply (list_elem_of_fmap_2 s_header), (tk_shrinks _ _ _ Ht) in Hseg.
  apply list_elem_of_fmap in Hseg as (seg' & Hh & Hseg). apply list_elem_of_fmap. exists seg'. split; [|done].
  unfold sn. by rewrite Hh.
Qed.

Lemma took_core rcvd e e' : core e' = core e → outside e' = outside e → took rcvd e e'.
Proof.
  intros Hc Ho. split; [by apply later_core|done|..|by apply settled_core];
    unfold core in Hc; injection Hc as _ Hb _ _ _ Ha _ _; rewrite ?Hb, ?Ha; auto.
Qed.

(** Removing acknowledged segments. *)
Lemma took_sublist rcvd e buf :
  sublist buf (e_snd_buf e) → (∀ seg, seg ∈ e_snd_buf e → seg ∈ buf ∨ rcvd (sn seg)) → took rcvd e (e <| e_snd_buf := buf |>).
Proof.
  intros Hs H. split; [by apply later_same|done| | |done|done]; intros n Hn.
  2: { apply list_elem_of_fmap in Hn as (seg & -> & Hin). apply list_elem_of_fmap. exists seg. split; [done|].
       eapply elem_of_sublist; [exact Hin|exact Hs]. }
  apply list_elem_of_fmap in Hn as (seg & -> & Hin). cbn. destruct (H seg Hin) as [Hb|Hr]; [left|by right].
  apply list_elem_of_fmap. by exists seg.
Qed.

Lemma endpoint_ok_sublist h p done e buf :
  sublist buf (e_snd_buf e) → Inv (e <| e_snd_buf := buf |>) →
  endpoint_ok h p done e → endpoint_ok h p done (e <| e_snd_buf := buf |>).
Proof.
  intros Hs HI [_ [Hn Hb] [Rn Rq Rb Ra] Ho]. split; [done|..].
  - split; [done|]. by eapply Forall_sublist.
  - by split.
  - eapply carries_later; [done| |exact Ho]. by apply later_same.
Qed.

(** Where the receive window ends.  A segment more than half the circle before it
    would be taken for one after it, so a history may come to need room. *)
Definition limit_of (e : KcpEngine) : Z := e_rcv_nxt e + c_rcv_wnd (e_config e).

(** What a segment that was taken in leaves behind: data before [lim] has arrived
    and is to be acknowledged; what was acknowledged has left the send buffer. *)
Record handled (lim : Z) (e : KcpEngine) (seg : KcpSegment) : Prop := {
  hd_push : h_cmd (s_header seg) = IKCP_CMD_PUSH → sn seg < lim →
    received e (sn seg) ∧ sn seg ∈ map fst (e_ack_list e);
  hd_ack : h_cmd (s_header seg) = IKCP_CMD_ACK → sn seg ∉ map sn (e_snd_buf e);
}.

Lemma handled_took rcvd lim e e' seg : took rcvd e e' → handled lim e seg → handled lim e' seg.
Proof.
  intros Ht [Hp Ha]. split.
  - intros Hc Hl. destruct (Hp Hc Hl) as [Hr Hin]. split; [by apply Ht|].
    destruct (tk_acks _ _ _ Ht) as [k ->]. rewrite map_app, elem_of_app. by left.
  - intros Hc Hin. apply (Ha Hc), (took_numbers _ _ _ _ Ht), Hin.
Qed.
Lemma limit_took rcvd e e' : took rcvd e e' → limit_of e ≤ limit_of e'.
Proof.
  intros Ht. pose proof (lt_nxt _ _ (tk_later _ _ _ Ht)). pose proof (tk_outside _ _ _ Ht) as Ho.
  unfold outside in Ho. injection Ho as _ _ _ _ Hc. unfold limit_of. rewrite Hc. lia.
Qed.

Section InputHistory.
Context {prof : Profile} {clk : Clock} {api : BytesApi} {spec : BytesApiSpec api}.
Context (h p done : list cell) (rcvd : Z → Prop) (lim : Z).
Context (Hh : len h ≤ H31) (Hp : len p ≤ H31) (Hroom : len p + 65535 ≤ H31 ∨ lim ≤ 0).

(** The endpoint is in order, and it got there from [e] by input. *)
Definition going (e e' : KcpEngine) : Prop := endpoint_ok h p done e' ∧ took rcvd e e'.

Lemma going_trans e1 e2 e3 : going e1 e2 → going e2 e3 → going e1 e3.
Proof. intros [_ H1] [H H2]. split; [done|by etrans]. Qed.

Lemma going_core e e' :
  core e' = core e → outside e' = outside e → Inv e' → endpoint_ok h p done e → going e e'.
Proof. intros. split; [by eapply endpoint_ok_core|by apply took_core]. Qed.

Lemma sn_in_history e seg : endpoint_ok h p done e → seg ∈ e_snd_buf e → 0 ≤ sn seg < len h.
Proof.
  intros He Hin. destruct (ep_sender _ _ _ _ He) as [_ Hb]. rewrite Forall_forall in Hb.
  pose proof (sb_segments _ _ _ _ _ (i_snd_buf _ (ep_inv _ _ _ _ He))) as Hse. rewrite Forall_forall in Hse.
  pose proof (sn_range _ _ (Hse _ Hin)) as [Hs _]. split; [done|]. by apply numbered_lt, Hb.
Qed.

Lemma parse_una_going una s :
  endpoint_ok h p done (inner s) → in_u 32 una → una ≤ H31 → (∀ n, 0 ≤ n < una → rcvd n) →
  wp checked_overflow (parse_una una) (λ _ s', going (inner s) (inner s')) (λ _ _, False) s.
Proof.
  intros He Hu Hle Hr. pose proof (parse_una_inv una s (ep_inv _ _ _ _ He)) as HI.
  unfold parse_una in *. apply (wp_update checked_overflow). set (e := inner s) in *. cbn [inner].
  unfold set_field at 1. change (Inv (e <| e_snd_buf := drop_before una (e_snd_buf e) |>)) in HI.
  split; [apply endpoint_ok_sublist; [apply drop_before_sublist|exact HI|done]|].
  apply took_sublist; [apply drop_before_sublist|]. intros seg Hin. pose proof (sn_in_history e seg He Hin) as Hsn.
  destruct (drop_before_suffix una (e_snd_buf e)) as (gone & Hb & Hg).
  rewrite Hb, elem_of_app in Hin. destruct Hin as [Hin|Hin]; [right|by left].
  rewrite Forall_forall in Hg. specialize (Hg _ Hin). apply seq_before_true in Hg. apply Hr.
  unfold in_u in Hu. zlia.
Qed.

Lemma parse_ack_going sn0 s :
  endpoint_ok h p done (inner s) → in_u 32 sn0 → rcvd sn0 →
  wp checked_overflow (parse_ack sn0)
    (λ _ s', going (inner s) (inner s') ∧ sn0 ∉ map sn (e_snd_buf (inner s'))) (λ _ _, False) s.
Proof.
  intros He Hu Hr. apply (wp_weaken_K _ no_panic); [done|].
  pose proof (ep_inv _ _ _ _ He) as HI. apply parse_ack_spec; [done..|]. cbn [inner].
  pose proof (filter_sublist_inv (inner s) (λ t, sn t ≠ sn0) HI) as HI'. set (e := inner s) in *.
  change (Inv (e <| e_snd_buf := filter (λ t, sn t ≠ sn0) (e_snd_buf e) |>)) in HI'.
  change (going e (e <| e_snd_buf := filter (λ t, sn t ≠ sn0) (e_snd_buf e) |>) ∧
    sn0 ∉ map sn (filter (λ t, sn t ≠ sn0) (e_snd_buf e))).
  split; [|by intros (seg & -> & [Hne _]%list_elem_of_filter)%list_elem_of_fmap].
  split; [apply endpoint_ok_sublist; [apply sublist_filter|exact HI'|done]|].
  apply took_sublist; [apply sublist_filter|]. intros seg Hin. destruct (decide (sn seg = sn0)) as [->|Hne]; [by right|left].
  by apply list_elem_of_filter.
Qed.
Lemma ack_segment_going current seg x s :
  endpoint_ok h p done (inner s) → segment_ok seg → rcvd (sn seg) →
  wp checked_overflow (ack_segment current seg x)
    (λ _ s', going (inner s) (inner s') ∧ sn seg ∉ map sn (e_snd_buf (inner s'))) (λ _ _, False) s.
Proof.
  intros He [Hs _] Hr. unfold ack_segment. estep.
  apply (wp_post _ _ (λ _ s', going (inner s) (inner s'))).
  { apply wp_when; intros _; [|by apply going_core; [..|apply He|]].
    pose proof (ep_inv _ _ _ _ He) as HI. apply update_ack_spec; [done|apply time_diff_range| |].
    - intros z Q' st _ HQ. by apply wp_arith.
    - cbn [inner]. apply going_core; [..|by apply acked_inv|done]; unfold acked; by destruct (rtt_sample _ _ _). }
  intros [] s1 H1. cbv beta. estep.
  apply (wp_post _ _ (λ _ s', going (inner s) (inner s') ∧ sn seg ∉ map sn (e_snd_buf (inner s')))).
  { eapply wp_post; [apply parse_ack_going; [apply H1|apply Hs|done]|].
    intros [] s2 [H2 Hno]. split; [by eapply going_trans|done]. }
  intros [] s2 H2. cbv beta. apply wp_if; intros _; [|apply wp_if; intros _]; by estep.
Qed.

(** A segment of the peer's history goes into the receive buffer, with its
    acknowledgement. *)
Definition filed (seg : KcpSegment) (e : KcpEngine) : KcpEngine :=
  e <| e_ack_list ::= λ l, l ++ [(sn seg, h_ts (s_header seg))] |> <| e_rcv_buf ::= λ m,
    match m !! sn seg with Some _ => m | None => <[sn seg := seg]> m end |>.

Lemma filed_later seg e : later e (filed seg e) ∧ received (filed seg e) (sn seg).
Proof.
  assert (Hb : is_Some (e_rcv_buf (filed seg e) !! sn seg)).
  { cbn. destruct (e_rcv_buf e !! sn seg) eqn:Hb; [by eexists|]. rewrite lookup_insert_eq. by eexists. }
  split; [|by right]. split; [done|]. intros n [Hn|Hn]; [by left|right]. revert Hn. cbn.
  destruct (e_rcv_buf e !! sn seg); [done|]. intros Hn. apply lookup_insert_is_Some.
  destruct (decide (sn seg = n)); [by left|by right].
Qed.

Lemma filed_receiver seg e : receiver_ok p done e → numbered p seg → receiver_ok p done (filed seg e).
Proof.
  intros [Rn Rq Rb Ra] Hnum. destruct (filed_later seg e) as [Hl Hr]. split; [done..| |].
  - cbn. destruct (e_rcv_buf e !! sn seg); [done|]. by apply map_Forall_insert_2.
  - apply Forall_app. split; [|by apply Forall_singleton]. eapply Forall_impl; [exact Ra|]. intros a. apply Hl.
Qed.

Lemma filed_inv seg e :
  Inv e → segment_ok seg → offset_from (e_rcv_nxt e) (sn seg) < c_rcv_wnd (e_config e) → Inv (filed seg e).
Proof.
  intros HI Hseg Hw. unfold filed. apply insert_inv; [|done..]. clear Hw.
  destruct Hseg as [[] _]. inv_fields. apply Forall_app. split; [done|]. by apply Forall_singleton.
Qed.

Lemma rcv_nxt_history e : endpoint_ok h p done e → e_rcv_nxt e ≤ len p.
Proof.
  intros [_ _ [Rn Rq _ _] _]. apply prefix_length in Rq. rewrite length_app, length_map in Rq. unfold len in *. lia.
Qed.

(** The receive queue takes what is next after a segment was filed. *)
Lemma filed_going seg segs e e' :
  endpoint_ok h p done e → segment_ok seg → numbered p seg → offset_from (e_rcv_nxt e) (sn seg) < c_rcv_wnd (e_config e) →
  Inv e' → stalled e' → moved segs (filed seg e) e' → going e e' ∧ received e' (sn seg).
Proof.
  intros [HI Hsd Hr Ho] Hseg Hnum Hw HI' Hst Hmv. destruct (filed_later seg e) as [Hl1 Hr1].
  destruct (receiver_moved p done segs _ e' (filed_inv seg e HI Hseg Hw) (rcv_queue_max _ HI') Hp Hmv
    (filed_receiver seg e Hr Hnum)) as [R' Hl'].
  assert (Hl : later e e') by (by etrans). pose proof (mv_frame _ _ _ Hmv) as Hf.
  apply stalled_settled in Hst; [|done]. split; [|by apply Hl'].
  split; [split; [done| |done|]|split; [done|..|done]].
  - destruct Hsd as [Hn Hb]. split; by rewrite Hf.
  - replace (pending_bytes e') with (pending_bytes e) by (by rewrite Hf). by eapply carries_later.
  - by rewrite Hf.
  - intros n Hn. left. by rewrite Hf.
  - intros n. by rewrite Hf.
  - rewrite Hf. cbn. by apply prefix_app_r.
Qed.

(** A duplicate is acknowledged again. *)
Lemma reacked_going ack e :
  endpoint_ok h p done e → Inv (e <| e_ack_list ::= λ l, l ++ [ack] |>) → ack.1 < e_rcv_nxt e →
  going e (e <| e_ack_list ::= λ l, l ++ [ack] |>).
Proof.
  intros [_ Hsd [Rn Rq Rb Ra] Ho] HI' Hold. split; [split; [done|by destruct Hsd|split; [done..|]|]|].
  - cbn. apply Forall_app. split; [done|]. apply Forall_singleton. by left.
  - eapply carries_later; [done| |exact Ho]. by apply later_same.
  - split; [by apply later_same|done|by left|done|by apply prefix_app_r|done].
Qed.

Lemma push_segment_going seg s :
  endpoint_ok h p done (inner s) → segment_ok seg → numbered p seg →
  wp checked_overflow (push_segment seg)
    (λ _ s', going (inner s) (inner s') ∧ (lim ≤ limit_of (inner s) → sn seg < lim →
       received (inner s') (sn seg) ∧ sn seg ∈ map fst (e_ack_list (inner s')))) (λ _ _, False) s.
Proof.
  intros He Hseg Hnum. pose proof (ep_inv _ _ _ _ He) as HI. pose proof (rcv_nxt_history _ He) as Hle.
  pose proof (sn_u32 _ (proj1 Hseg)) as Hsn. fold (sn seg) in Hsn.
  pose proof (numbered_lt _ _ (proj1 Hsn) Hnum) as Hlt. pose proof (wo_rcv _ (i_config _ HI)) as Hwnd.
  pose proof (i_rcv_nxt _ HI) as Hu. eapply wp_post; [by apply push_segment_spec|]. intros _ s' [HI' Hpost].
  set (e := inner s) in *. set (e' := inner s') in *. set (ack := (sn seg, h_ts (s_header seg))) in *.
  destruct (seq_before _ _) eqn:Hlim.
  2: { unfold e'. rewrite Hpost. split; [by apply going_core|]. apply seq_before_false in Hlim.
       intros Hbound Hbelow. exfalso. unfold limit_of in Hbound. fold e in Hbound. zlia. }
  destruct Hpost as [Hacks Hpost].
  assert (Hin : sn seg ∈ map fst (e_ack_list e')).
  { rewrite Hacks, map_app, elem_of_app. right. by apply list_elem_of_singleton. }
  destruct (decide _) as [Hw|Hw].
  - destruct Hpost as (Hst & segs & Hmv). destruct (filed_going seg segs e e') as [Hg Hr]; [done..|]. by split.
  - assert (Hold : sn seg < e_rcv_nxt e).
    { apply seq_before_true in Hlim. destruct (Z.lt_ge_cases (sn seg) (e_rcv_nxt e)) as [|Hge]; [done|]. exfalso.
      assert (Hoff : offset_from (e_rcv_nxt e) (sn seg) = sn seg - e_rcv_nxt e) by zlia.
      rewrite Hoff in Hw. zlia. }
    split; [|by intros _ _; split; [left; rewrite Hpost|]]. rewrite Hpost in HI' |- *. by apply reacked_going.
Qed.

Lemma process_segment_going current seg x s :
  lim ≤ limit_of (inner s) → endpoint_ok h p done (inner s) → segment_ok seg → rx_ok x →
  (h_conv (s_header seg) = e_conv (inner s) → arriving p rcvd seg) →
  wp checked_overflow (process_segment current seg x)
    (λ x' s', rx_ok x' ∧ going (inner s) (inner s') ∧
       (h_conv (s_header seg) = e_conv (inner s) → handled lim (inner s') seg)) (λ _ _, False) s.
Proof.
  intros Hlim He Hseg Hx Har. pose proof (process_segment_inv current seg x s (ep_inv _ _ _ _ He) Hseg Hx) as Hrx.
  eapply wp_mono; [eapply (wp_and _ _ _ (λ _ s', going (inner s) (inner s') ∧
      (h_conv (s_header seg) = e_conv (inner s) → handled lim (inner s') seg)) _ (λ _ _, False)); [exact Hrx|]
    |by intros x' s' [(_ & ? & _) ?]|by intros ? ? []].
  unfold process_segment. do 2 estep.
  apply wp_if; intros Hc.
  { apply negb_true_iff, Z.eqb_neq in Hc. estep. split; [by apply going_core; [..|apply He|]|done]. }
  apply negb_false_iff, Z.eqb_eq in Hc. destruct (Har Hc) as [Ap Au Ar Aa]. do 2 estep.
  set (s1 := Timed _ _). assert (H1 : going (inner s) (inner s1)).
  { apply going_core; [done..| |done]. pose proof (ep_inv _ _ _ _ He). destruct Hseg as [[] _]. cbn [inner s1].
    inv_fields. destruct i_wnd. by constructor. }
  estep. apply (wp_post _ _ (λ _ s', going (inner s) (inner s'))).
  { eapply wp_post; [apply parse_una_going; [apply H1|apply Hseg|done|done]|].
    intros [] s2 H2. by eapply going_trans. }
  intros [] s2 H2. cbv beta. pose proof (ep_inv _ _ _ _ (proj1 H2)) as HI2.
  apply wp_if; intros Hack.
  { apply Z.eqb_eq in Hack. eapply wp_post; [apply ack_segment_going; [apply H2|done|by apply Aa]|].
    intros x3 s3 [H3 Hno]. split; [by eapply going_trans|]. intros _. split; [by rewrite Hack|done]. }
  apply Z.eqb_neq in Hack. apply wp_if; intros Hpush.
  { apply Z.eqb_eq in Hpush. estep. eapply wp_post; [apply push_segment_going; [apply H2|done|by apply Ap]|].
    intros [] s3 [H3 Hin]. estep. split; [by eapply going_trans|]. intros _. split; [|done]. intros _ Hl. apply Hin; [|done].
    pose proof (limit_took _ _ _ (proj2 H2)). lia. }
  apply Z.eqb_neq in Hpush.
  apply wp_if; intros _; [|by estep]. do 3 estep. split; [|done]. eapply going_trans; [exact H2|].
  apply going_core; [done..| |apply H2]. cbn [inner].
  pose proof (flags_or _ 2 (i_probe _ HI2) ltac:(lia)). inv_fields. destruct i_probe. by constructor.
Qed.
Lemma process_all_going current l : ∀ x s,
  lim ≤ limit_of (inner s) → endpoint_ok h p done (inner s) → rx_ok x → Forall (λ y, segment_ok y.1) l →
  Forall (λ y, h_conv (s_header y.1) = e_conv (inner s) → arriving p rcvd y.1) l →
  wp checked_overflow (process_all current x l)
    (λ _ s', going (inner s) (inner s') ∧
       Forall (λ y, h_conv (s_header y.1) = e_conv (inner s) → handled lim (inner s') y.1) l) (λ _ _, False) s.
Proof.
  unfold process_all. induction l as [|[seg rest] l IH]; intros x s Hlim He Hx Hok Har; cbn [foldM].
  - estep. split; [by apply going_core; [..|apply He|]|by apply Forall_nil].
  - apply Forall_cons in Hok as [Hseg Hok]. apply Forall_cons in Har as [Ha Har]. estep.
    eapply wp_post; [apply process_segment_going; [done|done|done|by destruct Hx|done]|].
    intros x' s' (Hx' & Hg & Hhd). cbn [fst] in *. pose proof (limit_took _ _ _ (proj2 Hg)).
    assert (Hcv' : e_conv (inner s') = e_conv (inner s)).
    { pose proof (tk_outside _ _ _ (proj2 Hg)) as Ho. unfold outside in Ho. by injection Ho. }
    eapply wp_post; [apply IH; [lia|apply Hg|done|done|]|].
    + pose proof (tk_outside _ _ _ (proj2 Hg)) as Ho. unfold outside in Ho. injection Ho as Hcv _ _ _ _.
      eapply Forall_impl; [exact Har|]. cbn. by rewrite Hcv.
    + intros x2 s2 [H2 Hl]. rewrite Hcv' in Hl. split; [by eapply going_trans|]. apply Forall_cons. split; [|exact Hl].
      intros Hc. eapply handled_took; [apply H2|by apply Hhd].
Qed.

Lemma shrink_buf_going s :
  endpoint_ok h p done (inner s) →
  wp checked_overflow shrink_buf (λ _ s', going (inner s) (inner s')) (λ _ _, False) s.
Proof.
  intros He. pose proof (shrink_buf_spec (λ _ s', Inv (inner s')) (λ _ _, False) s (ep_inv _ _ _ _ He)
    (λ s' HI _, HI)) as HI.
  unfold shrink_buf in *. apply (wp_update checked_overflow). by apply going_core.
Qed.

Lemma parse_fastack_going sn0 ts s :
  endpoint_ok h p done (inner s) →
  wp checked_overflow (parse_fastack sn0 ts) (λ _ s', going (inner s) (inner s')) (λ _ _, False) s.
Proof.
  intros He. eapply wp_post; [by apply parse_fastack_spec, He|]. intros _ s' (HI' & buf & Hs & H2).
  set (e := inner s) in *. rewrite Hs in HI' |- *. destruct He as [_ [Hn Hb] Hr Ho].
  assert (Hsame : map sn buf = map sn (e_snd_buf e) ∧ map s_header buf = map s_header (e_snd_buf e) ∧ Forall (numbered h) buf).
  { clear - H2 Hb. induction H2 as [|t t' l l' Ht H2 IH]; [done|]. apply Forall_cons in Hb as [Hb1 Hb].
    destruct (IH Hb) as (IH1 & IH2 & IH3). rewrite Ht. cbn. rewrite IH1, IH2. by repeat constructor. }
  destruct Hsame as (Hm & Hmh & Hf). split; [split; [done|by split|by destruct Hr|]|split; [by apply later_same|done|..|done|done]].
  - eapply carries_later; [done| |exact Ho]. by apply later_same.
  - cbn. rewrite Hm. by left.
  - cbn. by rewrite Hmh.
Qed.

Lemma update_cwnd_going una s :
  endpoint_ok h p done (inner s) →
  wp checked_overflow (update_cwnd una) (λ _ s', going (inner s) (inner s')) (λ _ _, False) s.
Proof.
  intros He. eapply wp_post; [by apply update_cwnd_spec, He|].
  intros _ s' (HI' & _ & cwnd & incr & Hs & _). rewrite Hs in HI' |- *. by apply going_core.
Qed.

Lemma input_going data s :
  lim ≤ limit_of (inner s) → endpoint_ok h p done (inner s) →
  Forall (λ y, h_conv (s_header y.1) = e_conv (inner s) → arriving p rcvd y.1)
    (parse_all (S (length data)) data) →
  wp checked_overflow (input data)
    (λ _ s', going (inner s) (inner s') ∧ Forall (λ y, h_conv (s_header y.1) = e_conv (inner s) →
       handled lim (inner s') y.1) (parse_all (S (length data)) data))
    (λ _ s', going (inner s) (inner s')) s.
Proof.
  intros Hlim He Har. unfold wp. rewrite input_is_two_phase. set (l := parse_all (S (length data)) data) in *.
  change (wp checked_overflow (input_two_phase data)
    (λ _ s', going (inner s) (inner s') ∧ Forall (λ y, h_conv (s_header y.1) = e_conv (inner s) →
       handled lim (inner s') y.1) l)
    (λ _ s', going (inner s) (inner s')) s).
  pose proof (ep_inv _ _ _ _ He) as HI. set (e := inner s) in *.
  assert (Hstart : ∀ now n, in_u 32 now → going e (inner (Timed (e <| e_last_activity := now |>) n))).
  { intros now n Hnow. apply going_core; [done..| |done]. cbn [inner]. by inv_fields. }
  unfold input_two_phase. do 4 estep. cbn [inner ticks]. fold e.
  match goal with |- wp _ _ _ _ ?st => set (s1 := st) end. assert (H1 : going e (inner s1)) by (by apply Hstart).
  apply wp_if; intros Hlen; [by estep|]. do 3 estep.
  set (done_all := λ e' : KcpEngine, going e e' ∧ Forall (λ y : KcpSegment * bytes,
    h_conv (s_header y.1) = e_conv e → handled lim e' y.1) l).
  assert (Htrans : ∀ e1 e2, done_all e1 → going e1 e2 → done_all e2).
  { intros e1 e2 [Hg Hl] Hg'. split; [by eapply going_trans|]. eapply Forall_impl; [exact Hl|].
    intros y Hy Hc. eapply handled_took; [apply Hg'|by apply Hy]. }
  assert (Hpost : ∀ x s' (m : T x), done_all (inner s') →
    (∀ st, endpoint_ok h p done (inner st) → wp checked_overflow m (λ _ st', going (inner st) (inner st')) (λ _ _, False) st) →
    wp checked_overflow m (λ _ st', done_all (inner st')) (λ _ st', going e (inner st')) s').
  { intros x s' m Hg Hm. eapply wp_mono; [apply Hm, Hg| |by intros ? ? []].
    intros a st Hst. by eapply Htrans. }
  eapply wp_mono; [apply process_all_going; [done|apply H1|by split|apply parse_all_ok|exact Har]| |by intros ? ? []].
  intros x s2 [H2 Hl2]. cbv beta. assert (He2 : done_all (inner s2)) by (split; [by eapply going_trans|exact Hl2]). clear H2.
  estep. eapply wp_post; [apply (Hpost _ _ _ He2 shrink_buf_going)|]. intros [] s3 H3. cbv beta.
  estep. eapply (wp_post _ _ (λ _ s', done_all (inner s'))).
  { apply wp_when; intros _; [|done]. apply (Hpost _ _ _ H3). intros st Hst. by apply parse_fastack_going. }
  intros [] s4 H4. cbv beta. estep.
  eapply wp_post; [apply (Hpost _ _ _ H4 (update_cwnd_going _))|]. intros [] s5 H5. cbv beta.
  apply wp_count_stat. cbn [inner]. apply (Htrans (inner s5)); [exact H5|].
  apply going_core; [done..| |apply H5]. pose proof (ep_inv _ _ _ _ (proj1 (proj1 H5))). clear HI. inv_fields. solve_stats.
Qed.
End InputHistory.

(** ** Output *)

Section FlushHistory.
Context {prof : Profile} {clk : Clock} {api : BytesApi} {spec : BytesApiSpec api}.

(** The history after [n] more segments were numbered. *)
Definition extended (h : list cell) (n : nat) (e : KcpEngine) : list cell :=
  h ++ map cell_of (take n (e_snd_queue e)).

Lemma final_mark_cell now e resend rtomin nd rto seg :
  let seg' := final now e (mark_of now resend rtomin nd rto seg) in
  sn seg' = sn seg ∧ cell_of seg' = cell_of seg.
Proof. unfold final, mark_of. repeat case_match; by destruct seg as [[] ? ? ? ? ?]. Qed.

Lemma sent_at_in now e seg :
  seg ∈ sent_at now e → seg ∈ buf_at now e ∧ h_una (s_header seg) = e_rcv_nxt e.
Proof.
  intros (r & -> & Hr)%list_elem_of_fmap. apply list_elem_of_filter in Hr as [Hn Hr]. split.
  - apply list_elem_of_fmap. by exists r.
  - unfold final. by rewrite Hn.
Qed.

Lemma buf_at_sn now e :
  (move_count e ≤ length (e_snd_queue e))%nat →
  map sn (buf_at now e) = map sn (e_snd_buf e) ++
    map (λ i, wrap 32 (e_snd_nxt e + Z.of_nat i)) (seq 0 (move_count e)).
Proof.
  intros Hn. unfold buf_at, marks_at, marks. rewrite map_sn_final. cbn. rewrite map_app. f_equal.
  rewrite (map_imap_index sn _ (λ i, wrap 32 (e_snd_nxt e + Z.of_nat i))) by done.
  by rewrite length_take, Nat.min_l.
Qed.

Lemma buf_at_numbered now h e :
  sender_ok h e → len h ≤ H31 → Z.of_nat (move_count e) ≤ 65535 →
  Forall (numbered (extended h (move_count e) e)) (buf_at now e).
Proof.
  intros [Hn Hb] Hh Hm. set (n := move_count e) in *. apply Forall_forall. intros x Hx.
  apply list_elem_of_fmap in Hx as (r & -> & Hr). apply list_elem_of_fmap in Hr as (seg & -> & Hin).
  unfold numbered. destruct (final_mark_cell now (flush_from now e) (resend_of (flush_from now e))
    (rtomin_of (flush_from now e)) (c_nodelay (e_config (flush_from now e))) (r_rto (e_rtt (flush_from now e))) seg)
    as [-> ->].
  change (numbered (extended h n e) seg). unfold flush_from, moved_out in Hin. cbn in Hin.
  fold n in Hin. apply elem_of_app in Hin as [Hin|Hin].
  - rewrite Forall_forall in Hb. eapply numbered_prefix; [|by apply Hb]. unfold extended. by apply prefix_app_r.
  - apply list_elem_of_lookup in Hin as [i Hi]. apply list_lookup_imap_Some in Hi as (q & Hq & ->).
    pose proof (lookup_lt_Some _ _ _ Hq) as Hlt. rewrite length_take in Hlt. unfold numbered.
    change (sn (stamp _ _ ?z _)) with z. rewrite Hn.
    replace (Z.to_nat (wrap 32 (len h + Z.of_nat i))) with (length h + i)%nat.
    2:{ unfold len in *. rewrite wrap_small by zlia. lia. }
    unfold extended. rewrite lookup_app_r by lia. replace (length h + i - length h)%nat with i by lia.
    rewrite list_lookup_fmap, Hq. done.
Qed.

Lemma move_count_bound e : Inv e → Z.of_nat (move_count e) ≤ 65535 ∧ (move_count e ≤ length (e_snd_queue e))%nat.
Proof.
  intros HI. pose proof (send_window_range _ HI). pose proof (wo_snd _ (i_config _ HI)).
  pose proof (wrapping_sub_range (e_snd_nxt e) (e_snd_una e)). unfold move_count, room_of, in_u in *. lia.
Qed.

Lemma flush_segments_ok now l t t' e e' :
  Inv e → Inv e' → in_u 32 now → in_u 32 t → in_u 32 t' → l `prefix_of` sent_at now e → e_snd_buf e' = buf_at now e →
  Forall segment_ok (acks_of e ++ probes_of (probed now e) t t' ++ l).
Proof.
  intros HI HI' Hnow Ht Ht' Hl Fb. rewrite !Forall_app. split_and!.
  - eapply Forall_impl; [by apply acks_of_fit|by intros ? []].
  - eapply Forall_impl; [apply (probes_of_fit (probed now e)); [by apply probed_inv|done..]|by intros ? []].
  - apply Forall_forall. intros seg Hin. destruct (sent_at_in now e seg) as [Hin' _].
    { destruct Hl as [k ->]. set_solver. }
    pose proof (sb_segments _ _ _ _ _ (i_snd_buf _ HI')) as Hse. rewrite Fb, Forall_forall in Hse. by apply Hse.
Qed.

(** What the engine has flushed agrees with the histories. *)
Lemma flush_reached_ok now l h p done e e' :
  endpoint_ok h p done e → len h ≤ H31 → Inv e' → in_u 32 now →
  l `prefix_of` sent_at now e → flush_reached now l e e' →
  let n := move_count e in
  endpoint_ok (extended h n e) p done e' ∧ later e e' ∧
  e_snd_queue e' = drop n (e_snd_queue e) ∧
  map sn (e_snd_buf e') = map sn (e_snd_buf e) ++ seqZ (len h) (Z.of_nat n).
Proof.
  intros He Hh HI' Hnow Hl [Fq Fb Fn Fa Fo (Fr1 & Fr2 & Fr3)] n.
  pose proof (ep_inv _ _ _ _ He) as HI. destruct (move_count_bound e HI) as [Hn Hnq]. fold n in Hn, Hnq, Fq, Fn.
  pose proof (buf_at_numbered now h e (ep_sender _ _ _ _ He) Hh Hn) as Hb. fold n in Hb. rewrite <- Fb in Hb.
  pose proof (buf_at_sn now e Hnq) as Hsn. fold n in Hsn. rewrite <- Fb in Hsn.
  assert (Hlater : later e e') by (by apply later_same).
  assert (Hpre : h `prefix_of` extended h n e) by (by apply prefix_app_r).
  destruct He as [_ [Sn Sb] [Rn Rq Rb Ra] Ho]. split_and!; [|done..|].
  - split; [done|split; [|done]|split|].
    + rewrite Fn, Sn. unfold extended. rewrite len_app. unfold len in *.
      rewrite length_map, length_take, Nat.min_l by lia. apply wrap_small. zlia.
    + by rewrite Fr1, Fr2.
    + by rewrite Fr2.
    + by rewrite Fr3.
    + rewrite Fa. by apply Forall_nil.
    + destruct Fo as (t & t' & Ht & Ht' & ->). apply carries_app; [by eapply carries_later|].
      exists (acks_of e ++ probes_of (probed now e) t t' ++ l). split; [|split; [|done]].
      * by apply (flush_segments_ok now l t t' e e').
      * rewrite !Forall_app. split_and!.
        -- apply Forall_map. eapply Forall_impl; [exact Ra|]. intros a Hr. split; [done|cbn; lia|].
           intros _. apply Hlater, Hr.
        -- unfold probes_of, probe_if. repeat case_match; cbn;
             repeat (apply Forall_cons; split; [split; [done|cbn; lia|done]|]); by apply Forall_nil.
        -- apply Forall_forall. intros seg Hin. destruct (sent_at_in now e seg) as [Hin' Hu].
           { destruct Hl as [k ->]. set_solver. }
           rewrite <- Fb in Hin'. rewrite Forall_forall in Hb. split; [auto|lia|]. intros Hack.
           pose proof (sb_push _ _ _ _ _ (i_snd_buf _ HI')) as Hp. rewrite Forall_forall in Hp.
           specialize (Hp _ Hin'). cbn in Hp. rewrite Hp in Hack. done.
  - rewrite Hsn. f_equal. unfold seqZ. rewrite Nat2Z.id. apply list_eq. intros i.
    rewrite !list_lookup_fmap. destruct (seq 0 n !! i) as [j|] eqn:Hj; [|done]. cbn. f_equal.
    apply lookup_seq in Hj as [-> Hj]. cbn. rewrite Sn. rewrite wrap_small; [lia|]. unfold len in *. zlia.
Qed.
End FlushHistory.

(** ** Messages

    A message is a run of segments whose fragment numbers count down to 0, so
    a history reads as a list of messages in one way only. *)

Record framed (g : list cell) : Prop := {
  fm_numbers : map fst g = map (λ i, len g - i - 1) (seqZ 0 (len g));
  fm_payload : Forall (λ c, c.2 ≠ []) g;
  fm_size : 0 < len (payload g) < H31;
}.

Lemma framed_nonempty g : framed g → g ≠ [].
Proof. intros [_ _ H] ->. cbn in H. unfold len in H. cbn in H. lia. Qed.

Lemma framed_lookup g i c : framed g → g !! i = Some c → c.1 = len g - Z.of_nat i - 1.
Proof.
  intros [Hn _ _] Hi. pose proof (lookup_lt_Some _ _ _ Hi). apply (f_equal (λ l, l !! i)) in Hn.
  rewrite !list_lookup_fmap, Hi, lookup_seqZ_lt in Hn by (unfold len; lia). cbn in Hn. by injection Hn.
Qed.

Lemma framed_app_inj g g' r r' : framed g → framed g' → g ++ r = g' ++ r' → g = g' ∧ r = r'.
Proof.
  intros Hg Hg' Heq. apply app_inj_1; [|done].
  assert (Hh : ∀ l k, framed l → ∃ c, head (l ++ k) = Some c ∧ c.1 = len l - 1).
  { intros l k Hl. destruct l as [|c l]; [by destruct (framed_nonempty [] Hl)|]. exists c. split; [done|].
    rewrite (framed_lookup _ 0 c Hl eq_refl). lia. }
  destruct (Hh g r Hg) as (c & Hc & H1), (Hh g' r' Hg') as (c' & Hc' & H2).
  rewrite Heq, Hc' in Hc. injection Hc as ->. unfold len in *. lia.
Qed.

Lemma framed_prefix gs : ∀ gs', Forall framed gs → Forall framed gs' →
  concat gs `prefix_of` concat gs' → gs `prefix_of` gs'.
Proof.
  induction gs as [|g gs IH]; intros gs' Hg Hg' [k Hk]; [apply prefix_nil|].
  apply Forall_cons in Hg as [Hg Hgs]. destruct Hg' as [|g' gs' Hg' Hgs'].
  { destruct g; [by destruct (framed_nonempty [] Hg)|done]. }
  cbn in Hk. rewrite <- (assoc (++)) in Hk.
  apply framed_app_inj in Hk as [-> Hk]; [|done..]. apply prefix_cons, IH; [done..|]. by exists k.
Qed.

(** The segments of a whole message at the head of the receive queue. *)
Lemma framed_complete segs : framed (map cell_of segs) → complete_message segs.
Proof.
  intros Hf. assert (Hfrg : ∀ i seg, segs !! i = Some seg → frg seg = len segs - Z.of_nat i - 1).
  { intros i seg Hi. pose proof (framed_lookup _ i (cell_of seg) Hf) as Hl.
    rewrite list_lookup_fmap, Hi in Hl. specialize (Hl eq_refl). unfold len in *. by rewrite length_map in Hl. }
  destruct Hf as [_ _ Hs]. rewrite payload_cells in Hs.
  destruct segs as [|seg0 segs0] eqn:He; [unfold len in Hs; cbn in Hs; lia|]. rewrite <- He in *.
  assert (Hne : segs ≠ []) by (by subst). clear seg0 segs0 He.
  destruct (exists_last Hne) as (pre & final & ->). split; [|destruct pre as [|seg pre]; cbn|done].
  - exists pre, final. split_and!; [done| |].
    + rewrite (Hfrg (length pre) final), len_app, len_cons, len_nil; [unfold len; lia|].
      by rewrite lookup_app_r, Nat.sub_diag.
    + apply Forall_lookup. intros i seg Hi. pose proof (lookup_lt_Some _ _ _ Hi).
      rewrite (Hfrg i seg), len_app, len_cons, len_nil by (by apply lookup_app_l_Some). unfold len. lia.
  - rewrite (Hfrg 0%nat final) by done. cbn. lia.
  - rewrite (Hfrg 0%nat seg) by done. cbn. lia.
Qed.

(** The receive queue holds the beginning of what is left of the peer's messages,
    and the whole of the first one. *)
Lemma framed_ready q g more :
  map cell_of q `prefix_of` concat (g :: more) → framed g → len g ≤ len q →
  ∃ msg rest, q = msg ++ rest ∧ map cell_of msg = g ∧ complete_message msg.
Proof.
  intros [k Hk] Hg Hl. exists (take (length g) q), (drop (length g) q).
  assert (Hc : map cell_of (take (length g) q) = g).
  { rewrite <- firstn_map. apply (f_equal (take (length g))) in Hk. cbn in Hk. unfold len in Hl.
    rewrite take_app_length, take_app_le in Hk by (rewrite length_map; lia). done. }
  split_and!; [symmetry; apply take_drop|done|]. apply framed_complete. by rewrite Hc.
Qed.

(** The receive queue holds the beginning of what is left of the peer's messages:
    what [recv] takes off it is the next message, or nothing. *)
Lemma recv_takes_message e r e' more :
  recv_post e r e' → map cell_of (e_rcv_queue e) `prefix_of` concat more → Forall framed more →
  ∃ popped rest, e_rcv_queue e = popped ++ rest ∧
    match r with
    | None => popped = [] ∧ e' = e <| e_rcv_queue := rest |>
    | Some data => data = queue_payload popped ∧
        (∃ g more', more = g :: more' ∧ g = map cell_of popped) ∧ ∃ segs e1,
        moved segs (e <| e_rcv_queue := rest |>
          <| e_stats ::= λ st, st <| bytes_received := wrap 64 (bytes_received st + len data) |> |>) e1 ∧
        stalled e1 ∧ core e' = core e1 ∧ e_snd_queue e' = e_snd_queue e1 ∧ e_wnd e' = e_wnd e1
    end.
Proof.
  intros (popped & rest & [Hq Hpop] & Hr) [k Hk] Hm. exists popped, rest. split; [done|].
  destruct r as [data|].
  - destruct Hr as (-> & [Hne Hpeek] & segs & e1 & Hmv & Hst & ->). specialize (Hpop Hpeek). split_and!; [done| |].
    2: { exists segs, e1. by destruct (_ && _). }
    destruct Hm as [|g more Hg Hm].
    { rewrite Hq in Hk. by destruct popped. }
    exists g, more. split; [done|]. cbn in Hk.
    assert (Hlen : (length g ≤ length (e_rcv_queue e))%nat).
    { unfold peek_size_of in Hpeek. destruct (e_rcv_queue e) as [|seg q]; [lia|].
      assert (Hs : frg seg = len g - 1).
      { destruct g as [|c g]; [by destruct (framed_nonempty [] Hg)|]. cbn in Hk. injection Hk as Hk _.
        pose proof (framed_lookup _ 0 c Hg eq_refl) as Hl. subst c. change ((cell_of seg).1) with (frg seg) in Hl. lia. }
      rewrite Hs in Hpeek. destruct (Z.eqb_spec (len g - 1) 0); [cbn; unfold len in *; lia|].
      destruct (Z.ltb_spec (len (seg :: q)) (len g - 1 + 1)); [lia|]. unfold len in *. lia. }
    destruct (framed_ready (e_rcv_queue e) g more) as (msg & rest' & Hsplit & Hg' & Hc);
      [by exists k|done|unfold len; lia|].
    pose proof (peek_size_complete _ _ _ Hc Hsplit) as Hps. destruct Hc as [(pre & final & Hmsg & Hf & Hpre) _ _].
    rewrite Hps, Hsplit, Hmsg, <- (assoc (++)) in Hpop. cbn in Hpop.
    rewrite (pop_message_complete _ pre final _ []) in Hpop by (done || (rewrite len_nil; lia)).
    injection Hpop as _ Hrest. rewrite <- Hg'. f_equal.
    apply (app_inv_tail rest). by rewrite <- Hq, <- Hrest.
  - destruct Hr as [Hnil ->]. split; [|done]. destruct popped as [|seg popped]; [done|]. exfalso.
    assert (Hc : cell_of seg ∈ concat more) by (rewrite Hk, Hq; set_solver).
    apply list_elem_of_In, in_concat in Hc as (g & Hg & Hin).
    apply list_elem_of_In in Hg, Hin. rewrite Forall_forall in Hm. destruct (Hm g Hg) as [_ Hp _].
    rewrite Forall_forall in Hp. specialize (Hp _ Hin). cbn in Hp. unfold queue_payload in Hnil. cbn in Hnil.
    by apply app_nil in Hnil as [? _].
Qed.

(** ** Delivery and draining *)

Lemma pop_endpoint h p done popped rest e :
  endpoint_ok h p done e → e_rcv_queue e = popped ++ rest →
  endpoint_ok h p (done ++ map cell_of popped) (e <| e_rcv_queue := rest |>).
Proof.
  intros [HI [Sn Sb] [Rn Rq Rb Ra] Ho] Hq. split.
  - inv_fields; rewrite Hq in *; [by apply Forall_app in i_rcv_queue as [_ ?]|].
    rewrite len_app in *. pose proof (len_nonneg popped). lia.
  - by split.
  - split; [|by rewrite Hq, map_app, (assoc (++)) in Rq|done..].
    cbn. rewrite Rn, Hq, !len_app. unfold len. rewrite length_map. lia.
  - eapply carries_later; [done| |exact Ho]. by apply later_same.
Qed.

Lemma moved_endpoint h p done segs e e1 e' :
  endpoint_ok h p done e → Inv e' → len p ≤ H31 → moved segs e e1 → core e' = core e1 →
  endpoint_ok h p done e' ∧ later e e' ∧ e_snd_buf e' = e_snd_buf e.
Proof.
  intros [HI Hs Hr Ho] HI' Hp Hmv Hc. pose proof (rcv_queue_max _ HI') as Hmax.
  pose proof (later_core _ _ Hc) as Hl1. pose proof (mv_frame _ _ _ Hmv) as Hf.
  assert (Hq : e_rcv_queue e' = e_rcv_queue e1) by (unfold core in Hc; by injection Hc). rewrite Hq in Hmax.
  destruct (receiver_moved p done segs e e1 HI Hmax Hp Hmv Hr) as [[Rn Rq Rb Ra] Hl].
  assert (Hlater : later e e') by (by etrans). unfold core in Hc. injection Hc as C1 C2 C3 C4 C5 C6 C7 _.
  split_and!; [split; [done|..]|done|by rewrite C2, Hf].
  - destruct Hs as [Sn Sb]. split; [by rewrite C1, Hf|by rewrite C2, Hf].
  - split; [by rewrite C3, C4|by rewrite C4|by rewrite C5|]. rewrite C6.
    eapply Forall_impl; [exact Ra|]. intros a. apply Hl1.
  - replace (pending_bytes e') with (pending_bytes e) by (by rewrite C7, Hf). by eapply carries_later.
Qed.

Lemma drain_endpoint {api : BytesApi} {spec : BytesApiSpec api} h p done e :
  endpoint_ok h p done e →
  Forall (carries (wire_ok h e)) (e_output_queue e) ∧
  endpoint_ok h p done (e <| e_output_queue := [] |>).
Proof.
  intros [HI [Sn Sb] [Rn Rq Rb Ra] Ho].
  assert (Hall : Forall (carries (wire_ok h e)) (e_output_queue e ++ [e_out_buf e])).
  { apply (carries_split _ (wire_ok_wire h e) (c_mtu (e_config e))).
    - apply Forall_app. split; [|apply Forall_singleton, HI].
      eapply Forall_impl; [apply (i_output _ HI)|]. by intros d [_ Hd].
    - rewrite concat_app. cbn. rewrite app_nil_r. exact Ho. }
  apply Forall_app in Hall as [Hq Hb]. apply Forall_cons in Hb as [Hb _]. split; [done|]. split; [|by split..|].
  - inv_fields. by apply Forall_nil.
  - unfold pending_bytes. cbn. eapply carries_later; [done| |exact Hb]. by apply later_same.
Qed.
