(* ===== verification/Link.v ===== *)
(** Two engines over a network that loses, duplicates, reorders and delays
    datagrams, and mixes in datagrams of other conversations: what one
    application gets is what the other sent.

    Each end is an engine with a log of what went in and out of it; the ends run
    any operations in any order ([Safety.op]), and whatever one ever put on the
    wire may reach the other at any time, any number of times.  The histories
    ([History]) are bounded by 2^31 segments, half the circle of sequence
    numbers, so a number stands for one segment. *)
From S2P Require Import Prelude Monad Protocol Error Config Engine Output Send Recv Ack Input Flush Frame Safety History.

(** * The system *)

(** An end of the connection: the messages its application sent and got, the
    datagrams it put on the wire, and the segments it numbered. *)
Record Peer := {
  pe_st : St;
  pe_sent : list bytes;
  pe_got : list bytes;
  pe_net : list bytes;
  pe_hist : list cell;
}.
Abbreviation eng x := (inner (pe_st x)).

(** What a [send] that failed has queued all the same. *)
Definition queued (data : bytes) (e e' : KcpEngine) : bytes :=
  take (length (queue_payload (e_snd_queue e')) - length (queue_payload (e_snd_queue e))) data.

(** The logs after operation [o] returned [r]. *)
Definition after (x : Peer) (o : op) (r : outcome KcpCoreError reply) (s' : St) : Peer := {|
  pe_st := s';
  pe_sent := pe_sent x ++
    match o, r with
    | OpSend data, Ok _ => [data]
    | OpSend data, _ => [queued data (eng x) (inner s')]
    | _, _ => []
    end;
  pe_got := pe_got x ++ match r with Ok (RData (Some msg)) => [msg] | _ => [] end;
  pe_net := pe_net x ++ match r with Ok (RDatagrams l) => l | _ => [] end;
  pe_hist := extended (pe_hist x)
    (length (e_snd_queue (eng x)) - length (e_snd_queue (inner s'))) (eng x);
|}.

Section System.
Context {api : BytesApi}.

(** A datagram the network may deliver to [x]: one the peer put out, or one that
    holds no segment of the conversation. *)
Definition may_arrive (net : list bytes) (x : Peer) (d : bytes) : Prop :=
  d ∈ net ∨ Forall (λ y, h_conv (s_header y.1) ≠ e_conv (eng x)) (parse_all (S (length d)) d).

(** Time passes: the clock is read [n] times, by calls that change nothing. *)
Definition waited (x : Peer) (n : nat) : Peer :=
  Build_Peer (Timed (eng x) (ticks (pe_st x) + n)) (pe_sent x) (pe_got x) (pe_net x) (pe_hist x).

Inductive peer_step (prof : Profile) (clk : Clock) (net : list bytes) : Peer → Peer → Prop :=
  | peer_call x o r s' :
      op_ok o → (∀ d, o = OpInput d → may_arrive net x d) →
      perform o (pe_st x) = (r, s') → (∀ q, r ≠ Panicked q) →
      peer_step prof clk net x (after x o r s')
  | peer_wait x n : peer_step prof clk net x (waited x n).

Record Link := { side_a : Peer; side_b : Peer }.

(** The ends have their own builds and clocks. *)
Context (prof_a prof_b : Profile) (clk_a clk_b : Clock).

Inductive link_step : Link → Link → Prop :=
  | step_a a a' b :
      peer_step prof_a clk_a (pe_net b) a a' → link_step (Build_Link a b) (Build_Link a' b)
  | step_b a b b' :
      peer_step prof_b clk_b (pe_net a) b b' → link_step (Build_Link a b) (Build_Link a b').

(** An end that has just been made. *)
Definition fresh (clk : Clock) (x : Peer) : Prop := ∃ conv c s e s',
  in_u 32 conv ∧ core_config_ok c ∧ c_mtu c ≤ 65535 ∧
  1 ≤ c_snd_wnd c ≤ 65535 ∧ 1 ≤ c_rcv_wnd c ≤ 65535 ∧
  new (S := ()) (E := KcpCoreError) conv c s = (Ok e, s') ∧
  x = Build_Peer (Timed e (ticks s')) [] [] [] [].

Inductive linked : Link → Prop :=
  | linked_start a b : fresh clk_a a → fresh clk_b b → linked (Build_Link a b)
  | linked_step l l' : linked l → link_step l l' → linked l'.
End System.

(** The data goes from [x] to [y]. *)
Definition ends (l : Link) (x y : Peer) : Prop :=
  x = side_a l ∧ y = side_b l ∨ x = side_b l ∧ y = side_a l.

(** No number stands for two segments. *)
Definition bounded (l : Link) : Prop :=
  len (pe_hist (side_a l)) ≤ H31 ∧ len (pe_hist (side_b l)) ≤ H31.

(** * What holds of each end *)

(** All the segments the application's data was cut into, numbered or not yet. *)
Definition frames (x : Peer) : list cell := pe_hist x ++ map cell_of (e_snd_queue (eng x)).
Definition stream_of (x : Peer) : bool := c_stream_mode (e_config (eng x)).
Abbreviation nonempty := (filter (λ m : bytes, m ≠ [])).

(** They are the data that was sent; in message mode each message is framed. *)
Record sent_ok (x : Peer) : Prop := {
  so_bytes : payload (frames x) = concat (pe_sent x);
  so_sizes : Forall (λ c, 0 < len c.2 < H31) (frames x);
  so_msgs : if stream_of x then Forall (λ c, c.1 = 0) (frames x)
    else ∃ msgs, frames x = concat msgs ∧ Forall framed msgs ∧
      Forall (λ g, len g ≤ max_frags (eng x)) msgs ∧ map payload msgs = nonempty (pe_sent x);
}.

(** An end in order, when the peer's history is [p] and [done] is what it has
    delivered of it. *)
Record peer_ok (p : list cell) (done : list (list cell)) (x : Peer) : Prop := {
  po_end : endpoint_ok (pe_hist x) p (concat done) (eng x);
  po_net : Forall (carries (wire_ok (pe_hist x) (eng x))) (pe_net x);
  po_got : pe_got x = map payload done;
  po_done : Forall framed done;
  po_settled : settled (eng x);
  po_sent : sent_ok x;
}.

(** A step of an end whose peer has received [rcvd]: nothing leaves its send
    buffer before that, and everything it numbers enters it. *)
Record advanced (rcvd : Z → Prop) (x x' : Peer) : Prop := {
  ad_later : later (eng x) (eng x');
  ad_hist : pe_hist x `prefix_of` pe_hist x';
  ad_kept n : n ∈ map sn (e_snd_buf (eng x)) → n ∈ map sn (e_snd_buf (eng x')) ∨ rcvd n;
  ad_new n : len (pe_hist x) ≤ n < len (pe_hist x') → n ∈ map sn (e_snd_buf (eng x'));
}.
Definition stepped (p : list cell) (rcvd : Z → Prop) (x x' : Peer) : Prop :=
  ∃ done, peer_ok p done x' ∧ advanced rcvd x x'.

Lemma framed_single c : c.1 = 0 → 0 < len c.2 < H31 → framed [c].
Proof.
  intros Hc Hl. split; [by cbn; rewrite Hc| |by unfold payload; cbn; rewrite app_nil_r].
  apply Forall_singleton. intros H. rewrite H in Hl. unfold len in Hl. cbn in Hl. lia.
Qed.

(** However the data was sent, it is framed, and in message mode the messages are
    the application's. *)
Lemma sent_frames x : Inv (eng x) → sent_ok x → ∃ msgs, frames x = concat msgs ∧ Forall framed msgs ∧
  Forall (λ g, len g ≤ max_frags (eng x)) msgs ∧ (stream_of x = false → map payload msgs = nonempty (pe_sent x)).
Proof.
  intros HI [_ Hs Hm]. destruct (stream_of x); [|by destruct Hm as (msgs & ? & ? & ? & ?); exists msgs].
  exists (map (λ c, [c]) (frames x)). split_and!; [| | |done].
  - clear. induction (frames x) as [|c l IH]; cbn; congruence.
  - apply Forall_map. apply Forall_forall. intros c Hc. rewrite Forall_forall in Hs, Hm.
    apply framed_single; auto.
  - apply Forall_map, Forall_forall. intros c _. cbn. unfold len. cbn.
    pose proof (wo_rcv _ (i_config _ HI)). unfold max_frags, IKCP_WND_RCV. lia.
Qed.

Lemma sent_ok_same x x' :
  frames x' = frames x → e_config (eng x') = e_config (eng x) → pe_sent x' = pe_sent x → sent_ok x → sent_ok x'.
Proof.
  intros Hf Hc Hs [H1 H2 H3]. unfold stream_of, max_frags in *.
  split; unfold stream_of, max_frags; rewrite ?Hf, ?Hc, ?Hs; done.
Qed.

Lemma extended_0 h e : extended h 0 e = h.
Proof. unfold extended. cbn. by rewrite app_nil_r. Qed.
Lemma extended_frames h n e : extended h n e ++ map cell_of (drop n (e_snd_queue e)) = h ++ map cell_of (e_snd_queue e).
Proof. unfold extended. by rewrite <- (assoc (++)), <- map_app, take_drop. Qed.

Section PeerFacts.
Context {prof : Profile} {clk : Clock} {api : BytesApi} {spec : BytesApiSpec api}.
Context (p : list cell) (rcvd : Z → Prop) (done : list (list cell)) (x : Peer).
Context (Hx : peer_ok p done x) (Hh : len (pe_hist x) ≤ H31) (Hp : len p ≤ H31).

(** An operation that neither queues data nor delivers any. *)
Lemma after_quiet o r s' :
  e_snd_queue (inner s') = e_snd_queue (eng x) → e_config (inner s') = e_config (eng x) →
  endpoint_ok (pe_hist x) p (concat done) (inner s') → later (eng x) (inner s') → settled (inner s') →
  (∀ n, n ∈ map sn (e_snd_buf (eng x)) → n ∈ map sn (e_snd_buf (inner s')) ∨ rcvd n) →
  match o with OpSend _ => False | _ => True end →
  match r with
  | Ok (RData (Some _)) => False
  | Ok (RDatagrams l) => Forall (carries (wire_ok (pe_hist x) (eng x))) l
  | _ => True
  end →
  stepped p rcvd x (after x o r s').
Proof.
  intros Hq Hc He Hl Hst Hk Ho Hr. destruct Hx as [_ Hn Hg Hd _ Hs].
  assert (Hhist : pe_hist (after x o r s') = pe_hist x).
  { unfold after. cbn. by rewrite Hq, Nat.sub_diag, extended_0. }
  assert (Hsent : pe_sent (after x o r s') = pe_sent x).
  { unfold after. cbn. by destruct o; [|by destruct Ho|..]; rewrite app_nil_r. }
  exists done. split; [split|split].
  - by rewrite Hhist.
  - rewrite Hhist. unfold after. cbn. apply Forall_app.
    assert (Hw : ∀ l, Forall (carries (wire_ok (pe_hist x) (eng x))) l → Forall (carries (wire_ok (pe_hist x) (inner s'))) l).
    { intros l H. eapply Forall_impl; [exact H|]. intros d. by apply carries_later. }
    split; [by apply Hw|]. destruct r as [[|[]|l]| |]; try by apply Forall_nil. by apply Hw.
  - unfold after. cbn. by destruct r as [[|[]|]| |]; rewrite ?app_nil_r.
  - done.
  - done.
  - apply (sent_ok_same x); [|done|done|done].
    unfold frames. rewrite Hhist. cbn. by rewrite Hq.
  - done.
  - by rewrite Hhist.
  - done.
  - intros n. rewrite Hhist. lia.
Qed.

(** A flush, whether it succeeded or lost the connection. *)
Lemma after_flush now l e0 o r s' :
  core e0 = core (eng x) → e_snd_queue e0 = e_snd_queue (eng x) → Inv e0 → Inv (inner s') → in_u 32 now →
  e_config (inner s') = e_config (eng x) → l `prefix_of` sent_at now e0 → flush_reached now l e0 (inner s') →
  match o with OpSend _ => False | _ => True end →
  match r with Ok RUnit | Err _ => True | _ => False end →
  stepped p rcvd x (after x o r s').
Proof.
  intros Hcore Hq0 HI0 HI' Hnow Hc Hl Hf Ho Hr. destruct Hx as [He Hn Hg Hd Hst Hs].
  assert (Hst' : settled (inner s')).
  { destruct (fr_receiver _ _ _ _ Hf) as (F1 & F2 & F3). apply (settled_core _ _ Hcore) in Hst. unfold settled in *.
    rewrite F1, F2, F3, Hc. unfold core in Hcore. by injection Hcore as _ _ _ _ _ _ _ <-. }
  pose proof (endpoint_ok_core _ _ _ _ _ Hcore HI0 He) as He0.
  destruct (flush_reached_ok now l _ _ _ _ _ He0 Hh HI' Hnow Hl Hf) as (He' & Hl' & Hq & Hsn).
  destruct (move_count_bound e0 HI0) as [_ Hm]. set (n := move_count e0) in *.
  assert (Hbuf : e_snd_buf e0 = e_snd_buf (eng x)) by (unfold core in Hcore; by injection Hcore).
  assert (Hext : extended (pe_hist x) n e0 = extended (pe_hist x) n (eng x)) by (unfold extended; by rewrite Hq0).
  assert (Hlater : later (eng x) (inner s')) by (etrans; [by apply later_core|done]).
  assert (Hhist : pe_hist (after x o r s') = extended (pe_hist x) n (eng x)).
  { unfold after. cbn. rewrite Hq, Hq0, length_drop. f_equal. rewrite Hq0 in Hm. lia. }
  assert (Hpre : pe_hist x `prefix_of` extended (pe_hist x) n (eng x)) by (by apply prefix_app_r).
  rewrite Hbuf in Hsn. exists done. split; [split|split].
  - by rewrite Hhist, <- Hext.
  - rewrite Hhist. unfold after. cbn. replace (match r with Ok (RDatagrams l) => l | _ => [] end) with (@nil bytes)
      by (by destruct r as [[|[]|]| |]). rewrite app_nil_r.
    eapply Forall_impl; [exact Hn|]. intros d. by apply carries_later.
  - unfold after. cbn. by destruct r as [[|[]|]| |]; rewrite ?app_nil_r.
  - done.
  - done.
  - apply (sent_ok_same x); [|done| |done].
    + unfold frames. rewrite Hhist. cbn. by rewrite Hq, Hq0, extended_frames.
    + unfold after. cbn. by destruct o; [|by destruct Ho|..]; rewrite app_nil_r.
  - done.
  - by rewrite Hhist.
  - intros k Hk. left. change (k ∈ map sn (e_snd_buf (inner s'))). rewrite Hsn. apply elem_of_app. by left.
  - intros k. rewrite Hhist. intros Hk. change (k ∈ map sn (e_snd_buf (inner s'))). rewrite Hsn.
    apply elem_of_app. right. apply elem_of_seqZ. unfold extended in Hk. rewrite len_app in Hk.
    unfold len in *. rewrite length_map, length_take in Hk. lia.
Qed.
(** [recv]: the next message of the peer, whole. *)
Lemma after_recv r s' :
  (∃ msgs, p `prefix_of` concat msgs ∧ Forall framed msgs) →
  recv_post (eng x) r (inner s') → Inv (inner s') → e_config (inner s') = e_config (eng x) →
  stepped p rcvd x (after x OpRecv (Ok (RData r)) s').
Proof.
  intros (msgs & Hpm & Hfm) Hr HI' Hc. pose proof Hx as [He Hn Hg Hd Hst Hs].
  destruct (rc_queue _ _ _ (ep_receiver _ _ _ _ He)) as [k Hk].
  assert (Hdone : done `prefix_of` msgs).
  { apply framed_prefix; [done..|]. etrans; [|exact Hpm]. rewrite Hk, <- (assoc (++)). by apply prefix_app_r. }
  destruct Hdone as [more ->]. rewrite concat_app in Hpm. apply Forall_app in Hfm as [_ Hfm].
  assert (Hmore : map cell_of (e_rcv_queue (eng x)) `prefix_of` concat more).
  { apply (prefix_app_inv (concat done)). etrans; [|exact Hpm]. rewrite Hk. by apply prefix_app_r. }
  destruct (recv_takes_message _ _ _ _ Hr Hmore Hfm) as (popped & rest & Hq & Hpost). clear Hr.
  pose proof (pop_endpoint _ _ _ popped rest _ He Hq) as He1. destruct r as [data|].
  2: { destruct Hpost as [-> Heq]. cbn in He1. rewrite app_nil_r in He1.
       assert (Hcore : core (inner s') = core (eng x)) by (rewrite Heq; unfold core; cbn; by rewrite Hq).
       apply after_quiet; try done; try (by eapply settled_core); rewrite ?Heq; try done. by left. }
  destruct Hpost as (-> & (g & more' & -> & Hgp) & segs & e1 & Hmv & Hst1 & Hcore & Hsq & Hwnd).
  set (e0 := (eng x) <| e_rcv_queue := rest |> <| e_stats ::= _ |>) in *.
  assert (He0 : endpoint_ok (pe_hist x) p (concat (done ++ [g])) e0).
  { rewrite concat_app. cbn. rewrite app_nil_r, Hgp. apply (endpoint_ok_core _ _ _ ((eng x) <| e_rcv_queue := rest |>)); [reflexivity| |exact He1].
    unfold e0. pose proof (ep_inv _ _ _ _ He1) as HI1. clear HI'. inv_fields. solve_stats. }
  pose proof (mv_frame _ _ _ Hmv) as Hf.
  destruct (moved_endpoint _ _ _ _ _ _ _ He0 HI' Hp Hmv Hcore) as (He2 & Hl2 & Hb2).
  assert (Hq2 : e_snd_queue (inner s') = e_snd_queue (eng x)) by (by rewrite Hsq, Hf).
  assert (Hlater : later (eng x) (inner s')) by (etrans; [|exact Hl2]; by apply later_same).
  set (x' := after x OpRecv (Ok (RData (Some (queue_payload popped)))) s').
  assert (Hhist : pe_hist x' = pe_hist x) by (cbn; by rewrite Hq2, Nat.sub_diag, extended_0).
  apply Forall_cons in Hfm as [Hfg _].
  exists (done ++ [g]). split; [split|split].
  - by rewrite Hhist.
  - rewrite Hhist. cbn. rewrite app_nil_r. eapply Forall_impl; [exact Hn|]. intros d. by apply carries_later.
  - cbn. by rewrite map_app, Hg, Hgp, <- payload_cells.
  - apply Forall_app. split; [done|]. by apply Forall_singleton.
  - apply stalled_settled; [done|]. unfold core in Hcore. injection Hcore as _ _ C3 C4 C5 _ _ _.
    unfold stalled. cbn. unfold w_rcv_of in *. by rewrite C3, C4, C5, Hwnd.
  - apply (sent_ok_same x); [|done|by cbn; rewrite app_nil_r|done].
    unfold frames. rewrite Hhist. cbn. by rewrite Hq2.
  - done.
  - by rewrite Hhist.
  - intros n Hin. left. cbn. by rewrite Hb2.
  - intros n. rewrite Hhist. lia.
Qed.
(** [send], when it has queued [new]. *)
Lemma after_send data r s' new :
  send_frame (eng x) (inner s') → Inv (inner s') →
  (length (e_snd_queue (eng x)) ≤ length (e_snd_queue (inner s')))%nat →
  pe_sent (after x (OpSend data) r s') = pe_sent x ++ [new] →
  match r with Ok RUnit | Err _ => True | _ => False end →
  queue_payload (e_snd_queue (inner s')) = queue_payload (e_snd_queue (eng x)) ++ new →
  (if stream_of x then
     Forall (λ seg, frg seg = 0) (e_snd_queue (eng x)) → Forall (λ seg, frg seg = 0) (e_snd_queue (inner s'))
   else
     new = [] ∧ e_snd_queue (inner s') = e_snd_queue (eng x) ∨
     ∃ segs, e_snd_queue (inner s') = e_snd_queue (eng x) ++ segs ∧ framed (map cell_of segs) ∧
       len segs ≤ max_frags (eng x) ∧ new ≠ []) →
  stepped p rcvd x (after x (OpSend data) r s').
Proof.
  intros Hf HI' Hlen Hsent Hr Hpay Hnew. destruct Hx as [He Hn Hg Hd Hst [Hb Hz Hm]].
  set (x' := after x (OpSend data) r s') in *.
  assert (Hhist : pe_hist x' = pe_hist x).
  { cbn. replace (_ - _)%nat with 0%nat by lia. apply extended_0. }
  assert (Hc : core (inner s') = core (eng x)) by (unfold core, pending_bytes; by rewrite Hf).
  assert (Hcfg : e_config (inner s') = e_config (eng x)) by (by rewrite Hf).
  assert (Hstream : stream_of x' = stream_of x) by (unfold stream_of; cbn; by rewrite Hcfg).
  assert (Hfr : frames x' = pe_hist x ++ map cell_of (e_snd_queue (inner s'))) by (unfold frames; by rewrite Hhist).
  exists done. split; [split; [rewrite Hhist| | |done|by eapply settled_core|split]|split].
  - by eapply endpoint_ok_core.
  - rewrite Hhist. cbn. replace (match r with Ok (RDatagrams l) => l | _ => [] end) with (@nil bytes)
      by (by destruct r as [[|[]|]| |]). rewrite app_nil_r.
    eapply Forall_impl; [exact Hn|]. intros d. apply carries_later; [done|by apply later_core].
  - cbn. by destruct r as [[|[]|]| |]; rewrite ?app_nil_r.
  - rewrite Hfr, Hsent, concat_app. cbn. rewrite app_nil_r, <- Hb. unfold frames.
    by rewrite !payload_app, !payload_cells, Hpay, (assoc (++)).
  - rewrite Hfr. unfold frames in Hz. apply Forall_app in Hz as [Hz _]. apply Forall_app. split; [done|].
    apply Forall_map. eapply Forall_impl; [apply (i_snd_queue _ HI')|]. intros seg [_ Hl _ _ _ _]. cbn.
    pose proof (windows_mss _ (i_config _ HI')). lia.
  - rewrite Hstream, Hfr, Hsent. unfold frames in Hm. destruct (stream_of x).
    + apply Forall_app in Hm as [Hm1 Hm2]. apply Forall_app. split; [done|]. apply Forall_map, Hnew. by apply Forall_map in Hm2.
    + assert (Hmf : max_frags (eng x') = max_frags (eng x)) by (unfold max_frags; cbn; by rewrite Hcfg).
      rewrite Hmf. destruct Hm as (msgs & Hm1 & Hm2 & Hml & Hm3). rewrite filter_app.
      destruct Hnew as [[-> Hq]|(segs & Hq & Hs & Hls & Hne)]; rewrite Hq.
      * exists msgs. rewrite filter_cons_False, app_nil_r by naive_solver. done.
      * exists (msgs ++ [map cell_of segs]). rewrite filter_cons_True by done.
        rewrite map_app, (assoc (++)), Hm1, concat_app, !Forall_app, map_app, Hm3. cbn. rewrite app_nil_r.
        split_and!; [done|done|by apply Forall_singleton|done| |].
        { apply Forall_singleton. unfold len. by rewrite length_map. }
        do 2 f_equal. rewrite payload_cells.
        rewrite Hq, queue_payload_app in Hpay. by apply app_inv_head in Hpay.
  - by apply later_core.
  - by rewrite Hhist.
  - intros n Hin. left. cbn. unfold core in Hc. by injection Hc as _ -> _ _ _ _ _ _.
  - intros n. rewrite Hhist. lia.
Qed.

Lemma fragments_framed mss data segs :
  1 ≤ mss ≤ 65511 → data ≠ [] → frag_count mss data ≤ 128 → Forall (λ seg, s_data seg ≠ []) segs →
  fragments_of false mss data segs → framed (map cell_of segs).
Proof.
  intros Hm Hd Hc Hne Hf. pose proof (fragments_payload false mss data segs ltac:(lia) Hd Hf) as Hpay.
  destruct Hf as [Hs Hg]. destruct (frag_count_bounds mss data ltac:(lia) Hd) as (Hc1 & Hlen).
  assert (Hl : len (map cell_of segs) = frag_count mss data).
  { apply (f_equal length) in Hg. rewrite !length_map, length_seqZ in Hg. unfold len. rewrite length_map. lia. }
  split.
  - by rewrite Hl, map_map.
  - by apply Forall_map.
  - rewrite payload_cells, Hpay. assert (0 < len data) by (destruct data; [done|rewrite len_cons; pose proof (len_nonneg data); lia]).
    nia.
Qed.
Lemma flush_stepped o s0 :
  core (inner s0) = core (eng x) → e_snd_queue (inner s0) = e_snd_queue (eng x) → Inv (inner s0) →
  e_config (inner s0) = e_config (eng x) → match o with OpSend _ => False | _ => True end →
  wp checked_overflow flush (λ _ s', stepped p rcvd x (after x o (Ok RUnit) s'))
    (λ err s', stepped p rcvd x (after x o (Err err) s')) s0.
Proof.
  intros Hcore Hq HI Hc Ho.
  eapply wp_mono; [apply (wp_keeps e_config); [apply keeps_flush, _|by apply flush_spec]|..].
  - intros [] s' [(HI' & _ & Hf) Hc']. cbv beta.
    apply (after_flush (now_of s0) (sent_at (now_of s0) (inner s0)) (inner s0));
      [done..|apply now_of_u32|congruence|done|by apply flushed_reached|done|done].
  - intros err s' [(-> & HI' & _ & _ & l & Hl & Hf) Hc']. cbv beta.
    apply (after_flush (now_of s0) l (inner s0)); [done..|apply now_of_u32|congruence|done|done|done|done].
Qed.

Lemma update_stepped :
  wp checked_overflow update (λ _ s', stepped p rcvd x (after x OpUpdate (Ok RUnit) s'))
    (λ err s', stepped p rcvd x (after x OpUpdate (Err err) s')) (pe_st x).
Proof.
  pose proof (ep_inv _ _ _ _ (po_end _ _ _ Hx)) as HI. unfold update. do 6 estep. cbn [inner ticks].
  set (last := if now <? e_last_update (eng x) then now else e_last_update (eng x)).
  assert (Hl : in_u 32 last ∧ last ≤ now).
  { pose proof (i_update _ HI). subst last. destruct (Z.ltb_spec now (e_last_update (eng x))); split; (done || lia). }
  destruct Hl as [Hl Hlt]. do 3 estep. unfold usub. wp_exact; [unfold in_u in *; lia|].
  apply wp_when; intros _.
  - do 2 estep. apply flush_stepped; [done..| |done|done]. cbn [inner]. by inv_fields.
  - apply after_quiet; try done; cbn [inner]; [|by eapply settled_core, Hx|by left].
    apply (endpoint_ok_core _ _ _ (eng x)); [done| |apply Hx]. by inv_fields.
Qed.

Lemma keep_alive_stepped :
  wp checked_overflow keep_alive_probe
    (λ _ s', stepped p rcvd x (after x OpKeepAliveProbe (Ok RUnit) s'))
    (λ err s', stepped p rcvd x (after x OpKeepAliveProbe (Err err) s')) (pe_st x).
Proof.
  pose proof (ep_inv _ _ _ _ (po_end _ _ _ Hx)) as HI. unfold keep_alive_probe, set_probe. do 2 estep.
  apply flush_stepped; [done..| |done|done]. cbn [inner].
  pose proof (flags_or _ IKCP_ASK_SEND (i_probe _ HI) ltac:(unfold IKCP_ASK_SEND; lia)).
  inv_fields. destruct i_probe. by constructor.
Qed.

(** What a refused [send] left queued, from the data it did not take. *)
Lemma queued_rest data k (e e' : KcpEngine) :
  queue_payload (e_snd_queue e') ++ drop k data = queue_payload (e_snd_queue e) ++ data → drop k data ≠ [] →
  queue_payload (e_snd_queue e') = queue_payload (e_snd_queue e) ++ queued data e e'.
Proof.
  intros Hpay Hkd. pose proof (f_equal length Hpay) as Hk. rewrite !length_app, length_drop in Hk.
  assert (k < length data)%nat. { destruct (decide (k < length data)%nat); [done|]. destruct Hkd. apply drop_ge. lia. }
  unfold queued. replace (_ - _)%nat with k by lia.
  apply (app_inv_tail (drop k data)). by rewrite Hpay, <- (assoc (++)), take_drop.
Qed.

Lemma send_stepped data :
  wp checked_overflow (send data) (λ _ s', stepped p rcvd x (after x (OpSend data) (Ok RUnit) s'))
    (λ err s', stepped p rcvd x (after x (OpSend data) (Err err) s')) (pe_st x).
Proof.
  pose proof (ep_inv _ _ _ _ (po_end _ _ _ Hx)) as HI. pose proof (windows_mss _ (i_config _ HI)) as Hm.
  assert (Hmax : max_frags (eng x) ≤ 128) by (unfold max_frags, IKCP_WND_RCV; lia).
  assert (Hzero : ∀ q q', map frg q' = map frg q → Forall (λ seg, frg seg = 0) q → Forall (λ seg, frg seg = 0) q').
  { intros q q' Hq H. apply (Forall_map frg (λ z, z = 0)). rewrite Hq. by apply (Forall_map frg (λ z, z = 0)). }
  assert (Hlq : ∀ q q', map frg q' = map frg q → length q' = length q).
  { intros q q' H. apply (f_equal length) in H. by rewrite !length_map in H. }
  eapply wp_mono; [by apply send_spec|..]; cbv beta.
  - intros [] s' (HI' & Hf & [[-> Hq]|(Hd & r & q & (Hpay & Hrne & Hno & Hfrg & _) & Hr)]).
    { apply (after_send _ _ _ []); [done|done|by rewrite Hq|done|done|by rewrite Hq, app_nil_r|].
      destruct (stream_of x); [by rewrite Hq|by left]. }
    apply (after_send _ _ _ data); [done|done| |done|done| |].
    + rewrite <- (Hlq _ _ Hfrg). destruct r; [|by rewrite Hr].
      destruct Hr as (_ & segs & -> & _). rewrite length_app. lia.
    + rewrite <- Hpay. destruct r as [d|]; [|by rewrite Hr, app_nil_r].
      destruct Hr as (_ & segs & -> & Hfr). rewrite queue_payload_app. cbn. f_equal.
      eapply fragments_payload; [|intros H; apply Hrne; by rewrite H|done]. lia.
    + unfold stream_of. destruct (c_stream_mode (e_config (eng x))).
      * intros H0. pose proof (Hzero _ _ Hfrg H0) as H1. destruct r; [|by rewrite Hr].
        destruct Hr as (_ & segs & -> & _ & Hg). apply Forall_app. split; [done|].
        apply (Forall_map frg (λ z, z = 0)). rewrite Hg. apply Forall_map. by apply Forall_forall.
      * right. destruct (Hno eq_refl) as [-> ->]. destruct Hr as (Hc & segs & Hq & Hfr).
        exists segs. split_and!; [done| | |done].
        2: { destruct Hfr as [_ Hg]. apply (f_equal length) in Hg. rewrite !length_map, length_seqZ in Hg.
             unfold len. destruct (frag_count_bounds (mss_of (e_config (eng x))) data ltac:(lia) Hd) as [? _]. lia. }
        eapply (fragments_framed (mss_of (e_config (eng x)))); [lia|done|lia| |done].
        pose proof (i_snd_queue _ HI') as Hall. rewrite Hq in Hall. apply Forall_app in Hall as [_ Hall].
        eapply Forall_impl; [exact Hall|]. intros seg [_ Hl _ _ _ _] Hnil. rewrite Hnil in Hl. unfold len in Hl. cbn in Hl. lia.
  - intros err s' (HI' & Hf & d & (Hpay & Hne & Hno & Hfrg & Hdrop & _) & _ & _). cbn in Hpay.
    set (new := queued data (eng x) (inner s')).
    assert (Hnew : queue_payload (e_snd_queue (inner s')) = queue_payload (e_snd_queue (eng x)) ++ new).
    { destruct (Hdrop d eq_refl) as [k ->]. by apply (queued_rest data k); [|congruence]. }
    apply (after_send _ _ _ new); [done|done|by rewrite <- (Hlq _ _ Hfrg)|done|done|done|].
    unfold stream_of. destruct (c_stream_mode (e_config (eng x))); [by apply Hzero|]. left.
    destruct (Hno eq_refl) as [_ Hq]. split; [|done]. rewrite Hq in Hnew.
    apply (app_inv_head (queue_payload (e_snd_queue (eng x)))). by rewrite <- Hnew, app_nil_r.
Qed.

(** ** Any operation *)

Lemma arriving_wire seg : arriving p rcvd (wire_segment seg) ↔ arriving p rcvd seg.
Proof. split; intros [? ? ? ?]; by split. Qed.

Lemma carries_arriving d :
  carries (arriving p rcvd) d → Forall (λ y, arriving p rcvd y.1) (parse_all (S (length d)) d).
Proof.
  intros (segs & Hs & Hw & ->). unfold segments_bytes in *.
  apply (Forall_map fst (arriving p rcvd)). rewrite parse_all_bytes; [|done|].
  - apply Forall_map. eapply Forall_impl; [exact Hw|]. intros seg. by apply arriving_wire.
  - pose proof (length_concat_segments segs). lia.
Qed.

Lemma perform_stepped net o :
  (∃ msgs, p `prefix_of` concat msgs ∧ Forall framed msgs) → Forall (carries (arriving p rcvd)) net →
  op_ok o → (∀ d, o = OpInput d → may_arrive net x d) →
  wp checked_overflow (perform o) (λ a s', stepped p rcvd x (after x o (Ok a) s'))
    (λ err s', stepped p rcvd x (after x o (Err err) s')) (pe_st x).
Proof.
  intros Hmsgs Hnet Ho Har. pose proof (po_end _ _ _ Hx) as He. pose proof (ep_inv _ _ _ _ He) as HI.
  destruct o as [|data| |data| | | | |c]; cbn [perform]; estep.
  - unfold start. do 2 estep. apply after_quiet; try done; [by eapply settled_core, Hx|by left].
  - eapply wp_mono; [apply send_stepped|intros [] s' H; by estep|done].
  - eapply wp_mono; [apply (wp_keeps e_config); [apply keeps_recv, _|by apply recv_spec]| |by intros ? ? [[] _]].
    intros r s' [[HI' Hr] Hc]. cbv beta. estep. by apply after_recv.
  - assert (Hall : Forall (λ y, h_conv (s_header y.1) = e_conv (eng x) → arriving p rcvd y.1) (parse_all (S (length data)) data)).
    { destruct (Har data eq_refl) as [Hin|Hf].
      - rewrite Forall_forall in Hnet. eapply Forall_impl; [by apply carries_arriving, Hnet|]. done.
      - eapply Forall_impl; [exact Hf|]. done. }
    assert (Hq : ∀ r s', going (pe_hist x) p (concat done) rcvd (eng x) (inner s') →
      e_config (inner s') = e_config (eng x) → match r with Ok RUnit | Err _ => True | _ => False end →
      stepped p rcvd x (after x (OpInput data) r s')).
    { intros r s' [He' [Hl Hout Hk _ _ Hst]] Hc Hr. pose proof (Hst (po_settled _ _ _ Hx)). unfold outside in Hout. injection Hout as _ _ Hsq _ _.
      apply after_quiet; try done. by destruct r as [[]| |]. }
    assert (Hlim : 0 ≤ limit_of (eng x)).
    { pose proof (i_rcv_nxt _ HI) as [H0 _]. pose proof (wo_rcv _ (i_config _ HI)). unfold limit_of. lia. }
    pose proof (input_going (pe_hist x) p (concat done) rcvd 0 Hh Hp (or_intror (Z.le_refl 0)) data (pe_st x) Hlim He Hall) as Hin.
    eapply wp_mono; [apply (wp_keeps e_config); [apply keeps_input, _|exact Hin]|..].
    + intros [] s' [[Hg _] Hc]. cbv beta. estep. by apply Hq.
    + intros err s' [Hg Hc]. by apply Hq.
  - eapply wp_mono; [by apply (flush_stepped OpFlush)|intros [] s' H; by estep|done].
  - eapply wp_mono; [apply update_stepped|intros [] s' H; by estep|done].
  - eapply wp_mono; [apply keep_alive_stepped|intros [] s' H; by estep|done].
  - unfold drain_output. do 6 estep. destruct (drain_endpoint _ _ _ _ He) as [Hd He'].
    apply after_quiet; try done; [exact (po_settled _ _ _ Hx)|by left].
  - unfold set_conv. do 2 estep. apply after_quiet; try done; cbn [inner]; [|by eapply settled_core, Hx|by left].
    apply (endpoint_ok_core _ _ _ (eng x)); [done| |done]. cbn in Ho. by inv_fields.
Qed.
End PeerFacts.

(** * What holds of both *)

Lemma peer_ok_peer p p' done x : p `prefix_of` p' → peer_ok p done x → peer_ok p' done x.
Proof. intros Hp []. split; try done. by eapply endpoint_ok_peer. Qed.

(** What [x] has numbered is in its send buffer until [y] has it. *)
Definition held (x y : Peer) : Prop := ∀ n, 0 ≤ n < len (pe_hist x) →
  n ∈ map sn (e_snd_buf (eng x)) ∨ received (eng y) n.

Record link_ok (l : Link) : Prop := {
  lk_a : ∃ done, peer_ok (pe_hist (side_b l)) done (side_a l);
  lk_b : ∃ done, peer_ok (pe_hist (side_a l)) done (side_b l);
  lk_ab : held (side_a l) (side_b l);
  lk_ba : held (side_b l) (side_a l);
}.

Lemma after_hist x o r s' : pe_hist x `prefix_of` pe_hist (after x o r s').
Proof. cbn. unfold extended. by apply prefix_app_r. Qed.

Section LinkFacts.
Context {api : BytesApi} {spec : BytesApiSpec api}.

Lemma wire_arriving h p done x d :
  endpoint_ok h p done (eng x) → len p ≤ H31 →
  carries (wire_ok h (eng x)) d → carries (arriving h (received (eng x))) d.
Proof.
  intros [_ _ [Rn Rq _ _] _] Hp. apply carries_impl. intros seg [Wp Wu Wa].
  apply prefix_length in Rq. rewrite length_app, length_map in Rq.
  split; [done|unfold len in *; lia| |done]. intros n Hn. left. lia.
Qed.

Lemma peer_step_ok prof clk a b a' done_a done_b :
  peer_ok (pe_hist b) done_a a → peer_ok (pe_hist a) done_b b → held a b → held b a →
  len (pe_hist a) ≤ H31 → len (pe_hist b) ≤ H31 → peer_step prof clk (pe_net b) a a' →
  (∃ done, peer_ok (pe_hist b) done a') ∧ peer_ok (pe_hist a') done_b b ∧ held a' b ∧ held b a'.
Proof.
  intros Ha Hb Hab Hba Hla Hlb Hstep. destruct Hstep as [a o r s' Ho Har Hrun Hnp|a n].
  2: { split_and!; [exists done_a; by destruct Ha as [? ? ? ? ? []]|done..]. }
  pose proof (perform_stepped (pe_hist b) (received (eng b)) done_a a Ha Hla Hlb (pe_net b) o) as Hw.
  assert (Hst : stepped (pe_hist b) (received (eng b)) a (after a o r s')).
  { destruct (sent_frames b (ep_inv _ _ _ _ (po_end _ _ _ Hb)) (po_sent _ _ _ Hb)) as (msgs & Hm1 & Hm2 & _).
    specialize (Hw ltac:(exists msgs; rewrite <- Hm1; split; [by apply prefix_app_r|done])).
    specialize (Hw ltac:(eapply Forall_impl; [apply (po_net _ _ _ Hb)|];
      intros d; eapply wire_arriving; [apply Hb|done]) Ho Har).
    unfold wp in Hw. rewrite Hrun in Hw. destruct r as [v|err|q]; [done..|]. by destruct (Hnp q). }
  destruct Hst as (done & Ha' & [Hl Hh Hk Hn]). split_and!; [by exists done|by eapply peer_ok_peer| |].
  - intros n Hn'. destruct (Z.lt_ge_cases n (len (pe_hist a))) as [Hlt|Hge]; [|left; apply Hn; lia].
    destruct (Hab n ltac:(lia)) as [H|H]; [by apply Hk|by right].
  - intros n Hn'. destruct (Hba n Hn') as [H|H]; [by left|right]. by apply Hl.
Qed.

Lemma fresh_ok clk x : fresh clk x → pe_hist x = [] ∧ peer_ok [] [] x.
Proof.
  intros (conv & c & s & e & s' & Hconv & Hc & Hm & Hs & Hr & He & ->). split; [done|].
  assert (HI : Inv e) by exact (wp_ok no_panic _ (λ e _, Inv e) (λ _ _, False) _ _ _
    (new_inv (S := ()) (E := KcpCoreError) conv c _ _ s Hconv Hc Hm Hs Hr (λ _ _ HI _, HI)) He).
  assert (Hf : core e = (0, [], 0, [], ∅, [], [], c_rcv_wnd c) ∧ e_snd_queue e = []).
  { unfold new in He. cbn in He. by injection He as <- <-. }
  destruct Hf as [Hcore Hq]. unfold core in Hcore. injection Hcore as C1 C2 C3 C4 C5 C6 C7 _.
  split; cbn.
  - split; [done|split|split|]; rewrite ?C1, ?C2, ?C3, ?C4, ?C5, ?C6, ?C7; try done; try by apply Forall_nil.
    apply carries_nil.
  - by apply Forall_nil.
  - done.
  - by apply Forall_nil.
  - left. by rewrite C5.
  - split; unfold frames; cbn; rewrite ?Hq; [done|by apply Forall_nil|].
    destruct (stream_of _); [by apply Forall_nil|]. by exists [].
Qed.

Lemma peer_step_hist prof clk net x x' : peer_step prof clk net x x' → pe_hist x `prefix_of` pe_hist x'.
Proof. intros [? ? ? ? _ _ _ _|]; [apply after_hist|done]. Qed.

Lemma link_hist clk_a clk_b prof_a prof_b l l' : link_step prof_a prof_b clk_a clk_b l l' → bounded l' → bounded l.
Proof.
  intros Hs [Ha Hb]. destruct Hs as [a a' b Hs|a b b' Hs]; cbn [side_a side_b] in *;
    pose proof (prefix_length _ _ (peer_step_hist _ _ _ _ _ Hs)); split; cbn [side_a side_b]; unfold len in *; lia.
Qed.

Lemma linked_ok prof_a prof_b clk_a clk_b l :
  linked prof_a prof_b clk_a clk_b l → bounded l → link_ok l.
Proof.
  induction 1 as [a b Ha Hb|l l' _ IH Hs]; intros Hbd.
  - apply fresh_ok in Ha as [Hha Ha]. apply fresh_ok in Hb as [Hhb Hb].
    split; cbn [side_a side_b]; [rewrite Hhb; by exists []|rewrite Hha; by exists []|..];
      intros n; rewrite ?Hha, ?Hhb; unfold len; cbn; lia.
  - pose proof (link_hist _ _ _ _ _ _ Hs Hbd) as [H1 H2]. destruct (IH (conj H1 H2)) as [[da Ka] [db Kb] Kab Kba].
    destruct Hs as [a a' b Hs|a b b' Hs]; cbn [side_a side_b] in *.
    + destruct (peer_step_ok _ _ a b a' da db Ka Kb Kab Kba H1 H2 Hs) as (? & ? & ? & ?). split; [done|by exists db|done..].
    + destruct (peer_step_ok _ _ b a b' db da Kb Ka Kba Kab H2 H1 Hs) as (? & ? & ? & ?). split; [by exists da|done..].
Qed.

(** As no segment is empty, a bound on the bytes sent will do. *)
Lemma payload_segments h : Forall (λ c, 0 < len c.2 < H31) h → len h ≤ len (payload h).
Proof.
  induction 1 as [|c h Hc _ IH]; [done|]. unfold payload in *. cbn [map concat]. rewrite len_cons, len_app. lia.
Qed.
Lemma hist_bytes x : sent_ok x → len (pe_hist x) ≤ len (concat (pe_sent x)).
Proof.
  intros [Hb Hz _]. pose proof (payload_segments _ Hz) as H. rewrite Hb in H. unfold frames in H.
  rewrite len_app in H. pose proof (len_nonneg (map cell_of (e_snd_queue (eng x)))). lia.
Qed.

Lemma peer_step_sent prof clk net x x' : peer_step prof clk net x x' → pe_sent x `prefix_of` pe_sent x'.
Proof. intros [? ? ? ? _ _ _ _|]; [by apply prefix_app_r|done]. Qed.
Lemma sent_bytes_mono (l l' : list bytes) : l `prefix_of` l' → len (concat l) ≤ len (concat l').
Proof. intros [k ->]. rewrite concat_app, len_app. pose proof (len_nonneg (concat k)). lia. Qed.

Lemma linked_bytes prof_a prof_b clk_a clk_b l :
  linked prof_a prof_b clk_a clk_b l →
  len (concat (pe_sent (side_a l))) ≤ H31 → len (concat (pe_sent (side_b l))) ≤ H31 → bounded l.
Proof.
  induction 1 as [a b Ha Hb|l l' Hl IH Hs]; intros H1 H2; cbn [side_a side_b] in *.
  - apply fresh_ok in Ha as [Hha _]. apply fresh_ok in Hb as [Hhb _].
    unfold bounded. cbn [side_a side_b]. rewrite Hha, Hhb. unfold len. cbn. lia.
  - assert (Hb : bounded l).
    { destruct Hs as [a a' b Hs|a b b' Hs]; cbn [side_a side_b] in *;
        pose proof (sent_bytes_mono _ _ (peer_step_sent _ _ _ _ _ Hs)); apply IH; lia. }
    destruct (linked_ok _ _ _ _ _ Hl Hb) as [[da Ka] [db Kb] Kab Kba]. destruct Hb as [B1 B2].
    destruct Hs as [a a' b Hs|a b b' Hs]; cbn [side_a side_b] in *.
    + destruct (peer_step_ok _ _ a b a' da db Ka Kb Kab Kba B1 B2 Hs) as ([d [? ? ? ? ? Hok]] & _).
      pose proof (hist_bytes _ Hok). split; cbn; lia.
    + destruct (peer_step_ok _ _ b a b' db da Kb Ka Kba Kab B2 B1 Hs) as ([d [? ? ? ? ? Hok]] & _).
      pose proof (hist_bytes _ Hok). split; cbn; lia.
Qed.
(** Both engines are in order, however long the histories. *)
Lemma fresh_good clk x : fresh clk x → good (eng x).
Proof.
  intros (conv & c & s & e & s' & Hconv & Hc & Hm & Hs & Hr & He & ->).
  exact (wp_ok no_panic _ (λ e _, good e) (λ _ _, False) _ _ _
    (new_inv (S := ()) (E := KcpCoreError) conv c _ _ s Hconv Hc Hm Hs Hr (λ _ _ HI Ht, conj HI Ht)) He).
Qed.
Lemma peer_step_good prof clk net x x' : peer_step prof clk net x x' → good (eng x) → good (eng x').
Proof.
  intros [x1 o r s' Ho _ Hrun Hnp|x1 n] Hg; [|done]. pose proof (perform_good o (pe_st x1) Ho Hg) as Hw.
  unfold wp in Hw. rewrite Hrun in Hw. destruct r as [v|err|q]; [done..|]. by destruct (Hnp q).
Qed.
Lemma linked_good prof_a prof_b clk_a clk_b l :
  linked prof_a prof_b clk_a clk_b l → good (eng (side_a l)) ∧ good (eng (side_b l)).
Proof.
  induction 1 as [a b Ha Hb|l l' _ [IHa IHb] Hs].
  - split; [apply (fresh_good clk_a)|apply (fresh_good clk_b)]; done.
  - destruct Hs as [a a' b Hs|a b b' Hs]; cbn [side_a side_b] in *; (split; [|try done]); try done;
      exact (peer_step_good _ _ _ _ _ Hs ltac:(assumption)).
Qed.
(** Runs of an end are steps of the link. *)
Lemma peer_step_net prof clk net net' x x' :
  net ⊆ net' → peer_step prof clk net x x' → peer_step prof clk net' x x'.
Proof.
  intros Hn [x1 o r s' Ho Har Hp Hq|x1 n]; [apply peer_call; try done|apply peer_wait].
  intros d Hd. destruct (Har d Hd) as [H|H]; [left; by apply Hn|by right].
Qed.

Lemma linked_runs_a prof_a prof_b clk_a clk_b net x x' y :
  linked prof_a prof_b clk_a clk_b (Build_Link x y) → net ⊆ pe_net y → rtc (peer_step prof_a clk_a net) x x' →
  linked prof_a prof_b clk_a clk_b (Build_Link x' y).
Proof.
  intros Hl Hn Hr. revert Hl. induction Hr as [|x1 x2 x3 Hs _ IH]; [done|]. intros Hl. apply IH.
  eapply linked_step; [exact Hl|]. apply step_a. by eapply peer_step_net.
Qed.
Lemma linked_runs_b prof_a prof_b clk_a clk_b net x y y' :
  linked prof_a prof_b clk_a clk_b (Build_Link x y) → net ⊆ pe_net x → rtc (peer_step prof_b clk_b net) y y' →
  linked prof_a prof_b clk_a clk_b (Build_Link x y').
Proof.
  intros Hl Hn Hr. revert Hl. induction Hr as [|y1 y2 y3 Hs _ IH]; [done|]. intros Hl. apply IH.
  eapply linked_step; [exact Hl|]. apply step_b. by eapply peer_step_net.
Qed.
Lemma peer_runs_hist prof clk net x x' : rtc (peer_step prof clk net) x x' → pe_hist x `prefix_of` pe_hist x'.
Proof. induction 1 as [|x1 x2 x3 Hs _ IH]; [done|]. etrans; [by eapply peer_step_hist|done]. Qed.
End LinkFacts.

(** ** What one end delivers of what the other sent *)

Lemma payload_prefix h h' : h `prefix_of` h' → payload h `prefix_of` payload h'.
Proof. intros [k ->]. rewrite payload_app. by apply prefix_app_r. Qed.

Lemma concat_payload gs : concat (map payload gs) = payload (concat gs).
Proof. induction gs as [|g gs IH]; cbn [map concat]; [done|]. by rewrite payload_app, IH. Qed.

Section Direction.
Context {done : list (list cell)} {x y : Peer}.
Context (Hy : peer_ok (pe_hist x) done y) (Hs : sent_ok x) (HIx : Inv (eng x)).

Lemma done_prefix : concat done `prefix_of` frames x.
Proof.
  destruct (rc_queue _ _ _ (ep_receiver _ _ _ _ (po_end _ _ _ Hy))) as [k Hk].
  unfold frames. rewrite Hk, <- !(assoc (++)). by apply prefix_app_r.
Qed.

Lemma bytes_prefix : concat (pe_got y) `prefix_of` concat (pe_sent x).
Proof.
  rewrite (po_got _ _ _ Hy), concat_payload, <- (so_bytes _ Hs). apply payload_prefix, done_prefix.
Qed.

Lemma messages_prefix : stream_of x = false → pe_got y `prefix_of` nonempty (pe_sent x).
Proof.
  intros Hm. pose proof (so_msgs _ Hs) as H. rewrite Hm in H. destruct H as (msgs & Hf & Hmf & _ & <-).
  pose proof done_prefix as Hd. rewrite Hf in Hd. apply framed_prefix in Hd as [k ->]; [|apply Hy|done].
  rewrite (po_got _ _ _ Hy), map_app. by apply prefix_app_r.
Qed.

(** The segments that wait in the reorder buffer, when none is missing. *)
Lemma waiting_segments (k : nat) : ∀ start,
  (∀ n, start ≤ n < start + Z.of_nat k → is_Some (e_rcv_buf (eng y) !! n)) →
  ∃ rest, map sn rest = seqZ start (Z.of_nat k) ∧ Forall (λ seg, e_rcv_buf (eng y) !! sn seg = Some seg) rest.
Proof.
  induction k as [|k IH]; intros start H; [by exists []|].
  destruct (H start ltac:(lia)) as [seg Hseg].
  destruct (IH (start + 1)) as (rest & Hr1 & Hr2); [intros n Hn; apply H; lia|].
  pose proof (i_rcv_buf _ (ep_inv _ _ _ _ (po_end _ _ _ Hy)) _ _ Hseg) as (Hsn & _ & _).
  exists (seg :: rest). rewrite seqZ_cons by lia. cbn [map]. rewrite Hr1, <- Hsn. split.
  - do 2 f_equal; lia.
  - constructor; [by rewrite <- Hsn|done].
Qed.

Lemma nothing_held :
  held x y → has_unsent_data_of (eng x) = false →
  ∃ rest, map sn rest = seqZ (e_rcv_nxt (eng y)) (len rest) ∧
    Forall (λ seg, e_rcv_buf (eng y) !! sn seg = Some seg) rest ∧
    concat (pe_sent x) = concat (pe_got y) ++ queue_payload (e_rcv_queue (eng y) ++ rest).
Proof.
  intros Hh Hu. unfold has_unsent_data_of in Hu. apply orb_false_iff in Hu as [Hq Hb].
  apply negb_false_iff, is_empty_true in Hq, Hb. unfold held in Hh. rewrite Hb in Hh.
  destruct (po_end _ _ _ Hy) as [HI _ [Rn Rq Rb _] _]. destruct Rq as [k Hk].
  assert (Hlen : len (pe_hist x) = e_rcv_nxt (eng y) + len k).
  { rewrite Hk, !len_app, Rn. unfold len. rewrite length_map. lia. }
  pose proof (proj1 (i_rcv_nxt _ HI)) as H0.
  destruct (waiting_segments (length k) (e_rcv_nxt (eng y))) as (rest & Hr1 & Hr2).
  { intros n Hn. destruct (Hh n) as [H|[H|H]]; [unfold len in *; lia|by apply elem_of_nil in H|lia|done]. }
  assert (Hlr : length rest = length k).
  { apply (f_equal length) in Hr1. rewrite length_map, length_seqZ in Hr1. lia. }
  exists rest. split_and!; [unfold len; by rewrite Hlr|done|].
  assert (Hcells : map cell_of rest = k).
  { apply list_eq. intros i. rewrite list_lookup_fmap. destruct (rest !! i) as [seg|] eqn:Hi.
    2: { apply lookup_ge_None in Hi. symmetry. apply lookup_ge_None. lia. }
    pose proof (lookup_lt_Some _ _ _ Hi). apply (f_equal (λ l, l !! i)) in Hr1.
    rewrite list_lookup_fmap, Hi, lookup_seqZ_lt in Hr1 by lia. cbn in Hr1. injection Hr1 as Hsn.
    pose proof (Forall_lookup_1 _ _ _ _ Hr2 Hi) as Hseg. cbn in Hseg. specialize (Rb _ _ Hseg). cbn in Rb.
    unfold numbered in Rb. rewrite Hsn, Rn, Hk in Rb.
    rewrite lookup_app_r in Rb by (rewrite length_app, length_map; unfold len; lia).
    cbn. rewrite <- Rb. f_equal. rewrite length_app, length_map. unfold len. lia. }
  rewrite <- (so_bytes _ Hs), (po_got _ _ _ Hy), concat_payload, queue_payload_app, <- !payload_cells, Hcells.
  unfold frames. rewrite Hq. cbn. by rewrite app_nil_r, Hk, !payload_app, (assoc (++)).
Qed.
(** What is still to be delivered, message by message. *)
Lemma messages_left : ∃ more, frames x = concat (done ++ more) ∧ Forall framed more ∧
  Forall (λ g, len g ≤ max_frags (eng x)) more ∧
  map cell_of (e_rcv_queue (eng y)) `prefix_of` concat more.
Proof.
  destruct (sent_frames x HIx Hs) as (msgs & Hf & Hm & Hl & _).
  pose proof done_prefix as Hd. rewrite Hf in Hd. apply framed_prefix in Hd as [more ->]; [|apply Hy|done].
  apply Forall_app in Hm as [_ Hm]. apply Forall_app in Hl as [_ Hl]. exists more. split_and!; [done..|].
  apply (prefix_app_inv (concat done)). rewrite <- concat_app, <- Hf.
  etrans; [apply (rc_queue _ _ _ (ep_receiver _ _ _ _ (po_end _ _ _ Hy)))|]. by apply prefix_app_r.
Qed.

(** [recv] returns nothing only while the next message is not all there. *)
Lemma recv_none_short e' g more :
  recv_post (eng y) None e' → map cell_of (e_rcv_queue (eng y)) `prefix_of` concat (g :: more) →
  framed g → len (e_rcv_queue (eng y)) < len g.
Proof.
  intros Hr Hq Hg. apply Z.lt_nge. intros Hl.
  destruct (framed_ready _ _ _ Hq Hg Hl) as (msg & rest & Hsplit & _ & Hc).
  by destruct (recv_post_complete _ _ _ _ _ Hc Hsplit Hr).
Qed.

(** A full receive queue holds a whole message, when the sender cuts no message
    into more segments than the queue takes. *)
Lemma full_queue_delivers e' :
  c_rcv_wnd (e_config (eng x)) ≤ c_rcv_wnd (e_config (eng y)) →
  c_rcv_wnd (e_config (eng y)) ≤ len (e_rcv_queue (eng y)) → ¬ recv_post (eng y) None e'.
Proof.
  intros Hw Hfull Hr. pose proof (wo_rcv _ (i_config _ (ep_inv _ _ _ _ (po_end _ _ _ Hy)))) as Hpos.
  destruct messages_left as ([|g more] & _ & Hm & Hl & Hq).
  - apply prefix_nil_inv, map_eq_nil in Hq. rewrite Hq in Hfull. unfold len in Hfull. cbn in Hfull. lia.
  - apply Forall_cons in Hm as [Hg _]. apply Forall_cons in Hl as [Hl _].
    pose proof (recv_none_short _ _ _ Hr Hq Hg). unfold max_frags in Hl. lia.
Qed.

Lemma all_delivered e' :
  held x y → has_unsent_data_of (eng x) = false → recv_post (eng y) None e' →
  c_rcv_wnd (e_config (eng x)) ≤ c_rcv_wnd (e_config (eng y)) →
  frames x = concat done.
Proof.
  intros Hh Hu Hr Hw. destruct (nothing_held Hh Hu) as (rest & Hsn & Hin & Hb).
  assert (Hrest : rest = []).
  { destruct (po_settled _ _ _ Hy) as [Hnone|Hfull]; [|by destruct (full_queue_delivers e' Hw Hfull)].
    destruct rest as [|seg rest]; [done|]. apply Forall_cons in Hin as [Hin _].
    rewrite len_cons, seqZ_cons in Hsn by (pose proof (len_nonneg rest); lia). cbn [map] in Hsn.
    injection Hsn as Hseg _. rewrite Hseg in Hin. congruence. }
  subst rest. rewrite app_nil_r in Hb. destruct messages_left as (more & Hf & Hm & _ & Hq).
  pose proof (so_bytes _ Hs) as Hp. rewrite Hb, Hf, concat_app, payload_app, (po_got _ _ _ Hy), concat_payload in Hp.
  apply app_inv_head in Hp. destruct Hq as [k Hk]. rewrite Hk, payload_app, payload_cells in Hp.
  rewrite <- (app_nil_r (queue_payload (e_rcv_queue (eng y)))) in Hp at 2. apply app_inv_head in Hp.
  assert (k = []) as ->.
  { destruct k as [|c k]; [done|]. pose proof (so_sizes _ Hs) as Hz.
    rewrite Hf, concat_app, Hk, !Forall_app in Hz. destruct Hz as (_ & _ & Hz).
    apply Forall_cons in Hz as [Hz _]. unfold payload in Hp. cbn in Hp. apply app_nil in Hp as [Hc _].
    rewrite Hc in Hz. unfold len in Hz. cbn in Hz. lia. }
  rewrite app_nil_r in Hk. rewrite Hf, concat_app. destruct more as [|g more]; [by rewrite app_nil_r|].
  apply Forall_cons in Hm as [Hg _].
  pose proof (recv_none_short e' g more Hr ltac:(by exists []; rewrite app_nil_r) Hg) as Hl.
  apply (f_equal len) in Hk. cbn in Hk. rewrite len_app in Hk. pose proof (len_nonneg (concat more)).
  unfold len in *. rewrite length_map in Hk. lia.
Qed.

Lemma all_got e' :
  held x y → has_unsent_data_of (eng x) = false → recv_post (eng y) None e' →
  c_rcv_wnd (e_config (eng x)) ≤ c_rcv_wnd (e_config (eng y)) →
  concat (pe_got y) = concat (pe_sent x) ∧
  (c_stream_mode (e_config (eng x)) = false → pe_got y = nonempty (pe_sent x)).
Proof.
  intros Hh Hu Hr Hw. pose proof (all_delivered _ Hh Hu Hr Hw) as Hall. split.
  - by rewrite (po_got _ _ _ Hy), concat_payload, <- Hall, (so_bytes _ Hs).
  - intros Hm. pose proof (so_msgs _ Hs) as Hmsgs. unfold stream_of in Hmsgs. rewrite Hm in Hmsgs.
    destruct Hmsgs as (msgs & Hf & Hfr & _ & <-). rewrite (po_got _ _ _ Hy). f_equal.
    rewrite Hall in Hf. pose proof (po_done _ _ _ Hy) as Hd.
    destruct (framed_prefix done msgs Hd Hfr) as [k ->]; [by rewrite Hf|].
    rewrite concat_app in Hf. rewrite <- (app_nil_r (concat done)) in Hf at 1. apply app_inv_head in Hf.
    apply Forall_app in Hfr as [_ Hfr]. destruct k as [|g k]; [by rewrite app_nil_r|].
    apply Forall_cons in Hfr as [Hg _]. apply framed_nonempty in Hg. cbn in Hf. by destruct g.
Qed.

(** [recv] that returns nothing leaves the queue alone. *)
Lemma none_read e' : recv_post (eng y) None e' → e_rcv_queue e' = e_rcv_queue (eng y).
Proof.
  intros Hr. destruct messages_left as (more & _ & Hm & _ & Hq).
  destruct (recv_takes_message _ _ _ _ Hr Hq Hm) as (popped & rest & Hsplit & -> & ->). by rewrite Hsplit.
Qed.
End Direction.

Section LinkTheorems.
Context {api : BytesApi} {spec : BytesApiSpec api}.
Context (prof_a prof_b : Profile) (clk_a clk_b : Clock) (l : Link) (x y : Peer).

Lemma ends_ok :
  linked prof_a prof_b clk_a clk_b l → bounded l → ends l x y →
  (∃ done, peer_ok (pe_hist x) done y) ∧ sent_ok x ∧ Inv (eng x) ∧ held x y.
Proof.
  intros Hl Hb He. destruct (linked_ok _ _ _ _ _ Hl Hb) as [[da Ka] [db Kb] Kab Kba].
  destruct He as [[-> ->]|[-> ->]].
  - split_and!; [by exists db|by apply Ka|apply (ep_inv _ _ _ _ (po_end _ _ _ Ka))|done].
  - split_and!; [by exists da|by apply Kb|apply (ep_inv _ _ _ _ (po_end _ _ _ Kb))|done].
Qed.

(** * Theorems *)

(** Whatever the network does, the bytes an application gets are the bytes the
    other sent, in order, none missing or repeated, up to some point; both
    ways, in message and in stream mode. *)
Theorem delivered_prefix :
  linked prof_a prof_b clk_a clk_b l → bounded l → ends l x y →
  concat (pe_got y) `prefix_of` concat (pe_sent x).
Proof. intros Hl Hb He. destruct (ends_ok Hl Hb He) as ([d Hy] & Hs & _). by eapply bytes_prefix. Qed.

(** In message mode the messages an application gets are the messages the other
    sent, each whole, in order, none missing or repeated, up to some point
    (an empty message is not sent). *)
Theorem messages_in_order :
  linked prof_a prof_b clk_a clk_b l → bounded l → ends l x y →
  c_stream_mode (e_config (eng x)) = false →
  pe_got y `prefix_of` nonempty (pe_sent x).
Proof. intros Hl Hb He Hm. destruct (ends_ok Hl Hb He) as ([d Hy] & Hs & _). by eapply messages_prefix. Qed.

(** C12: nothing is lost: a segment stays in the send buffer until the peer has it, so
    when an end has nothing unsent or unacknowledged (which is when the actor
    ends a closing connection), all it sent is at the other end: got, queued in
    order, or in the reorder buffer with no gap. *)
Theorem nothing_lost :
  linked prof_a prof_b clk_a clk_b l → bounded l → ends l x y →
  (∀ n, 0 ≤ n < len (pe_hist x) → n ∈ map sn (e_snd_buf (eng x)) ∨ received (eng y) n) ∧
  (has_unsent_data_of (eng x) = false → let e := eng y in
     ∃ rest, map sn rest = seqZ (e_rcv_nxt e) (len rest) ∧
       Forall (λ seg, e_rcv_buf e !! sn seg = Some seg) rest ∧
       concat (pe_sent x) = concat (pe_got y) ++ queue_payload (e_rcv_queue e ++ rest)).
Proof.
  intros Hl Hb He. destruct (ends_ok Hl Hb He) as ([d Hy] & Hs & _ & Hh). split; [exact Hh|].
  intros Hu. by eapply nothing_held.
Qed.

(** C15: with a receive window at least as large as the sender's the receive side does
    not wedge: a full receive queue holds a whole message, so [recv] returns one
    and makes room. *)
Theorem full_queue_is_readable {prof : Profile} {clk : Clock} :
  linked prof_a prof_b clk_a clk_b l → bounded l → ends l x y →
  c_rcv_wnd (e_config (eng x)) ≤ c_rcv_wnd (e_config (eng y)) →
  c_rcv_wnd (e_config (eng y)) ≤ len (e_rcv_queue (eng y)) →
  wp checked_overflow recv (λ r _, ∃ msg, r = Some msg ∧ msg ≠ []) (λ _ _, False) (pe_st y).
Proof.
  intros Hl Hb He Hw Hfull. destruct (ends_ok Hl Hb He) as ([d Hy] & Hs & HIx & _).
  eapply wp_post; [apply recv_spec, (ep_inv _ _ _ _ (po_end _ _ _ Hy))|].
  intros r s' [_ Hr]. cbv beta. destruct r as [msg|].
  - exists msg. split; [done|]. destruct Hr as (? & ? & _ & _ & [Hne _] & _). done.
  - by destruct (full_queue_delivers Hy Hs HIx _ Hw Hfull Hr).
Qed.

(** When an end has nothing unsent or unacknowledged and the other's [recv] has
    nothing to return, everything sent was delivered. *)
Theorem everything_delivered {prof : Profile} {clk : Clock} s' :
  linked prof_a prof_b clk_a clk_b l → bounded l → ends l x y →
  c_rcv_wnd (e_config (eng x)) ≤ c_rcv_wnd (e_config (eng y)) →
  has_unsent_data_of (eng x) = false → recv (pe_st y) = (Ok None, s') →
  concat (pe_got y) = concat (pe_sent x) ∧
  (c_stream_mode (e_config (eng x)) = false → pe_got y = nonempty (pe_sent x)).
Proof.
  intros Hl Hb He Hw Hu Hrun. destruct (ends_ok Hl Hb He) as ([d Hy] & Hs & HIx & Hh).
  pose proof (wp_ok _ _ _ _ _ _ _ (recv_spec _ (ep_inv _ _ _ _ (po_end _ _ _ Hy))) Hrun) as [_ Hr].
  by eapply (all_got Hy Hs HIx).
Qed.
End LinkTheorems.

(** * A run *)

Module LinkSample.
(** Either end makes a call, or gets the [i]-th datagram of the other. *)
Inductive move := Call (o : op) | Deliver (i : nat).

Definition op_of (m : move) (y : Peer) : option op :=
  match m with
  | Call (OpInput _ | OpSetConv _) => None
  | Call o => Some o
  | Deliver i => OpInput <$> pe_net y !! i
  end.

Definition did (prof : Profile) (clk : Clock) (x : Peer) (o : op) : option Peer :=
  match perform (prof := prof) (clk := clk) (api := bytes_le) o (pe_st x) with
  | (Panicked _, _) => None
  | (r, s') => Some (after x o r s')
  end.

Definition prof_a : Profile := debug_build.
Definition prof_b : Profile := release_build.
Definition clk_a : Clock := Sample.clock.
Definition clk_b : Clock := λ n, 5000 + 3 * Z.of_nat n.

Definition moved_by (l : Link) (m : bool * move) : option Link :=
  if m.1 then
    o ← op_of m.2 (side_b l); a ← did prof_a clk_a (side_a l) o; Some (Build_Link a (side_b l))
  else
    o ← op_of m.2 (side_a l); b ← did prof_b clk_b (side_b l) o; Some (Build_Link (side_a l) b).

Fixpoint run (l : Link) (ms : list (bool * move)) : option Link :=
  match ms with
  | [] => Some l
  | m :: ms => l ← moved_by l m; run l ms
  end.

Lemma did_step prof clk x y m o x' :
  op_of m y = Some o → did prof clk x o = Some x' → peer_step (api := bytes_le) prof clk (pe_net y) x x'.
Proof.
  intros Ho Hd. unfold did in Hd. destruct (perform o (pe_st x)) as [r s'] eqn:Hr.
  assert (x' = after x o r s' ∧ ∀ q, r ≠ Panicked q) as [-> Hq] by (by destruct r; simplify_eq).
  apply peer_call; [| |done..].
  - by destruct m as [[]|i]; cbn in Ho; simplify_option_eq.
  - intros d ->. left. destruct m as [[]|i]; cbn in Ho; simplify_option_eq. by eapply list_elem_of_lookup_2.
Qed.

Lemma run_linked ms : ∀ l l', linked (api := bytes_le) prof_a prof_b clk_a clk_b l → run l ms = Some l' →
  linked (api := bytes_le) prof_a prof_b clk_a clk_b l'.
Proof.
  induction ms as [|m ms IH]; intros l l' Hl Hr; cbn in Hr; [by simplify_eq|].
  destruct (moved_by l m) as [l1|] eqn:Hm; [|done]. apply (IH l1); [|done]. apply (linked_step _ _ _ _ l); [done|].
  unfold moved_by in Hm. destruct m as [[] m]; cbn in Hm; simplify_option_eq; destruct l as [a b].
  - apply step_a. by eapply did_step.
  - apply step_b. by eapply did_step.
Qed.

(** A receive window of two segments, so the queue fills. *)
Definition small : KcpCoreConfig := Sample.config <| c_rcv_wnd := 2 |> <| c_mtu := 50 |>.
Definition made (clk : Clock) : option Peer :=
  match new (clk := clk) (S := ()) (E := KcpCoreError) 7 small (Timed tt 0) with
  | (Ok e, s) => Some (Build_Peer (Timed e (ticks s)) [] [] [] [])
  | _ => None
  end.

Lemma made_fresh clk x : made clk = Some x → fresh clk x.
Proof.
  unfold made. intros H. destruct (new (clk := clk) 7 small (Timed tt 0)) as [[e|?|?] s] eqn:He; [|done..].
  injection H as <-. exists 7, small, (Timed tt 0), e, s.
  split_and!; [| |vm_compute; congruence..|done|done]; [vm_compute; split; congruence|split; vm_compute; split; congruence].
Qed.

(** Two messages, the first of two segments; the second datagram arrives first,
    one of them twice. *)
Definition long : bytes := repeat x61 30.
Definition script : list (bool * move) :=
  [(true, Call (OpSend long)); (true, Call (OpSend [])); (true, Call (OpSend [x62]));
   (true, Call OpFlush); (true, Call OpDrainOutput)].
Definition deliver : list (bool * move) :=
  [(false, Deliver 1); (false, Deliver 0); (false, Deliver 1)].
Definition acknowledge : list (bool * move) := [(false, Call OpFlush); (false, Call OpDrainOutput)].
Definition finish : list (bool * move) :=
  (false, Call OpRecv) :: (false, Deliver 2) :: (false, Call OpRecv) ::
  acknowledge ++ [(true, Deliver 0); (true, Deliver 1)].

Definition start (ms : list (bool * move)) : option Link :=
  a ← made clk_a; b ← made clk_b; run (Build_Link a b) ms.
Definition reached (ms : list (bool * move)) : Link :=
  default (Build_Link (Build_Peer Sample.state [] [] [] []) (Build_Peer Sample.state [] [] [] [])) (start ms).

Lemma reached_linked ms :
  bool_decide (is_Some (start ms)) = true → linked (api := bytes_le) prof_a prof_b clk_a clk_b (reached ms).
Proof.
  intros [l Hl]%bool_decide_eq_true. unfold reached. rewrite Hl. cbn. unfold start in Hl.
  destruct (made clk_a) as [a|] eqn:Ha; [|done]. destruct (made clk_b) as [b|] eqn:Hb; [|done].
  apply (run_linked ms (Build_Link a b)); [|done]. by apply linked_start; eapply made_fresh.
Qed.

(** The queue of [b] is full with the first message. *)
Definition full : Link := reached (script ++ deliver).
(** All is delivered and acknowledged. *)
Definition finished : Link := reached (script ++ deliver ++ finish).
End LinkSample.

Lemma delivered_prefix_witness :
  concat (pe_got (side_b LinkSample.finished)) `prefix_of` concat (pe_sent (side_a LinkSample.finished)) ∧
  pe_got (side_b LinkSample.finished) = [LinkSample.long; [x62]].
Proof.
  split; [|vm_compute; reflexivity].
  apply (delivered_prefix (api := bytes_le) LinkSample.prof_a LinkSample.prof_b LinkSample.clk_a LinkSample.clk_b
    LinkSample.finished); [apply LinkSample.reached_linked|split|left; split]; vm_compute; congruence || reflexivity.
Defined.

Lemma messages_in_order_witness :
  pe_got (side_b LinkSample.full) `prefix_of` nonempty [LinkSample.long; []; [x62]].
Proof.
  apply (messages_in_order (api := bytes_le) LinkSample.prof_a LinkSample.prof_b LinkSample.clk_a LinkSample.clk_b
    LinkSample.full (side_a LinkSample.full) (side_b LinkSample.full));
    [apply LinkSample.reached_linked|split|left; split|]; vm_compute; congruence || reflexivity.
Defined.

Lemma nothing_lost_witness :
  ∃ rest, map sn rest = seqZ 3 (len rest) ∧
    concat [LinkSample.long; []; [x62]] = concat (pe_got (side_b LinkSample.finished)) ++
      queue_payload (e_rcv_queue (eng (side_b LinkSample.finished)) ++ rest).
Proof.
  destruct (nothing_lost (api := bytes_le) LinkSample.prof_a LinkSample.prof_b LinkSample.clk_a LinkSample.clk_b
    LinkSample.finished (side_a LinkSample.finished) (side_b LinkSample.finished)) as [_ H];
    [apply LinkSample.reached_linked; vm_compute; reflexivity|split; vm_compute; congruence|by left|].
  destruct H as (rest & H1 & _ & H2); [vm_compute; reflexivity|]. exists rest. split; [exact H1|exact H2].
Defined.

Lemma full_queue_is_readable_witness :
  wp (@checked_overflow release_build) (recv (prof := release_build))
    (λ r _, ∃ msg, r = Some msg ∧ msg ≠ []) (λ _ _, False) (pe_st (side_b LinkSample.full)).
Proof.
  refine (full_queue_is_readable (api := bytes_le) (prof := release_build) (clk := LinkSample.clk_b)
    LinkSample.prof_a LinkSample.prof_b LinkSample.clk_a LinkSample.clk_b
    LinkSample.full (side_a LinkSample.full) (side_b LinkSample.full) _ _ _ _ _);
    [apply LinkSample.reached_linked; vm_compute; reflexivity|split; vm_compute; congruence|by left
    |vm_compute; congruence|vm_compute; congruence].
Defined.

Lemma everything_delivered_witness :
  pe_got (side_b LinkSample.finished) = nonempty [LinkSample.long; []; [x62]].
Proof.
  destruct (everything_delivered (api := bytes_le) (prof := release_build) (clk := LinkSample.clk_b) LinkSample.prof_a LinkSample.prof_b
    LinkSample.clk_a LinkSample.clk_b LinkSample.finished (side_a LinkSample.finished) (side_b LinkSample.finished)
    (recv (prof := release_build) (pe_st (side_b LinkSample.finished))).2) as [_ H];
    [apply LinkSample.reached_linked; vm_compute; reflexivity|split; vm_compute; congruence|by left
    |vm_compute; congruence|vm_compute; reflexivity|vm_compute; reflexivity|].
  exact (H eq_refl).
Defined.

(** The bound on the windows in [full_queue_is_readable] and in the theorems on
    complete delivery is needed.  [send] bounds a message by its own receive
    window, for the peer's is not known there; with a smaller one at the reader a
    message the writer accepts is received and acknowledged to the last segment,
    and yet [recv] finds no message, its queue full. *)
Module NarrowSample.
Import LinkSample.
Definition conf (wnd : Z) : KcpCoreConfig := Sample.config <| c_rcv_wnd := wnd |> <| c_mtu := 50 |>.
Definition made (wnd : Z) (clk : Clock) : option Peer :=
  match new (clk := clk) (S := ()) (E := KcpCoreError) 7 (conf wnd) (Timed tt 0) with
  | (Ok e, s) => Some (Build_Peer (Timed e (ticks s)) [] [] [] [])
  | _ => None
  end.
Lemma narrow_fresh wnd clk x : wnd = 2 ∨ wnd = 3 → made wnd clk = Some x → fresh clk x.
Proof.
  unfold made. intros Hw H. destruct (new (clk := clk) 7 (conf wnd) (Timed tt 0)) as [[e|?|?] s] eqn:He; [|done..].
  injection H as <-. exists 7, (conf wnd), (Timed tt 0), e, s.
  destruct Hw as [-> | ->]; (split_and!; [| |vm_compute; congruence..|done|done]; [vm_compute; split; congruence|split; vm_compute; split; congruence]).
Qed.
Definition message : bytes := repeat x61 60.
Definition moves : list (bool * move) :=
  [(true, Call (OpSend message)); (true, Call OpFlush); (true, Call OpDrainOutput);
   (false, Deliver 0); (false, Deliver 1); (false, Deliver 2); (false, Call OpFlush); (false, Call OpDrainOutput);
   (true, Deliver 0); (true, Deliver 1)].
Definition reached : option Link := a ← made 3 clk_a; b ← made 2 clk_b; run (Build_Link a b) moves.
Lemma narrow_linked l : reached = Some l → linked (api := bytes_le) prof_a prof_b clk_a clk_b l.
Proof.
  unfold reached. destruct (made 3 clk_a) as [a|] eqn:Ha; [|done]. destruct (made 2 clk_b) as [b|] eqn:Hb; [|done].
  apply run_linked, linked_start; [by apply (narrow_fresh 3); [right|]|by apply (narrow_fresh 2); [left|]].
Qed.
End NarrowSample.

Theorem narrow_reader_wedges :
  ∃ l, linked (api := bytes_le) LinkSample.prof_a LinkSample.prof_b LinkSample.clk_a LinkSample.clk_b l ∧
    pe_sent (side_a l) = [NarrowSample.message] ∧ has_unsent_data_of (eng (side_a l)) = false ∧
    len (e_rcv_queue (eng (side_b l))) = c_rcv_wnd (e_config (eng (side_b l))) ∧
    (recv (prof := LinkSample.prof_b) (pe_st (side_b l))).1 = Ok None.
Proof.
  destruct NarrowSample.reached as [l|] eqn:Hl; [|vm_compute in Hl; discriminate Hl].
  exists l. split; [by apply NarrowSample.narrow_linked|]. vm_compute in Hl. injection Hl as <-.
  split_and!; vm_compute; reflexivity.
Qed.
