(* ===== verification/Progress.v ===== *)
(** What the network has to do for data to get through: one round trip in which
    nothing is lost delivers and acknowledges every segment that was due and
    within the peer's window.

    The safety of a link ([Link]) holds whatever the network does; here it
    behaves for once.  A flush puts a segment on the wire, its arrival files it
    and asks for an acknowledgement, the next flush puts that on the wire, and its
    arrival takes the segment out of the send buffer. *)
From S2P Require Import Prelude Monad Protocol Error Config Engine Output Send Recv Ack Input Flush Frame Safety History Link.

(** * Getting into a datagram *)

Section Emission.
Context {api : BytesApi} {spec : BytesApiSpec api}.

Lemma segments_bytes_wire s1 s2 :
  Forall segment_ok s1 → Forall segment_ok s2 → segments_bytes s1 = segments_bytes s2 →
  map wire_segment s1 = map wire_segment s2.
Proof.
  unfold segments_bytes. intros H1 H2 Heq. apply (f_equal parse_datagram) in Heq.
  by rewrite !parse_datagram_bytes in Heq.
Qed.

(** Parsing packed datagrams one by one parses the bytes in them. *)
Lemma parsed_all mtu l : Forall (packed mtu) l →
  ∃ all, Forall segment_ok all ∧ concat l = segments_bytes all ∧ concat (map parse_datagram l) = map wire_segment all.
Proof.
  induction 1 as [|d l (s1 & H1 & -> & _) _ (s2 & H2 & Heq & Hp)]; [by exists []|].
  exists (s1 ++ s2). split_and!; [by apply Forall_app|cbn; by rewrite segments_bytes_app, Heq|].
  cbn. by rewrite parse_datagram_bytes, Hp, map_app by done.
Qed.
Lemma parsed_bytes mtu l segs :
  Forall (packed mtu) l → Forall segment_ok segs → concat l = segments_bytes segs →
  concat (map parse_datagram l) = map wire_segment segs.
Proof.
  intros Hl Hs Heq. destruct (parsed_all mtu l Hl) as (all & Ha & Heq' & ->).
  rewrite Heq in Heq'. symmetry. by apply segments_bytes_wire.
Qed.

(** What is packed into datagrams is in one of them. *)
Lemma emitted mtu l segs seg :
  Forall (packed mtu) l → Forall segment_ok segs → concat l = segments_bytes segs → seg ∈ segs →
  ∃ d, d ∈ l ∧ wire_segment seg ∈ parse_datagram d.
Proof.
  intros Hl Hs Heq Hin. apply (list_elem_of_fmap_2 wire_segment) in Hin.
  change (wire_segment <$> segs) with (map wire_segment segs) in Hin. rewrite <- (parsed_bytes mtu l segs Hl Hs Heq) in Hin.
  apply list_elem_of_In, in_concat in Hin as (ps & Hps & Hin). apply in_map_iff in Hps as (d & <- & Hd).
  exists d. by rewrite !list_elem_of_In.
Qed.
End Emission.

(** * Calls *)

Section Calls.
Context {prof : Profile} {clk : Clock} {api : BytesApi}.

(** The end makes a call. *)
Definition did (x : Peer) (o : op) (r : outcome KcpCoreError reply) (x' : Peer) : Prop :=
  ∃ s', perform o (pe_st x) = (r, s') ∧ x' = after x o r s'.

(** Datagrams arrive, one after another. *)
Inductive inputs : list bytes → Peer → Peer → Prop :=
  | inputs_nil x : inputs [] x x
  | inputs_cons d ds x r x1 x2 :
      did x (OpInput d) r x1 → (∀ q, r ≠ Panicked q) → inputs ds x1 x2 → inputs (d :: ds) x x2.

(** The end flushes, and what it has to put out goes on the wire. *)
Definition puts_out (x : Peer) (out : list bytes) (x' : Peer) : Prop :=
  ∃ x1, did x OpFlush (Ok RUnit) x1 ∧ did x1 OpDrainOutput (Ok (RDatagrams out)) x'.
End Calls.

Section CallFacts.
Context {prof : Profile} {clk : Clock} {api : BytesApi} {spec : BytesApiSpec api}.

Lemma call_step net x o r x' :
  op_ok o → (∀ d, o = OpInput d → d ∈ net) → (∀ q, r ≠ Panicked q) → did x o r x' → peer_step prof clk net x x'.
Proof.
  intros Ho Har Hq (s' & Hp & ->). apply peer_call; [done| |done..]. intros d Hd. left. by apply Har.
Qed.
Lemma puts_out_steps net x out x' : puts_out x out x' → rtc (peer_step prof clk net) x x'.
Proof.
  intros (x1 & H1 & H2). eapply rtc_l; [by eapply call_step; [..|exact H1]|].
  apply rtc_once. by eapply call_step; [..|exact H2].
Qed.
Lemma inputs_steps net ds x x' : ds ⊆ net → inputs ds x x' → rtc (peer_step prof clk net) x x'.
Proof.
  intros Hd Hi. induction Hi as [|d ds x r x1 x2 H1 Hq _ IH]; [done|].
  eapply rtc_l; [eapply call_step; [..|exact H1]; [done| |done]|apply IH; set_solver].
  intros d' [= <-]. set_solver.
Qed.

Lemma puts_out_flushed x out x' :
  Inv (eng x) → puts_out x out x' → ∃ e1, Inv e1 ∧ flushed (now_of (pe_st x)) (eng x) e1 ∧
    eng x' = e1 <| e_output_queue := [] |> ∧ out = e_output_queue e1.
Proof.
  intros HI (x1 & (s1 & H1 & ->) & (s2 & H2 & ->)). exists (inner s1).
  pose proof (flush_spec (pe_st x) HI) as Hw. unfold wp in Hw. cbn [perform] in H1. unfold mbind, M_bind in H1.
  destruct (flush (pe_st x)) as [[[]|e|q] s]; [|done..]. cbn in H1. injection H1 as <-. destruct Hw as (? & _ & ?).
  cbn in H2. injection H2 as <- <-. by split_and!.
Qed.

(** Every segment a flush puts out is in order, and tells the window there is. *)
Lemma flush_segments h p done x e1 t t' :
  let now := now_of (pe_st x) in
  let fresh := acks_of (eng x) ++ probes_of (probed now (eng x)) t t' ++ sent_at now (eng x) in
  endpoint_ok h p done (eng x) → Inv e1 → flushed now (eng x) e1 → in_u 32 t → in_u 32 t' →
  Forall segment_ok fresh ∧ Forall (λ seg, h_wnd (s_header seg) = as_u16 (wnd_unused_of (eng x))) fresh.
Proof.
  intros now fresh He HI1 Hf Ht Ht'. split.
  - apply (flush_segments_ok now _ t t' (eng x) e1); [apply He|done|apply now_of_u32|done|done|done|apply Hf].
  - unfold fresh. rewrite !Forall_app. split_and!.
    + apply Forall_map, Forall_forall. by intros [] _.
    + unfold probes_of, probe_if. rewrite Forall_app. split; case_match; by repeat constructor.
    + unfold sent_at, sent_of. apply Forall_map, Forall_forall. intros r [Hn _]%list_elem_of_filter.
      unfold final. by rewrite Hn.
Qed.

(** What a flush puts out: what it was to acknowledge and what was due. *)
Lemma puts_out_spec x out x' h p done :
  endpoint_ok h p done (eng x) → puts_out x out x' →
  let now := now_of (pe_st x) in
  e_rcv_nxt (eng x') = e_rcv_nxt (eng x) ∧ e_rcv_buf (eng x') = e_rcv_buf (eng x) ∧
  e_config (eng x') = e_config (eng x) ∧ e_conv (eng x') = e_conv (eng x) ∧
  (∀ seg, seg ∈ sent_at now (eng x) → h_cmd (s_header seg) = IKCP_CMD_PUSH) ∧
  ∃ t t' segs, in_u 32 t ∧ in_u 32 t' ∧
    let fresh := acks_of (eng x) ++ probes_of (probed now (eng x)) t t' ++ sent_at now (eng x) in
    Forall (λ seg, h_wnd (s_header seg) = as_u16 (wnd_unused_of (eng x))) fresh ∧
    concat (map parse_datagram out) = map wire_segment (segs ++ fresh) ∧
    ∀ seg, seg ∈ fresh → ∃ d, d ∈ out ∧ wire_segment seg ∈ parse_datagram d.
Proof.
  intros He Hp now. destruct (puts_out_flushed _ _ _ (ep_inv _ _ _ _ He) Hp) as (e1 & HI1 & Hf & -> & ->).
  fold now in Hf. destruct (ep_out _ _ _ _ He) as (segs & Hok & _ & Hpend).
  destruct (fl_receiver _ _ _ Hf) as (Fr1 & Fr2 & Fr3). destruct (fl_config _ _ _ Hf) as (Fc1 & Fc2 & _).
  cbn. split_and!; [done..| |].
  { intros seg Hseg. destruct (sent_at_in _ _ _ Hseg) as [Hin _]. rewrite <- (fl_buf _ _ _ Hf) in Hin.
    pose proof (sb_push _ _ _ _ _ (i_snd_buf _ HI1)) as Hpu. rewrite Forall_forall in Hpu. by apply Hpu. }
  destruct (fl_output _ _ _ Hf) as (t & t' & Ht & Ht' & Hout).
  destruct (flush_segments h p done x e1 t t' He HI1 Hf Ht Ht') as [Hsok Hw].
  rewrite Hpend, <- segments_bytes_app in Hout. exists t, t', segs.
  assert (Hpk : Forall (packed (c_mtu (e_config e1))) (e_output_queue e1)).
  { eapply Forall_impl; [apply (i_output _ HI1)|]. by intros d []. }
  assert (Hall : Forall segment_ok (segs ++ acks_of (eng x) ++ probes_of (probed now (eng x)) t t' ++ sent_at now (eng x)))
    by (by apply Forall_app).
  split; [exact Ht|]. split; [exact Ht'|]. split; [exact Hw|]. split; [by eapply parsed_bytes|].
  intros seg Hseg. eapply emitted; [exact Hpk|exact Hall|exact Hout|]. apply elem_of_app. by right.
Qed.

(** What a call leaves alone. *)
Lemma did_keeps {X} (proj : KcpEngine → X) x o r x' :
  keeps proj (perform o) → did x o r x' → proj (eng x') = proj (eng x).
Proof. intros Hk (s' & Hp & ->). specialize (Hk (pe_st x)). by rewrite Hp in Hk. Qed.
Lemma keeps_reply {A X} (proj : KcpEngine → X) (m : T A) (f : A → reply) :
  keeps proj m → keeps proj (a ← m; mret (f a)).
Proof. intros H. apply keeps_bind; [done|intros a; apply keeps_ret]. Qed.
Lemma inputs_keep {X} (proj : KcpEngine → X) ds x x' :
  (∀ d, keeps proj (input d)) → inputs ds x x' → proj (eng x') = proj (eng x).
Proof.
  intros Hk Hi. induction Hi as [|d ds x r x1 x2 H1 _ _ IH]; [done|].
  rewrite IH. eapply did_keeps; [|exact H1]. by apply (keeps_reply proj (input d) (λ _, RUnit)).
Qed.

Lemma parse_short d : len d < SIZE → parse_datagram d = [].
Proof.
  intros Hl. unfold parse_datagram. destruct (length d) as [|n]; [done|]. cbn [parse_all].
  unfold parse_one. by rewrite (proj2 (KcpHeader_decode_None _)).
Qed.

(** The segments [input] finds in a datagram of the peer. *)
Lemma parse_carried W d : carries W d → map fst (parse_all (S (length d)) d) = parse_datagram d.
Proof.
  intros (segs & Hok & _ & ->). unfold segments_bytes. rewrite parse_datagram_bytes, parse_all_bytes; [done|done| |done].
  pose proof (length_concat_segments segs). lia.
Qed.

(** Each segment of each datagram is handled, and stays handled. *)
Lemma inputs_handled h p done rcvd lim ds x x' :
  len h ≤ H31 → len p ≤ H31 → len p + 65535 ≤ H31 ∨ lim ≤ 0 → lim ≤ limit_of (eng x) →
  endpoint_ok h p done (eng x) → Forall (carries (arriving p rcvd)) ds → inputs ds x x' →
  going h p done rcvd (eng x) (eng x') ∧
  ∀ d seg, d ∈ ds → seg ∈ parse_datagram d → h_conv (s_header seg) = e_conv (eng x) → handled lim (eng x') seg.
Proof.
  intros Hh Hp Hroom Hlim He Hds Hi. revert Hlim He Hds.
  induction Hi as [x|d ds x r x1 x2 (s' & Hrun & ->) Hnp _ IH]; intros Hlim He Hds.
  { split; [by apply going_core; [..|apply He|]|]. by intros d seg ?%elem_of_nil. }
  apply Forall_cons in Hds as [Hd Hds]. cbn [perform] in Hrun. unfold mbind, M_bind in Hrun.
  assert (Hall : Forall (λ y, h_conv (s_header y.1) = e_conv (eng x) → arriving p rcvd y.1) (parse_all (S (length d)) d)).
  { eapply Forall_impl; [by eapply (carries_arriving p rcvd)|]. done. }
  pose proof (input_going h p done rcvd lim Hh Hp Hroom d (pe_st x) Hlim He Hall) as Hw.
  pose proof (input_inv d (pe_st x) (ep_inv _ _ _ _ He)) as Hinv. unfold wp in Hw, Hinv.
  pose proof (parse_carried _ _ Hd) as Hparse.
  assert (Hone : going h p done rcvd (eng x) (inner s') ∧
    ∀ seg, seg ∈ parse_datagram d → h_conv (s_header seg) = e_conv (eng x) → handled lim (inner s') seg).
  { destruct (input d (pe_st x)) as [[[]|e|q] s]; cbn in Hrun; injection Hrun as <- <-; [..|by destruct (Hnp q)].
    - destruct Hw as [Hg Hl]. split; [done|]. intros seg Hin. rewrite <- Hparse in Hin.
      apply list_elem_of_fmap in Hin as (y & -> & Hy). rewrite Forall_forall in Hl. by apply Hl.
    - split; [done|]. destruct Hinv as (_ & Hl & _). rewrite parse_short by done. by intros seg ?%elem_of_nil. }
  destruct Hone as [Hg Hhd]. change (eng (after x (OpInput d) r s')) with (inner s') in IH.
  pose proof (limit_took _ _ _ (proj2 Hg)).
  assert (Hcv : e_conv (inner s') = e_conv (eng x)).
  { pose proof (tk_outside _ _ _ (proj2 Hg)) as Ho. unfold outside in Ho. by injection Ho. }
  destruct IH as [Hg' Hrest]; [lia|apply Hg|done|]. rewrite Hcv in Hrest. split; [by eapply going_trans|].
  intros d' seg [->|Hin]%elem_of_cons Hseg Hc; [|by eapply Hrest].
  eapply handled_took; [apply Hg'|by apply Hhd].
Qed.
End CallFacts.

(** A segment whose transmission is due goes out in a flush. *)
Definition due (now : Z) (seg : KcpSegment) : Prop := s_xmit seg = 0 ∨ 0 ≤ time_diff now (s_resendts seg).

Lemma sent_if_due now e seg :
  seg ∈ e_snd_buf (flush_from now e) → due now seg →
  ∃ seg', seg' ∈ sent_at now e ∧ sn seg' = sn seg ∧ h_conv (s_header seg') = h_conv (s_header seg).
Proof.
  intros Hin Hdue. set (e0 := flush_from now e).
  set (r := mark_of now (resend_of e0) (rtomin_of e0) (c_nodelay (e_config e0)) (r_rto (e_rtt e0)) seg).
  assert (Hr : needs r = true ∧ sn r.1.1.1 = sn seg ∧ h_conv (s_header r.1.1.1) = h_conv (s_header seg)).
  { unfold r, mark_of. destruct (Z.eqb_spec (s_xmit seg) 0); [by destruct seg as [[] ? ? ? ? ?]|].
    destruct (Z.leb_spec 0 (time_diff now (s_resendts seg))); [by destruct seg as [[] ? ? ? ? ?]|].
    destruct Hdue; [done|lia]. }
  destruct Hr as (Hn & Hs & Hc). exists (final now e0 r). split_and!.
  - apply list_elem_of_fmap. exists r. split; [done|]. apply list_elem_of_filter. split; [done|].
    apply list_elem_of_fmap. by exists seg.
  - unfold final. rewrite Hn. by destruct (r.1.1.1) as [[] ? ? ? ? ?].
  - unfold final. rewrite Hn. by destruct (r.1.1.1) as [[] ? ? ? ? ?].
Qed.
Lemma due_is_sent now e seg :
  seg ∈ e_snd_buf e → due now seg →
  ∃ seg', seg' ∈ sent_at now e ∧ sn seg' = sn seg ∧ h_conv (s_header seg') = h_conv (s_header seg).
Proof. intros Hin. apply sent_if_due. cbn. apply elem_of_app. by left. Qed.

(** A new segment goes out as soon as the window has room. *)
Lemma next_is_sent now e :
  in_u 32 (e_snd_nxt e) → (0 < move_count e)%nat →
  ∃ seg', seg' ∈ sent_at now e ∧ sn seg' = e_snd_nxt e ∧ h_conv (s_header seg') = e_conv e.
Proof.
  intros Hn Hm. destruct (e_snd_queue e) as [|seg q] eqn:Hq; [unfold move_count in Hm; rewrite Hq in Hm; cbn in Hm; lia|].
  assert (Hsn : sn (stamp e now (wrap 32 (e_snd_nxt e + Z.of_nat 0)) seg) = e_snd_nxt e).
  { cbn. by rewrite Z.add_0_r, wrap_small. }
  destruct (sent_if_due now e (stamp e now (wrap 32 (e_snd_nxt e + Z.of_nat 0)) seg)) as (seg' & H1 & H2 & H3);
    [|by left|exists seg'; rewrite H2, Hsn; by split_and!].
  unfold flush_from, moved_out. cbn -[take]. apply elem_of_app. right. rewrite Hq.
  destruct (move_count e); [lia|]. by left.
Qed.

(** * Theorem *)

Section ProgressTheorem.
Context {api : BytesApi} {spec : BytesApiSpec api}.
Context (prof_a prof_b : Profile) (clk_a clk_b : Clock).

(** Half of a round trip: what a flush sends has arrived and is to be acknowledged. *)
Lemma data_arrives x y x2 y1 out ds seg :
  linked prof_a prof_b clk_a clk_b (Build_Link x y) →
  len (pe_hist x2) + 65535 ≤ H31 → len (pe_hist y1) ≤ H31 →
  puts_out (prof := prof_a) (clk := clk_a) x out x2 →
  out ⊆ ds → ds ⊆ pe_net x2 → inputs (prof := prof_b) (clk := clk_b) ds y y1 →
  seg ∈ sent_at (now_of (clk := clk_a) (pe_st x)) (eng x) → h_conv (s_header seg) = e_conv (eng y) →
  sn seg < limit_of (eng y) →
  received (eng y1) (sn seg) ∧ sn seg ∈ map fst (e_ack_list (eng y1)).
Proof.
  intros Hl Hbx Hby Hx Hds Hnet Hy Hseg Hcv Hlim.
  pose proof (puts_out_steps [] _ _ _ Hx) as Rx. pose proof (inputs_steps _ _ _ _ Hnet Hy) as Ry.
  pose proof (linked_runs_a _ _ _ _ _ _ _ _ Hl (list_subseteq_nil _) Rx) as L2.
  pose proof (prefix_length _ _ (peer_runs_hist _ _ _ _ _ Rx)) as Px.
  pose proof (prefix_length _ _ (peer_runs_hist _ _ _ _ _ Ry)) as Py. unfold len in Hbx, Hby.
  destruct (linked_ok _ _ _ _ _ Hl) as [[da Ka] _ _ _]; [split; cbn; unfold len; lia|].
  destruct (linked_ok _ _ _ _ _ L2) as [[da2 Ka2] [db2 Kb2] _ _]; [split; cbn; unfold len; lia|].
  cbn [side_a side_b] in *.
  destruct (puts_out_spec _ _ _ _ _ _ (po_end _ _ _ Ka) Hx) as (_ & _ & _ & _ & Push & t & t' & segs & _ & _ & _ & _ & Hout).
  destruct (Hout seg) as (d & Hd & Hin); [rewrite !elem_of_app; auto|].
  destruct (inputs_handled (prof := prof_b) (clk := clk_b) (pe_hist y) (pe_hist x2) (concat db2) (received (eng x2)) (limit_of (eng y)) ds y y1)
    as [_ H1]; [unfold len; lia|unfold len; lia|left; unfold len; lia|done|apply Kb2| |done|].
  { apply Forall_forall. intros d' Hd'. eapply (wire_arriving _ _ _ _ _ (po_end _ _ _ Ka2)); [unfold len; lia|].
    pose proof (po_net _ _ _ Ka2) as Hn. rewrite Forall_forall in Hn. by apply Hn, Hnet. }
  destruct (H1 d (wire_segment seg) (Hds _ Hd) Hin Hcv) as [Hp _]. exact (Hp (Push _ Hseg) Hlim).
Qed.

(** The other half: what is to be acknowledged leaves the send buffer. *)
Lemma ack_arrives x y y3 x3 out ds n :
  linked prof_a prof_b clk_a clk_b (Build_Link x y) →
  len (pe_hist x) ≤ H31 → len (pe_hist y3) ≤ H31 → e_conv (eng x) = e_conv (eng y) →
  puts_out (prof := prof_b) (clk := clk_b) y out y3 →
  out ⊆ ds → ds ⊆ pe_net y3 → inputs (prof := prof_a) (clk := clk_a) ds x x3 →
  n ∈ map fst (e_ack_list (eng y)) → n ∉ map sn (e_snd_buf (eng x3)).
Proof.
  intros Hl Hbx Hby Hconv Hy Hds Hnet Hx Hack. pose proof (puts_out_steps [] _ _ _ Hy) as Ry.
  pose proof (linked_runs_b _ _ _ _ _ _ _ _ Hl (list_subseteq_nil _) Ry) as L2.
  pose proof (prefix_length _ _ (peer_runs_hist _ _ _ _ _ Ry)) as Py. unfold len in Hbx, Hby.
  destruct (linked_ok _ _ _ _ _ Hl) as [_ [db Kb] _ _]; [split; cbn; unfold len; lia|].
  destruct (linked_ok _ _ _ _ _ L2) as [[da2 Ka2] [db2 Kb2] _ _]; [split; cbn; unfold len; lia|].
  cbn [side_a side_b] in *.
  destruct (puts_out_spec _ _ _ _ _ _ (po_end _ _ _ Kb) Hy) as (_ & _ & _ & _ & _ & t & t' & segs & _ & _ & _ & _ & Hout).
  apply list_elem_of_fmap in Hack as ([k ts] & -> & Hack). cbn.
  destruct (Hout (ack_of (eng y) (k, ts))) as (d & Hd & Hin); [apply elem_of_app; left; by apply list_elem_of_fmap_2|].
  destruct (inputs_handled (prof := prof_a) (clk := clk_a) (pe_hist x) (pe_hist y3) (concat da2) (received (eng y3)) 0 ds x x3) as [_ H2];
    [unfold len; lia|unfold len; lia|by right| |apply Ka2| |done|].
  { pose proof (ep_inv _ _ _ _ (po_end _ _ _ Ka2)) as HI. pose proof (i_rcv_nxt _ HI) as [H0 _].
    pose proof (wo_rcv _ (i_config _ HI)). unfold limit_of. lia. }
  { apply Forall_forall. intros d2 Hd2. eapply (wire_arriving _ _ _ _ _ (po_end _ _ _ Kb2)); [unfold len; lia|].
    pose proof (po_net _ _ _ Kb2) as Hn'. rewrite Forall_forall in Hn'. by apply Hn', Hnet. }
  destruct (H2 d _ (Hds _ Hd) Hin (eq_sym Hconv)) as [_ Hgone]. by apply Hgone.
Qed.

Lemma round_trip_sent x y x2 y1 y3 x3 out out' ds ds' seg :
  linked prof_a prof_b clk_a clk_b (Build_Link x y) →
  len (pe_hist x2) + 65535 ≤ H31 → len (pe_hist y3) ≤ H31 → e_conv (eng x) = e_conv (eng y) →
  puts_out (prof := prof_a) (clk := clk_a) x out x2 →
  out ⊆ ds → ds ⊆ pe_net x2 → inputs (prof := prof_b) (clk := clk_b) ds y y1 →
  puts_out (prof := prof_b) (clk := clk_b) y1 out' y3 →
  out' ⊆ ds' → ds' ⊆ pe_net y3 → inputs (prof := prof_a) (clk := clk_a) ds' x2 x3 →
  seg ∈ sent_at (now_of (clk := clk_a) (pe_st x)) (eng x) → h_conv (s_header seg) = e_conv (eng y) →
  sn seg < limit_of (eng y) →
  received (eng y3) (sn seg) ∧ sn seg ∉ map sn (e_snd_buf (eng x3)).
Proof.
  intros Hl Hbx Hby Hconv Hx Hds Hnet Hy Hy' Hds' Hnet' Hx' Hseg Hcv Hlim.
  pose proof (peer_runs_hist _ _ _ _ _ (puts_out_steps [] _ _ _ Hy')) as Py. apply prefix_length in Py.
  destruct (data_arrives x y x2 y1 out ds seg) as [Hr Hack]; try done; [unfold len in *; lia|].
  pose proof (linked_runs_a _ _ _ _ _ _ _ _ Hl (list_subseteq_nil _) (puts_out_steps [] _ _ _ Hx)) as L2.
  pose proof (linked_runs_b _ _ _ _ _ _ _ _ L2 (reflexivity _) (inputs_steps _ _ _ _ Hnet Hy)) as L3.
  destruct (puts_out_flushed _ _ _ (proj1 (proj1 (linked_good _ _ _ _ _ Hl))) Hx) as (e1 & _ & Hf & Hx2 & _).
  destruct (puts_out_flushed _ _ _ (proj1 (proj2 (linked_good _ _ _ _ _ L3))) Hy') as (e3 & _ & Hf' & Hy3 & _).
  destruct (fl_receiver _ _ _ Hf') as (N1 & _ & N2). split; [unfold received in *; rewrite Hy3; cbn; by rewrite N1, N2|].
  apply (ack_arrives x2 y1 y3 x3 out' ds'); try done; [unfold len in *; lia|].
  cbn [side_a side_b] in *. rewrite Hx2. cbn. destruct (fl_config _ _ _ Hf) as (_ & -> & _). rewrite Hconv. symmetry.
  apply (inputs_keep (prof := prof_b) (clk := clk_b) e_conv ds); [intros d; apply keeps_input, _|done].
Qed.

(** C13: one good round trip: [x] flushes, all it puts out reaches [y], in any order,
    with any duplicates and older datagrams in between, [y] flushes, and all it
    puts out reaches [x] the same way.  Then every segment of [x]'s send buffer
    that was due, and every new one the flush sent, if it is before the end of
    [y]'s window, has arrived at [y] and has left [x]'s send buffer. *)
Theorem round_trip x y x2 y1 y3 x3 out out' ds ds' seg :
  linked prof_a prof_b clk_a clk_b (Build_Link x y) →
  len (pe_hist x2) + 65535 ≤ H31 → len (pe_hist y3) ≤ H31 → e_conv (eng x) = e_conv (eng y) →
  puts_out (prof := prof_a) (clk := clk_a) x out x2 →
  out ⊆ ds → ds ⊆ pe_net x2 → inputs (prof := prof_b) (clk := clk_b) ds y y1 →
  puts_out (prof := prof_b) (clk := clk_b) y1 out' y3 →
  out' ⊆ ds' → ds' ⊆ pe_net y3 → inputs (prof := prof_a) (clk := clk_a) ds' x2 x3 →
  let now := now_of (clk := clk_a) (pe_st x) in
  seg ∈ sent_at now (eng x) ∨ seg ∈ e_snd_buf (eng x) ∧ due now seg →
  h_conv (s_header seg) = e_conv (eng y) → sn seg < limit_of (eng y) →
  received (eng y3) (sn seg) ∧ sn seg ∉ map sn (e_snd_buf (eng x3)).
Proof.
  intros Hl Hbx Hby Hconv Hx Hds Hnet Hy Hy' Hds' Hnet' Hx' now [Hseg|[Hin Hdue]] Hcv Hlim.
  - by eapply round_trip_sent.
  - destruct (due_is_sent now _ _ Hin Hdue) as (seg' & Hseg & Hsn & Hc). rewrite <- Hsn in *. rewrite <- Hc in Hcv.
    by eapply round_trip_sent.
Qed.
End ProgressTheorem.

Module ProgressSample.
Definition x : Peer := side_a (LinkSample.reached [(true, LinkSample.Call (OpSend LinkSample.long))]).
Definition y : Peer := side_b (LinkSample.reached [(true, LinkSample.Call (OpSend LinkSample.long))]).

(** What an end is after a call that returned [r]. *)
Definition called (prof : Profile) (clk : Clock) (x : Peer) (o : op) (r : outcome KcpCoreError reply) : Peer :=
  after x o r (perform (prof := prof) (clk := clk) (api := bytes_le) o (pe_st x)).2.
Definition a_calls := called LinkSample.prof_a LinkSample.clk_a.
Definition b_calls := called LinkSample.prof_b LinkSample.clk_b.

Definition x1 : Peer := a_calls x OpFlush (Ok RUnit).
Definition out : list bytes := e_output_queue (eng x1).
Definition x2 : Peer := a_calls x1 OpDrainOutput (Ok (RDatagrams out)).
Definition y1 : Peer := foldl (λ y d, b_calls y (OpInput d) (Ok RUnit)) y out.
Definition y2 : Peer := b_calls y1 OpFlush (Ok RUnit).
Definition out' : list bytes := e_output_queue (eng y2).
Definition y3 : Peer := b_calls y2 OpDrainOutput (Ok (RDatagrams out')).
Definition x3 : Peer := foldl (λ x d, a_calls x (OpInput d) (Ok RUnit)) x2 out'.

Lemma inputs_all prof clk ds : ∀ x,
  (fix all (x : Peer) (ds : list bytes) : bool := match ds with
    | [] => true
    | d :: ds => match (perform (prof := prof) (clk := clk) (api := bytes_le) (OpInput d) (pe_st x)).1 with
                 | Ok RUnit => all (called prof clk x (OpInput d) (Ok RUnit)) ds | _ => false end
    end) x ds = true →
  inputs (prof := prof) (clk := clk) (api := bytes_le) ds x
    (foldl (λ x d, called prof clk x (OpInput d) (Ok RUnit)) x ds).
Proof.
  induction ds as [|d ds IH]; intros x H; [constructor|]. cbn [foldl].
  destruct (perform (OpInput d) (pe_st x)) as [r s'] eqn:Hp. cbn in H.
  destruct r as [[]| |]; [|done..]. apply (inputs_cons d ds x (Ok RUnit) (called prof clk x (OpInput d) (Ok RUnit))); [|done|by apply IH].
  exists s'. split; [done|]. unfold called. by rewrite Hp.
Qed.
Lemma puts_out_x : puts_out (prof := LinkSample.prof_a) (clk := LinkSample.clk_a) (api := bytes_le) x out x2.
Proof. exists x1. split; eexists; (split; [vm_compute; reflexivity|vm_compute; reflexivity]). Qed.
Lemma puts_out_y : puts_out (prof := LinkSample.prof_b) (clk := LinkSample.clk_b) (api := bytes_le) y1 out' y3.
Proof. exists y2. split; eexists; (split; [vm_compute; reflexivity|vm_compute; reflexivity]). Qed.
Lemma link_xy : linked (api := bytes_le) LinkSample.prof_a LinkSample.prof_b LinkSample.clk_a LinkSample.clk_b (Build_Link x y).
Proof. apply (LinkSample.reached_linked [(true, LinkSample.Call (OpSend LinkSample.long))]). vm_compute. reflexivity. Qed.
End ProgressSample.

Lemma round_trip_witness :
  received (eng ProgressSample.y3) 1 ∧ 1 ∉ map sn (e_snd_buf (eng ProgressSample.x3)).
Proof.
  assert (H : ∃ seg, seg ∈ sent_at (now_of (clk := LinkSample.clk_a) (pe_st ProgressSample.x)) (eng ProgressSample.x) ∧
    h_conv (s_header seg) = 7 ∧ sn seg = 1).
  { eexists. split; [vm_compute; right; left|split; vm_compute; reflexivity]. }
  destruct H as (seg & Hseg & Hc & Hs). rewrite <- Hs.
  apply (round_trip (api := bytes_le) LinkSample.prof_a LinkSample.prof_b LinkSample.clk_a LinkSample.clk_b
    ProgressSample.x ProgressSample.y ProgressSample.x2 ProgressSample.y1 ProgressSample.y3 ProgressSample.x3
    ProgressSample.out ProgressSample.out' ProgressSample.out ProgressSample.out' seg).
  - apply ProgressSample.link_xy.
  - vm_compute. congruence.
  - vm_compute. congruence.
  - vm_compute. reflexivity.
  - apply ProgressSample.puts_out_x.
  - reflexivity.
  - vm_compute. done.
  - apply ProgressSample.inputs_all. vm_compute. reflexivity.
  - apply ProgressSample.puts_out_y.
  - reflexivity.
  - vm_compute. done.
  - apply ProgressSample.inputs_all. vm_compute. reflexivity.
  - by left.
  - rewrite Hc. vm_compute. reflexivity.
  - rewrite Hs. vm_compute. reflexivity.
Defined.
