(* ===== verification/Delivery.v ===== *)
(** Everything gets through: over a network that now and then lets a round trip
    pass, all that was sent is delivered and acknowledged, in as many such round
    trips as there are segments outstanding, and three.

    [Progress] has what one round trip does for a segment.  Here the round trips
    are put one after another, with the application at the receiving end reading
    what there is.  Each one acknowledges a segment, or brings the window probe
    that opens a closed window a step further. *)
From S2P Require Import Prelude Monad Protocol Error Config Engine Output Send Recv Ack Input Flush Frame Safety History Link Progress.

(** * What the sender hears *)

(** The peer's window as last told, and the probes to answer or to send. *)
Definition hearing (e : KcpEngine) : Z * Z := (w_rmt (e_wnd e), p_flags (e_probe e)).
Definition hear (conv : Z) (w : Z * Z) (seg : KcpSegment) : Z * Z :=
  let h := s_header seg in
  if h_conv h =? conv then (h_wnd h, if h_cmd h =? IKCP_CMD_WASK then Z.lor w.2 IKCP_ASK_TELL else w.2)
  else w.
Definition asked (flags : Z) : Prop := Z.testbit flags 1 = true.

Lemma asked_probe cmd now e :
  asked (p_flags (e_probe e)) → probe_if IKCP_ASK_TELL cmd now e = [probe_of e cmd now].
Proof.
  unfold asked, probe_if. intros H. case_match eqn:E; [|done]. apply Z.eqb_eq, (f_equal (λ z, Z.testbit z 1)) in E.
  by rewrite Z.land_spec, H in E.
Qed.

(** Once one segment has told an open window, a later one that tells another is
    needed to close it. *)
Lemma hear_open conv l : ∀ w,
  Forall (λ seg, 0 < h_wnd (s_header seg)) l →
  0 < w.1 ∨ Exists (λ seg, h_conv (s_header seg) = conv) l → 0 < (foldl (hear conv) w l).1.
Proof.
  induction l as [|seg l IH]; intros w Hl [Hw|Hc]; cbn; try done; [by inversion Hc|..];
    apply Forall_cons in Hl as [Hs Hl]; apply IH; try done; unfold hear; cbv zeta.
  - left. by destruct (_ =? conv).
  - destruct (Z.eqb_spec (h_conv (s_header seg)) conv); [by left|right]. by inversion Hc.
Qed.

Lemma hear_asked conv l : ∀ w,
  asked w.2 ∨ Exists (λ seg, h_conv (s_header seg) = conv ∧ h_cmd (s_header seg) = IKCP_CMD_WASK) l →
  asked (foldl (hear conv) w l).2.
Proof.
  assert (Hor : ∀ f, asked (Z.lor f IKCP_ASK_TELL)) by (intros f; unfold asked; by rewrite Z.lor_spec, orb_true_r).
  assert (Hkeep : ∀ f, asked f → asked (Z.lor f IKCP_ASK_TELL)) by (intros; apply Hor).
  induction l as [|seg l IH]; intros w [Hw|Hc]; cbn; try done; [by inversion Hc|..]; apply IH; unfold hear; cbv zeta.
  - left. destruct (_ =? conv); [|done]. cbn. by case_match.
  - apply Exists_cons in Hc as [[H1 H2]|Hc]; [left; rewrite H1, H2, !Z.eqb_refl; apply Hor|by right].
Qed.

Section Hearing.
Context {prof : Profile} {clk : Clock} {api : BytesApi} {spec : BytesApiSpec api}.

Lemma wp_keep {X A} (proj : KcpEngine → X) (m : T A) s :
  keeps proj m → wp (λ _, True) m (λ _ s', proj (inner s') = proj (inner s)) (λ _ _, True) s.
Proof. intros Hk. specialize (Hk s). unfold wp. by destruct (m s) as [[]]. Qed.

(** Taking in a segment, apart from its header's window and command. *)
Definition tells (e : KcpEngine) := (hearing e, p_wait (e_probe e), p_ts (e_probe e), e_conv e).

Lemma keeps_bump_tells sn0 ts buf : keeps tells (bump_fastack sn0 ts buf).
Proof. induction buf as [|seg buf IH]; cbn [bump_fastack]; keeps; apply IH. Qed.
Hint Resolve keeps_bump_tells : keeps.
Lemma keeps_tells seg current x una sn0 ts :
  keeps tells (parse_una una) ∧ keeps tells (ack_segment current seg x) ∧ keeps tells (push_segment seg) ∧
  keeps tells shrink_buf ∧ keeps tells (parse_fastack sn0 ts) ∧ keeps tells (update_cwnd una).
Proof.
  unfold push_segment, ack_push, parse_data, move_to_recv_queue, move_one, ack_segment, parse_una, parse_ack,
    parse_fastack, shrink_buf, update_ack, smooth_rtt, update_cwnd, set_cwnd, set_incr, mss.
  split_and!; keeps.
Qed.

Lemma process_segment_hears current seg x s :
  wp (λ _, True) (process_segment current seg x)
    (λ _ s', tells (inner s') = (hear (e_conv (inner s)) (hearing (inner s)) seg,
       p_wait (e_probe (inner s)), p_ts (e_probe (inner s)), e_conv (inner s))) (λ _ _, True) s.
Proof.
  destruct (keeps_tells seg current x (h_una (s_header seg)) 0 0) as (Ku & Ka & Kp & _).
  unfold process_segment, hear. do 2 estep. cbv zeta. apply wp_if; intros Hc.
  { apply negb_true_iff in Hc. rewrite Hc. by estep. }
  apply negb_false_iff in Hc. rewrite Hc. do 2 estep. estep.
  eapply wp_post; [apply (wp_keep tells _ _ Ku)|]. intros [] s2 H2. cbv beta. cbn [inner] in H2.
  unfold tells, hearing in *. cbn in H2. injection H2 as Hr Hf Hw Ht Hv.
  apply wp_if; intros Hack.
  { apply Z.eqb_eq in Hack. rewrite Hack. eapply wp_post; [apply (wp_keep tells _ _ Ka)|].
    intros x3 s3 H3. unfold tells, hearing in H3. injection H3 as -> -> -> -> ->. cbn. congruence. }
  apply wp_if; intros Hpush.
  { apply Z.eqb_eq in Hpush. rewrite Hpush. estep. eapply wp_post; [apply (wp_keep tells _ _ Kp)|].
    intros [] s3 H3. cbv beta. estep. unfold tells, hearing in H3. injection H3 as -> -> -> -> ->. cbn. congruence. }
  apply wp_if; intros Hask; rewrite Hask; [do 2 estep|]; estep; cbn; congruence.
Qed.

Lemma process_all_hears current l : ∀ x s,
  wp (λ _, True) (process_all current x l)
    (λ _ s', tells (inner s') = (foldl (hear (e_conv (inner s))) (hearing (inner s)) (map fst l),
       p_wait (e_probe (inner s)), p_ts (e_probe (inner s)), e_conv (inner s))) (λ _ _, True) s.
Proof.
  unfold process_all. induction l as [|[seg rest] l IH]; intros x s; cbn [foldM]; [by estep|].
  estep. eapply wp_post; [apply process_segment_hears|]. intros x1 s1 H1. cbv beta. cbn [fst] in H1.
  eapply wp_post; [apply IH|]. intros x2 s2 ->. unfold tells in H1. by injection H1 as -> -> -> ->.
Qed.

Lemma input_hears data s :
  wp (λ _, True) (input data)
    (λ _ s', tells (inner s') = (foldl (hear (e_conv (inner s))) (hearing (inner s)) (map fst (parse_all (S (length data)) data)),
       p_wait (e_probe (inner s)), p_ts (e_probe (inner s)), e_conv (inner s))) (λ _ _, True) s.
Proof.
  unfold wp. rewrite input_is_two_phase. set (l := parse_all _ _).
  change (wp (λ _, True) (input_two_phase data)
    (λ _ s', tells (inner s') = (foldl (hear (e_conv (inner s))) (hearing (inner s)) (map fst l),
       p_wait (e_probe (inner s)), p_ts (e_probe (inner s)), e_conv (inner s))) (λ _ _, True) s).
  unfold input_two_phase. do 4 estep. apply wp_if; intros Hlen; [by estep|]. do 3 estep.
  eapply wp_post; [apply process_all_hears|]. intros x1 s1 H1. cbv beta.
  match goal with |- wp _ _ (λ _ s', tells (inner s') = ?v) _ _ => change (tells (inner s1) = v) in H1; rewrite <- H1 end.
  clear H1.
  match goal with |- wp _ ?m _ _ _ => enough (keeps tells m) by (by apply wp_keep) end.
  destruct (keeps_tells (Build_KcpSegment (Build_KcpHeader 0 0 0 0 0 0 0 0) [] 0 0 0 0) 0 x1 (e_snd_una (inner s))
    (x_max_ack x1) (x_latest_ts x1)) as (_ & _ & _ & K1 & K2 & K3).
  unfold count_stat. keeps; done.
Qed.
End Hearing.

(** * What a round trip is made of *)

(** The segments the sender has not got rid of. *)
Definition outstanding (x : Peer) : nat := (length (e_snd_buf (eng x)) + length (e_snd_queue (eng x)))%nat.

Section Reading.
Context {prof : Profile} {clk : Clock} {api : BytesApi}.

(** The application reads until there is no more. *)
Inductive reads : Peer → Peer → Prop :=
  | reads_end y y' : did y OpRecv (Ok (RData None)) y' → reads y y'
  | reads_more y msg y1 y' : did y OpRecv (Ok (RData (Some msg))) y1 → reads y1 y' → reads y y'.
End Reading.

(** There is no message to read. *)
Definition drained (y : Peer) : Prop := ∃ e', recv_post (eng y) None e'.

Lemma drained_queue y y' : e_rcv_queue (eng y') = e_rcv_queue (eng y) → drained y → drained y'.
Proof.
  intros Hq (e' & popped & rest & [H1 H2] & H3 & _).
  exists ((eng y') <| e_rcv_queue := rest |>), popped, rest.
  unfold peek_size_of in *. by rewrite Hq.
Qed.

Lemma frames_drop x x' o r n :
  (∃ s', x' = after x o r s') → e_snd_queue (eng x') = drop n (e_snd_queue (eng x)) → frames x' = frames x.
Proof.
  intros (s' & ->) Hq. unfold frames. cbn in *. rewrite Hq, length_drop.
  set (q := e_snd_queue (eng x)) in *. replace (length q - (length q - n))%nat with (Nat.min n (length q)) by lia.
  replace (drop n q) with (drop (Nat.min n (length q)) q); [by rewrite extended_frames|].
  destruct (Nat.le_ge_cases n (length q)); [by rewrite Nat.min_l|]. rewrite Nat.min_r, !drop_ge by lia. done.
Qed.

(** Distinct numbers: fewer segments. *)
Lemma fewer_segments (l l' : list KcpSegment) :
  NoDup (map sn l') → (∀ n, n ∈ map sn l' → n ∈ map sn l) →
  (length l' ≤ length l)%nat ∧
  ∀ n, n ∈ map sn l → n ∉ map sn l' → (length l' < length l)%nat.
Proof.
  intros Hd Hin. assert (H : ∀ k, NoDup k → (∀ n, n ∈ k → n ∈ map sn l) → (length k ≤ length l)%nat).
  { intros k Hk Hs. rewrite <- (length_map sn l). by apply submseteq_length, NoDup_submseteq. }
  split; [rewrite <- (length_map sn l'); by apply H|]. intros n Hn Hno. rewrite <- (length_map sn l').
  apply (H (n :: map sn l')); [by constructor|]. intros k [->|Hk]%elem_of_cons; auto.
Qed.
Lemma buf_NoDup e : Inv e → NoDup (map sn (e_snd_buf e)).
Proof.
  intros HI. pose proof (sb_sorted _ _ _ _ _ (i_snd_buf _ HI)) as Hs. induction Hs as [|seg l _ IH Hl]; [constructor|].
  cbn. constructor; [|done]. intros (t & Heq & Ht)%list_elem_of_fmap. rewrite Forall_forall in Hl.
  specialize (Hl t Ht). cbn in Hl. rewrite Heq in Hl. lia.
Qed.

(** The segments that wait are of the conversation. *)
Definition own (e : KcpEngine) : Prop := Forall (λ seg, h_conv (s_header seg) = e_conv e) (e_snd_buf e).

Lemma buf_at_own now e : own e → Forall (λ seg, h_conv (s_header seg) = e_conv e) (buf_at now e).
Proof.
  intros Ho. apply Forall_forall. intros x Hx. apply list_elem_of_fmap in Hx as (r & -> & Hr).
  apply list_elem_of_fmap in Hr as (seg & -> & Hin).
  transitivity (h_conv (s_header seg)); [unfold final, mark_of; repeat case_match; by destruct seg as [[] ? ? ? ? ?]|].
  apply elem_of_app in Hin as [Hin|Hin]; [unfold own in Ho; rewrite Forall_forall in Ho; by apply Ho|].
  apply list_elem_of_lookup in Hin as [i Hi]. by apply list_lookup_imap_Some in Hi as (q & _ & ->).
Qed.

(** What a part of a round trip leaves as it was: the data sent, and whose. *)
Record kept (x x' : Peer) : Prop := {
  kp_frames : frames x' = frames x;
  kp_sent : pe_sent x' = pe_sent x;
  kp_conv : e_conv (eng x') = e_conv (eng x);
  kp_config : e_config (eng x') = e_config (eng x);
  kp_fewer : (outstanding x' ≤ outstanding x)%nat;
  kp_own : own (eng x) → own (eng x');
}.
#[export] Instance kept_preorder : PreOrder kept.
Proof.
  split; [by split|]. intros x1 x2 x3 [] []. split; try congruence; [lia|auto].
Qed.

Section Parts.
Context {prof : Profile} {clk : Clock} {api : BytesApi} {spec : BytesApiSpec api}.

Lemma puts_out_kept x out x' :
  good (eng x) → puts_out x out x' → kept x x' ∧ outstanding x' = outstanding x ∧
  e_rcv_queue (eng x') = e_rcv_queue (eng x).
Proof.
  intros [HI _] Hp. destruct (puts_out_flushed _ _ _ HI Hp) as (e1 & _ & Hf & Hx' & _).
  destruct (move_count_bound _ HI) as [_ Hm].
  assert (Hout : outstanding x' = outstanding x).
  { unfold outstanding. rewrite Hx'. cbn. rewrite (fl_buf _ _ _ Hf), (fl_queue _ _ _ Hf).
    rewrite <- (length_map sn (buf_at _ _)), buf_at_sn, length_app, !length_map, length_seq, length_drop by done. lia. }
  destruct (fl_receiver _ _ _ Hf) as (_ & R & _). destruct (fl_config _ _ _ Hf) as (Fc & Fv & _).
  split_and!; [|done|by rewrite Hx'].
  destruct Hp as (x1 & (s1 & _ & ->) & (s2 & H2 & ->)). cbn in H2. injection H2 as <- <-. cbn in Hx'.
  split.
  - set (x1 := after x OpFlush (Ok RUnit) s1) in *.
    assert (Hq : e_snd_queue (inner s1) = drop (move_count (eng x)) (e_snd_queue (eng x))).
    { transitivity (e_snd_queue e1); [|apply Hf]. exact (f_equal e_snd_queue Hx'). }
    transitivity (frames x1); [|apply (frames_drop x x1 OpFlush (Ok RUnit) (move_count (eng x))); [by exists s1|exact Hq]].
    eapply (frames_drop x1 _ OpDrainOutput _ 0); [by eexists|done].
  - cbn. by rewrite !app_nil_r.
  - exact (eq_trans (f_equal e_conv Hx') Fv).
  - exact (eq_trans (f_equal e_config Hx') Fc).
  - exact (Nat.eq_le_incl _ _ Hout).
  - intros Ho. apply (buf_at_own (now_of (pe_st x))) in Ho. rewrite <- (fl_buf _ _ _ Hf), <- Fv in Ho. unfold own. cbn.
    pose proof (f_equal e_snd_buf Hx') as Hb. pose proof (f_equal e_conv Hx') as Hv. cbn in Hb, Hv. by rewrite Hb, Hv.
Qed.

Lemma inputs_frames ds x x' : inputs ds x x' → frames x' = frames x ∧ pe_sent x' = pe_sent x.
Proof.
  induction 1 as [|d ds x r x1 x2 H1 _ _ [IH1 IH2]]; [done|]. rewrite IH1, IH2.
  pose proof (did_keeps e_snd_queue x (OpInput d) r x1 (keeps_reply _ (input d) (λ _, RUnit) (keeps_input_queue d)) H1) as Hq.
  destruct H1 as (s' & _ & ->). split; [|cbn; by rewrite app_nil_r].
  apply (frames_drop x _ (OpInput d) r 0); [by exists s'|by rewrite Hq].
Qed.

Lemma inputs_kept rcvd ds x x' : took rcvd (eng x) (eng x') → Inv (eng x') → inputs ds x x' → kept x x'.
Proof.
  intros Ht HI Hi. destruct (inputs_frames _ _ _ Hi) as [Hf Hs].
  pose proof (tk_outside _ _ _ Ht) as Ho. unfold outside in Ho. injection Ho as O1 _ O3 _ O5.
  destruct (fewer_segments (e_snd_buf (eng x)) (e_snd_buf (eng x')) (buf_NoDup _ HI)) as [Hl _].
  { intros n. by eapply took_numbers. }
  split; [done..| |].
  - unfold outstanding. rewrite O3. lia.
  - unfold own. rewrite O1. rewrite !Forall_forall. intros Hown seg Hin.
    apply (list_elem_of_fmap_2 s_header), (tk_shrinks _ _ _ Ht), list_elem_of_fmap in Hin as (seg0 & -> & Hin). by apply Hown.
Qed.

Lemma keeps_recv_send : keeps (λ e, (e_snd_buf e, e_snd_queue e, e_conv e, e_config e, e_ack_list e)) recv.
Proof. unfold recv, peek_size, move_to_recv_queue, move_one, count_stat. keeps. Qed.

Lemma reads_kept x x' : reads x x' → kept x x' ∧ e_ack_list (eng x') = e_ack_list (eng x).
Proof.
  assert (Hone : ∀ x m x1, did x OpRecv (Ok (RData m)) x1 → kept x x1 ∧ e_ack_list (eng x1) = e_ack_list (eng x)).
  { intros y m y1 H1. pose proof (did_keeps _ y OpRecv _ y1 (keeps_reply _ recv RData keeps_recv_send) H1) as Hk.
    cbv beta in Hk. injection Hk as K1 K2 K3 K4 K5. split; [|done]. split; try done.
    - destruct H1 as (s' & _ & ->). apply (frames_drop y _ OpRecv (Ok (RData m)) 0); [by exists s'|done].
    - destruct H1 as (s' & _ & ->). cbn. by rewrite app_nil_r.
    - unfold outstanding. rewrite K1, K2. done.
    - unfold own. by rewrite K1, K3. }
  induction 1 as [x x1 H1|x m x1 x2 H1 _ [IH1 IH2]]; [by eapply Hone|].
  destruct (Hone _ _ _ H1) as [K1 K2]. split; [by etrans|congruence].
Qed.

Lemma reads_steps net x x' : reads x x' → rtc (peer_step prof clk net) x x'.
Proof.
  induction 1 as [x x1 H1|x m x1 x2 H1 _ IH]; [apply rtc_once|eapply rtc_l; [|exact IH]];
    (eapply call_step; [..|exact H1]; done).
Qed.

Lemma recv_asked s r s' : Inv (inner s) → recv s = (Ok r, s') → asked (p_flags (e_probe (inner s))) → asked (p_flags (e_probe (inner s'))).
Proof.
  intros HI Hr Ha. pose proof (wp_ok _ _ _ _ _ _ _ (recv_spec s HI) Hr) as (_ & popped & rest & _ & Hp).
  destruct r as [d|]; [|by rewrite (proj2 Hp)]. destruct Hp as (_ & _ & segs & e1 & Hmv & _ & ->).
  pose proof (mv_frame _ _ _ Hmv) as Hf. assert (H1 : asked (p_flags (e_probe e1))) by (by rewrite Hf).
  destruct (_ && _); [|done]. cbn. unfold asked. by rewrite Z.lor_spec, orb_true_r.
Qed.

Lemma did_recv x m x' : did x OpRecv (Ok (RData m)) x' → recv (pe_st x) = (Ok m, pe_st x').
Proof.
  intros (s' & Hr & ->). cbn in *. apply bind_ok in Hr as (r & s1 & Hr & Hret). by injection Hret as -> ->.
Qed.

Lemma reads_asked x x' : Inv (eng x) → reads x x' → asked (p_flags (e_probe (eng x))) → asked (p_flags (e_probe (eng x'))).
Proof.
  intros HI Hr. revert HI. induction Hr as [x x1 H1|x m x1 x2 H1 _ IH]; intros HI Ha;
    apply did_recv in H1; pose proof (recv_asked _ _ _ HI H1 Ha) as Ha1; [done|].
  apply IH; [|done]. by apply (wp_ok _ _ _ _ _ _ _ (recv_spec _ HI) H1).
Qed.
End Parts.

(** * Where the two ends stand *)

(** How far the sender is from being allowed to send, when nothing is in flight:
    it has yet to start the probe timer, or to send the probe. *)
Definition closed (e : KcpEngine) : nat :=
  if is_empty (e_snd_buf e) && (w_rmt (e_wnd e) =? 0) then if p_wait (e_probe e) =? 0 then 2%nat else 1%nat else 0%nat.

(** The time has come for what the sender waits for: the oldest segment is due,
    and so is the probe of a closed window. *)
Definition timely (now : Z) (e : KcpEngine) : Prop :=
  match e_snd_buf e with seg :: _ => due now seg | [] => True end ∧
  (closed e = 1%nat → 0 ≤ time_diff now (p_ts (e_probe e))).

Section Standing.
Context {x y : Peer} {done : list (list cell)}.
Context (Hy : peer_ok (pe_hist x) done y) (Hs : sent_ok x) (Hg : good (eng x)) (Hh : held x y).
Context (Hsd : sender_ok (pe_hist x) (eng x)) (Hb : len (pe_hist x) ≤ H31).
Context (Hw : c_rcv_wnd (e_config (eng x)) ≤ c_rcv_wnd (e_config (eng y))) (Hd : drained y).

(** A receiver whose application reads has room, and waits for the next number. *)
Lemma drained_room : len (e_rcv_queue (eng y)) < c_rcv_wnd (e_config (eng y)) ∧ e_rcv_buf (eng y) !! e_rcv_nxt (eng y) = None.
Proof.
  destruct Hd as [e' Hr].
  assert (Hroom : len (e_rcv_queue (eng y)) < c_rcv_wnd (e_config (eng y))).
  { apply Z.lt_nge. intros Hfull. exact (full_queue_delivers Hy Hs (proj1 Hg) e' Hw Hfull Hr). }
  split; [done|]. destruct (po_settled _ _ _ Hy) as [H|H]; [done|lia].
Qed.

(** So what it waits for is in flight, unless it has everything. *)
Lemma next_in_flight :
  e_rcv_nxt (eng y) < len (pe_hist x) → e_rcv_nxt (eng y) ∈ map sn (e_snd_buf (eng x)).
Proof.
  intros Hlt. pose proof (i_rcv_nxt _ (ep_inv _ _ _ _ (po_end _ _ _ Hy))) as [H0 _].
  destruct (Hh (e_rcv_nxt (eng y)) ltac:(lia)) as [H|[H|[seg H]]]; [done|lia|].
  destruct drained_room as [_ Hn]. congruence.
Qed.

(** The oldest segment in flight, or the next to be sent, is before the end of
    the receiver's window. *)
Lemma oldest_in_window : e_snd_una (eng x) < limit_of (eng y).
Proof.
  destruct Hg as [HI Ht]. pose proof (wo_rcv _ (i_config _ (ep_inv _ _ _ _ (po_end _ _ _ Hy)))) as Hr.
  pose proof (i_rcv_nxt _ (ep_inv _ _ _ _ (po_end _ _ _ Hy))) as [H0 _]. unfold limit_of.
  apply Z.le_lt_trans with (e_rcv_nxt (eng y)); [|lia]. apply Z.le_ngt. intros Hlt.
  pose proof (i_una _ HI) as [U0 U1]. unfold una_tight in Ht.
  assert (Huna : e_snd_una (eng x) ≤ len (pe_hist x)).
  { rewrite Ht. destruct (e_snd_buf (eng x)) as [|seg l] eqn:Hbuf; [by rewrite (sd_nxt _ _ Hsd)|].
    pose proof (sd_buf _ _ Hsd) as Hn. rewrite Hbuf in Hn. apply Forall_cons in Hn as [Hn _].
    assert (0 ≤ sn seg) by lia. pose proof (numbered_lt _ _ ltac:(done) Hn). lia. }
  pose proof (next_in_flight ltac:(lia)) as Hin. apply list_elem_of_fmap in Hin as (seg & Hsn & Hin).
  pose proof (i_snd_buf _ HI) as [Bw _ _ Br _]. rewrite Forall_forall in Br. specialize (Br seg Hin). cbn in Br.
  rewrite <- Hsn in Br. pose proof (wo_snd _ (i_config _ HI)) as Hsw.
  pose proof (i_rcv_nxt _ (ep_inv _ _ _ _ (po_end _ _ _ Hy))). zlia.
Qed.

(** While something is outstanding and the window is not closed, a timely flush
    sends the oldest segment. *)
Lemma oldest_is_sent now :
  own (eng x) → outstanding x ≠ 0%nat → closed (eng x) = 0%nat → timely now (eng x) →
  ∃ seg, seg ∈ sent_at now (eng x) ∧ h_conv (s_header seg) = e_conv (eng x) ∧ sn seg < limit_of (eng y).
Proof.
  intros Hown Ho Hc [Htime _]. pose proof oldest_in_window as Hlim. destruct Hg as [HI Ht]. unfold una_tight in Ht.
  destruct (e_snd_buf (eng x)) as [|seg0 l] eqn:Hbuf.
  - destruct (next_is_sent now (eng x) (i_nxt _ HI)) as (seg & H1 & H2 & H3).
    2: { exists seg. rewrite H2, <- Ht. done. }
    unfold closed in Hc. rewrite Hbuf in Hc. cbn in Hc. unfold outstanding in Ho. rewrite Hbuf in Ho. cbn in Ho.
    destruct (i_wnd _ HI) as [W1 _ W3 W4 _ _]. pose proof (wo_snd _ (i_config _ HI)) as Hsw.
    destruct (Z.eqb_spec (w_rmt (e_wnd (eng x))) 0) as [|Hne]; [by destruct (p_wait _ =? 0)|].
    unfold move_count, room_of, send_window_of. rewrite Ht. unfold in_u in W3. rewrite W1.
    replace (offset_from (e_snd_nxt (eng x)) (e_snd_nxt (eng x))) with 0 by zlia.
    destruct (nd_no_congestion_control _); lia.
  - destruct (due_is_sent now (eng x) seg0) as (seg & H1 & H2 & H3); [rewrite Hbuf; by left|done|].
    exists seg. rewrite H2, H3, <- Ht. split_and!; [done| |done].
    unfold own in Hown. rewrite Hbuf in Hown. by apply Forall_cons in Hown as [? _].
Qed.
End Standing.

(** * A round trip *)

Section Hears.
Context {prof : Profile} {clk : Clock} {api : BytesApi} {spec : BytesApiSpec api}.

Lemma inputs_hear W ds x x' :
  Inv (eng x) → Forall (carries W) ds → inputs ds x x' →
  tells (eng x') = (foldl (hear (e_conv (eng x))) (hearing (eng x)) (concat (map parse_datagram ds)),
    p_wait (e_probe (eng x)), p_ts (e_probe (eng x)), e_conv (eng x)).
Proof.
  intros HI Hds Hi. revert HI Hds. induction Hi as [x|d ds x r x1 x2 (s' & Hrun & ->) Hnp _ IH]; intros HI Hds; [done|].
  apply Forall_cons in Hds as [Hd Hds]. cbn [perform] in Hrun. unfold mbind, M_bind in Hrun.
  pose proof (input_hears d (pe_st x)) as Hh. pose proof (input_inv d (pe_st x) HI) as Hinv. unfold wp in Hh, Hinv.
  rewrite (parse_carried _ _ Hd) in Hh.
  assert (Hone : Inv (inner s') ∧ tells (inner s') = (foldl (hear (e_conv (eng x))) (hearing (eng x)) (parse_datagram d),
    p_wait (e_probe (eng x)), p_ts (e_probe (eng x)), e_conv (eng x))).
  { destruct (input d (pe_st x)) as [[[]|e|q] s]; cbn in Hrun; injection Hrun as <- <-; [..|by destruct (Hnp q)].
    - split; [apply Hinv|exact Hh].
    - destruct Hinv as (_ & Hl & now & He & HI'). split; [done|]. by rewrite parse_short, He by done. }
  destruct Hone as [HI' H1]. specialize (IH HI' Hds). cbn in IH |- *. rewrite foldl_app.
  unfold tells in H1. injection H1 as H1 H2 H3 H4. by rewrite <- H1, <- H2, <- H3, <- H4.
Qed.

End Hears.

Section Told.
Context {prof : Profile} {clk : Clock} {api : BytesApi} {spec : BytesApiSpec api}.

(** What is told last holds: a sender that hears from a receiver with room may
    send. *)
Lemma told_open (prof' : Profile) (clk' : Clock) h p done y out y3 x x' stale W :
  endpoint_ok h p done (eng y) → puts_out (prof := prof) (clk := clk) y out y3 → 0 < wnd_unused_of (eng y) →
  Inv (eng x) → Forall (carries W) (stale ++ out) → inputs (prof := prof') (clk := clk') (stale ++ out) x x' →
  e_conv (eng x) = e_conv (eng y) → e_ack_list (eng y) ≠ [] ∨ asked (p_flags (e_probe (eng y))) →
  0 < w_rmt (e_wnd (eng x')).
Proof.
  intros He Hp Hroom HI Hc Hi Hconv Hsome.
  destruct (puts_out_spec (prof := prof) (clk := clk) _ _ _ _ _ _ He Hp) as (_ & _ & _ & _ & _ & t & t' & segs & _ & _ & Hw & Hall & _).
  pose proof (wnd_unused_range _ (ep_inv _ _ _ _ He)) as Hr. pose proof (wo_rcv _ (i_config _ (ep_inv _ _ _ _ He))) as Hr'.
  set (now := now_of (clk := clk) (pe_st y)) in *. set (fresh := acks_of (eng y) ++ _) in *.
  assert (Hex : Exists (λ seg, h_conv (s_header seg) = e_conv (eng x)) fresh).
  { unfold fresh. apply Exists_exists. destruct Hsome as [Ha|Ha].
    - destruct (e_ack_list (eng y)) as [|a l] eqn:Hl; [done|]. exists (ack_of (eng y) a). split; [|by rewrite Hconv].
      unfold acks_of. rewrite Hl. by left.
    - exists (probe_of (probed now (eng y)) IKCP_CMD_WINS t'). split; [|by rewrite Hconv].
      rewrite !elem_of_app. right. left. unfold probes_of. rewrite elem_of_app. right.
      rewrite asked_probe; [by left|]. unfold probed, probe_after. cbn. repeat case_match; cbn; try done.
      unfold asked in *. by rewrite Z.lor_spec, Ha. }
  pose proof (inputs_hear (prof := prof') (clk := clk') W _ _ _ HI Hc Hi) as Hh. unfold tells in Hh. injection Hh as Hh _ _ _.
  rewrite map_app, concat_app, Hall, map_app, !foldl_app in Hh.
  set (w := foldl _ (foldl _ _ _) (map wire_segment segs)) in Hh.
  pose proof (hear_open (e_conv (eng x)) (map wire_segment fresh) w) as Hopen. rewrite <- Hh in Hopen. cbn [hearing fst] in Hopen.
  apply Hopen.
  - apply Forall_map. eapply Forall_impl; [exact Hw|]. intros seg Hseg. cbn. rewrite Hseg. unfold as_u16. zlia.
  - right. apply Exists_exists in Hex as (seg & Hin & Hs). apply Exists_exists. exists (wire_segment seg).
    split; [by apply list_elem_of_fmap_2|done].
Qed.

Lemma puts_out_net x out x' : puts_out x out x' → pe_net x' = pe_net x ++ out.
Proof. intros (x1 & (s1 & _ & ->) & (s2 & _ & ->)). cbn. by rewrite app_nil_r. Qed.
End Told.

Section Rounds.
Context {api : BytesApi} {spec : BytesApiSpec api}.
Context (prof_a prof_b : Profile) (clk_a clk_b : Clock).

(** The ends are in a conversation that has room in its numbers. *)
Record able (x y : Peer) : Prop := {
  ab_linked : linked prof_a prof_b clk_a clk_b (Build_Link x y);
  ab_room : len (frames x) + 65535 ≤ H31;
  ab_room' : len (frames y) ≤ H31;
  ab_conv : e_conv (eng x) = e_conv (eng y);
  ab_own : own (eng x);
  ab_wnd : c_rcv_wnd (e_config (eng x)) ≤ c_rcv_wnd (e_config (eng y));
}.

(** A round trip that the network lets pass: when the time has come [x] flushes,
    and all it puts out reaches [y], in any order, with any duplicates and any
    older datagrams; the application at [y] reads; [y] flushes, and what it puts
    out reaches [x], after older datagrams, if any. *)
Inductive good_round (x y : Peer) : Peer → Peer → Prop :=
  | good_round_intro n x2 out ds y1 y2 y3 out' stale x3 :
      timely (now_of (clk := clk_a) (pe_st (waited x n))) (eng x) →
      puts_out (prof := prof_a) (clk := clk_a) (waited x n) out x2 →
      out ⊆ ds → ds ⊆ pe_net x2 → inputs (prof := prof_b) (clk := clk_b) ds y y1 →
      reads (prof := prof_b) (clk := clk_b) y1 y2 →
      puts_out (prof := prof_b) (clk := clk_b) y2 out' y3 →
      stale ⊆ pe_net y3 → inputs (prof := prof_a) (clk := clk_a) (stale ++ out') x2 x3 →
      good_round x y x3 y3.

Lemma hist_frames x : len (pe_hist x) ≤ len (frames x).
Proof. unfold frames. rewrite len_app. pose proof (len_nonneg (map cell_of (e_snd_queue (eng x)))). lia. Qed.

Lemma waited_kept x n : kept x (waited x n).
Proof. by split. Qed.
Lemma linked_waited x y n :
  linked prof_a prof_b clk_a clk_b (Build_Link x y) → linked prof_a prof_b clk_a clk_b (Build_Link (waited x n) y).
Proof. intros Hl. apply (linked_runs_a _ _ _ _ [] x _ y Hl (list_subseteq_nil _)), rtc_once, peer_wait. Qed.

(** What a link says of the direction from [x] to [y]. *)
Lemma standing x y :
  linked prof_a prof_b clk_a clk_b (Build_Link x y) → len (frames x) ≤ H31 → len (frames y) ≤ H31 →
  (∃ done, peer_ok (pe_hist x) done y) ∧ (∃ done, peer_ok (pe_hist y) done x) ∧ good (eng x) ∧ good (eng y) ∧ held x y.
Proof.
  intros Hl Hx Hy. pose proof (hist_frames x). pose proof (hist_frames y).
  destruct (linked_ok _ _ _ _ _ Hl) as [Ka Kb Kab _]; [split; cbn; lia|].
  by destruct (linked_good _ _ _ _ _ Hl).
Qed.

Lemma arrivals_ok x y ds :
  linked prof_a prof_b clk_a clk_b (Build_Link x y) → len (frames x) ≤ H31 → len (frames y) ≤ H31 →
  (ds ⊆ pe_net x → Forall (carries (arriving (pe_hist x) (received (eng x)))) ds) ∧
  (ds ⊆ pe_net y → Forall (carries (arriving (pe_hist y) (received (eng y)))) ds).
Proof.
  intros Hl Hx Hy. destruct (standing x y Hl Hx Hy) as ([d1 K1] & [d2 K2] & _).
  pose proof (hist_frames x). pose proof (hist_frames y).
  split; intros Hs; apply Forall_forall; intros d Hd; apply Hs in Hd.
  - pose proof (po_net _ _ _ K2) as Hn. rewrite Forall_forall in Hn.
    eapply (wire_arriving _ _ _ _ _ (po_end _ _ _ K2)); [lia|by apply Hn].
  - pose proof (po_net _ _ _ K1) as Hn. rewrite Forall_forall in Hn.
    eapply (wire_arriving _ _ _ _ _ (po_end _ _ _ K1)); [lia|by apply Hn].
Qed.

Lemma limit_nonneg e : Inv e → 0 ≤ limit_of e.
Proof. intros HI. destruct (i_rcv_nxt _ HI). pose proof (wo_rcv _ (i_config _ HI)). unfold limit_of. lia. Qed.

(** Arrivals at either end. *)
Lemma inputs_kept_b x y ds y' :
  linked prof_a prof_b clk_a clk_b (Build_Link x y) → len (frames x) ≤ H31 → len (frames y) ≤ H31 →
  ds ⊆ pe_net x → inputs (prof := prof_b) (clk := clk_b) ds y y' →
  kept y y' ∧ e_snd_queue (eng y') = e_snd_queue (eng y).
Proof.
  intros Hl Hx Hy Hds Hi. destruct (standing x y Hl Hx Hy) as ([d1 K1] & _ & _ & Hg & _).
  pose proof (hist_frames x). pose proof (hist_frames y).
  destruct (inputs_handled (prof := prof_b) (clk := clk_b) (pe_hist y) (pe_hist x) (concat d1) (received (eng x)) 0 ds y y')
    as [[He Htk] _]; [lia|lia|by right|apply limit_nonneg, Hg|apply K1|by apply (arrivals_ok x y)|done|].
  split; [by eapply (inputs_kept (prof := prof_b) (clk := clk_b)); [exact Htk|apply He|]|].
  apply (inputs_keep (prof := prof_b) (clk := clk_b) e_snd_queue ds); [|done]. intros d. apply keeps_input_queue.
Qed.
Lemma inputs_kept_a x y ds x' :
  linked prof_a prof_b clk_a clk_b (Build_Link x y) → len (frames x) ≤ H31 → len (frames y) ≤ H31 →
  ds ⊆ pe_net y → inputs (prof := prof_a) (clk := clk_a) ds x x' →
  kept x x' ∧ e_snd_queue (eng x') = e_snd_queue (eng x) ∧
  ∀ k, k ∈ map sn (e_snd_buf (eng x')) → k ∈ map sn (e_snd_buf (eng x)).
Proof.
  intros Hl Hx Hy Hds Hi. destruct (standing x y Hl Hx Hy) as (_ & [d1 K1] & Hg & _).
  pose proof (hist_frames x). pose proof (hist_frames y).
  destruct (inputs_handled (prof := prof_a) (clk := clk_a) (pe_hist x) (pe_hist y) (concat d1) (received (eng y)) 0 ds x x')
    as [[He Htk] _]; [lia|lia|by right|apply limit_nonneg, Hg|apply K1|by apply (arrivals_ok x y)|done|].
  split; [by eapply (inputs_kept (prof := prof_a) (clk := clk_a)); [exact Htk|apply He|]|].
  split; [|intros k; by eapply took_numbers].
  apply (inputs_keep (prof := prof_a) (clk := clk_a) e_snd_queue ds); [|done]. intros d. apply keeps_input_queue.
Qed.

(** A link within bounds, and what a message read leaves of it. *)
Definition joined_ok (x y : Peer) : Prop :=
  linked prof_a prof_b clk_a clk_b (Build_Link x y) ∧ len (frames x) ≤ H31 ∧ len (frames y) ≤ H31.
Lemma joined_read x y m y1 :
  joined_ok x y → did (prof := prof_b) (clk := clk_b) y OpRecv (Ok (RData (Some m))) y1 → joined_ok x y1.
Proof.
  intros (Hl & Hx & Hy) H1. split; [|split; [done|]].
  - eapply (linked_runs_b _ _ _ _ [] _ y); [exact Hl|apply list_subseteq_nil|]. apply rtc_once.
    by eapply call_step; [..|exact H1].
  - pose proof (keeps_recv_send (prof := prof_b) (pe_st y)) as Hk. rewrite (did_recv _ _ _ H1) in Hk. injection Hk as _ Hq _ _ _.
    destruct H1 as (s' & _ & ->). rewrite (frames_drop y _ OpRecv (Ok (RData (Some m))) 0); [done|by exists s'|done].
Qed.

(** An application that has read to the end leaves nothing to read. *)
Lemma reads_drained x y y' :
  joined_ok x y → reads (prof := prof_b) (clk := clk_b) y y' → drained y'.
Proof.
  intros J Hr. revert J. induction Hr as [y y' H1|y m y1 y' H1 _ IH]; intros J.
  - destruct J as (Hl & Hx & Hy). destruct (standing x y Hl Hx Hy) as ([d1 K1] & [d2 K2] & [HI _] & [HI' _] & _).
    pose proof (wp_ok _ _ _ _ _ _ _ (recv_spec _ HI') (did_recv _ _ _ H1)) as [_ Hp].
    apply (drained_queue y); [|by eexists]. exact (none_read K1 (po_sent _ _ _ K2) HI _ Hp).
  - apply IH. by eapply joined_read.
Qed.

Section OneRound.
Context (x y : Peer) (n : nat) (x2 : Peer) (out ds : list bytes) (y1 y2 y3 : Peer) (out' stale : list bytes) (x3 : Peer).
Context (Hab : able x y) (Htime : timely (now_of (clk := clk_a) (pe_st (waited x n))) (eng x)).
Context (Hx : puts_out (prof := prof_a) (clk := clk_a) (waited x n) out x2) (Hout : out ⊆ ds) (Hds : ds ⊆ pe_net x2).
Context (Hin : inputs (prof := prof_b) (clk := clk_b) ds y y1) (Hread : reads (prof := prof_b) (clk := clk_b) y1 y2).
Context (Hy : puts_out (prof := prof_b) (clk := clk_b) y2 out' y3) (Hst : stale ⊆ pe_net y3).
Context (Hin' : inputs (prof := prof_a) (clk := clk_a) (stale ++ out') x2 x3).
Abbreviation joined := (linked prof_a prof_b clk_a clk_b).

(** The links on the way, and what stays. *)
Lemma round_sent : joined (Build_Link x2 y) ∧ kept x x2 ∧ outstanding x2 = outstanding x.
Proof.
  pose proof (linked_waited x y n (ab_linked _ _ Hab)) as Hl.
  destruct (puts_out_kept (waited x n) out x2 (proj1 (linked_good _ _ _ _ _ Hl)) Hx) as (K & Ho & _). split_and!.
  - eapply linked_runs_a; [exact Hl|apply list_subseteq_nil|by eapply puts_out_steps].
  - etrans; [apply waited_kept|exact K].
  - exact Ho.
Qed.
Lemma round_rooms : len (frames x2) + 65535 ≤ H31 ∧ len (frames x2) ≤ H31 ∧ len (frames y) ≤ H31.
Proof. destruct round_sent as (_ & K & _). pose proof (ab_room _ _ Hab). rewrite (kp_frames _ _ K). pose proof (ab_room' _ _ Hab). lia. Qed.
Lemma round_received : joined (Build_Link x2 y1) ∧ kept y y1.
Proof.
  destruct round_sent as (L & _), round_rooms as (_ & Bx & By). split.
  - eapply linked_runs_b; [exact L|reflexivity|by eapply inputs_steps].
  - by apply (inputs_kept_b x2 y ds y1 L).
Qed.
Lemma round_read : joined (Build_Link x2 y2) ∧ kept y y2 ∧ e_ack_list (eng y2) = e_ack_list (eng y1) ∧ drained y2.
Proof.
  destruct round_received as [L K], round_rooms as (_ & Bx & By). destruct (reads_kept _ _ Hread) as [K' Ha]. split_and!.
  - eapply linked_runs_b; [exact L|apply list_subseteq_nil|by eapply reads_steps].
  - by etrans.
  - exact Ha.
  - apply (reads_drained x2 y1 y2); [|done]. split_and!; [done..|]. by rewrite (kp_frames _ _ K).
Qed.
Lemma round_answered : joined (Build_Link x2 y3) ∧ kept y y3 ∧ drained y3.
Proof.
  destruct round_read as (L & K & _ & D).
  destruct (puts_out_kept y2 out' y3 (proj2 (linked_good _ _ _ _ _ L)) Hy) as (K' & _ & Hq). split_and!.
  - eapply linked_runs_b; [exact L|apply list_subseteq_nil|by eapply puts_out_steps].
  - by etrans.
  - by apply (drained_queue y2).
Qed.
Lemma round_net : stale ++ out' ⊆ pe_net y3.
Proof. intros d [Hd|Hd]%elem_of_app; [by apply Hst|]. rewrite (puts_out_net _ _ _ Hy). apply elem_of_app. by right. Qed.
Lemma round_finished : joined (Build_Link x3 y3) ∧ kept x2 x3 ∧ e_snd_queue (eng x3) = e_snd_queue (eng x2) ∧
  ∀ k, k ∈ map sn (e_snd_buf (eng x3)) → k ∈ map sn (e_snd_buf (eng x2)).
Proof.
  destruct round_answered as (L & K & _), round_rooms as (_ & Bx & By). split.
  - eapply linked_runs_a; [exact L|apply round_net|]. by eapply inputs_steps.
  - apply (inputs_kept_a x2 y3 (stale ++ out') x3 L Bx); [by rewrite (kp_frames _ _ K)|apply round_net|done].
Qed.

Lemma round_able : able x3 y3 ∧ drained y3 ∧ kept x x3.
Proof.
  destruct round_sent as (_ & K1 & _), round_answered as (_ & K2 & D), round_finished as (L & K3 & _).
  assert (K : kept x x3) by (by etrans). split_and!; [|done|done]. destruct Hab as [_ H2 H3 H4 H5 H6].
  split; rewrite ?(kp_frames _ _ K), ?(kp_frames _ _ K2), ?(kp_conv _ _ K), ?(kp_conv _ _ K2), ?(kp_config _ _ K), ?(kp_config _ _ K2);
    try done. by apply K.
Qed.

(** The receiver's window is open when it answers. *)
Lemma round_told :
  e_ack_list (eng y2) ≠ [] ∨ asked (p_flags (e_probe (eng y2))) → 0 < w_rmt (e_wnd (eng x3)).
Proof.
  intros Hsome. destruct round_read as (L & K & _ & D), round_rooms as (_ & Bx & By), round_sent as (_ & Kx & _).
  assert (By2 : len (frames y2) ≤ H31) by (by rewrite (kp_frames _ _ K)).
  destruct (standing x2 y2 L Bx By2) as ([d1 P1] & [d2 P2] & Gx & Gy & Hh).
  assert (Hw : c_rcv_wnd (e_config (eng x2)) ≤ c_rcv_wnd (e_config (eng y2))).
  { rewrite (kp_config _ _ Kx), (kp_config _ _ K). apply Hab. }
  destruct (drained_room P1 (po_sent _ _ _ P2) Gx Hw D) as [Hroom _].
  destruct round_answered as (L3 & K3 & _).
  eapply (told_open (prof := prof_b) (clk := clk_b) prof_a clk_a (pe_hist y2) (pe_hist x2) (concat d1) y2 out' y3 x2 x3 stale); try done.
  - apply P1.
  - unfold wnd_unused_of, w_rcv_of. rewrite (wk_rcv _ _ (i_wnd _ (proj1 Gy))). rewrite (proj2 (Z.ltb_lt _ _) Hroom).
    pose proof (wo_rcv _ (i_config _ (proj1 Gy))). pose proof (len_nonneg (e_rcv_queue (eng y2))). zlia.
  - apply Gx.
  - apply (arrivals_ok x2 y3 (stale ++ out') L3 Bx); [by rewrite (kp_frames _ _ K3)|apply round_net].
  - rewrite (kp_conv _ _ Kx), (kp_conv _ _ K). apply Hab.
Qed.

Lemma closed_open e : 0 < w_rmt (e_wnd e) → closed e = 0%nat.
Proof. intros H. unfold closed. destruct (Z.eqb_spec (w_rmt (e_wnd e)) 0); [lia|]. by rewrite andb_false_r. Qed.

(** While something is outstanding, a round trip gets the sender closer. *)
Lemma round_acknowledges :
  drained y → outstanding x ≠ 0%nat → closed (eng x) = 0%nat →
  (outstanding x3 < outstanding x)%nat ∧ closed (eng x3) = 0%nat.
Proof.
  intros D Hne Hc. pose proof (ab_linked _ _ Hab) as L. pose proof (ab_room _ _ Hab) as Bx. pose proof (ab_room' _ _ Hab) as By.
  destruct (standing x y L ltac:(lia) By) as ([d1 P1] & [d2 P2] & Gx & Gy & Hh). pose proof (hist_frames x) as Hhx.
  destruct (oldest_is_sent P1 (po_sent _ _ _ P2) Gx Hh (ep_sender _ _ _ _ (po_end _ _ _ P2)) ltac:(lia) (ab_wnd _ _ Hab) D _
    (ab_own _ _ Hab) Hne Hc Htime) as (seg & Hseg & Hcv & Hlim).
  destruct round_sent as (L2 & K2 & Ho2), round_received as [L1 K1], round_read as (L2' & K2' & Ha & _), round_rooms as (B1 & B2 & _).
  pose proof (hist_frames x2). pose proof (hist_frames y1) as Hy1. rewrite (kp_frames _ _ K1) in Hy1.
  destruct (data_arrives prof_a prof_b clk_a clk_b (waited x n) y x2 y1 out ds seg) as [_ Hack]; try done;
    [by apply linked_waited|lia|lia|rewrite Hcv; apply Hab|]. rewrite <- Ha in Hack.
  split; [|apply closed_open, round_told; left; intros Hnil; rewrite Hnil in Hack; by apply elem_of_nil in Hack].
  destruct round_answered as (L3 & K3 & _), round_finished as (L4 & K4 & Hq & Hsub). pose proof (hist_frames y3) as Hy3. rewrite (kp_frames _ _ K3) in Hy3.
  pose proof (ack_arrives prof_a prof_b clk_a clk_b x2 y2 y3 x3 out' (stale ++ out') (sn seg)) as Hgone.
  assert (Hno : sn seg ∉ map sn (e_snd_buf (eng x3))).
  { apply Hgone; try done; [lia|lia|rewrite (kp_conv _ _ K2), (kp_conv _ _ K2'); apply Hab|intros d Hd; apply elem_of_app; by right|apply round_net]. }
  assert (Hyes : sn seg ∈ map sn (e_snd_buf (eng x2))).
  { destruct (puts_out_flushed _ _ _ (proj1 Gx : Inv (eng (waited x n))) Hx) as (e1 & _ & Hf & -> & _).
    cbn. rewrite (fl_buf _ _ _ Hf). apply (list_elem_of_fmap_2 sn). by apply (sent_at_in _ _ _ Hseg). }
  destruct (linked_good _ _ _ _ _ L4) as [[HI3 _] _].
  destruct (fewer_segments (e_snd_buf (eng x2)) (e_snd_buf (eng x3)) (buf_NoDup _ HI3) Hsub) as [_ Hless].
  specialize (Hless _ Hyes Hno). unfold outstanding in *. rewrite Hq. lia.
Qed.

(** A closed sender whose probe is due sends it, and the receiver is asked. *)
Lemma round_asks : closed (eng x) = 1%nat → asked (p_flags (e_probe (eng y1))).
Proof.
  intros Hc. destruct Htime as [_ Hdue]. specialize (Hdue Hc).
  pose proof (linked_waited x y n (ab_linked _ _ Hab)) as L0. pose proof (ab_room _ _ Hab) as Bx0.
  destruct round_sent as (L2 & K2 & _), round_rooms as (B1 & B2 & By).
  destruct (standing (waited x n) y L0 ltac:(change (frames (waited x n)) with (frames x); lia) By) as (_ & [d2 P2] & _ & [HIy _] & _).
  destruct (puts_out_spec _ _ _ _ _ _ (po_end _ _ _ P2) Hx) as (_ & _ & _ & _ & _ & t & t' & segs & _ & _ & _ & _ & Hsent).
  set (now := now_of (clk := clk_a) (pe_st (waited x n))) in *.
  destruct (Hsent (probe_of (probed now (eng x)) IKCP_CMD_WASK t)) as (d & Hd & Hpd).
  { rewrite !elem_of_app. right. left. unfold probes_of. apply elem_of_app. left. unfold probe_if.
    replace (Z.land _ _ =? 0) with false; [by left|]. symmetry. unfold closed in Hc. cbn. unfold probe_after.
    destruct (w_rmt (e_wnd (eng x)) =? 0) eqn:Hr; [|by rewrite andb_false_r in Hc]. destruct (is_empty _); [|done].
    cbn in Hc. destruct (p_wait (e_probe (eng x)) =? 0); [done|]. rewrite (proj2 (Z.leb_le _ _) Hdue). cbn.
    apply Z.eqb_neq. intros H0. apply (f_equal (λ z, Z.testbit z 0)) in H0. by rewrite Z.land_spec, Z.lor_spec, orb_true_r in H0. }
  pose proof (proj1 (arrivals_ok x2 y ds L2 B2 By) Hds) as Harr.
  pose proof (inputs_hear (prof := prof_b) (clk := clk_b) _ _ _ _ HIy Harr Hin) as Hh. unfold tells in Hh. injection Hh as Hh _ _ _.
  change (p_flags (e_probe (eng y1))) with (hearing (eng y1)).2. rewrite Hh. apply hear_asked. right. apply Exists_exists.
  exists (wire_segment (probe_of (probed now (eng x)) IKCP_CMD_WASK t)). split; [|split; [apply Hab|done]].
  apply list_elem_of_In, in_concat. exists (parse_datagram d). rewrite in_map_iff. split; [exists d; split; [done|]|];
    apply list_elem_of_In; [by apply Hout|done].
Qed.

(** A sender that is not allowed to send starts the probe timer, and then
    probes, which opens the window. *)
Lemma round_probes : closed (eng x) ≠ 0%nat → (closed (eng x3) < closed (eng x))%nat.
Proof.
  intros Hc. destruct (decide (closed (eng x) = 1%nat)) as [H1|H1].
  { rewrite H1. enough (0 < w_rmt (e_wnd (eng x3))) as H by (rewrite (closed_open _ H); lia).
    apply round_told. right. destruct round_received as [L1 _].
    apply (reads_asked (prof := prof_b) (clk := clk_b) y1); [apply (linked_good _ _ _ _ _ L1)|done|by apply round_asks]. }
  destruct round_sent as (L2 & K2 & _), round_rooms as (B1 & B2 & By), round_answered as (L3 & K3 & _).
  rewrite <- (kp_frames _ _ K3) in By.
  destruct (linked_good _ _ _ _ _ (linked_waited x y n (ab_linked _ _ Hab))) as [[HI _] _].
  destruct (puts_out_flushed _ _ _ HI Hx) as (e1 & HI1 & Hf & Hx2 & _). pose proof (fl_probe _ _ _ Hf) as Hp.
  pose proof (proj2 (arrivals_ok x2 y3 (stale ++ out') L3 B2 By) round_net) as Harr.
  assert (HI2 : Inv (eng x2)) by apply (linked_good _ _ _ _ _ L2).
  pose proof (inputs_hear (prof := prof_a) (clk := clk_a) _ _ _ _ HI2 Harr Hin') as Hh. unfold tells in Hh. injection Hh as _ Hwait _ _.
  rewrite Hx2 in Hwait. cbn in Hwait. rewrite Hp in Hwait. cbn in Hwait. unfold probe_after in Hwait.
  change (inner (Timed (eng x) _)) with (eng x) in Hwait.
  unfold closed in Hc, H1 |- *. destruct (is_empty (e_snd_buf (eng x))); [|done].
  destruct (w_rmt (e_wnd (eng x)) =? 0); [|done]. cbn [andb] in *. destruct (p_wait (e_probe (eng x)) =? 0); [|done].
  cbn in Hwait. rewrite Hwait. destruct (_ && _); cbn; lia.
Qed.
End OneRound.

Lemma good_round_step x y x' y' :
  able x y → good_round x y x' y' →
  able x' y' ∧ drained y' ∧ kept x x' ∧
  (drained y → outstanding x ≠ 0%nat → (outstanding x' + closed (eng x') < outstanding x + closed (eng x))%nat).
Proof.
  intros Hab [n x2 out ds y1 y2 y3 out' stale x3 H1 H2 H3 H4 H5 H6 H7 H8 H9].
  destruct (round_able x y n x2 out ds y1 y2 y3 out' stale x3) as (A & D & K); try done. split_and!; [done..|].
  intros Dy Hne. destruct (decide (closed (eng x) = 0%nat)) as [Hc|Hc].
  - destruct (round_acknowledges x y n x2 out ds y1 y2 y3 out' stale x3) as [Hl ->]; try done. lia.
  - pose proof (kp_fewer _ _ K). pose proof (round_probes x y n x2 out ds y1 y2 y3 out' stale x3) as Hp.
    specialize (Hp ltac:(done) ltac:(done) ltac:(done) ltac:(done) ltac:(done) ltac:(done) ltac:(done) ltac:(done) ltac:(done) ltac:(done) Hc). lia.
Qed.

(** [n] of them, one after another. *)
Definition good_rounds (n : nat) (x y x' y' : Peer) : Prop :=
  nsteps (λ p q : Peer * Peer, good_round p.1 p.2 q.1 q.2) n (x, y) (x', y').

Lemma good_rounds_progress n : ∀ x y x' y',
  able x y → drained y → good_rounds n x y x' y' →
  able x' y' ∧ drained y' ∧ kept x x' ∧ ((outstanding x + closed (eng x) ≤ n)%nat → outstanding x' = 0%nat).
Proof.
  unfold good_rounds. induction n as [|n IH]; intros x y x' y' A D Hr.
  - inversion Hr; subst. split_and!; try done. lia.
  - inversion Hr as [|? ? [x1 y1] ? Hone Hrest]; subst. cbn in Hone.
    destruct (good_round_step x y x1 y1 A Hone) as (A1 & D1 & K1 & P1).
    destruct (IH x1 y1 x' y' A1 D1 Hrest) as (A' & D' & K' & P'). split_and!; [done|done|by etrans|].
    intros Hle. destruct (decide (outstanding x = 0%nat)) as [H0|H0]; [|apply P'; specialize (P1 D H0); lia].
    pose proof (kp_fewer _ _ K1). pose proof (kp_fewer _ _ K'). lia.
Qed.

Lemma closed_le e : (closed e ≤ 2)%nat.
Proof. unfold closed. repeat case_match; lia. Qed.

Lemma outstanding_0 x : outstanding x = 0%nat → has_unsent_data_of (eng x) = false.
Proof.
  unfold outstanding, has_unsent_data_of. intros H.
  destruct (e_snd_buf (eng x)), (e_snd_queue (eng x)); done || (cbn in H; lia).
Qed.

(** C3: whatever has been lost, reordered or duplicated before, and whatever is still
    under way, once the network lets as many round trips pass as there are
    segments outstanding, and three more (to empty a full receiver, to start the
    probe timer of a closed window and to probe), everything that was sent is
    acknowledged and delivered: the bytes, and in message mode the messages.
    [able] asks that the reader's receive window is at least the sender's:
    with a smaller one a message may be acknowledged and never readable
    ([Link.narrow_reader_wedges]). *)
Theorem eventual_delivery x y x' y' n :
  able x y → good_rounds n x y x' y' → (outstanding x + 3 ≤ n)%nat →
  has_unsent_data_of (eng x') = false ∧ concat (pe_got y') = concat (pe_sent x) ∧
  (c_stream_mode (e_config (eng x)) = false → pe_got y' = nonempty (pe_sent x)).
Proof.
  intros A Hr Hn. destruct n as [|n]; [lia|]. unfold good_rounds in Hr. inversion Hr as [|? ? [x1 y1] ? Hone Hrest]; subst.
  destruct (good_round_step x y x1 y1 A Hone) as (A1 & D1 & K1 & _).
  destruct (good_rounds_progress n x1 y1 x' y' A1 D1 Hrest) as (A' & [e' D'] & K' & P').
  pose proof (kp_fewer _ _ K1). pose proof (closed_le (eng x1)).
  pose proof (outstanding_0 _ (P' ltac:(lia))) as Hu. split; [done|].
  pose proof (ab_room _ _ A'). pose proof (ab_room' _ _ A').
  destruct (standing x' y' (ab_linked _ _ A') ltac:(lia) ltac:(lia)) as ([d1 Q1] & [d2 Q2] & [HI _] & _ & Hh).
  assert (K : kept x x') by (by etrans). rewrite <- (kp_sent _ _ K), <- (kp_config _ _ K).
  exact (all_got Q1 (po_sent _ _ _ Q2) HI e' Hh Hu D' (ab_wnd _ _ A')).
Qed.

(** ** There are such round trips *)

(** No segment is at its last transmission. *)
Definition spare (e : KcpEngine) : Prop :=
  2 ≤ e_dead_link e ∧ Forall (λ seg, s_xmit seg + 1 < e_dead_link e) (e_snd_buf e).

Lemma final_xmit now e r : s_xmit (final now e r) = s_xmit r.1.1.1.
Proof. unfold final. by case_match. Qed.
Lemma mark_xmit now resend rtomin nd rto seg : 0 ≤ s_xmit seg →
  s_xmit (mark_of now resend rtomin nd rto seg).1.1.1 ≤ s_xmit seg + 1.
Proof.
  intros H. unfold mark_of. assert (wrap 32 (s_xmit seg + 1) ≤ s_xmit seg + 1) by (apply Z.mod_le; lia).
  repeat case_match; cbn; try lia.
Qed.

(** Then a flush does not give up. *)
Lemma flush_spared {prof : Profile} {clk : Clock} s :
  Inv (inner s) → spare (inner s) → wp checked_overflow flush (λ _ _, True) (λ _ _, False) s.
Proof.
  intros HI [H2 Hs]. eapply wp_mono; [apply (wp_keeps e_dead_link); [apply keeps_flush, _|by apply flush_spec]|done|].
  intros err s' ((_ & _ & _ & Hdead & l & _ & F) & Hd).
  unfold is_dead_of in Hdead. apply existsb_exists in Hdead as (seg & Hin & Hx). apply Z.leb_le in Hx. rewrite Hd in Hx.
  rewrite (fr_buf _ _ _ _ F) in Hin. unfold buf_at, marks_at, marks in Hin. rewrite map_map in Hin.
  apply list_elem_of_In, list_elem_of_fmap in Hin as (x & -> & Hin). rewrite final_xmit in Hx.
  assert (Hx0 : 0 ≤ s_xmit x ∧ s_xmit x + 1 < e_dead_link (inner s)); [|pose proof (mark_xmit (now_of s) (resend_of (flush_from (now_of s) (inner s)))
    (rtomin_of (flush_from (now_of s) (inner s))) (c_nodelay (e_config (flush_from (now_of s) (inner s))))
    (r_rto (e_rtt (flush_from (now_of s) (inner s)))) x (proj1 Hx0)); lia].
  apply elem_of_app in Hin as [Hin|Hin].
  - pose proof (proj1 (Forall_forall _ _) (sb_segments _ _ _ _ _ (i_snd_buf _ HI)) x Hin) as Hok.
    split; [apply Hok|]. by apply (proj1 (Forall_forall _ _) Hs).
  - apply elem_of_lookup_imap in Hin as (i & seg & -> & _). cbn. lia.
Qed.

(** Neither reading datagrams nor reading messages uses a transmission up. *)
Lemma spare_from e e' :
  e_dead_link e' = e_dead_link e →
  (∀ n, Forall (λ seg, s_xmit seg + 1 < n) (e_snd_buf e) → Forall (λ seg, s_xmit seg + 1 < n) (e_snd_buf e')) →
  spare e → spare e'.
Proof. intros Hd Hb [H1 H2]. split; rewrite Hd; [done|by apply Hb]. Qed.
Lemma inputs_spare {prof : Profile} {clk : Clock} ds x x' : inputs ds x x' → spare (eng x) → spare (eng x').
Proof.
  induction 1 as [|d ds x r x1 x2 H1 _ _ IH]; [done|]. intros Hs. apply IH.
  eapply spare_from; [|intros n Hn|exact Hs].
  - eapply did_keeps; [|exact H1]. apply (keeps_reply _ (input d) (λ _, RUnit)), keeps_input, _.
  - destruct H1 as (s' & Hp & ->). cbn.
    pose proof (buffered_input (λ seg, s_xmit seg + 1 < n) ltac:(done) d (pe_st x) Hn) as Hb.
    cbn [perform] in Hp. unfold mbind, M_bind in Hp. by destruct (input d (pe_st x)) as [[[]|?|?] s1]; injection Hp as _ <-.
Qed.
Lemma reads_spare {prof : Profile} {clk : Clock} x x' : reads x x' → spare (eng x) → spare (eng x').
Proof.
  assert (Hone : ∀ x m x1, did x OpRecv (Ok (RData m)) x1 → spare (eng x) → spare (eng x1)).
  { intros y m y1 H1. apply spare_from.
    - eapply did_keeps; [|exact H1]. apply (keeps_reply _ recv RData), keeps_recv, _.
    - intros n. pose proof (did_keeps _ y OpRecv _ y1 (keeps_reply _ recv RData keeps_recv_send) H1) as Hk.
      cbv beta in Hk. injection Hk as K1 _ _ _ _. by rewrite K1. }
  induction 1 as [x x1 H1|x m x1 x2 H1 _ IH]; [by eapply Hone|]. intros Hs. apply IH. by eapply Hone.
Qed.

Lemma flush_runs {prof : Profile} {clk : Clock} x :
  overflow_checks (Profile := prof) = false → good (eng x) → spare (eng x) →
  ∃ out x', puts_out (prof := prof) (clk := clk) x out x'.
Proof.
  intros Hrel [HI _] Hs. pose proof (flush_spared (prof := prof) (clk := clk) (pe_st x) HI Hs) as Hf. unfold wp in Hf.
  destruct (flush (pe_st x)) as [[[]|err|q] s1] eqn:H1; [|done|destruct Hf as [_ Hf]; congruence].
  eexists _, _. exists (after x OpFlush (Ok RUnit) s1). split; eexists; [|done].
  split; [|done]. cbn [perform]. unfold mbind, M_bind. by rewrite H1.
Qed.

Lemma inputs_run {prof : Profile} {clk : Clock} ds : ∀ x,
  overflow_checks (Profile := prof) = false → good (eng x) → ∃ x', inputs (prof := prof) (clk := clk) ds x x'.
Proof.
  induction ds as [|d ds IH]; intros x Hrel Hg; [exists x; constructor|].
  pose proof (perform_good (prof := prof) (clk := clk) (OpInput d) (pe_st x) I Hg) as Hp. unfold wp in Hp.
  destruct (perform (OpInput d) (pe_st x)) as [r s1] eqn:H1.
  assert (Hq : good (inner s1) ∧ ∀ q, r ≠ Panicked q).
  { destruct r as [v|e|q]; [by split..|]. destruct Hp as [_ Hp]. congruence. }
  destruct (IH (after x (OpInput d) r s1) Hrel (proj1 Hq)) as [x' H']. exists x'.
  eapply inputs_cons; [by exists s1|apply Hq|done].
Qed.

(** Reading ends: each message read is made of segments the peer has numbered. *)
Lemma got_bound x y :
  joined_ok x y → (length (pe_got y) ≤ length (pe_hist x))%nat.
Proof.
  intros (L & Bx & By). destruct (standing x y L Bx By) as ([d K] & _). rewrite (po_got _ _ _ K), length_map.
  pose proof (prefix_length _ _ (rc_queue _ _ _ (ep_receiver _ _ _ _ (po_end _ _ _ K)))) as Hl. rewrite length_app in Hl.
  enough (length d ≤ length (concat d))%nat by lia. pose proof (po_done _ _ _ K) as Hd. clear - Hd.
  induction Hd as [|g d Hg _ IH]; [done|]. cbn. rewrite length_app. destruct g; [by destruct (framed_nonempty _ Hg)|]. cbn. lia.
Qed.
Lemma read_one x y :
  overflow_checks (Profile := prof_b) = false → joined_ok x y →
  (∃ y1, did (prof := prof_b) (clk := clk_b) y OpRecv (Ok (RData None)) y1) ∨
  ∃ m y1, did (prof := prof_b) (clk := clk_b) y OpRecv (Ok (RData (Some m))) y1 ∧ joined_ok x y1 ∧
    length (pe_got y1) = S (length (pe_got y)).
Proof.
  intros Hrel J. pose proof J as (L & Bx & By). destruct (standing x y L Bx By) as (_ & _ & _ & [HI _] & _).
  pose proof (recv_spec (prof := prof_b) (pe_st y) HI) as Hr. unfold wp in Hr.
  assert (Hdid : ∀ m s1, recv (prof := prof_b) (pe_st y) = (Ok m, s1) →
    did (prof := prof_b) (clk := clk_b) y OpRecv (Ok (RData m)) (after y OpRecv (Ok (RData m)) s1)).
  { intros m s1 H1. exists s1. split; [|done]. cbn. unfold mbind, M_bind. by rewrite H1. }
  destruct (recv (pe_st y)) as [[[m|]|e|q] s1]; [right|left; eexists; by apply Hdid|done|destruct Hr as [_ Hr]; congruence].
  exists m, (after y OpRecv (Ok (RData (Some m))) s1). specialize (Hdid (Some m) s1 eq_refl). split_and!; [done|by eapply joined_read|].
  cbn. rewrite length_app. cbn. lia.
Qed.
Lemma reads_run x k : ∀ y,
  overflow_checks (Profile := prof_b) = false → joined_ok x y → (length (pe_hist x) < length (pe_got y) + k)%nat →
  ∃ y', reads (prof := prof_b) (clk := clk_b) y y'.
Proof.
  induction k as [|k IH]; intros y Hrel J Hk; [pose proof (got_bound x y J); lia|].
  destruct (read_one x y Hrel J) as [[y1 H1]|(m & y1 & H1 & J1 & Hl)]; [eexists; by eapply reads_end|].
  destruct (IH y1 Hrel J1 ltac:(lia)) as [y' H']. exists y'. by eapply reads_more.
Qed.

(** C14: in builds without overflow checks a round trip can always be had once the time
    has come, as long as neither end has a segment at its last transmission: the
    calls return and do not give the connection up, and reading comes to an end. *)
Theorem round_possible x y n :
  able x y → overflow_checks (Profile := prof_a) = false → overflow_checks (Profile := prof_b) = false →
  timely (now_of (clk := clk_a) (pe_st (waited x n))) (eng x) →
  spare (eng x) → spare (eng y) →
  ∃ x' y', good_round x y x' y'.
Proof.
  intros A Ra Rb Ht Sx Sy. pose proof (linked_waited x y n (ab_linked _ _ A)) as L0.
  destruct (linked_good _ _ _ _ _ L0) as [Gx Gy].
  destruct (flush_runs (prof := prof_a) (clk := clk_a) (waited x n) Ra Gx Sx) as (out & x2 & Hx).
  assert (Hnet : out ⊆ pe_net x2) by (rewrite (puts_out_net _ _ _ Hx); intros d Hd; apply elem_of_app; by right).
  destruct (inputs_run (prof := prof_b) (clk := clk_b) out y Rb Gy) as [y1 Hin].
  destruct (round_received x y n x2 out out y1 A Hx Hnet Hin) as [L1 K1].
  destruct (round_rooms x y n x2 out A Hx) as (_ & Bx & By). rewrite <- (kp_frames _ _ K1) in By.
  destruct (reads_run x2 (S (length (pe_hist x2))) y1 Rb) as [y2 Hread]; [by split_and!|lia|].
  pose proof (linked_runs_b _ _ _ _ [] _ _ _ L1 (list_subseteq_nil _) (reads_steps [] _ _ Hread)) as L2.
  destruct (linked_good _ _ _ _ _ L2) as [G2 Gy2].
  pose proof (reads_spare _ _ Hread (inputs_spare _ _ _ Hin Sy)) as Sy2.
  destruct (flush_runs (prof := prof_b) (clk := clk_b) y2 Rb Gy2 Sy2) as (out' & y3 & Hy).
  destruct (inputs_run (prof := prof_a) (clk := clk_a) ([] ++ out') x2 Ra G2) as [x3 Hin'].
  exists x3, y3. eapply (good_round_intro x y n x2 out out y1 y2 y3 out' [] x3); try done. apply list_subseteq_nil.
Qed.
End Rounds.

(** * A run *)

Module DeliverySample.
Section Run.
Context (prof : Profile) (clk : Clock).
#[local] Existing Instances prof clk bytes_le.

(** The parts of a round trip, as functions; [None] where a call fails. *)
Definition flush_out (x : Peer) : option (Peer * list bytes) :=
  match perform OpFlush (pe_st x) with
  | (Ok RUnit, s1) =>
      let x1 := after x OpFlush (Ok RUnit) s1 in
      match perform OpDrainOutput (pe_st x1) with
      | (Ok (RDatagrams out), s2) => Some (after x1 OpDrainOutput (Ok (RDatagrams out)) s2, out)
      | _ => None
      end
  | _ => None
  end.
Fixpoint take_in (ds : list bytes) (x : Peer) : option Peer :=
  match ds with
  | [] => Some x
  | d :: ds =>
      match perform (OpInput d) (pe_st x) with
      | (Ok RUnit, s) => take_in ds (after x (OpInput d) (Ok RUnit) s)
      | _ => None
      end
  end.
Fixpoint read_all (fuel : nat) (x : Peer) : option Peer :=
  match fuel with
  | O => None
  | S fuel =>
      match perform OpRecv (pe_st x) with
      | (Ok (RData None), s) => Some (after x OpRecv (Ok (RData None)) s)
      | (Ok (RData (Some m)), s) => read_all fuel (after x OpRecv (Ok (RData (Some m))) s)
      | _ => None
      end
  end.

Lemma flush_out_puts x x' out : flush_out x = Some (x', out) → puts_out x out x'.
Proof.
  unfold flush_out. intros H. destruct (perform OpFlush (pe_st x)) as [[[]|?|?] s1] eqn:H1; try done.
  set (x1 := after x OpFlush (Ok RUnit) s1) in *.
  destruct (perform OpDrainOutput (pe_st x1)) as [[[| |l]|?|?] s2] eqn:H2; try done.
  injection H as <- <-. exists x1. split; by eexists.
Qed.
Lemma take_in_inputs ds : ∀ x x', take_in ds x = Some x' → inputs ds x x'.
Proof.
  induction ds as [|d ds IH]; intros x x' H; cbn [take_in] in H; [injection H as <-; constructor|].
  destruct (perform (OpInput d) (pe_st x)) as [[[]|?|?] s1] eqn:H1; try done.
  eapply inputs_cons; [by eexists|done|by apply IH].
Qed.
Lemma read_all_reads fuel : ∀ x x', read_all fuel x = Some x' → reads x x'.
Proof.
  induction fuel as [|fuel IH]; intros x x' H; cbn [read_all] in H; [done|].
  destruct (perform OpRecv (pe_st x)) as [[[|[m|]|]|?|?] s1] eqn:H1; try done.
  - eapply reads_more; [by eexists|by apply IH].
  - injection H as <-. apply reads_end. by eexists.
Qed.
End Run.

Abbreviation pa := LinkSample.prof_a.
Abbreviation pb := LinkSample.prof_b.
Abbreviation ca := LinkSample.clk_a.
Abbreviation cb := LinkSample.clk_b.

Definition timely_b (now : Z) (e : KcpEngine) : bool :=
  match e_snd_buf e with seg :: _ => (s_xmit seg =? 0) || (0 <=? time_diff now (s_resendts seg)) | [] => true end &&
  (negb (closed e =? 1)%nat || (0 <=? time_diff now (p_ts (e_probe e)))).
Lemma timely_b_timely now e : timely_b now e = true → timely now e.
Proof.
  unfold timely_b, timely, due. intros [H1 H2]%andb_prop. split.
  - destruct (e_snd_buf e); [done|]. apply orb_prop in H1 as [H|H]; [left; by apply Z.eqb_eq|right; by apply Z.leb_le].
  - intros Hc. rewrite Hc in H2. cbn in H2. by apply Z.leb_le.
Qed.

Lemma spare_decided e :
  (2 <=? e_dead_link e) && forallb (λ seg, s_xmit seg + 1 <? e_dead_link e) (e_snd_buf e) = true → spare e.
Proof.
  intros [H1%Z.leb_le H2]%andb_prop. split; [done|]. apply Forall_forall. intros seg Hin.
  apply Z.ltb_lt. by apply (proj1 (forallb_forall _ _) H2), list_elem_of_In.
Qed.

(** Everything arrives, after everything that arrived before. *)
Definition round_of (n : nat) (p : Peer * Peer) : option (Peer * Peer) :=
  let '(x, y) := p in
  let x1 := waited x n in
  if negb (timely_b (now_of (clk := ca) (pe_st x1)) (eng x)) then None
  else
    '(x2, out) ← flush_out pa ca x1;
    y1 ← take_in pb cb (pe_net x2) y;
    y2 ← read_all pb cb 10 y1;
    '(y3, out') ← flush_out pb cb y2;
    x3 ← take_in pa ca (pe_net y2 ++ out') x2;
    Some (x3, y3).
Abbreviation round := (good_round (api := bytes_le) pa pb ca cb).

Lemma round_of_good n x y q : round_of n (x, y) = Some q → round x y q.1 q.2.
Proof.
  unfold round_of. destruct (timely_b _ _) eqn:Ht; [|done]. cbn [negb]. intros H.
  destruct (flush_out pa ca (waited x n)) as [[x2 out]|] eqn:H1; [|done]. cbn -[take_in read_all flush_out] in H.
  destruct (take_in pb cb (pe_net x2) y) as [y1|] eqn:H2; [|done]. cbn -[take_in read_all flush_out] in H.
  destruct (read_all pb cb 10 y1) as [y2|] eqn:H3; [|done]. cbn -[take_in read_all flush_out] in H.
  destruct (flush_out pb cb y2) as [[y3 out']|] eqn:H4; [|done]. cbn -[take_in read_all flush_out] in H.
  destruct (take_in pa ca (pe_net y2 ++ out') x2) as [x3|] eqn:H5; [|done]. injection H as <-.
  apply flush_out_puts in H1, H4. apply take_in_inputs in H2, H5. apply read_all_reads in H3.
  eapply (good_round_intro _ _ _ _ x y n x2 out (pe_net x2) y1 y2 y3 out' (pe_net y2) x3); try done.
  - by apply timely_b_timely.
  - rewrite (puts_out_net _ _ _ H1). intros d Hd. apply elem_of_app. by right.
  - rewrite (puts_out_net _ _ _ H4). intros d Hd. apply elem_of_app. by left.
Qed.

Fixpoint rounds_of (ns : list nat) (p : Peer * Peer) : option (Peer * Peer) :=
  match ns with [] => Some p | n :: ns => p ← round_of n p; rounds_of ns p end.
Lemma rounds_of_good ns : ∀ x y x' y', rounds_of ns (x, y) = Some (x', y') →
  good_rounds (api := bytes_le) pa pb ca cb (length ns) x y x' y'.
Proof.
  induction ns as [|n ns IH]; intros x y x' y' H; cbn -[round_of] in H; [injection H as <- <-; constructor|].
  destruct (round_of n (x, y)) as [[x1 y1]|] eqn:H1; [|done]. apply round_of_good in H1.
  eapply nsteps_l; [exact H1|by apply IH].
Qed.

(** The receiver of two segments has told that it is full, and two more messages
    wait. *)
Definition script : list (bool * LinkSample.move) :=
  [(true, LinkSample.Call (OpSend LinkSample.long)); (true, LinkSample.Call OpFlush); (true, LinkSample.Call OpDrainOutput);
    (false, LinkSample.Deliver 0); (false, LinkSample.Deliver 1)] ++ LinkSample.acknowledge ++
  [(true, LinkSample.Deliver 0); (true, LinkSample.Call (OpSend [x62])); (true, LinkSample.Call (OpSend [x63]))].
Definition x : Peer := side_a (LinkSample.reached script).
Definition y : Peer := side_b (LinkSample.reached script).
Lemma closed_window : (outstanding x, closed (eng x)) = (2%nat, 2%nat).
Proof. vm_compute. reflexivity. Qed.

Lemma x_y_able : able (api := bytes_le) pa pb ca cb x y.
Proof.
  assert (Hl : linked (api := bytes_le) pa pb ca cb (LinkSample.reached script)).
  { apply LinkSample.reached_linked. vm_compute. reflexivity. }
  split; [|vm_compute; congruence|vm_compute; congruence|vm_compute; reflexivity|vm_compute; by constructor|vm_compute; congruence].
  unfold x, y. by destruct (LinkSample.reached script).
Qed.

(** The last round trips have nothing left to do. *)
Definition waits : list nat := [0%nat; 800%nat; 100%nat; 0%nat; 0%nat].
Definition last : Peer * Peer := default (x, y) (rounds_of waits (x, y)).
Lemma all_rounds : good_rounds (api := bytes_le) pa pb ca cb 5 x y last.1 last.2.
Proof.
  apply (rounds_of_good waits). unfold last. destruct (rounds_of waits (x, y)) as [[]|] eqn:H; [done|].
  vm_compute in H. discriminate H.
Qed.

(** New ends, one of which was given a message. *)
Definition none : Peer := Build_Peer Sample.state [] [] [] [].
Definition a0 : Peer := default none (LinkSample.made ca).
Definition b0 : Peer := default none (LinkSample.made cb).
Definition a1 : Peer := default none (LinkSample.did release_build ca a0 (OpSend LinkSample.long)).
Lemma a1_b0_able : able (api := bytes_le) release_build release_build ca cb a1 b0.
Proof.
  split; [|vm_compute; congruence|vm_compute; congruence|vm_compute; reflexivity|vm_compute; by constructor|vm_compute; congruence].
  apply (linked_step _ _ _ _ (Build_Link a0 b0)).
  - apply linked_start; apply LinkSample.made_fresh; reflexivity.
  - apply step_a. apply (LinkSample.did_step release_build ca a0 b0 (LinkSample.Call (OpSend LinkSample.long)) (OpSend LinkSample.long)); reflexivity.
Qed.
End DeliverySample.

Lemma eventual_delivery_witness :
  has_unsent_data_of (eng DeliverySample.last.1) = false ∧
  pe_got DeliverySample.last.2 = [LinkSample.long; [x62]; [x63]].
Proof.
  destruct (eventual_delivery (api := bytes_le) LinkSample.prof_a LinkSample.prof_b LinkSample.clk_a LinkSample.clk_b
    DeliverySample.x DeliverySample.y DeliverySample.last.1 DeliverySample.last.2 5 DeliverySample.x_y_able
    DeliverySample.all_rounds ltac:(vm_compute; lia)) as (H1 & _ & H2).
  split; [exact H1|]. etrans; [apply H2|]; vm_compute; reflexivity.
Defined.

Lemma round_possible_witness :
  ∃ x' y', good_round (api := bytes_le) release_build release_build LinkSample.clk_a LinkSample.clk_b
    DeliverySample.a1 DeliverySample.b0 x' y'.
Proof.
  apply (round_possible (api := bytes_le) release_build release_build LinkSample.clk_a LinkSample.clk_b
    DeliverySample.a1 DeliverySample.b0 0 DeliverySample.a1_b0_able eq_refl eq_refl).
  - apply DeliverySample.timely_b_timely; vm_compute; reflexivity.
  - apply DeliverySample.spare_decided; vm_compute; reflexivity.
  - apply DeliverySample.spare_decided; vm_compute; reflexivity.
Defined.
