(* ===== verification/Duplex.v ===== *)
(** Two actors over a network: each actor is an end of a link ([Link]), so what
    one stream receives is what the other was given to send.

    The actor makes its engine's calls itself, so a turn of its loop is a run of
    steps of the end whose engine it owns, whose application sends what the actor
    takes from its send channel and gets what the actor puts in the stream's. *)
From S2P Require Import Prelude Monad Protocol Error Config Engine Output Send Recv Ack Input Flush Frame Safety Actor History Link.

(** What an engine with configuration [c] never refuses to send. *)
Definition fits (c : KcpCoreConfig) (d : bytes) : Prop :=
  len d ≤ mss_of c * Z.min (c_rcv_wnd c) IKCP_WND_RCV.

(** The actor's state and logs are those of the end; it may have dropped
    datagrams on purpose ([simulate_loss]). *)
Record tracks (a : Actor) (x : Peer) : Prop := {
  tr_engine : pe_st x = a_engine a;
  tr_sent : pe_sent x = a_taken a;
  tr_got : pe_got x = a_data a;
  tr_net : a_wire a ⊆ pe_net x;
}.

(** * A turn of the actor is a run of the end *)

Create HintDb sim.

Section Simulation.
Context {prof : Profile} {clk : Clock} {ins : Instants} {api : BytesApi} {spec : BytesApiSpec api}.
Context (cfg : actor_config) (c : KcpCoreConfig) (conv : Z) (net : list bytes) (P0 : Peer → Prop).

(** A datagram the network may deliver. *)
Definition arrives (d : bytes) : Prop :=
  d ∈ net ∨ Forall (λ y, h_conv (s_header y.1) ≠ conv) (parse_all (S (length d)) d).

(** The actor is where a run of the end, from a start in [P0], can be; [E] says
    more of the end. *)
Record simulated (E : Peer → Prop) (a : Actor) : Prop := {
  sm_good : good (inner (a_engine a));
  sm_config : e_config (inner (a_engine a)) = c;
  sm_conv : e_conv (inner (a_engine a)) = conv;
  sm_reach : Forall (fits c) (a_taken a) →
    ∃ x0 x, P0 x0 ∧ rtc (peer_step prof clk net) x0 x ∧ tracks a x ∧ E x;
}.
Abbreviation sim := (simulated (λ _, True)).

Lemma sim_weaken E a : simulated E a → sim a.
Proof. intros [Hg Hc Hv Hr]. split; [done..|]. intros H. destruct (Hr H) as (x0 & x & ? & ? & ? & _). eauto 6. Qed.

Lemma sim_perform E a o r s' :
  simulated E a → op_ok o → (∀ d, o = OpInput d → arrives d) →
  perform o (a_engine a) = (r, s') → (∀ q, r ≠ Panicked q) → Forall (fits c) (a_taken a) →
  ∃ x0 x, P0 x0 ∧ rtc (peer_step prof clk net) x0 (after x o r s') ∧ tracks a x.
Proof.
  intros [Hg Hc Hv Hr] Ho Har Hp Hnp Hf. destruct (Hr Hf) as (x0 & x & H0 & Hrtc & Ht & _).
  exists x0, x. split_and!; [done| |done]. eapply rtc_r; [exact Hrtc|]. apply peer_call; [done| | |done].
  - intros d Hd. unfold may_arrive. rewrite (tr_engine _ _ Ht), Hv. by apply Har.
  - by rewrite (tr_engine _ _ Ht).
Qed.

(** A call the application does not see. *)
Lemma sim_quiet {A} (o : op) (m : T A) (f : A → Safety.reply) :
  perform o = (v ← m; mret (f v)) → safe_call m → keeps e_conv m →
  op_ok o → (∀ d, o = OpInput d → arrives d) →
  match o with OpSend _ => False | _ => True end → (∀ v msg, f v ≠ RData (Some msg)) →
  preserves sim (engine m).
Proof.
  intros Hp Hs Hk Ho Har Hno Hf a Ha. pose proof Ha as [Hg Hc Hv _].
  specialize (Hs (a_engine a) Hg). specialize (Hk (a_engine a)).
  pose proof (f_equal (λ g, g (a_engine a)) Hp) as Hpa. unfold mbind, M_bind in Hpa. cbn in Hpa. unfold wp, engine in *.
  assert (Htr : ∀ r s', (∀ msg, r ≠ Ok (RData (Some msg))) → perform o (a_engine a) = (r, s') → (∀ q, r ≠ Panicked q) →
    good (inner s') → e_config (inner s') = c → e_conv (inner s') = conv → sim (a <| a_engine := s' |>)).
  { intros r s' Hr Hpr Hnp Hg' Hc' Hv'. split; [done..|]. intros Hfit.
    destruct (sim_perform _ a o r s' Ha Ho Har Hpr Hnp Hfit) as (x0 & x & H0 & Hrtc & [T1 T2 T3 T4]).
    exists x0, (after x o r s'). split_and!; [done..| |done]. split; [done|..]; cbn.
    - destruct o; (done || by rewrite app_nil_r).
    - destruct r as [[|[msg|]|]| |]; rewrite ?app_nil_r; try done. by destruct (Hr msg).
    - etrans; [exact T4|]. set_solver. }
  destruct (m (a_engine a)) as [[v|e|q] s']; cbn in *; [..|done]; destruct Hs as [Hg' Hc'].
  - apply (Htr (Ok (f v))); [|done..|congruence|congruence]. intros msg [= H]. by apply (Hf v msg).
  - by apply (Htr (Err e)); [..|congruence|congruence].
Qed.

(** A message for the stream. *)
Lemma sim_recv a : sim a →
  wp checked_overflow (engine recv)
    (λ r a', match r with
             | inr (Some msg) => sim (a' <| a_data ::= λ l, l ++ [msg] |>)
             | _ => sim a'
             end) (λ _ _, False) a.
Proof.
  intros Ha. pose proof Ha as [Hg Hc Hv _]. pose proof (perform_good OpRecv (a_engine a) I Hg) as Hgood.
  pose proof (keeps_recv (prof := prof) e_config (a_engine a)) as Hkc.
  pose proof (keeps_recv (prof := prof) e_conv (a_engine a)) as Hkv.
  pose proof (recv_spec (a_engine a) (proj1 Hg)) as Hspec.
  pose proof (sim_perform (λ _, True) a OpRecv) as Htr. cbn [perform] in Hgood, Htr.
  unfold wp, engine, mbind, M_bind in *. destruct (recv (a_engine a)) as [[r|[]|q] s'] eqn:Hr; cbn in *; [|done..].
  assert (Hreach : Forall (fits c) (a_taken a) → ∃ x0 x, P0 x0 ∧
    rtc (peer_step prof clk net) x0 (after x OpRecv (Ok (RData r)) s') ∧ tracks a x) by (intros; by apply Htr).
  destruct r as [msg|]; (split; [done|cbn; congruence|cbn; congruence|]); cbn; intros Hfit;
    destruct (Hreach Hfit) as (x0 & x & H0 & Hrtc & [T1 T2 T3 T4]);
    exists x0; eexists; (split_and!; [done|exact Hrtc| |done]); (split; [done|..]); cbn; rewrite ?app_nil_r; try done.
  by rewrite T3.
Qed.

Lemma sim_drain_recv permits : preserves sim (drain_recv permits).
Proof.
  induction permits as [|n IH]; intros a Ha; cbn [drain_recv]; [by apply wp_ret|].
  apply wp_bind. eapply wp_post; [by apply sim_recv|]. intros [e|[msg|]] a' Ha'; cbv beta; [by apply wp_ret| |by apply wp_ret].
  apply wp_bind, wp_modify. by apply IH.
Qed.

(** Data of the application, which the engine takes if it fits. *)
Lemma sim_take data : preserves sim (take_data data).
Proof.
  intros a Ha. pose proof Ha as [Hg Hc Hv _]. unfold take_data. apply wp_bind, wp_modify.
  pose proof (safe_send data (a_engine a) Hg) as Hs. pose proof (send_fits data (a_engine a) (proj1 Hg)) as Hfits.
  pose proof (keeps_send (prof := prof) e_conv data (a_engine a)) as Hkv.
  pose proof (sim_perform (λ _, True) a (OpSend data)) as Htr. cbn [perform] in Htr.
  unfold wp, engine, mbind, M_bind in *. cbn in *. unfold max_frags in Hfits. rewrite Hc in Hfits.
  destruct (send data (a_engine a)) as [[[]|e|q] s'] eqn:Hr; cbn in *; [..|done]; destruct Hs as [Hg' Hc'];
    (split; [done|cbn; congruence|cbn; congruence|]); cbn; intros [Hfit Hone]%Forall_app;
    apply Forall_cons in Hone as [Hone _]; [|by destruct (Hfits Hone)].
  destruct (Htr (Ok RUnit) s' Ha I ltac:(done) eq_refl ltac:(done) Hfit) as (x0 & x & H0 & Hrtc & [T1 T2 T3 T4]).
  exists x0. eexists. split_and!; [done|exact Hrtc| |done]. split; cbn; rewrite ?app_nil_r; try done. by rewrite T2.
Qed.

Lemma sim_other f E :
  (∀ a, a_engine (f a) = a_engine a ∧ a_taken (f a) = a_taken a ∧ a_data (f a) = a_data a ∧ a_wire (f a) = a_wire a) →
  preserves (simulated E) (modify f).
Proof.
  intros Hf. apply pres_modify. intros a [Hg Hc Hv Hr]. destruct (Hf a) as (He & Ht & Hd & Hw).
  split; rewrite ?He; [done..|]. rewrite Ht. intros Hfit. destruct (Hr Hfit) as (x0 & x & H0 & Hrtc & [T1 T2 T3 T4] & HE).
  exists x0, x. split_and!; [done..| |done]. split; rewrite ?He, ?Ht, ?Hd, ?Hw; done.
Qed.
Lemma sim_now : preserves sim now.
Proof. intros a Ha. by apply (sim_other (λ a, a <| a_instants ::= S |>) _ ltac:(done) a). Qed.
Lemma sim_draw E p : preserves (simulated E) (draw p).
Proof. intros a Ha. by apply (sim_other (λ a, a <| a_draws ::= S |>) _ ltac:(done) a). Qed.

(** The output goes to the transport, unless it is lost on purpose. *)
Lemma sim_flush_output : preserves sim (flush_output cfg).
Proof.
  intros a Ha. unfold flush_output. apply wp_bind. set (l := e_output_queue (inner (a_engine a))).
  apply (wp_post _ _ (λ r a', r = inr l ∧ simulated (λ x, l ⊆ pe_net x) a')).
  - pose proof (perform_good OpDrainOutput (a_engine a) I (sm_good _ _ Ha)) as Hg.
    pose proof (sim_perform (λ _, True) a OpDrainOutput (Ok (RDatagrams l)) _ Ha I ltac:(done) eq_refl ltac:(done)) as Htr.
    unfold wp, engine in *. cbn in *. split; [done|]. destruct Ha as [_ Hc Hv _]. split; [done..|]. cbn. intros Hfit.
    destruct (Htr Hfit) as (x0 & x & H0 & Hrtc & [T1 T2 T3 T4]).
    exists x0. eexists. split_and!; [done|exact Hrtc| |].
    + split; cbn; rewrite ?app_nil_r; try done. set_solver.
    + cbn. set_solver.
  - intros r a' [-> Ha']. cbv beta. apply (wp_post _ _ (λ _ a', simulated (λ x, l ⊆ pe_net x) a')).
    2: { intros _ a2. apply sim_weaken. }
    apply wp_forM; [done|]. intros buf a2 Hin Ha2. apply wp_bind.
    eapply wp_post; [destruct (simulate_loss cfg); [by apply sim_draw|by apply (pres_ret _ false)]|].
    intros lost a3 Ha3. cbv beta. destruct lost; [by apply wp_ret|]. apply wp_modify.
    destruct Ha3 as [Hg Hc Hv Hr]. split; [done..|]. cbn. intros Hfit.
    destruct (Hr Hfit) as (x0 & x & H0 & Hrtc & [T1 T2 T3 T4] & HE). exists x0, x. split_and!; [done..| |done].
    split; [done..|]. cbn. set_solver.
Qed.

(** A reading of the clock. *)
Lemma sim_wait {A} (m : T A) v :
  (∀ s, m s = (Ok (v s), Timed (inner s) (S (ticks s)))) → preserves sim (engine m).
Proof.
  intros Hm a [Hg Hc Hv Hr]. unfold wp, engine. rewrite Hm. split; [done..|]. cbn. intros Hfit.
  destruct (Hr Hfit) as (x0 & x & H0 & Hrtc & [T1 T2 T3 T4] & _). exists x0, (waited x 1). split_and!; [done| | |done].
  - eapply rtc_r; [exact Hrtc|]. apply peer_wait.
  - split; [|done..]. cbn. rewrite T1. f_equal. lia.
Qed.

Lemma sim_flush : preserves sim (engine flush).
Proof. by apply (sim_quiet OpFlush _ (λ _, RUnit)); [|apply safe_flush|apply keeps_flush, _|..]. Qed.
Lemma sim_update : preserves sim (engine update).
Proof. by apply (sim_quiet OpUpdate _ (λ _, RUnit)); [|apply safe_update|apply keeps_update_timer, _|..]. Qed.
Lemma sim_probe : preserves sim (engine keep_alive_probe).
Proof.
  by apply (sim_quiet OpKeepAliveProbe _ (λ _, RUnit)); [|apply safe_keep_alive_probe|apply keeps_keep_alive_probe, _|..].
Qed.
Lemma sim_input data : arrives data → preserves sim (engine (input data)).
Proof.
  intros Hd. apply (sim_quiet (OpInput data) _ (λ _, RUnit)); [done|apply safe_input|apply keeps_input, _|done| |done..].
  by intros d [= <-].
Qed.
Lemma sim_idle_ms : preserves sim (engine idle_ms).
Proof. by eapply sim_wait. Qed.
Lemma sim_check : preserves sim (engine check).
Proof. by eapply sim_wait. Qed.

Hint Resolve pres_ret pres_gets sim_now sim_take sim_flush_output sim_drain_recv : sim.
Hint Resolve sim_flush sim_update sim_probe sim_idle_ms sim_check : sim.
Hint Extern 1 (preserves _ (engine_get _)) => apply pres_gets : sim.
Hint Extern 2 (preserves _ (modify _)) => apply sim_other; by intros : sim.
Local Ltac sim_step :=
  match goal with
  | |- preserves _ (mbind _ _) => apply pres_bind; [|intros ?]
  | |- preserves _ (and_then _ _) => apply pres_and_then
  | |- preserves _ (forM _ _) => apply pres_forM; intros ? _
  | |- preserves _ (if ?b then _ else _) => destruct b
  | |- preserves _ (match ?x with _ => _ end) => destruct x
  | |- preserves _ (break_if_fatal _) => apply pres_fatal
  | |- preserves _ _ => solve [eauto 3 with sim]
  end.
Local Ltac sim := intros; cbv beta; repeat (sim_step; cbv beta).

Lemma sim_absorb more : preserves sim (absorb cfg more).
Proof. induction more as [|data more IH]; cbn [absorb]; sim. Qed.
Hint Resolve sim_absorb : sim.
Lemma sim_start permits : preserves sim (start_actor cfg permits).
Proof. unfold start_actor. sim. Qed.
Lemma sim_handle ev :
  (∀ d permits, ev = EvPacket (Some d) permits → arrives d) → preserves sim (handle cfg ev).
Proof.
  intros Hev. destruct ev as [permits|cmd more|[d|] permits|data more]; cbn [handle].
  - unfold on_timer, keep_alive_check. sim.
  - unfold on_cmd, Actor.reply. sim.
  - specialize (Hev d permits eq_refl). unfold on_packet. apply pres_bind; [by apply sim_input|]. sim.
  - unfold on_packet. sim.
  - unfold on_send. sim.
Qed.
Lemma sim_close_check : preserves sim (close_check cfg).
Proof. unfold close_check. sim. Qed.

Lemma sim_timer_wait : preserves sim (timer_wait cfg).
Proof.
  unfold timer_wait. apply pres_bind; [apply sim_check|]. intros r a Ha. apply wp_clamp; [unfold idle_cap_ms; lia|done].
Qed.

(** One turn of the loop. *)
Lemma sim_turn ev :
  (∀ d permits, ev = EvPacket (Some d) permits → arrives d) → preserves sim (run_actor cfg [ev]).
Proof.
  intros Hev. cbn [run_actor]. apply pres_bind.
  - apply sim_timer_wait.
  - intros _. apply pres_bind; [apply pres_gets|]. intros []; [|apply pres_ret].
    apply pres_and_then; [|apply pres_ret]. apply pres_and_then; [by apply sim_handle|apply sim_close_check].
Qed.
End Simulation.

(** * Two actors *)

(** What an actor runs on. *)
Record Host := { h_prof : Profile; h_clk : Clock; h_ins : Instants; h_cfg : actor_config }.

Record Duplex := { act_a : Actor; act_b : Actor }.

Section Duplex.
Context {api : BytesApi}.

(** What happens to an actor when the network may deliver the datagrams [net]: a
    call that sets its engine up, the start of the loop, a turn of it. *)
Inductive actor_step (h : Host) (net : list bytes) : Actor → Actor → Prop :=
  | actor_setup o s' r a :
      match o with OpSend _ | OpRecv | OpDrainOutput => False | _ => op_ok o end →
      (∀ d, o = OpInput d → arrives (e_conv (inner (a_engine a))) net d) →
      perform (prof := h_prof h) (clk := h_clk h) o (a_engine a) = (r, s') → (∀ q, r ≠ Panicked q) →
      actor_step h net a (a <| a_engine := s' |>)
  | actor_start permits a a' :
      start_actor (prof := h_prof h) (clk := h_clk h) (ins := h_ins h) (h_cfg h) permits a = (Ok tt, a') →
      actor_step h net a a'
  | actor_turn ev fl a a' :
      (∀ d permits, ev = EvPacket (Some d) permits → arrives (e_conv (inner (a_engine a))) net d) →
      run_actor (prof := h_prof h) (clk := h_clk h) (ins := h_ins h) (h_cfg h) [ev] a = (Ok fl, a') →
      actor_step h net a a'.

Context (ha hb : Host).

Inductive duplex_step : Duplex → Duplex → Prop :=
  | duplex_a a a' b : actor_step ha (a_wire b) a a' → duplex_step (Build_Duplex a b) (Build_Duplex a' b)
  | duplex_b a b b' : actor_step hb (a_wire a) b b' → duplex_step (Build_Duplex a b) (Build_Duplex a b').

(** An actor around a new engine. *)
Definition newborn (clk : Clock) (a : Actor) : Prop :=
  ∃ x, fresh clk x ∧ a_engine a = pe_st x ∧ a_wire a = [] ∧ a_data a = [] ∧ a_taken a = [].

Inductive duplex : Duplex → Prop :=
  | duplex_start a b : newborn (h_clk ha) a → newborn (h_clk hb) b → duplex (Build_Duplex a b)
  | duplex_next d d' : duplex d → duplex_step d d' → duplex d'.
End Duplex.

(** ** The link they make *)

Section DuplexFacts.
Context {api : BytesApi} {spec : BytesApiSpec api}.

Lemma perform_quiet {prof : Profile} {clk : Clock} o s :
  match o with OpSend _ | OpRecv | OpDrainOutput => False | _ => op_ok o end →
  op_ok o ∧ match (perform o s).1 with Ok (RData _) | Ok (RDatagrams _) => False | _ => True end.
Proof.
  intros Ho. split; [by destruct o|].
  destruct o as [|data| |data| | | | |cv]; try done; cbn [perform]; unfold mbind, M_bind.
  - by destruct (input data s) as [[]].
  - by destruct (flush s) as [[]].
  - by destruct (update s) as [[]].
  - by destruct (keep_alive_probe s) as [[]].
Qed.

Abbreviation config_of a := (e_config (inner (a_engine a))).
Abbreviation taken_fits a := (Forall (fits (config_of a)) (a_taken a)).

(** Whatever happens to an actor is a run of its end. *)
Lemma actor_step_runs h net (P0 : Peer → Prop) a a' :
  good (inner (a_engine a)) → (taken_fits a → ∃ x, P0 x ∧ tracks a x) → actor_step h net a a' →
  good (inner (a_engine a')) ∧ config_of a' = config_of a ∧
  (taken_fits a' → ∃ x0 x, P0 x0 ∧ rtc (peer_step (h_prof h) (h_clk h) net) x0 x ∧ tracks a' x).
Proof.
  intros Hg H0 Hs. set (c := config_of a). set (conv := e_conv (inner (a_engine a))).
  assert (Hsim : simulated (prof := h_prof h) (clk := h_clk h) c conv net P0 (λ _, True) a).
  { split; [done..|]. intros Hf. destruct (H0 Hf) as (x & Hx & Ht). exists x, x. by split_and!. }
  assert (Hend : ∀ a2, simulated (prof := h_prof h) (clk := h_clk h) c conv net P0 (λ _, True) a2 →
    good (inner (a_engine a2)) ∧ config_of a2 = c ∧
    (taken_fits a2 → ∃ x0 x, P0 x0 ∧ rtc (peer_step (h_prof h) (h_clk h) net) x0 x ∧ tracks a2 x)).
  { intros a2 [G C _ R]. rewrite C. split_and!; [done..|]. intros Hf.
    destruct (R Hf) as (x0 & x & ? & ? & ? & _). by exists x0, x. }
  destruct Hs as [o s' r a Ho Har Hp Hnp|permits a a' Hr|ev fl a a' Har Hr].
  - pose proof (perform_quiet (prof := h_prof h) (clk := h_clk h) o (a_engine a) Ho) as [Hok Hrep]. rewrite Hp in Hrep. cbn in Hrep.
    pose proof (perform_good (prof := h_prof h) (clk := h_clk h) o (a_engine a) Hok Hg) as Hw. unfold wp in Hw. rewrite Hp in Hw.
    pose proof (keeps_perform (prof := h_prof h) (clk := h_clk h) o (a_engine a)) as Hk. rewrite Hp in Hk. cbn in Hk |- *.
    rewrite Hk. fold c. split_and!; [destruct r as [| |q]; [done..|by destruct (Hnp q)]|done|]. intros Hf.
    destruct (sim_perform (prof := h_prof h) (clk := h_clk h) _ _ _ _ _ _ _ _ _ Hsim Hok Har Hp Hnp Hf)
      as (x0 & x & Hx & Hrtc & [T1 T2 T3 T4]).
    exists x0. eexists. split_and!; [done|exact Hrtc|]. split; cbn; [done|..].
    + destruct o; rewrite ?app_nil_r; done.
    + destruct r as [[]| |]; rewrite ?app_nil_r; done.
    + set_solver.
  - pose proof (sim_start (prof := h_prof h) (clk := h_clk h) (ins := h_ins h) (h_cfg h) c conv net P0 permits a Hsim) as Hw.
    apply Hend. exact (wp_ok _ _ _ _ _ _ _ Hw Hr).
  - pose proof (sim_turn (prof := h_prof h) (clk := h_clk h) (ins := h_ins h) (h_cfg h) c conv net P0 ev Har a Hsim) as Hw.
    apply Hend. exact (wp_ok _ _ _ _ _ _ _ Hw Hr).
Qed.

Record duplex_ok (ha hb : Host) (d : Duplex) : Prop := {
  du_a : good (inner (a_engine (act_a d)));
  du_b : good (inner (a_engine (act_b d)));
  du_link : taken_fits (act_a d) → taken_fits (act_b d) →
    ∃ x y, linked (h_prof ha) (h_prof hb) (h_clk ha) (h_clk hb) (Build_Link x y) ∧ tracks (act_a d) x ∧ tracks (act_b d) y;
}.

Lemma newborn_ok clk a : newborn clk a → ∃ x, fresh clk x ∧ tracks a x ∧ good (inner (a_engine a)).
Proof.
  intros (x & Hf & He & Hw & Hd & Ht). exists x. split; [done|].
  destruct Hf as (conv & c & s & e & s' & Hconv & Hc & Hm & Hs & Hr & Hnew & ->). cbn in *. split.
  - split; rewrite ?Ht, ?Hd, ?Hw; [done..|set_solver].
  - rewrite He. cbn. apply (wp_ok no_panic _ (λ e _, good e) (λ _ _, False) _ _ _
      (new_inv (S := ()) (E := KcpCoreError) conv c _ _ s Hconv Hc Hm Hs Hr (λ _ _ HI Ht, conj HI Ht)) Hnew).
Qed.

Lemma actor_step_good h net a a' : good (inner (a_engine a)) → actor_step h net a a' → good (inner (a_engine a')).
Proof.
  intros Hg Hs. apply (actor_step_runs h net (λ _, True) a a'); [done| |done]. intros _.
  exists (Build_Peer (a_engine a) (a_taken a) (a_data a) (a_wire a) []). by split.
Qed.

Lemma duplex_good ha hb d : duplex ha hb d → duplex_ok ha hb d.
Proof.
  induction 1 as [a b Ha Hb|d d' _ [Ga Gb Hl] Hs].
  - destruct (newborn_ok _ _ Ha) as (x & Fx & Tx & Gx), (newborn_ok _ _ Hb) as (y & Fy & Ty & Gy).
    split; [done..|]. intros _ _. exists x, y. split_and!; [by apply linked_start|done..].
  - destruct Hs as [a a' b Hs|a b b' Hs]; cbn [act_a act_b] in *; (split; [by eauto using actor_step_good..|]);
      cbn [act_a act_b]; intros Fa Fb.
    + destruct (actor_step_runs ha (a_wire b) (λ x, ∃ y,
        linked (h_prof ha) (h_prof hb) (h_clk ha) (h_clk hb) (Build_Link x y) ∧ tracks b y) a a' Ga) as (_ & _ & R); [|done|].
      { intros Hfa. destruct (Hl Hfa Fb) as (x & y & L & Tx & Ty). exists x. split; [by eauto|done]. }
      destruct (R Fa) as (x0 & x & (y & L & Ty) & Hr & Tx). exists x, y.
      split_and!; [eapply linked_runs_a; [exact L|apply Ty|done]|done..].
    + destruct (actor_step_runs hb (a_wire a) (λ y, ∃ x,
        linked (h_prof ha) (h_prof hb) (h_clk ha) (h_clk hb) (Build_Link x y) ∧ tracks a x) b b' Gb) as (_ & _ & R); [|done|].
      { intros Hfb. destruct (Hl Fa Hfb) as (x & y & L & Tx & Ty). exists y. split; [by eauto|done]. }
      destruct (R Fb) as (y0 & y & (x & L & Tx) & Hr & Ty). exists x, y.
      split_and!; [eapply linked_runs_b; [exact L|apply Tx|done]|done..].
Qed.

(** An actor's configuration is the one it was made with. *)
Lemma actor_step_config h net a a' : good (inner (a_engine a)) → actor_step h net a a' → config_of a' = config_of a.
Proof.
  intros Hg Hs. apply (actor_step_runs h net (λ _, True) a a'); [done| |done]. intros _.
  exists (Build_Peer (a_engine a) (a_taken a) (a_data a) (a_wire a) []). by split.
Qed.


(** The data goes from [a] to [b]. *)
Definition flows (d : Duplex) (a b : Actor) : Prop :=
  a = act_a d ∧ b = act_b d ∨ a = act_b d ∧ b = act_a d.


(** Only data that fits was sent, and no more than the sequence numbers can tell
    apart. *)
Definition modest (a : Actor) : Prop := taken_fits a ∧ len (concat (a_taken a)) ≤ H31.

Lemma duplex_ends ha hb d a b :
  duplex ha hb d → modest (act_a d) → modest (act_b d) → flows d a b →
  ∃ x y done, tracks a x ∧ tracks b y ∧ peer_ok (pe_hist x) done y ∧ sent_ok x ∧ Inv (eng x) ∧ held x y.
Proof.
  intros Hd [Fa Ba] [Fb Bb] Hf. destruct (du_link _ _ _ (duplex_good _ _ _ Hd) Fa Fb) as (x & y & L & Tx & Ty).
  assert (Hb : bounded (Build_Link x y)).
  { apply (linked_bytes _ _ _ _ _ L); cbn; [by rewrite (tr_sent _ _ Tx)|by rewrite (tr_sent _ _ Ty)]. }
  destruct Hf as [[-> ->]|[-> ->]].
  - destruct (ends_ok _ _ _ _ (Build_Link x y) x y L Hb ltac:(by left)) as ([dn Hy] & Hs & HI & Hh). exists x, y, dn. by split_and!.
  - destruct (ends_ok _ _ _ _ (Build_Link x y) y x L Hb ltac:(by right)) as ([dn Hx] & Hs & HI & Hh). exists y, x, dn. by split_and!.
Qed.

Lemma data_prefix ha hb d a b :
  duplex ha hb d → modest (act_a d) → modest (act_b d) → flows d a b →
  concat (a_data b) `prefix_of` concat (a_taken a).
Proof.
  intros Hd Ma Mb Hf. destruct (duplex_ends _ _ _ _ _ Hd Ma Mb Hf) as (x & y & dn & Tx & Ty & Hy & Hs & _).
  rewrite <- (tr_sent _ _ Tx), <- (tr_got _ _ Ty). by eapply bytes_prefix.
Qed.

Lemma data_messages ha hb d a b :
  duplex ha hb d → modest (act_a d) → modest (act_b d) → flows d a b →
  c_stream_mode (config_of a) = false → a_data b `prefix_of` nonempty (a_taken a).
Proof.
  intros Hd Ma Mb Hf Hm. destruct (duplex_ends _ _ _ _ _ Hd Ma Mb Hf) as (x & y & dn & Tx & Ty & Hy & Hs & _).
  rewrite <- (tr_sent _ _ Tx), <- (tr_got _ _ Ty). eapply messages_prefix; [exact Hy|done|].
  unfold stream_of. by rewrite (tr_engine _ _ Tx).
Qed.

Lemma data_complete {prof : Profile} {clk : Clock} ha hb d a b s' :
  duplex ha hb d → modest (act_a d) → modest (act_b d) → flows d a b →
  c_rcv_wnd (config_of a) ≤ c_rcv_wnd (config_of b) →
  has_unsent_data_of (inner (a_engine a)) = false → recv (a_engine b) = (Ok None, s') →
  concat (a_data b) = concat (a_taken a).
Proof.
  intros Hd Ma Mb Hf Hw Hu Hrun. destruct (duplex_ends _ _ _ _ _ Hd Ma Mb Hf) as (x & y & dn & Tx & Ty & Hy & Hs & HI & Hh).
  rewrite <- (tr_engine _ _ Tx) in Hu, Hw. rewrite <- (tr_engine _ _ Ty) in Hrun, Hw.
  pose proof (wp_ok _ _ _ _ _ _ _ (recv_spec _ (ep_inv _ _ _ _ (po_end _ _ _ Hy))) Hrun) as [_ Hr].
  pose proof (all_delivered Hy Hs HI _ Hh Hu Hr Hw) as Hall.
  by rewrite <- (tr_sent _ _ Tx), <- (tr_got _ _ Ty), (po_got _ _ _ Hy), concat_payload, <- Hall, (so_bytes _ Hs).
Qed.


End DuplexFacts.

(** * Theorems *)

Section DuplexTheorems.
Context {api : BytesApi} {spec : BytesApiSpec api}.
Abbreviation config_of a := (e_config (inner (a_engine a))).

(** C10: two actors, on any hosts, over a network that loses, duplicates and reorders,
    whatever their streams and timers do: the data one puts in its stream's
    channel is, in order and without gap, the data the other took to send up to
    some point; in message mode message by message. *)
Theorem actors_deliver ha hb d a b :
  duplex ha hb d → modest (act_a d) → modest (act_b d) → flows d a b →
  concat (a_data b) `prefix_of` concat (a_taken a) ∧
  (c_stream_mode (config_of a) = false → a_data b `prefix_of` nonempty (a_taken a)).
Proof.
  intros Hd Ma Mb Hf. split; [by eapply data_prefix|by eapply data_messages].
Qed.

End DuplexTheorems.
