(* ===== verification/EndToEnd.v ===== *)
(** The whole path, from one application to the other: two streams, each with its
    actor and engine, over a network that loses, duplicates and reorders.

    The channels between a stream and its actor hand over what they are given, in
    order: what an actor has taken is the beginning of what its stream has put in
    its send channel, and a stream reads the actor's messages one after another. *)
From S2P Require Import Prelude Monad Protocol Error Config Engine Output Send Recv Ack Input Flush Frame Safety Actor Stream History Link Duplex.

(** A stream with its actor; [t_next] counts the messages taken off the data
    channel, [t_read] is what the application has read. *)
Record Station := {
  t_actor : Actor;
  t_stream : KcpStream;
  t_next : nat;
  t_read : bytes;
}.

(** What the application calls, except for reading. *)
Inductive stream_call : KcpStream → KcpStream → Prop :=
  | call_send data accepted k : stream_call k (stream_send data accepted k).2
  | call_write buf t fut k : stream_call k (poll_write buf t fut k).2
  | call_flush fut k : stream_call k (poll_flush fut k).2
  | call_shutdown fut k : stream_call k (poll_shutdown fut k).2
  | call_close k : stream_call k (close k).

(** What the data channel may answer: the next message, or that there is none. *)
Definition yields (t : Station) (chan : poll (option bytes)) : Prop :=
  match chan with Ready (Some d) => a_data (t_actor t) !! t_next t = Some d | _ => True end.

(** A read takes a message off the channel when nothing is left of the last one. *)
Definition takes (chan : poll (option bytes)) (k : KcpStream) : bool :=
  is_empty (k_read_buf k) && negb (k_closed k) && match chan with Ready (Some _) => true | _ => false end.

Definition read_into (t : Station) (remaining : Z) (chan : poll (option bytes)) : Station :=
  let '(r, k) := poll_read remaining chan (t_stream t) in
  {| t_actor := t_actor t; t_stream := k;
     t_next := if takes chan (t_stream t) then S (t_next t) else t_next t;
     t_read := t_read t ++ match r with Ready out => out | Pending => [] end |}.

(** [recv], by an application that does not mix it with reads of parts of
    messages. *)
Definition received_by (t : Station) (next : option bytes) : Station :=
  {| t_actor := t_actor t; t_stream := t_stream t;
     t_next := match stream_recv next (t_stream t) with Some _ => S (t_next t) | None => t_next t end;
     t_read := t_read t ++ default [] (stream_recv next (t_stream t)) |}.

Section EndToEnd.
Context {api : BytesApi}.

Inductive station_step (h : Host) (net : list bytes) : Station → Station → Prop :=
  | station_actor a a' k n r :
      actor_step h net a a' → a_taken a' `prefix_of` k_sent k →
      station_step h net (Build_Station a k n r) (Build_Station a' k n r)
  | station_call a k k' n r :
      stream_call k k' → station_step h net (Build_Station a k n r) (Build_Station a k' n r)
  | station_read remaining chan t : yields t chan → station_step h net t (read_into t remaining chan)
  | station_recv next t :
      yields t (Ready next) → k_read_buf (t_stream t) = [] → station_step h net t (received_by t next).

Record Pair := { end_a : Station; end_b : Station }.
Context (ha hb : Host).

Inductive pair_step : Pair → Pair → Prop :=
  | pair_a a a' b : station_step ha (a_wire (t_actor b)) a a' → pair_step (Build_Pair a b) (Build_Pair a' b)
  | pair_b a b b' : station_step hb (a_wire (t_actor a)) b b' → pair_step (Build_Pair a b) (Build_Pair a b').

(** A stream that has just been made, with a valid configuration. *)
Context {f32 : Type} (conf_a conf_b : KcpConfig (f32 := f32)).
Definition opened (h : Host) (conf : KcpConfig (f32 := f32)) (t : Station) : Prop :=
  validate conf = inr () ∧ core_config_ok (KcpCoreConfig_from conf) ∧
  newborn (h_clk h) (t_actor t) ∧ e_config (inner (a_engine (t_actor t))) = KcpCoreConfig_from conf ∧
  (∃ recv_task, t_stream t = Stream.stream_of conf recv_task) ∧ t_next t = 0%nat ∧ t_read t = [].

Inductive connected : Pair → Prop :=
  | connected_start a b : opened ha conf_a a → opened hb conf_b b → connected (Build_Pair a b)
  | connected_step p p' : connected p → pair_step p p' → connected p'.
End EndToEnd.

(** * A station keeps its promises *)

(** The stream puts in its channel what the engine takes, and what was read is
    what was taken off the data channel. *)
Record station_ok {f32} (conf : KcpConfig (f32 := f32)) (t : Station) : Prop := {
  so_config : e_config (inner (a_engine (t_actor t))) = KcpCoreConfig_from conf;
  so_mss : k_mss (t_stream t) = stream_mss conf;
  so_max : k_max_msg (t_stream t) = stream_max_msg conf;
  so_pending : match k_pending_write (t_stream t) with Some d => len d ≤ stream_mss conf | None => True end;
  so_sent : Forall (λ d, len d ≤ stream_max_msg conf) (k_sent (t_stream t));
  so_taken : a_taken (t_actor t) `prefix_of` k_sent (t_stream t);
  so_next : (t_next t ≤ length (a_data (t_actor t)))%nat;
  so_read : t_read t ++ k_read_buf (t_stream t) = concat (take (t_next t) (a_data (t_actor t)));
}.

(** What every call but a read does to a stream. *)
Record called (mss max : Z) (k k' : KcpStream) : Prop := {
  cl_mss : k_mss k' = k_mss k;
  cl_max : k_max_msg k' = k_max_msg k;
  cl_buf : k_read_buf k' = k_read_buf k;
  cl_pending : match k_pending_write k' with Some d => len d ≤ mss | None => True end;
  cl_sent : ∃ l, k_sent k' = k_sent k ++ l ∧ Forall (λ d, len d ≤ max) l;
}.

Lemma call_called mss max k k' :
  stream_call k k' → k_mss k = mss → k_max_msg k = max → 0 ≤ mss ≤ max →
  match k_pending_write k with Some d => len d ≤ mss | None => True end → called mss max k k'.
Proof.
  intros Hc Hm Hx Hle Hp.
  assert (Hsame : called mss max k k) by (split; [done..|exists []; by rewrite app_nil_r]).
  destruct Hc as [data accepted k|buf t fut k|fut k|fut k|k].
  - unfold stream_send. destruct (k_closed k); [done|]. destruct (Z.ltb_spec (k_max_msg k) (len data)); [done|].
    destruct accepted; [|done]. split; [done..|]. exists [data]. split; [done|]. apply Forall_singleton. lia.
  - unfold poll_write. destruct (k_closed k); [done|]. rewrite Hm.
    assert (Hchunk : len (take (Z.to_nat (Z.min (len buf) mss)) buf) ≤ mss).
    { rewrite len_take. pose proof (len_nonneg buf). lia. }
    destruct (k_pending_write k) as [d|] eqn:Hd.
    + destruct fut as [[e|[]]|]; [split; try done; exists []; by rewrite app_nil_r| |done].
      split; try done. exists [d]. split; [done|]. apply Forall_singleton. lia.
    + destruct t; [|done|].
      * split; try done; [by cbn; rewrite Hd|]. eexists. split; [done|]. apply Forall_singleton. lia.
      * destruct fut as [[e|[]]|]; split; try done; [exists []; by rewrite app_nil_r| |exists []; by rewrite app_nil_r].
        eexists. split; [done|]. apply Forall_singleton. lia.
  - unfold poll_flush. destruct (k_closed k); [done|]. destruct fut; (split; [done..|]; exists []; by rewrite app_nil_r).
  - unfold poll_shutdown. destruct (k_closed k); [done|].
    destruct (k_pending_shutdown k), fut; (split; try done; exists []; by rewrite app_nil_r).
  - unfold close, abort_tasks. destruct (k_closed k); [done|]. split; try done. exists []. by rewrite app_nil_r.
Qed.

Section StationFacts.
Context {api : BytesApi} {spec : BytesApiSpec api} {f32 : Type}.
Implicit Types conf : KcpConfig (f32 := f32).

Lemma mss_below_max conf :
  validate conf = inr () → core_config_ok (KcpCoreConfig_from conf) → 0 ≤ stream_mss conf ≤ stream_max_msg conf.
Proof.
  intros Hv Hc. destruct (validated_windows conf Hc Hv) as [Hw Hm]. pose proof (wo_rcv _ Hw) as Hr. cbn in Hr.
  unfold stream_max_msg, IKCP_WND_RCV. assert (1 ≤ stream_mss conf) by (unfold stream_mss; lia). nia.
Qed.

Lemma fits_max conf d :
  validate conf = inr () → core_config_ok (KcpCoreConfig_from conf) →
  len d ≤ stream_max_msg conf → fits (KcpCoreConfig_from conf) d.
Proof.
  intros Hv Hc Hl. destruct (validated_windows conf Hc Hv) as [_ Hm]. unfold fits. rewrite <- stream_mss_of by done. exact Hl.
Qed.

Lemma station_fits conf t :
  validate conf = inr () → core_config_ok (KcpCoreConfig_from conf) → station_ok conf t →
  Forall (fits (e_config (inner (a_engine (t_actor t))))) (a_taken (t_actor t)).
Proof.
  intros Hv Hc Ht. rewrite (so_config _ _ Ht). destruct (so_taken _ _ Ht) as [k Hk].
  pose proof (so_sent _ _ Ht) as Hs. rewrite Hk in Hs. apply Forall_app in Hs as [Hs _].
  eapply Forall_impl; [exact Hs|]. intros d. by apply fits_max.
Qed.

Lemma peer_step_got prof clk net x x' : peer_step prof clk net x x' → pe_got x `prefix_of` pe_got x'.
Proof. intros [? ? ? ? _ _ _ _|]; [by apply prefix_app_r|done]. Qed.

(** What went into the data channel stays there. *)
Lemma actor_step_data h net a a' :
  good (inner (a_engine a)) → actor_step h net a a' →
  Forall (fits (e_config (inner (a_engine a')))) (a_taken a') → a_data a `prefix_of` a_data a'.
Proof.
  intros Hg Hs Hf. destruct (actor_step_runs h net (λ x, pe_got x = a_data a) a a' Hg) as (_ & _ & R); [|done|].
  - intros _. exists (Build_Peer (a_engine a) (a_taken a) (a_data a) (a_wire a) []). by split; [|split].
  - destruct (R Hf) as (x0 & x & H0 & Hr & [_ _ <- _]). rewrite <- H0. clear - Hr.
    induction Hr as [|x1 x2 x3 Hs _ IH]; [done|]. etrans; [by eapply peer_step_got|done].
Qed.

Lemma concat_take_S (l : list bytes) n d : l !! n = Some d → concat (take (S n) l) = concat (take n l) ++ d.
Proof. intros H. rewrite (take_S_r _ _ _ H), concat_app. cbn. by rewrite app_nil_r. Qed.

Lemma read_ok conf t remaining chan : yields t chan → station_ok conf t → station_ok conf (read_into t remaining chan).
Proof.
  intros Hy [H1 H2 H3 H4 H5 H6 H7 H8]. unfold read_into, poll_read, takes, copy_out.
  destruct (k_read_buf (t_stream t)) as [|b buf] eqn:Hb; cbn [is_empty negb andb].
  - destruct (k_closed (t_stream t)); cbn [negb andb].
    { split; cbn; try done. by rewrite Hb, !app_nil_r in *. }
    destruct chan as [[d|]|]; cbn; try (split; cbn; try done; by rewrite Hb, !app_nil_r in *).
    cbn in Hy. rewrite app_nil_r in H8. split; cbn; try done.
    + by apply lookup_lt_Some in Hy.
    + rewrite Hb. cbn. by rewrite <- (assoc (++)), take_drop, H8, (concat_take_S _ _ _ Hy).
  - split; cbn; try done. by rewrite Hb, <- (assoc (++)), take_drop, H8.
Qed.

Lemma recv_ok conf t next :
  yields t (Ready next) → k_read_buf (t_stream t) = [] → station_ok conf t → station_ok conf (received_by t next).
Proof.
  intros Hy Hb [H1 H2 H3 H4 H5 H6 H7 H8]. unfold received_by, stream_recv. rewrite Hb, app_nil_r in H8.
  destruct (k_closed (t_stream t)), next as [d|]; cbn in Hy |- *;
    split; cbn; try done; try (by rewrite Hb, !app_nil_r).
  - by apply lookup_lt_Some in Hy.
  - by rewrite Hb, app_nil_r, H8, (concat_take_S _ _ _ Hy).
Qed.

(** What an actor has put in its data channel stays there. *)
Lemma station_data conf h net a a' k n r :
  validate conf = inr () → core_config_ok (KcpCoreConfig_from conf) → good (inner (a_engine a)) →
  station_ok conf (Build_Station a k n r) → actor_step h net a a' → a_taken a' `prefix_of` k_sent k →
  a_data a `prefix_of` a_data a'.
Proof.
  intros Hv Hc Hg [H1 _ _ _ H5 _ _ _] Ha [l Hk]. cbn in *. apply (actor_step_data h net); [done..|].
  rewrite (actor_step_config _ _ _ _ Hg Ha), H1. rewrite Hk in H5.
  apply Forall_app in H5 as [H5 _]. eapply Forall_impl; [exact H5|]. intros d. by apply fits_max.
Qed.

Lemma station_step_ok conf h net t t' :
  validate conf = inr () → core_config_ok (KcpCoreConfig_from conf) →
  good (inner (a_engine (t_actor t))) → station_ok conf t → station_step h net t t' → station_ok conf t'.
Proof.
  intros Hv Hc Hg Ht Hs. destruct Hs as [a a' k n r Ha Hk|a k k' n r Hcall|remaining chan t Hy|next t Hy Hb].
  - pose proof (station_data _ _ _ _ _ _ _ _ Hv Hc Hg Ht Ha Hk) as Hd.
    destruct Ht as [H1 H2 H3 H4 H5 H6 H7 H8]. cbn in *. pose proof (actor_step_config _ _ _ _ Hg Ha) as Hcfg.
    split; cbn; try done; [congruence|by apply prefix_length in Hd; lia|].
    rewrite H8. destruct Hd as [l ->]. by rewrite take_app_le.
  - destruct Ht as [H1 H2 H3 H4 H5 H6 H7 H8]. cbn in *.
    destruct (call_called (stream_mss conf) (stream_max_msg conf) k k' Hcall H2 H3 (mss_below_max conf Hv Hc) H4)
      as [C1 C2 C3 C4 (l & C5 & C6)].
    split; cbn; rewrite ?C1, ?C2, ?C3, ?C5; try done; [by apply Forall_app|by apply prefix_app_r].
  - by apply read_ok.
  - by apply recv_ok.
Qed.
End StationFacts.

Section PairFacts.
Context {api : BytesApi} {spec : BytesApiSpec api} {f32 : Type} (conf_a conf_b : KcpConfig (f32 := f32)).
Context (ha hb : Host).

Definition actors (p : Pair) : Duplex := Build_Duplex (t_actor (end_a p)) (t_actor (end_b p)).

(** The actors of the streams are two actors over the network. *)
Lemma pair_actors p p' : pair_step ha hb p p' → actors p' = actors p ∨ duplex_step ha hb (actors p) (actors p').
Proof.
  intros [t t' u Hs|t u u' Hs]; destruct Hs as [a a' k n r Ha _|a k k' n r _|remaining chan t0 _|next t0 _ _];
    unfold actors, read_into; cbn; try destruct (poll_read _ _ _); try (by left).
  - right. by apply duplex_a.
  - right. by apply duplex_b.
Qed.

Record pair_ok (p : Pair) : Prop := {
  pk_valid_a : validate conf_a = inr () ∧ core_config_ok (KcpCoreConfig_from conf_a);
  pk_valid_b : validate conf_b = inr () ∧ core_config_ok (KcpCoreConfig_from conf_b);
  pk_duplex : duplex ha hb (actors p);
  pk_a : station_ok conf_a (end_a p);
  pk_b : station_ok conf_b (end_b p);
}.

Lemma opened_ok h (conf : KcpConfig (f32 := f32)) t : opened h conf t → station_ok conf t.
Proof.
  intros (_ & _ & (x & _ & _ & _ & Hd & Htk) & Hc & [b Hk] & Hn & Hr). split; rewrite ?Hk, ?Hn, ?Hr, ?Hd, ?Htk; done.
Qed.

Lemma connected_ok p : connected ha hb conf_a conf_b p → pair_ok p.
Proof.
  induction 1 as [a b Ha Hb|p p' _ [Va Vb Hd Pa Pb] Hs].
  - pose proof (opened_ok _ _ _ Ha). pose proof (opened_ok _ _ _ Hb).
    destruct Ha as (? & ? & ? & _), Hb as (? & ? & ? & _). split; try done. by apply duplex_start.
  - pose proof (duplex_good _ _ _ Hd) as [Ga Gb _]. split; [done..| | |].
    + destruct (pair_actors p p' Hs) as [->|Hstep]; [done|]. by eapply duplex_next.
    + destruct Hs as [t t' u Hs|t u u' Hs]; cbn in *; [|done]. eapply station_step_ok; [apply Va|apply Va|exact Ga|done..].
    + destruct Hs as [t t' u Hs|t u u' Hs]; cbn in *; [done|]. eapply station_step_ok; [apply Vb|apply Vb|exact Gb|done..].
Qed.

(** What was written to a stream is within what the sequence numbers can tell
    apart. *)
Definition written (t : Station) : bytes := concat (k_sent (t_stream t)).
Definition modest_writes (p : Pair) : Prop := len (written (end_a p)) ≤ H31 ∧ len (written (end_b p)) ≤ H31.

Lemma station_modest (conf : KcpConfig (f32 := f32)) t :
  validate conf = inr () → core_config_ok (KcpCoreConfig_from conf) → station_ok conf t →
  len (written t) ≤ H31 → modest (t_actor t).
Proof.
  intros Hv Hc Ht Hl. split; [by eapply station_fits|].
  pose proof (sent_bytes_mono _ _ (so_taken _ _ Ht)). unfold written in Hl. lia.
Qed.

(** The data goes from [t] to [u]. *)
Definition path (p : Pair) (t u : Station) : Prop :=
  t = end_a p ∧ u = end_b p ∨ t = end_b p ∧ u = end_a p.

Lemma connected_path p t u :
  connected ha hb conf_a conf_b p → modest_writes p → path p t u →
  (∃ conf, station_ok (f32 := f32) conf t) ∧ (∃ conf, station_ok (f32 := f32) conf u) ∧
  modest (act_a (actors p)) ∧ modest (act_b (actors p)) ∧ flows (actors p) (t_actor t) (t_actor u) ∧ duplex ha hb (actors p).
Proof.
  intros Hp [Ma Mb] Hpath. destruct (connected_ok _ Hp) as [[Va Ca] [Vb Cb] Hd Pa Pb].
  pose proof (station_modest _ _ Va Ca Pa Ma). pose proof (station_modest _ _ Vb Cb Pb Mb).
  destruct Hpath as [[-> ->]|[-> ->]].
  - split_and!; [by exists conf_a|by exists conf_b|done|done|by left|done].
  - split_and!; [by exists conf_b|by exists conf_a|done|done|by right|done].
Qed.

(** What is read is the beginning of what was written. *)
Lemma path_prefix p t u :
  connected ha hb conf_a conf_b p → modest_writes p → path p t u →
  t_read u ++ k_read_buf (t_stream u) `prefix_of` written t.
Proof.
  intros Hp Hm Hpath. destruct (connected_path _ _ _ Hp Hm Hpath) as ([cf Pt] & [cf' Pu] & Ma & Mb & Hf & Hd).
  pose proof (data_prefix _ _ _ _ _ Hd Ma Mb Hf) as Hpre. rewrite (so_read _ _ Pu).
  etrans; [|etrans; [exact Hpre|]].
  - exists (concat (drop (t_next u) (a_data (t_actor u)))). by rewrite <- concat_app, take_drop.
  - destruct (so_taken _ _ Pt) as [l Hl]. unfold written. rewrite Hl, concat_app. by apply prefix_app_r.
Qed.

(** In message mode the messages in the data channel are those written. *)
Lemma path_messages p t u (conf : KcpConfig (f32 := f32)) :
  connected ha hb conf_a conf_b p → modest_writes p → path p t u →
  station_ok conf t → stream_mode conf = false →
  a_data (t_actor u) `prefix_of` nonempty (k_sent (t_stream t)).
Proof.
  intros Hp Hm Hpath Ht Hs. destruct (connected_path _ _ _ Hp Hm Hpath) as (_ & _ & Ma & Mb & Hf & Hd).
  etrans; [apply (data_messages _ _ _ _ _ Hd Ma Mb Hf); by rewrite (so_config _ _ Ht)|].
  destruct (so_taken _ _ Ht) as [l ->]. rewrite filter_app. by apply prefix_app_r.
Qed.
End PairFacts.

(** ** Where a station comes from *)

(** The engine, when it is given to the actor, and the stream. *)
Definition station_of (e : KcpEngine) (n : nat) (k : KcpStream) : Station :=
  Build_Station (Build_Actor (Timed e n) 0 0 0 false false None [] [] [] []) k 0 [].

Section Opening.
Context {api : BytesApi} {spec : BytesApiSpec api} {f32 : Type} (loses : f32 → nat → bool) (h : Host) (net : list bytes).
Implicit Types conf : KcpConfig (f32 := f32).

Lemma new_opened conf conv recv_task s e s' :
  core_config_ok (KcpCoreConfig_from conf) → validate conf = inr () → in_u 32 conv →
  new (clk := h_clk h) (S := ()) (E := KcpError) conv (KcpCoreConfig_from conf) s = (Ok e, s') →
  opened h conf (station_of e (ticks s') (Stream.stream_of conf recv_task)).
Proof.
  intros Hc Hv Hconv Hn. destruct (validated_windows conf Hc Hv) as [Hw Hm].
  pose proof (new_made_for (clk := h_clk h) conf conv (λ e _, made_for conf conv e) (λ _ _, True) s Hc Hv Hconv
    (λ e _ H, H)) as Hmade.
  pose proof (wp_ok _ _ _ _ _ _ _ Hmade Hn) as (_ & Hcfg & _).
  split_and!; cbn; [done|done| |done|by exists recv_task|done|done].
  exists (Build_Peer (Timed e (ticks s')) [] [] [] []). split_and!; [|done..].
  exists conv, (KcpCoreConfig_from conf), s, e, s'. split_and!; [done|done|apply Hw|apply Hw|apply Hw|apply Hw|apply Hw| |done].
  revert Hn. unfold new. cbn. by intros [= <- <-].
Qed.

(** A call of the engine while its connection is being set up. *)
Lemma setup_step (o : op) {A} (m : T A) e e' s s' k :
  perform (prof := h_prof h) (clk := h_clk h) o = (m;; mret RUnit) →
  match o with OpSend _ | OpRecv | OpDrainOutput => False | _ => op_ok o end →
  (∀ d, o = OpInput d → arrives (e_conv e) net d) →
  on_engine e m s = (Ok e', s') → station_step h net (station_of e (ticks s) k) (station_of e' (ticks s') k).
Proof.
  intros Hp Ho Har Hrun. unfold on_engine in Hrun.
  destruct (m (Timed e (ticks s))) as [[v|x|q] [e1 n1]] eqn:Hm; [|done..]. injection Hrun as <- <-.
  apply station_actor; [|apply prefix_nil].
  apply (actor_setup h net o (Timed e1 n1) (Ok RUnit) (t_actor (station_of e (ticks s) k))); [done|done| |done].
  rewrite Hp. cbn. unfold mbind, M_bind. by rewrite Hm.
Qed.
(** What [new_with_conv] returns. *)
Lemma client_stream_opens conf conv s e k ac s' :
  core_config_ok (KcpCoreConfig_from conf) → in_u 32 conv →
  new_with_conv (clk := h_clk h) loses conv conf s = (Ok (e, k, ac), s') →
  e_conv e = conv ∧ ac = actor_config_of loses conf ∧
  ∃ t, opened h conf t ∧ rtc (station_step h net) t (station_of e (ticks s') k).
Proof.
  intros Hc Hconv Hrun. unfold new_with_conv in Hrun.
  apply bind_ok in Hrun as ([] & s1 & Hv & Hrun). unfold check_config in Hv.
  destruct (validate conf) as [|[]] eqn:Hval; [done|]. injection Hv as <-.
  apply bind_ok in Hrun as (e1 & s2 & Hn & Hrun). apply bind_ok in Hrun as (e2 & s3 & Hst & Hrun).
  injection Hrun as <- <- <- <-. split_and!; [|done|].
  - revert Hst. unfold on_engine, start. cbn. intros [= <- _]. revert Hn. unfold new. cbn. by intros [= <- _].
  - eexists. split; [by eapply (new_opened conf conv true)|].
    apply rtc_once. by apply (setup_step OpStart start e1 e2 s2 s3).
Qed.

(** What [connect] returns has a number of its own. *)
Lemma connect_draws {A} (bound : string → io_error_kind + (io_error_kind + A)) is_ipv6 draws conf m s r s' :
  connect (clk := h_clk h) loses bound is_ipv6 draws conf = Some m → m s = (Ok r, s') →
  ∃ conv, in_u 32 conv ∧ conv ≠ 0 ∧ m = new_with_conv (clk := h_clk h) loses conv conf.
Proof.
  unfold connect, connect_with_transport, new_with_transport.
  destruct (bound _) as [kind|[kind|addr]]; [by intros [= <-]..|].
  destruct (random_conv_id draws) as [conv|] eqn:Hr; [|done]. cbn. intros [= <-] _. exists conv.
  clear s'. induction draws as [|d draws IH]; cbn in Hr; [done|].
  destruct (Z.eqb_spec (as_u32 d) 0); [by apply IH|]. injection Hr as <-. split; [apply as_u32_range|done].
Qed.

(** What [new_server_stream] returns: the first packet comes from the network. *)
Lemma server_stream_opens conf cc sc packet s e k ac s' :
  core_config_ok (KcpCoreConfig_from conf) → in_u 32 cc → in_u 32 sc → arrives cc net packet →
  new_server_stream (prof := h_prof h) (clk := h_clk h) loses cc sc conf packet s = (Ok (e, k, ac), s') →
  ac = actor_config_of loses conf ∧ ∃ t, opened h conf t ∧ rtc (station_step h net) t (station_of e (ticks s') k).
Proof.
  intros Hc Hcc Hsc Har Hrun. unfold new_server_stream in Hrun.
  apply bind_ok in Hrun as ([] & s1 & Hv & Hrun). unfold check_config in Hv.
  destruct (validate conf) as [|[]] eqn:Hval; [done|]. injection Hv as <-.
  apply bind_ok in Hrun as (e1 & s2 & Hn & Hrun). apply bind_ok in Hrun as (e2 & s3 & Hst & Hrun).
  apply bind_ok in Hrun as (e3 & s4 & Hin & Hrun). apply bind_ok in Hrun as (e4 & s5 & Hset & Hrun).
  apply bind_ok in Hrun as (e5 & s6 & Hup & Hrun). apply bind_ok in Hrun as (e6 & s7 & Hfl & Hrun).
  injection Hrun as <- <- <- <-. split; [done|].
  assert (Hconv1 : e_conv e1 = cc) by (revert Hn; unfold new; cbn; by intros [= <- _]).
  assert (Hconv2 : e_conv e2 = cc) by (revert Hst; unfold on_engine, start; cbn; by intros [= <- _]).
  eexists. split; [by eapply (new_opened conf cc false)|].
  eapply rtc_l; [by apply (setup_step OpStart start e1 e2 s2 s3)|].
  eapply rtc_l; [by eapply (setup_step (OpInput packet) (input packet) e2 e3 s3 s4); [..|exact Hin]; [| |intros d [= <-]; rewrite Hconv2]|].
  apply (transitivity (y := station_of e4 (ticks s5) (Stream.stream_of conf false))).
  { destruct (cc =? sc); cbn [negb] in Hset; [by injection Hset as <- <-|].
    apply rtc_once. by apply (setup_step (OpSetConv sc) (set_conv sc) e3 e4 s4 s5). }
  eapply rtc_l; [by apply (setup_step OpUpdate (update (prof := h_prof h) (clk := h_clk h)) e4 e5 s5 s6)|].
  apply rtc_once. by apply (setup_step OpFlush (flush (prof := h_prof h) (clk := h_clk h)) e5 e6 s6 s7).
Qed.
End Opening.

(** * Theorems *)

Section EndToEndTheorems.
Context {api : BytesApi} {spec : BytesApiSpec api} {f32 : Type} (conf_a conf_b : KcpConfig (f32 := f32)).
Context (ha hb : Host).

(** C1: from application to application: whatever the network loses, duplicates or
    reorders, and however the two applications write and read, the bytes read
    from one stream, with those it still buffers, are the bytes written to the
    other, in order and none missing or repeated, up to some point. *)
Theorem end_to_end p t u :
  connected ha hb conf_a conf_b p → modest_writes p → path p t u →
  t_read u ++ k_read_buf (t_stream u) `prefix_of` written t.
Proof. apply path_prefix. Qed.

(** C2: when the writer's actor has taken all that was written and has nothing unsent
    or unacknowledged, and the reader, whose receive window is at least the
    writer's, has emptied its engine, channel and buffer, what was read is what
    was written.  With a smaller window at the reader it need not be
    ([Link.narrow_reader_wedges]). *)
Theorem end_to_end_complete {prof : Profile} {clk : Clock} p t u s' :
  connected ha hb conf_a conf_b p → modest_writes p → path p t u →
  c_rcv_wnd (e_config (inner (a_engine (t_actor t)))) ≤ c_rcv_wnd (e_config (inner (a_engine (t_actor u)))) →
  a_taken (t_actor t) = k_sent (t_stream t) → has_unsent_data_of (inner (a_engine (t_actor t))) = false →
  recv (a_engine (t_actor u)) = (Ok None, s') →
  t_next u = length (a_data (t_actor u)) → k_read_buf (t_stream u) = [] →
  t_read u = written t.
Proof.
  intros Hp Hm Hpath Hw Htk Hu Hr Hn Hb.
  destruct (connected_path _ _ _ _ _ _ _ Hp Hm Hpath) as ([cf Pt] & [cf' Pu] & Ma & Mb & Hf & Hd).
  pose proof (data_complete _ _ _ _ _ _ Hd Ma Mb Hf Hw Hu Hr) as Hall.
  pose proof (so_read _ _ Pu) as Hread. rewrite Hb, app_nil_r, Hn, take_ge in Hread by done.
  unfold written. by rewrite Hread, Hall, Htk.
Qed.

(** C7: the streams of the library are stations of this model: what [connect],
    [new_with_conv] and [new_server_stream] return is a stream with its engine,
    reached from a newly made one by calls that set it up; a connecting client
    has drawn a conversation number other than 0, a server's engine has taken the
    client's first packet in under the client's number and goes on under its
    own. *)
Theorem streams_open (loses : f32 → nat → bool) h net conf s e k ac s' :
  core_config_ok (KcpCoreConfig_from conf) →
  (∀ A (bound : string → io_error_kind + (io_error_kind + A)) is_ipv6 draws m,
     connect (clk := h_clk h) loses bound is_ipv6 draws conf = Some m → m s = (Ok (e, k, ac), s') →
     e_conv e ≠ 0 ∧ ac = actor_config_of loses conf ∧ ∃ t, opened h conf t ∧
       rtc (station_step h net) t (station_of e (ticks s') k)) ∧
  (∀ conv, in_u 32 conv →
     new_with_conv (clk := h_clk h) loses conv conf s = (Ok (e, k, ac), s') →
     e_conv e = conv ∧ ac = actor_config_of loses conf ∧ ∃ t, opened h conf t ∧
       rtc (station_step h net) t (station_of e (ticks s') k)) ∧
  (∀ client_conv server_conv packet, in_u 32 client_conv → in_u 32 server_conv → arrives client_conv net packet →
     new_server_stream (prof := h_prof h) (clk := h_clk h) loses client_conv server_conv conf packet s = (Ok (e, k, ac), s') →
     ac = actor_config_of loses conf ∧ ∃ t, opened h conf t ∧
       rtc (station_step h net) t (station_of e (ticks s') k)).
Proof.
  intros Hc. split_and!.
  - intros A bound is_ipv6 draws m Hm Hrun. destruct (connect_draws loses h _ _ _ _ _ _ _ _ Hm Hrun) as (conv & Hu & Hne & ->).
    destruct (client_stream_opens loses h net conf conv s e k ac s' Hc Hu Hrun) as [-> H]. by split.
  - intros conv Hv. by apply (client_stream_opens loses h net).
  - intros cc sc packet Hv1 Hv2 Ha. by apply (server_stream_opens loses h net).
Qed.
End EndToEndTheorems.

(** * A run *)

Module PathSample.
Definition conf : KcpConfig (f32 := Z) := StreamSample.config.
Definition cfg : actor_config := actor_config_of StreamSample.loses conf.
Definition host_a : Host := Build_Host debug_build Sample.clock ActorSample.instants cfg.
Definition host_b : Host := Build_Host release_build LinkSample.clk_b ActorSample.instants cfg.

(** A station does something; [Packet i] is the [i]-th datagram of the other,
    [Write] and [Read] are polls that find the channel open. *)
Inductive act := Turn (ev : event) | Packet (i permits : nat) | Write (buf : bytes) | Read (n : Z).

Definition turned (h : Host) (t : Station) (ev : event) : option Station :=
  match run_actor (prof := h_prof h) (clk := h_clk h) (ins := h_ins h) (api := bytes_le) (h_cfg h) [ev] (t_actor t) with
  | (Ok _, a') =>
      if decide (a_taken a' `prefix_of` k_sent (t_stream t))
      then Some (Build_Station a' (t_stream t) (t_next t) (t_read t)) else None
  | _ => None
  end.
Definition acted (h : Host) (net : list bytes) (t : Station) (x : act) : option Station :=
  match x with
  | Turn (EvPacket (Some _) _) => None
  | Turn ev => turned h t ev
  | Packet i permits => d ← net !! i; turned h t (EvPacket (Some d) permits)
  | Write buf =>
      Some (Build_Station (t_actor t) (poll_write buf TryOk Pending (t_stream t)).2 (t_next t) (t_read t))
  | Read n => Some (read_into t n (match a_data (t_actor t) !! t_next t with Some d => Ready (Some d) | None => Pending end))
  end.

Lemma turned_step h net t ev t' :
  (∀ d permits, ev = EvPacket (Some d) permits → d ∈ net) → turned h t ev = Some t' →
  station_step (api := bytes_le) h net t t'.
Proof.
  unfold turned. intros Hev H. destruct (run_actor _ _ _) as [[fl|?|?] a'] eqn:Hr; [|done..].
  case_decide; [|done]. injection H as <-. destruct t as [a k n r]. apply station_actor; [|done].
  eapply (actor_turn _ _ ev fl); [|exact Hr]. intros d permits ->. left. by eapply Hev.
Qed.

Lemma acted_step h net t x t' : acted h net t x = Some t' → station_step (api := bytes_le) h net t t'.
Proof.
  destruct x as [ev|i permits|buf|n]; cbn; intros H.
  - apply (turned_step h net t ev t'); destruct ev as [| |[d|] permits|]; done.
  - destruct (net !! i) as [d|] eqn:Hi; [|done]. cbn in H. eapply turned_step; [|exact H].
    intros d' permits' [= <- <-]. by eapply list_elem_of_lookup_2.
  - injection H as <-. destruct t as [a k n r]. apply station_call. apply (call_write buf TryOk Pending).
  - injection H as <-. apply station_read. unfold yields. by destruct (a_data (t_actor t) !! t_next t) eqn:E.
Qed.

Definition pair_acted (p : Pair) (x : bool * act) : option Pair :=
  if x.1 then a ← acted host_a (a_wire (t_actor (end_b p))) (end_a p) x.2; Some (Build_Pair a (end_b p))
  else b ← acted host_b (a_wire (t_actor (end_a p))) (end_b p) x.2; Some (Build_Pair (end_a p) b).
Fixpoint run (p : Pair) (xs : list (bool * act)) : option Pair :=
  match xs with [] => Some p | x :: xs => p ← pair_acted p x; run p xs end.

Abbreviation ok := (connected (api := bytes_le) host_a host_b conf conf).
Lemma run_connected xs : ∀ p p', ok p → run p xs = Some p' → ok p'.
Proof.
  induction xs as [|[side x] xs IH]; intros p p' Hp Hr; cbn in Hr; [by simplify_eq|].
  destruct (pair_acted p (side, x)) as [p1|] eqn:H1; [|done]. apply (IH p1); [|done].
  apply (connected_step _ _ _ _ p); [done|]. destruct p as [a b]. unfold pair_acted in H1. destruct side; cbn in H1.
  - destruct (acted host_a _ a x) as [a'|] eqn:Ha; [|done]. injection H1 as <-. apply pair_a. by eapply acted_step.
  - destruct (acted host_b _ b x) as [b'|] eqn:Hb; [|done]. injection H1 as <-. apply pair_b. by eapply acted_step.
Qed.

Definition opened_at (h : Host) : option Station :=
  match new (clk := h_clk h) (S := ()) (E := KcpCoreError) 7 (KcpCoreConfig_from conf) (Timed tt 0) with
  | (Ok e, s) => Some (Build_Station (Build_Actor (Timed e (ticks s)) 0 0 0 false false None [] [] [] [])
                   (Stream.stream_of conf true) 0 [])
  | _ => None
  end.
Lemma opened_at_ok h t : opened_at h = Some t → opened h conf t.
Proof.
  unfold opened_at. intros H. destruct (new (clk := h_clk h) 7 _ _) as [[e|?|?] s] eqn:He; [|done..].
  injection H as <-. split_and!; cbn; [reflexivity|exact StreamSample.stream_config_ok| | |by exists true|done|done].
  - eexists (Build_Peer (Timed e (ticks s)) [] [] [] []). split_and!; [|done..].
    exists 7, (KcpCoreConfig_from conf), (Timed tt 0), e, s.
    split_and!; [| |vm_compute; congruence..|done|done]; [vm_compute; split; congruence|exact StreamSample.stream_config_ok].
  - unfold new in He. cbn in He. by injection He as <- _.
Qed.

Definition started (xs : list (bool * act)) : option Pair :=
  a ← opened_at host_a; b ← opened_at host_b; run (Build_Pair a b) xs.
Definition idle : Station := Build_Station ActorSample.actor StreamSample.stream 0 [].
Definition reached (xs : list (bool * act)) : Pair := default (Build_Pair idle idle) (started xs).
Lemma reached_connected xs : bool_decide (is_Some (started xs)) = true → ok (reached xs).
Proof.
  intros [p Hp]%bool_decide_eq_true. unfold reached. rewrite Hp. cbn. unfold started in Hp.
  destruct (opened_at host_a) as [a|] eqn:Ha; [|done]. destruct (opened_at host_b) as [b|] eqn:Hb; [|done].
  apply (run_connected xs (Build_Pair a b)); [|done]. by apply connected_start; apply opened_at_ok.
Qed.

(** Two writes of 2000 bytes, each in two chunks of at most an [mss]; the second
    datagram arrives first. *)
Definition text : bytes := repeat x61 2000.
Definition sending : list (bool * act) :=
  [(true, Write text); (true, Turn (EvSend (Some (take 1376 text)) []));
   (true, Write (drop 1376 text)); (true, Turn (EvSend (Some (drop 1376 text)) []))].
Definition receiving : list (bool * act) :=
  [(false, Packet 1 4); (false, Packet 0 4); (false, Packet 1 4); (false, Read 1500)].
Definition finishing : list (bool * act) := [(false, Read 1500); (false, Read 1500); (true, Packet 0 4); (true, Packet 1 4)].
Definition halfway : Pair := reached (sending ++ receiving).
Definition finished : Pair := reached (sending ++ receiving ++ finishing).

Abbreviation wait_a a := (timer_wait (clk := h_clk host_a) (h_cfg host_a) a).
Abbreviation handle_a ev a :=
  (handle (prof := h_prof host_a) (clk := h_clk host_a) (ins := h_ins host_a) (api := bytes_le) (h_cfg host_a) ev a).
End PathSample.

Lemma end_to_end_witness :
  let t := end_a PathSample.halfway in let u := end_b PathSample.halfway in
  t_read u ++ k_read_buf (t_stream u) `prefix_of` written t ∧ t_read u = take 1376 PathSample.text.
Proof.
  split; [|vm_compute; reflexivity].
  refine (end_to_end (api := bytes_le) PathSample.conf PathSample.conf PathSample.host_a PathSample.host_b
    PathSample.halfway (end_a PathSample.halfway) (end_b PathSample.halfway) _ _ _);
    [apply PathSample.reached_connected; vm_compute; reflexivity|split; vm_compute; congruence|by left].
Defined.

Lemma end_to_end_complete_witness : t_read (end_b PathSample.finished) = PathSample.text.
Proof.
  transitivity (written (end_a PathSample.finished)); [|vm_compute; reflexivity].
  refine (end_to_end_complete (api := bytes_le) (prof := release_build) (clk := LinkSample.clk_b)
    PathSample.conf PathSample.conf PathSample.host_a PathSample.host_b
    PathSample.finished (end_a PathSample.finished) (end_b PathSample.finished)
    (recv (prof := release_build) (a_engine (t_actor (end_b PathSample.finished)))).2 _ _ _ _ _ _ _ _ _);
    [apply PathSample.reached_connected; vm_compute; reflexivity|split; vm_compute; congruence|by left
    |vm_compute; congruence|vm_compute; reflexivity..].
Defined.

(** The two actors of the run. *)
Lemma PathSample_duplex_of p : PathSample.ok p → duplex (api := bytes_le) PathSample.host_a PathSample.host_b (actors p).
Proof. intros Hp. apply (pk_duplex PathSample.conf PathSample.conf). by apply (connected_ok (api := bytes_le)). Qed.
Lemma PathSample_duplex : duplex (api := bytes_le) PathSample.host_a PathSample.host_b (actors PathSample.finished).
Proof. apply PathSample_duplex_of, PathSample.reached_connected. vm_compute. reflexivity. Qed.
Lemma modest_decided a :
  bool_decide (Forall (λ d, len d <= mss_of (e_config (inner (a_engine a))) *
    Z.min (c_rcv_wnd (e_config (inner (a_engine a)))) IKCP_WND_RCV) (a_taken a)) = true →
  len (concat (a_taken a)) ≤ H31 → modest a.
Proof. intros H1%bool_decide_eq_true H2. by split. Qed.
Lemma PathSample_modest :
  modest (act_a (actors PathSample.finished)) ∧ modest (act_b (actors PathSample.finished)).
Proof. split; apply modest_decided; vm_compute; congruence || reflexivity. Qed.

Lemma actors_deliver_witness :
  concat (a_data (act_b (actors PathSample.finished))) `prefix_of` PathSample.text ∧
  map len (a_data (act_b (actors PathSample.finished))) = [1376; 624].
Proof.
  split; [|vm_compute; reflexivity].
  destruct (actors_deliver (api := bytes_le) PathSample.host_a PathSample.host_b (actors PathSample.finished)
    (act_a (actors PathSample.finished)) (act_b (actors PathSample.finished))
    PathSample_duplex (proj1 PathSample_modest) (proj2 PathSample_modest) ltac:(by left)) as [H _].
  etrans; [exact H|]. vm_compute. by exists [].
Defined.



Lemma streams_open_witness :
  let h := Build_Host release_build Sample.clock ActorSample.instants PathSample.cfg in
  ∃ e (s' : timed ()) t, opened h PathSample.conf t ∧ e_conv e = 9 ∧
    rtc (station_step (api := bytes_le) h [InputSample.datagram 0]) t
      (station_of e (ticks s') (Stream.stream_of PathSample.conf false)).
Proof.
  cbn zeta. set (h := Build_Host release_build Sample.clock ActorSample.instants PathSample.cfg).
  destruct (new_server_stream (prof := h_prof h) (clk := h_clk h) (api := bytes_le) StreamSample.loses 0 9
    PathSample.conf (InputSample.datagram 0) (Timed tt 0)) as [[[[e k] ac]|x|p] s'] eqn:Hrun; [|vm_compute in Hrun; discriminate Hrun..].
  assert (He : e_conv e = 9 ∧ k = Stream.stream_of PathSample.conf false).
  { vm_compute in Hrun. injection Hrun as <- <- _ _. split; vm_compute; reflexivity. }
  destruct He as [He ->].
  destruct (streams_open (api := bytes_le) StreamSample.loses h [InputSample.datagram 0] PathSample.conf (Timed tt 0) e
    (Stream.stream_of PathSample.conf false) ac s' StreamSample.stream_config_ok) as (_ & _ & H).
  destruct (H 0 9 (InputSample.datagram 0) ltac:(split; vm_compute; congruence) ltac:(split; vm_compute; congruence)
    ltac:(left; by left) Hrun) as (_ & t & Ht & Hr).
  exists e, s', t. split; [exact Ht|]. split; [exact He|exact Hr].
Defined.
