(* ===== verification/Server.v ===== *)
(** The server as a whole: one listener on one socket, the clients that talk to
    it, and a stream for each connection [accept] hands out.

    [Listener] has the bookkeeping and leaves open what a stream is; [EndToEnd]
    has two streams with a network between them and leaves open how the server's
    one came to be.  Here the listener makes its streams with
    [new_server_stream], from the datagram that asked for the connection, and
    feeds them what it routes to them.  A client and the stream accepted for it
    are then two connected streams, whatever the other clients do. *)
From S2P Require Import Prelude Monad Protocol Error Config Engine Output Send Recv Ack Input Flush Frame Safety Actor Stream Listener History Link Duplex EndToEnd.

(** * What an actor has put out stays on the wire *)

Section Wire.
Context {prof : Profile} {clk : Clock} {ins : Instants} {api : BytesApi} (cfg : actor_config).

Definition grows {A} (m : AM A) : Prop := ∀ a, a_wire a `prefix_of` a_wire (m a).2.

Lemma grows_same {A} (m : AM A) : (∀ a, a_wire (m a).2 = a_wire a) → grows m.
Proof. intros H a. by rewrite H. Qed.
Lemma grows_bind {A B} (m : AM A) (k : A → AM B) : grows m → (∀ x, grows (k x)) → grows (m ≫= k).
Proof.
  intros Hm Hk a. specialize (Hm a). unfold mbind, M_bind. destruct (m a) as [[x|[]|p] a1]; cbn in *; [|done].
  etrans; [exact Hm|apply Hk].
Qed.
Lemma grows_engine {A} (m : T A) : grows (engine m).
Proof. apply grows_same. intros a. unfold engine. by destruct (m (a_engine a)) as [[] ?]. Qed.
Lemma grows_modify f : (∀ a, a_wire a `prefix_of` a_wire (f a)) → grows (modify f).
Proof. intros Hf a. apply Hf. Qed.
Lemma grows_forM {A} (f : A → AM ()) l : (∀ x, grows (f x)) → grows (forM l f).
Proof.
  intros Hf. unfold forM. generalize tt. induction l as [|x l IH]; intros u; [by apply grows_same|].
  by apply grows_bind.
Qed.

Ltac grow_step :=
  lazymatch goal with
  | |- grows (mbind _ _) => apply grows_bind; [|intros ?]
  | |- grows (and_then _ _) => apply grows_bind; [|intros []]
  | |- grows (forM _ _) => apply grows_forM; intros ?
  | |- grows (engine _) => apply grows_engine
  | |- grows (modify _) => apply grows_modify; intros ?; (done || by apply prefix_app_r)
  | |- grows (if ?b then _ else _) => destruct b
  | |- grows (match ?x with _ => _ end) => destruct x
  | |- grows _ => first [assumption | by apply grows_same]
  end.
Ltac grow := repeat grow_step.

Lemma grows_flush_output : grows (flush_output cfg).
Proof. unfold flush_output. grow. Qed.
Lemma grows_drain_recv permits : grows (drain_recv permits).
Proof. induction permits as [|n IH]; cbn [drain_recv]; grow. Qed.
Lemma grows_absorb more : grows (absorb cfg more).
Proof. induction more as [|d more IH]; cbn [absorb]; unfold engine_get, take_data; grow. Qed.

Lemma grows_run ev permits : grows (run_actor cfg [ev]) ∧ grows (start_actor cfg permits).
Proof.
  pose proof grows_flush_output. pose proof (grows_drain_recv). pose proof grows_absorb.
  split; [|unfold start_actor; grow; auto].
  cbn [run_actor]. apply grows_bind.
  - unfold timer_wait. apply grows_bind; [apply grows_engine|]. intros r. apply grows_same. intros a.
    unfold clampM. by repeat case_match.
  - intros _. apply grows_bind; [by apply grows_same|]. intros []; [|by apply grows_same].
    unfold turn, close_check, engine_get, break_if_fatal.
    grow; unfold handle, on_timer, on_cmd, on_packet, on_send, keep_alive_check, break_if_fatal, engine_get, Actor.reply, take_data;
      grow; auto.
Qed.
End Wire.

Section StationWire.
Context {api : BytesApi}.

Lemma actor_step_wire h net a a' : actor_step h net a a' → a_wire a `prefix_of` a_wire a'.
Proof.
  intros [o s' r b _ _ _ _|permits b b' Hr|ev fl b b' _ Hr]; [done| |].
  - destruct (grows_run (prof := h_prof h) (clk := h_clk h) (ins := h_ins h) (h_cfg h) (EvTimer 0) permits) as [_ Hg].
    specialize (Hg b). by rewrite Hr in Hg.
  - destruct (grows_run (prof := h_prof h) (clk := h_clk h) (ins := h_ins h) (h_cfg h) ev 0) as [Hg _].
    specialize (Hg b). by rewrite Hr in Hg.
Qed.
Lemma station_step_wire h net t t' :
  station_step h net t t' → a_wire (t_actor t) `prefix_of` a_wire (t_actor t').
Proof.
  intros [a a' k n r Ha _|a k k' n r _|remaining chan u _|next u _ _]; [by eapply actor_step_wire|done| |done].
  unfold read_into. by destruct (poll_read _ _ _).
Qed.

(** More datagrams may arrive. *)
Lemma station_step_mono h net net' t t' : net ⊆ net' → station_step h net t t' → station_step h net' t t'.
Proof.
  intros Hn.
  assert (Har : ∀ c d, arrives c net d → arrives c net' d) by (intros c d [Hd|Hd]; [left; by apply Hn|by right]).
  intros [a a' k n r Ha Hk|a k k' n r Hc|remaining chan u Hy|next u Hy Hb]; [|by apply station_call|by apply station_read|by apply station_recv].
  apply station_actor; [|done]. destruct Ha as [o s' r1 b Ho Hd Hp Hq|permits b b' Hr|ev fl b b' Hd Hr].
  - eapply actor_setup; [done| |exact Hp|done]. eauto.
  - by eapply actor_start.
  - eapply actor_turn; [|exact Hr]. eauto.
Qed.
End StationWire.

(** * The server and its clients *)

(** A stream [accept] made, and whom it talks to. *)
Record Session {Addr : Type} := { ss_peer : Addr; ss_station : Station }.
Arguments Session : clear implicits.

Section Server.
Context {api : BytesApi} {Addr : Type} {DashMap : Type → Type} `{FinMap Addr DashMap} `{!Countable Addr}.
Context {f32 : Type} (loses : f32 → nat → bool) (config : KcpConfig (f32 := f32)) (host : Host).
Context (client_host : Addr → Host) (client_config : Addr → KcpConfig (f32 := f32)).
Abbreviation World := (World (Addr := Addr) (DashMap := DashMap) (handle := nat)).
Abbreviation label := (label (Addr := Addr) (handle := nat)).

(** A handle of the listener is the index of a session; [sv_routed] is what the
    listener has put in the input channels. *)
Record Server := {
  sv_world : World;
  sv_sessions : list (Session Addr);
  sv_routed : list (nat * bytes);
  sv_clients : gmap Addr Station;
}.
#[export] Instance Server_eta : Eta Server := λ s,
  Build_Server (sv_world s) (sv_sessions s) (sv_routed s) (sv_clients s).
Implicit Types (sv : Server) (a : Addr).

(** What the channel of session [n] may deliver. *)
Definition input_of sv (n : nat) : list bytes := map snd (filter (λ p, p.1 = n) (sv_routed sv)).
Definition stations (l : list (Session Addr)) a : list Station :=
  map ss_station (filter (λ s, ss_peer s = a) l).
Definition sessions_of sv a : list Station := stations (sv_sessions sv) a.
(** What the server has sent to [a]. *)
Definition wire_to sv a : list bytes := sessions_of sv a ≫= λ t, a_wire (t_actor t).

(** A datagram from a client's address is the client's: addresses are not
    forged.  Other addresses send what they like. *)
Definition sent_by (clients : gmap Addr Station) a (data : bytes) : Prop :=
  ∀ t, clients !! a = Some t → data ∈ a_wire (t_actor t).
Definition genuine sv (l : label) : Prop :=
  match l with
  | Routed a _ data => sent_by (sv_clients sv) a data
  | AdmitPeer i => sent_by (sv_clients sv) (in_peer_addr i) (in_handshake_data i)
  | _ => True
  end.
Definition routed (l : label) : list (nat * bytes) :=
  match l with Routed _ h data => [(h, data)] | _ => [] end.

Inductive server_step : Server → Server → Prop :=
  (* the listener, apart from making a stream *)
  | serve_listener sv l w' :
      lstep config (sv_world sv) l w' → genuine sv l → (∀ i h, l ≠ Created i h) →
      server_step sv (sv <| sv_world := w' |> <| sv_routed ::= λ r, r ++ routed l |>)
  (* [create_stream_for_connection] *)
  | serve_create sv i w' s e k ac s' :
      lstep config (sv_world sv) (Created i (length (sv_sessions sv))) w' →
      new_server_stream (prof := h_prof host) (clk := h_clk host) loses (in_client_conv i) (in_conv i) config
        (in_handshake_data i) s = (Ok (e, k, ac), s') →
      server_step sv (sv <| sv_world := w' |>
        <| sv_sessions ::= λ l, l ++ [Build_Session _ (in_peer_addr i) (station_of e (ticks s') k)] |>)
  (* a session, its actor or its application, does something *)
  | serve_session sv n ss t :
      sv_sessions sv !! n = Some ss → station_step host (input_of sv n) (ss_station ss) t →
      server_step sv (sv <| sv_sessions ::= <[n := Build_Session _ (ss_peer ss) t]> |>)
  | serve_client sv a t t' :
      sv_clients sv !! a = Some t → station_step (client_host a) (wire_to sv a) t t' →
      server_step sv (sv <| sv_clients ::= <[a := t']> |>).

(** From a listener that has just been made, and clients that have. *)
Inductive serving : Server → Prop :=
  | serving_start local_addr l clients :
      with_transport config local_addr = Ok l → core_config_ok (KcpCoreConfig_from config) →
      map_Forall (λ a t, opened (client_host a) (client_config a) t) clients →
      serving (Build_Server (l_world l) [] [] clients)
  | serving_step sv sv' : serving sv → server_step sv sv' → serving sv'.
End Server.
Arguments stations : simpl never.

(** * A client and its session are connected *)

Section ServerFacts.
Context {api : BytesApi} {spec : BytesApiSpec api}.
Context {Addr : Type} {DashMap : Type → Type} `{FinMap Addr DashMap} `{!Countable Addr}.
Context {f32 : Type} (loses : f32 → nat → bool) (config : KcpConfig (f32 := f32)) (host : Host).
Context (client_host : Addr → Host) (client_config : Addr → KcpConfig (f32 := f32)).
Abbreviation Server := (Server (Addr := Addr) (DashMap := DashMap)).
Abbreviation server_step := (server_step (DashMap := DashMap) loses config host client_host).
Abbreviation serving := (serving (DashMap := DashMap) loses config host client_host client_config).
Implicit Types (sv : Server) (a : Addr) (l : list (Session Addr)) (i : IncomingConnection Addr).
Abbreviation pair a t u := (connected (client_host a) host (client_config a) config (Build_Pair t u)).

(** The sessions with a peer, when one is added or moves on. *)
Lemma stations_app l ss a :
  stations (l ++ [ss]) a = stations l a ++ if decide (ss_peer ss = a) then [ss_station ss] else [].
Proof. unfold stations. rewrite filter_app, map_app. f_equal. unfold filter, list_filter. by case_decide. Qed.

Lemma stations_insert l n ss t a :
  l !! n = Some ss →
  let l' := <[n := Build_Session _ (ss_peer ss) t]> l in
  if decide (ss_peer ss = a)
  then ∃ before after, stations l a = before ++ ss_station ss :: after ∧ stations l' a = before ++ t :: after
  else stations l' a = stations l a.
Proof.
  intros Hn l'. destruct (list_elem_of_split_length l n ss Hn) as (xs & ys & -> & ->). unfold l'.
  rewrite insert_app_r_alt by lia. rewrite Nat.sub_diag. cbn. unfold stations. rewrite !filter_app, !map_app.
  destruct (decide (ss_peer ss = a)).
  - rewrite !filter_cons_True by done. cbn. by eexists _, _.
  - by rewrite !filter_cons_False by done.
Qed.

Definition alone a (t : Station) : Prop :=
  ∃ t0, opened (client_host a) (client_config a) t0 ∧ rtc (station_step (client_host a) []) t0 t.

(** A client before its first session, with its only session, or with more. *)
Definition talking a (t : Station) (us : list Station) : Prop :=
  match us with [] => alone a t | [u] => pair a t u | _ => True end.

Record serving_ok sv : Prop := {
  sv_known : known (λ i, incoming_ok i ∧ sent_by (sv_clients sv) (in_peer_addr i) (in_handshake_data i)) (sv_world sv);
  sv_routes : ∀ a h, w_streams (sv_world sv) !! a = Some h → ∃ ss, sv_sessions sv !! h = Some ss ∧ ss_peer ss = a;
  sv_route : ∀ i h, created (w_accept (sv_world sv)) = Some (i, h) → ∃ ss, sv_sessions sv !! h = Some ss ∧ ss_peer ss = in_peer_addr i;
  sv_input : ∀ n d, (n, d) ∈ sv_routed sv → ∃ ss, sv_sessions sv !! n = Some ss ∧ sent_by (sv_clients sv) (ss_peer ss) d;
  sv_pairs : map_Forall (λ a t, talking a t (sessions_of sv a)) (sv_clients sv);
}.

Lemma connected_a a t t' u :
  pair a t u → station_step (client_host a) (a_wire (t_actor u)) t t' → pair a t' u.
Proof. intros Hp Hs. eapply connected_step; [exact Hp|]. by apply pair_a. Qed.
Lemma connected_b a t u u' :
  pair a t u → station_step host (a_wire (t_actor t)) u u' → pair a t u'.
Proof. intros Hp Hs. eapply connected_step; [exact Hp|]. by apply pair_b. Qed.

(** The session of a client's first datagram. *)
Lemma session_connects a t i s e k ac s' :
  core_config_ok (KcpCoreConfig_from config) → incoming_ok i →
  alone a t → in_handshake_data i ∈ a_wire (t_actor t) →
  new_server_stream (prof := h_prof host) (clk := h_clk host) loses (in_client_conv i) (in_conv i) config
    (in_handshake_data i) s = (Ok (e, k, ac), s') →
  pair a t (station_of e (ticks s') k).
Proof.
  intros Hc Hi (t0 & Ht0 & Hr) Hd Hnew. destruct Hi as [[Hconv _] (header & rest & Hdec & _ & Heq) _].
  apply KcpHeader_decode_Some in Hdec as [[] _].
  destruct (server_stream_opens loses host (a_wire (t_actor t)) config (in_client_conv i) (in_conv i) (in_handshake_data i) s e k ac s')
    as (_ & u0 & Hu0 & Hu); [done|by rewrite Heq|done|by left|done|].
  assert (Hp : pair a t u0).
  { clear Hd Hu Hnew. revert Hr. generalize t. apply rtc_ind_r; [by apply connected_start|].
    intros y z _ Hs Hy. eapply connected_a; [exact Hy|]. eapply station_step_mono; [|exact Hs]. by intros ? ?%not_elem_of_nil. }
  clear Hnew. revert Hu. generalize (station_of e (ticks s') k). apply rtc_ind_r; [done|].
  intros y z _ Hs Hy. by eapply connected_b.
Qed.

(** ** Each kind of step *)

Lemma listener_step_ok sv lb w' :
  serving_ok sv → lstep config (sv_world sv) lb w' → genuine sv lb → (∀ i h, lb ≠ Created i h) →
  serving_ok (sv <| sv_world := w' |> <| sv_routed ::= λ r, r ++ routed lb |>).
Proof.
  intros [K R A I P] Hs Hg Hno. destruct (handle_step _ _ _ _ Hs) as (Hr & Ha & Hin & _). split; cbn; [| | | |done].
  - eapply known_step; [exact K|exact Hs|]. intros i ->. split; [by eapply admitted_ok|exact Hg].
  - intros a h Hh. destruct (Hr a h Hh) as [?|(i & Hi & <-)]; [by apply R|]. by apply A.
  - intros i h Hh. destruct (Ha i h Hh) as [?|Hc]; [by apply A|]. by destruct (Hno i h).
  - intros n d [Hd|Hd]%elem_of_app; [by apply I|]. unfold routed in Hd. destruct lb; try by apply not_elem_of_nil in Hd.
    apply list_elem_of_singleton in Hd as [= -> ->]. destruct (R _ _ (Hin _ _ _ eq_refl)) as (ss & Hss & <-). by exists ss.
Qed.

Lemma create_step_ok sv i w' s e k ac s' :
  core_config_ok (KcpCoreConfig_from config) → serving_ok sv →
  lstep config (sv_world sv) (Created i (length (sv_sessions sv))) w' →
  new_server_stream (prof := h_prof host) (clk := h_clk host) loses (in_client_conv i) (in_conv i) config
    (in_handshake_data i) s = (Ok (e, k, ac), s') →
  serving_ok (sv <| sv_world := w' |>
    <| sv_sessions ::= λ l, l ++ [Build_Session _ (in_peer_addr i) (station_of e (ticks s') k)] |>).
Proof.
  intros Hc [K R A I P] Hs Hnew. destruct (handle_step _ _ _ _ Hs) as (Hr & Ha & _ & Hcr).
  specialize (Hcr i _ eq_refl). pose proof (kn_accept _ _ K) as Hk. rewrite Hcr in Hk. cbn in Hk.
  apply Forall_cons in Hk as [[Hok Hsent] _].
  assert (Hold : ∀ n ss x, sv_sessions sv !! n = Some ss → (sv_sessions sv ++ [x]) !! n = Some ss).
  { intros n ss x Hn. by apply lookup_app_l_Some. }
  split; cbn.
  - eapply known_step; [exact K|exact Hs|done].
  - intros a h Hh. destruct (Hr a h Hh) as [Hw|(j & Hj & <-)].
    + destruct (R a h Hw) as (ss & Hss & Hp). exists ss. split; [by apply Hold|done].
    + by rewrite Hcr in Hj.
  - intros j h Hh. destruct (Ha j h Hh) as [Hw|[= -> <-]]; [by rewrite Hcr in Hw|].
    eexists. split; [by apply list_lookup_middle|done].
  - intros n d Hd. destruct (I n d Hd) as (ss & Hss & Hp). exists ss. split; [by apply Hold|done].
  - intros a t Ht. specialize (P a t Ht). unfold sessions_of in *. cbn. rewrite stations_app. cbn.
    case_decide as Ha'; [subst a|by rewrite app_nil_r].
    destruct (stations (sv_sessions sv) (in_peer_addr i)) as [|u [|? ?]]; cbn in *; [|done..].
    by eapply session_connects; [| |exact P|apply Hsent|].
Qed.

Lemma session_step_ok sv n ss t :
  serving_ok sv → sv_sessions sv !! n = Some ss → station_step host (input_of sv n) (ss_station ss) t →
  serving_ok (sv <| sv_sessions ::= <[n := Build_Session _ (ss_peer ss) t]> |>).
Proof.
  intros [K R A I P] Hn Hs.
  assert (Hold : ∀ m ss', sv_sessions sv !! m = Some ss' → ∃ ss2,
    <[n := Build_Session _ (ss_peer ss) t]> (sv_sessions sv) !! m = Some ss2 ∧ ss_peer ss2 = ss_peer ss').
  { intros m ss' Hm. destruct (decide (m = n)) as [->|Hne].
    - rewrite list_lookup_insert_eq by (by eapply lookup_lt_Some). eexists. split; [done|]. cbn. congruence.
    - rewrite list_lookup_insert_ne by done. by exists ss'. }
  split; cbn; [done| | | |].
  - intros a h Hh. destruct (R a h Hh) as (ss' & Hss & <-). by apply Hold.
  - intros i h Hh. destruct (A i h Hh) as (ss' & Hss & <-). by apply Hold.
  - intros m d Hd. destruct (I m d Hd) as (ss' & Hss & Hp). destruct (Hold _ _ Hss) as (ss2 & Hss2 & Heq). exists ss2. by rewrite Heq.
  - intros a u Hu. specialize (P a u Hu). unfold sessions_of in *. cbn.
    pose proof (stations_insert (sv_sessions sv) n ss t a Hn) as Hi. cbv zeta in Hi.
    case_decide as Ha; [|by rewrite Hi]. destruct Hi as (l1 & l2 & E1 & E2). rewrite E2. rewrite E1 in P.
    destruct l1 as [|? [|? ?]], l2; cbn in *; try done.
    eapply connected_b; [exact P|]. eapply station_step_mono; [|exact Hs].
    intros d (p & -> & Hp)%list_elem_of_fmap. apply list_elem_of_filter in Hp as [<- Hp]. destruct p as [m d].
    destruct (I m d Hp) as (ss' & Hss & Hsent). cbn in *. apply Hsent. congruence.
Qed.

Lemma client_step_ok sv a t t' :
  serving_ok sv → sv_clients sv !! a = Some t → station_step (client_host a) (wire_to sv a) t t' →
  serving_ok (sv <| sv_clients ::= <[a := t']> |>).
Proof.
  intros [K R A I P] Ht Hs. pose proof (station_step_wire _ _ _ _ Hs) as Hw.
  assert (Hsent : ∀ b d, sent_by (sv_clients sv) b d → sent_by (<[a := t']> (sv_clients sv)) b d).
  { intros b d Hd u. destruct (decide (b = a)) as [->|Hne].
    - rewrite lookup_insert_eq. intros [= <-]. specialize (Hd t Ht). destruct Hw as [l ->]. apply elem_of_app. by left.
    - rewrite lookup_insert_ne by done. apply Hd. }
  split; cbn; [|done..| |].
  - eapply known_weaken; [|exact K]. intros i [? ?]. auto.
  - intros n d Hd. destruct (I n d Hd) as (ss & Hss & Hp). exists ss. auto.
  - apply map_Forall_insert_2; [|by eapply map_Forall_impl].
    specialize (P a t Ht). unfold wire_to, sessions_of in *. cbn.
    destruct (stations (sv_sessions sv) a) as [|u [|? ?]]; cbn in *; [| |done].
    + destruct P as (t0 & Ho & Hr). exists t0. split; [done|]. by eapply rtc_r.
    + rewrite app_nil_r in Hs. by eapply connected_a.
Qed.

Lemma serving_is_ok sv : serving sv → core_config_ok (KcpCoreConfig_from config) ∧ serving_ok sv.
Proof.
  induction 1 as [local_addr l clients Hl Hc Ho|sv sv' _ [Hc IH] Hs].
  - split; [done|]. unfold with_transport in Hl. destruct (validate config) as [|[]]; [done|].
    destruct local_addr as [|addr]; [done|]. case_match; [done|]. injection Hl as <-. split; cbn.
    + split; cbn; [apply map_Forall_empty|constructor| |constructor]. rewrite (proj1 (start_idle _)). constructor.
    + intros a h Hh. by rewrite lookup_empty in Hh.
    + done.
    + intros n d Hd. by apply not_elem_of_nil in Hd.
    + intros a t Ht. exists t. split; [by apply Ho|done].
  - split; [done|]. destruct Hs; [by apply listener_step_ok|by eapply create_step_ok|by apply session_step_ok|by eapply client_step_ok].
Qed.
End ServerFacts.

(** * Theorems *)

Section ServerTheorems.
Context {api : BytesApi} {spec : BytesApiSpec api}.
Context {Addr : Type} {DashMap : Type → Type} `{FinMap Addr DashMap} `{!Countable Addr}.
Context {f32 : Type} (loses : f32 → nat → bool) (config : KcpConfig (f32 := f32)) (host : Host).
Context (client_host : Addr → Host) (client_config : Addr → KcpConfig (f32 := f32)).
Abbreviation Server := (Server (Addr := Addr) (DashMap := DashMap)).
Abbreviation serving := (serving (DashMap := DashMap) loses config host client_host client_config).
Implicit Types (sv : Server) (a : Addr).

(** C6: the server implements a connection per client: a client and the one stream
    accepted for it are, whatever else goes on, two connected streams of
    [EndToEnd], each fed with what the other has sent; and no datagram reaches a
    session but from the session's own peer. *)
Theorem accepted_connected sv :
  serving sv →
  (∀ a t u, sv_clients sv !! a = Some t → sessions_of sv a = [u] →
     connected (client_host a) host (client_config a) config (Build_Pair t u)) ∧
  (∀ n d, (n, d) ∈ sv_routed sv →
     ∃ ss, sv_sessions sv !! n = Some ss ∧ sent_by (sv_clients sv) (ss_peer ss) d).
Proof.
  intros Hs. destruct (serving_is_ok _ _ _ _ _ _ Hs) as [_ [_ _ _ I P]]. split; [|exact I].
  intros a t u Ht Hu. specialize (P a t Ht). cbv beta in P. by rewrite Hu in P.
Qed.

(** C5: from a client's application to the server's, and back, for every client at
    once: what is read is the beginning of what was written, in order, none of
    it missing or repeated or of another connection. *)
Theorem server_delivers sv a t u :
  serving sv → sv_clients sv !! a = Some t → sessions_of sv a = [u] →
  len (written t) ≤ H31 → len (written u) ≤ H31 →
  t_read u ++ k_read_buf (t_stream u) `prefix_of` written t ∧
  t_read t ++ k_read_buf (t_stream t) `prefix_of` written u.
Proof.
  intros Hs Ht Hu Lt Lu. destruct (serving_is_ok _ _ _ _ _ _ Hs) as [_ [_ _ _ _ P]].
  specialize (P a t Ht). cbv beta in P. rewrite Hu in P. cbn in P.
  split; eapply path_prefix; [exact P|by split|by left|exact P|by split|by right].
Qed.
End ServerTheorems.

(** * A run *)

Module ServerSample.
Import PathSample.
Abbreviation api := bytes_le.
Definition config : KcpConfig (f32 := Z) := conf.
Abbreviation Sv := (Server (Addr := Z) (DashMap := gmap Z)).
Abbreviation ok := (serving (api := api) (DashMap := gmap Z) StreamSample.loses config host_b (λ _, host_a) (λ _, conf)).
Abbreviation step := (server_step (api := api) (DashMap := gmap Z) StreamSample.loses config host_b (λ _, host_a)).
Abbreviation lst := (lstep (api := api) (DashMap := gmap Z) (handle := nat) config).

(** A client or a session does one thing after another. *)
Fixpoint acts (h : Host) (net : list bytes) (t : Station) (xs : list act) : option Station :=
  match xs with [] => Some t | x :: xs => t ← acted h net t x; acts h net t xs end.

Lemma client_acts (sv : Sv) (a : Z) xs : ∀ t t',
  sv_clients sv !! a = Some t → acts host_a (wire_to sv a) t xs = Some t' → ok sv →
  ok (sv <| sv_clients ::= <[a := t']> |>).
Proof.
  intros t t' Ht Hx Hs.
  enough (H : ∀ t1, ok (sv <| sv_clients ::= <[a := t1]> |>) → acts host_a (wire_to sv a) t1 xs = Some t' →
    ok (sv <| sv_clients ::= <[a := t']> |>)).
  { apply (H t); [|done]. replace (sv <| sv_clients ::= <[a := t]> |>) with sv; [done|].
    destruct sv as [w l r c]. change (Build_Server w l r c = Build_Server w l r (<[a := t]> c)). by rewrite insert_id. }
  clear t Ht Hx Hs. induction xs as [|x xs IH]; intros t1 Hs Hx; cbn in Hx; [by injection Hx as <-|].
  destruct (acted host_a _ t1 x) as [t2|] eqn:H2; [|done]. apply (IH t2); [|done].
  pose proof (serve_client (api := api) (DashMap := gmap Z) StreamSample.loses config host_b (λ _, host_a)
    (sv <| sv_clients ::= <[a := t1]> |>) a t1 t2) as Hstep.
  replace (sv <| sv_clients ::= <[a := t2]> |>)
    with ((sv <| sv_clients ::= <[a := t1]> |>) <| sv_clients ::= <[a := t2]> |>).
  - eapply serving_step; [exact Hs|]. apply Hstep; [cbn; by rewrite lookup_insert_eq|]. by eapply acted_step.
  - destruct sv as [w l r c]. change (Build_Server w l r (<[a := t2]> (<[a := t1]> c)) = Build_Server w l r (<[a := t2]> c)).
    by rewrite insert_insert_eq.
Qed.

Lemma session_acts (sv : Sv) n a xs : ∀ t t',
  sv_sessions sv !! n = Some (Build_Session _ a t) → acts host_b (input_of sv n) t xs = Some t' → ok sv →
  ok (sv <| sv_sessions ::= <[n := Build_Session _ a t']> |>).
Proof.
  intros t t' Ht Hx Hs.
  enough (H : ∀ t1, ok (sv <| sv_sessions ::= <[n := Build_Session _ a t1]> |>) →
    acts host_b (input_of sv n) t1 xs = Some t' → ok (sv <| sv_sessions ::= <[n := Build_Session _ a t']> |>)).
  { apply (H t); [|done]. replace (sv <| sv_sessions ::= <[n := Build_Session _ a t]> |>) with sv; [done|].
    destruct sv as [w l r c]. change (Build_Server w l r c = Build_Server w (<[n := Build_Session _ a t]> l) r c). by rewrite list_insert_id. }
  apply lookup_lt_Some in Ht. clear t Hx Hs. induction xs as [|x xs IH]; intros t1 Hs Hx; cbn in Hx; [by injection Hx as <-|].
  destruct (acted host_b _ t1 x) as [t2|] eqn:H2; [|done]. apply (IH t2); [|done].
  pose proof (serve_session (api := api) (DashMap := gmap Z) StreamSample.loses config host_b (λ _, host_a)
    (sv <| sv_sessions ::= <[n := Build_Session _ a t1]> |>) n (Build_Session _ a t1) t2) as Hstep.
  replace (sv <| sv_sessions ::= <[n := Build_Session _ a t2]> |>)
    with ((sv <| sv_sessions ::= <[n := Build_Session _ a t1]> |>) <| sv_sessions ::= <[n := Build_Session _ a t2]> |>).
  - eapply serving_step; [exact Hs|]. apply Hstep; [cbn; by apply list_lookup_insert_eq|]. by eapply acted_step.
  - destruct sv as [w l r c]. change (Build_Server w (<[n := Build_Session _ a t2]> (<[n := Build_Session _ a t1]> l)) r c =
      Build_Server w (<[n := Build_Session _ a t2]> l) r c). by rewrite list_insert_insert_eq.
Qed.

(** The client at address 5 writes, the server accepts it upon its first datagram
    and routes the second one to the new session. *)
Definition client0 : Station := default idle (opened_at host_a).
Definition client1 : Station := default idle (acts host_a [] client0 (map snd sending)).
Definition datagram (n : nat) : bytes := default [] (a_wire (t_actor client1) !! n).
Definition header : KcpHeader :=
  default (Build_KcpHeader 0 0 0 0 0 0 0 0) (fst <$> KcpHeader_decode (datagram 0)).
Definition incoming : IncomingConnection Z := incoming_of (datagram 0) 5 header 77 0.
Abbreviation made :=
  (new_server_stream (prof := h_prof host_b) (clk := h_clk host_b) (api := api) StreamSample.loses (in_client_conv incoming)
    (in_conv incoming) config (in_handshake_data incoming) (Timed tt 0)).
Definition session0 : Station :=
  match made with (Ok (e, k, _), s') => station_of e (ticks s') k | _ => idle end.
Definition session1 : Station := default idle (acts host_b [datagram 1] session0 [Packet 0 4; Read 1500; Read 1500]).

Abbreviation W := (World (Addr := Z) (DashMap := gmap Z) (handle := nat)).
Definition w0 : W := World_new (cleanup_interval config).
Definition w1 : W := w0 <| w_listen := LRegister incoming |>.
Definition w2 : W := w1 <| w_state ::= insert_pending incoming |> <| w_listen := LEnqueue incoming |>.
Definition w3 : W := w2 <| w_queue ::= λ l, l ++ [incoming] |> <| w_listen := LIdle |>.
Definition w4 : W := w3 <| w_queue := [] |> <| w_accept := AReceived incoming |>.
Definition marked : ConnectionState (Addr := Z) := default ConnectionState_new (mark_accepting incoming (w_state w4)).
Definition w5 : W := w4 <| w_state := marked |> <| w_accept := ACreating incoming |>.
Definition w5' : W := w5 <| w_accept := ACreated incoming 0%nat |>.
Definition w6 : W := w5' <| w_state ::= mark_active (in_peer_addr incoming) |> <| w_accept := ARoute incoming 0%nat |>.
Definition w7 : W := w6 <| w_streams ::= <[in_peer_addr incoming := 0%nat]> |>
  <| w_accept := AUnmark (in_peer_addr incoming) (Some 0%nat) |>.
Definition w8 : W := w7 <| w_state ::= unmark_accepting 5 |> <| w_accept := AIdle |>.

Definition s0 : Sv := Build_Server w0 [] [] {[5 := client0]}.
Definition s1 : Sv := s0 <| sv_clients ::= <[5 := client1]> |>.
Definition at_world (w : W) : Sv := s1 <| sv_world := w |>.
Definition s5 : Sv := (at_world w5') <| sv_sessions ::= λ l, l ++ [Build_Session _ 5 session0] |>.
Definition s6 : Sv := s5 <| sv_world := w6 |>.
Definition s8 : Sv := s6 <| sv_world := w8 |>.
Definition s9 : Sv := s8 <| sv_routed ::= λ r, r ++ [(0%nat, datagram 1)] |>.
Definition s10 : Sv := s9 <| sv_sessions ::= <[0%nat := Build_Session _ 5 session1]> |>.

Lemma serving_s1 : ok s1.
Proof.
  apply (client_acts s0 5 (map snd sending) client0); [reflexivity|vm_compute; reflexivity|].
  eapply (serving_start _ _ _ _ _ (inr 9) (Build_KcpListener 9 w0)); [reflexivity|exact StreamSample.stream_config_ok|].
  apply map_Forall_singleton. apply opened_at_ok. vm_compute. reflexivity.
Qed.

Lemma sent_by_5 n :
  a_wire (t_actor client1) !! n = Some (datagram n) → sent_by (<[5 := client1]> {[5 := client0]}) 5 (datagram n).
Proof. intros Hn t Ht. rewrite lookup_insert_eq in Ht. apply (inj Some) in Ht. rewrite <- Ht. exact (list_elem_of_lookup_2 _ _ _ Hn). Qed.

(** A step of the listener that no datagram is routed by. *)
Lemma listen (sv : Sv) l w :
  ok sv → lst (sv_world sv) l w → genuine sv l → (∀ i h, l ≠ Created i h) → routed l = [] → ok (sv <| sv_world := w |>).
Proof.
  intros Hs Hl Hg Hc Hr. eapply serving_step; [exact Hs|].
  pose proof (serve_listener (api := api) StreamSample.loses config host_b (λ _, host_a) sv l w Hl Hg Hc) as H.
  rewrite Hr in H. destruct sv as [w' ss r c]. change (server_step StreamSample.loses config host_b (λ _, host_a)
    (Build_Server w' ss r c) (Build_Server w ss (r ++ []) c)) in H. by rewrite app_nil_r in H.
Qed.

Lemma serving_w5 : ok (at_world w5).
Proof.
  apply (listen (at_world w4) Internal); [|by apply (step_mark config w4 incoming)|done..].
  apply (listen (at_world w3) Internal); [|by apply (step_receive config w3 incoming [])|done..].
  apply (listen (at_world w2) Internal); [|by apply (step_enqueue config w2 incoming)|done..].
  apply (listen (at_world w1) Internal); [|by apply (step_register config w1 incoming)|done..].
  apply (listen s1 (AdmitPeer incoming)); [exact serving_s1| | |done..].
  - by apply (step_admit config w0 5 (datagram 0) header 77 0);
      [..|vm_compute; reflexivity|vm_compute; split; congruence|].
  - apply (sent_by_5 0). vm_compute. reflexivity.
Qed.

Lemma created_ok : ∃ e k ac s', made = (Ok (e, k, ac), s').
Proof.
  destruct made as [[[[e k] ac]|x|p] s'] eqn:Hc; [|vm_compute in Hc; discriminate Hc..]. by exists e, k, ac, s'.
Qed.

Lemma create_5 e k ac s' :
  made = (Ok (e, k, ac), s') →
  ok ((at_world w5) <| sv_world := w5' |>
    <| sv_sessions ::= λ l, l ++ [Build_Session _ (in_peer_addr incoming) (station_of e (ticks s') k)] |>).
Proof.
  intros Hc. eapply serving_step; [exact serving_w5|].
  refine (serve_create (api := api) StreamSample.loses config host_b (λ _, host_a) (at_world w5) incoming w5'
    (Timed tt 0) e k ac s' _ _); [exact (step_created config w5 incoming 0%nat eq_refl)|exact Hc].
Qed.

Lemma serving_s5 : ok s5.
Proof.
  destruct created_ok as (e & k & ac & s' & Hc). pose proof (create_5 e k ac s' Hc) as H.
  unfold s5, session0. rewrite Hc. exact H.
Qed.

Lemma serving_s8 : ok s8.
Proof.
  refine (listen (s6 <| sv_world := w7 |>) (Returned 5 0%nat) w8 _ (step_unmark config w7 5 (Some 0%nat) eq_refl) _ _ _); [|done..].
  refine (listen s6 (Accepted 5 0%nat) w7 _ (step_insert config w6 incoming 0%nat eq_refl) _ _ _); [|done..].
  refine (listen s5 Internal w6 serving_s5 (step_active config w5' incoming 0%nat eq_refl) _ _ _); done.
Qed.

Lemma genuine_1 : genuine (DashMap := gmap Z) s8 (Routed 5 0%nat (datagram 1)).
Proof. apply (sent_by_5 1). vm_compute. reflexivity. Qed.
Lemma routed_1 : lst w8 (Routed 5 0%nat (datagram 1)) w8.
Proof. exact (step_route config w8 5 0%nat (datagram 1) eq_refl eq_refl). Qed.

Lemma serving_s9 : ok s9.
Proof.
  eapply serving_step; [exact serving_s8|].
  refine (serve_listener (api := api) StreamSample.loses config host_b (λ _, host_a) s8 _ w8 routed_1 genuine_1 _).
  intros i h Heq; discriminate Heq.
Qed.

Lemma serving_s10 : ok s10.
Proof.
  apply (session_acts s9 0 5 [Packet 0 4; Read 1500; Read 1500] session0); [reflexivity| |exact serving_s9].
  vm_compute. reflexivity.
Qed.

Lemma client_5 : sv_clients s10 !! 5 = Some client1.
Proof. exact (lookup_insert_eq {[5 := client0]} 5 client1). Qed.
Lemma sessions_5 : sessions_of s10 5 = [session1].
Proof.
  unfold sessions_of, s10. generalize session1. intros u. change (stations [Build_Session Z 5 u] 5 = [u]).
  unfold stations. by rewrite filter_cons_True.
Qed.
End ServerSample.

Lemma accepted_connected_witness :
  connected (api := bytes_le) PathSample.host_a PathSample.host_b PathSample.conf PathSample.conf
    (Build_Pair ServerSample.client1 ServerSample.session1).
Proof.
  destruct (accepted_connected (api := bytes_le) StreamSample.loses ServerSample.config PathSample.host_b
    (λ _, PathSample.host_a) (λ _, PathSample.conf) ServerSample.s10 ServerSample.serving_s10) as [H _].
  exact (H 5 ServerSample.client1 ServerSample.session1 ServerSample.client_5 ServerSample.sessions_5).
Defined.

Lemma server_delivers_witness :
  t_read ServerSample.session1 ++ k_read_buf (t_stream ServerSample.session1) `prefix_of` written ServerSample.client1 ∧
  t_read ServerSample.session1 = PathSample.text.
Proof.
  split; [|vm_compute; reflexivity].
  apply (server_delivers (api := bytes_le) StreamSample.loses ServerSample.config PathSample.host_b
    (λ _, PathSample.host_a) (λ _, PathSample.conf) ServerSample.s10 5 ServerSample.client1 ServerSample.session1
    ServerSample.serving_s10 ServerSample.client_5 ServerSample.sessions_5); vm_compute; congruence.
Defined.
