(* ===== verification/Echo.v ===== *)
(** examples/simple_echo.rs, issue5_repro.rs and perf_test_server.rs: [handle_client], the loop that
    reads from an accepted stream and writes an answer back.

    The loop is a state machine over the polls of its stream: [read] and
    [write_all] are tokio's loops around [poll_read] and [poll_write].  Put at
    the server's end of two connected streams, it closes the circle: the client
    reads back what it wrote. *)
From S2P Require Import Prelude Monad Protocol Error Config Engine Output Send Recv Ack Input Flush Frame Safety Actor Stream History Link Duplex EndToEnd.

(** * [handle_client] *)

(** The size of its buffer, and whether it flushes after an answer. *)
Record handle_client := { hc_room : Z; hc_flushes : bool }.
Definition echo_client : handle_client := {| hc_room := 1024; hc_flushes := true |}.
(** issue5_repro.rs has the same loop. *)
Definition issue5_client : handle_client := echo_client.
Definition perf_client : handle_client := {| hc_room := 8192; hc_flushes := false |}.

(** Where the loop is: in [read], in [write_all] with what is left to write, in
    [flush], or it has returned. *)
Inductive phase := Reading | Writing (rest : bytes) | Flushing | Done.

(** [write_all] of nothing returns at once. *)
Definition write_all (hc : handle_client) (rest : bytes) : phase :=
  match rest with
  | [] => if hc_flushes hc then Flushing else Reading
  | _ => Writing rest
  end.

Definition set_stream (t : Station) (k : KcpStream) : Station :=
  Build_Station (t_actor t) k (t_next t) (t_read t).

(** The task is polled: [respond] is how it answers what it has read, the other
    arguments are how the stream's channels answer. *)
Definition poll_client (hc : handle_client) (respond : bytes → bytes) (chan : poll (option bytes))
    (tr : try_result) (fut : poll (io_error_kind + ())) (e : Station * phase) : Station * phase :=
  let '(t, ph) := e in
  match ph with
  | Reading =>
      (read_into t (hc_room hc) chan,
       match (poll_read (hc_room hc) chan (t_stream t)).1 with
       | Pending => Reading
       | Ready [] => Done
       | Ready data => write_all hc (respond data)
       end)
  | Writing rest =>
      let '(r, k) := poll_write rest tr fut (t_stream t) in
      (set_stream t k,
       match r with
       | Pending => Writing rest
       | Ready (inr n) => if n =? 0 then Done else write_all hc (drop (Z.to_nat n) rest)
       | Ready (inl _) => Done
       end)
  | Flushing =>
      let '(r, k) := poll_flush fut (t_stream t) in
      (set_stream t k, match r with Pending => Flushing | Ready (inr _) => Reading | Ready (inl _) => Done end)
  | Done => e
  end.

(** simple_echo.rs answers with what it read; perf_test_server.rs puts the time
    in front. *)
Definition echo_answer (data response : bytes) : Prop := response = data.
Definition perf_response (timestamp : Z) (data : bytes) : bytes := le_bytes 8 timestamp ++ data.
Definition perf_answer (data response : bytes) : Prop :=
  ∃ timestamp, in_u 64 timestamp ∧ response = perf_response timestamp data.

(** A read hands over what it says, and does nothing else to the stream. *)
Lemma read_only t n chan :
  let t' := read_into t n chan in
  k_sent (t_stream t') = k_sent (t_stream t) ∧ k_pending_write (t_stream t') = k_pending_write (t_stream t) ∧
  k_mss (t_stream t') = k_mss (t_stream t) ∧
  t_read t' = t_read t ++ match (poll_read n chan (t_stream t)).1 with Ready out => out | Pending => [] end.
Proof.
  unfold read_into, poll_read, copy_out. destruct (negb _); [done|]. destruct (k_closed _); [done|].
  by destruct chan as [[d|]|].
Qed.

Section Client.
Context {api : BytesApi} (hc : handle_client) (answer : bytes → bytes → Prop).

(** The stream's actor moves, or the task is polled. *)
Inductive client_step (h : Host) (net : list bytes) : Station * phase → Station * phase → Prop :=
  | client_actor a a' k n r ph :
      actor_step h net a a' → a_taken a' `prefix_of` k_sent k →
      client_step h net (Build_Station a k n r, ph) (Build_Station a' k n r, ph)
  | client_polled respond chan tr fut t ph :
      yields t chan → (∀ data, answer data (respond data)) →
      client_step h net (t, ph) (poll_client hc respond chan tr fut (t, ph)).

Lemma client_station h net e e' : client_step h net e e' → station_step h net e.1 e'.1 ∨ e'.1 = e.1.
Proof.
  intros [a a' k n r ph Ha Hk|respond chan tr fut t ph Hy _]; [left; by apply station_actor|].
  destruct ph as [|rest| |]; cbn; [left; by apply station_read| | |by right].
  - left. pose proof (call_write rest tr fut (t_stream t)) as Hc. destruct (poll_write rest tr fut (t_stream t)) as [p k].
    destruct t. by apply station_call.
  - left. pose proof (call_flush fut (t_stream t)) as Hc. destruct (poll_flush fut (t_stream t)) as [p k].
    destruct t. by apply station_call.
Qed.

(** A step reads or writes, not both. *)
Lemma read_or_written h net e e' : client_step h net e e' → written e'.1 = written e.1 ∨ t_read e'.1 = t_read e.1.
Proof.
  intros [a a' k n r ph _ _|respond chan tr fut t ph _ _]; [by left|]. destruct ph as [|rest| |]; cbn.
  - left. unfold written. by destruct (read_only t (hc_room hc) chan) as (-> & _).
  - right. by destruct (poll_write rest tr fut (t_stream t)).
  - right. by destruct (poll_flush fut (t_stream t)).
  - by left.
Qed.

(** ** What has been answered *)

(** What is left to write of the last answer. *)
Definition unwritten (ph : phase) : bytes := match ph with Writing rest => rest | _ => [] end.

Record answering (e : Station * phase) (chunks responses : list bytes) : Prop := {
  an_mss : 0 < k_mss (t_stream e.1);
  an_read : t_read e.1 = concat chunks;
  an_answers : Forall2 answer chunks responses;
  an_written : written e.1 `prefix_of` concat responses;
  an_rest : e.2 ≠ Done → concat responses = written e.1 ++ unwritten e.2;
  an_pending : match e.2 with
    | Writing rest => rest ≠ [] ∧ writing rest (t_stream e.1)
    | Done => True
    | _ => k_pending_write (t_stream e.1) = None
    end;
}.

Lemma write_all_rest rest : unwritten (write_all hc rest) = rest ∧ write_all hc rest ≠ Done.
Proof. unfold write_all. destruct rest; [|done]. by destruct (hc_flushes hc). Qed.

Lemma write_all_pending rest k : k_pending_write k = None →
  match write_all hc rest with
  | Writing rest => rest ≠ [] ∧ writing rest k
  | Done => True
  | _ => k_pending_write k = None
  end.
Proof. intros Hk. unfold write_all, writing. destruct rest; [by destruct (hc_flushes hc)|]. by rewrite Hk. Qed.

Lemma flush_only fut k :
  let k' := (poll_flush fut k).2 in
  k_sent k' = k_sent k ∧ k_pending_write k' = k_pending_write k ∧ k_mss k' = k_mss k.
Proof. unfold poll_flush. destruct (k_closed k); [done|]. by destruct fut. Qed.

Lemma answering_read t n chan chunks responses respond :
  answering (t, Reading) chunks responses → (∀ data, answer data (respond data)) → n = hc_room hc →
  let e := poll_client hc respond chan TryOk Pending (t, Reading) in
  ∃ chunks' responses', answering e chunks' responses'.
Proof.
  intros [Hm Hr Ha Hw He Hp] Hresp -> e. destruct (read_only t (hc_room hc) chan) as (Es & Ep & Em & Er).
  specialize (He ltac:(done)). cbn in *. unfold e, written in *. cbn. rewrite app_nil_r in He.
  destruct (poll_read (hc_room hc) chan (t_stream t)).1 as [[|x data]|].
  - exists chunks, responses. rewrite app_nil_r in Er. split; cbn; unfold written; rewrite ?Es, ?Em, ?Er; done.
  - exists (chunks ++ [x :: data]), (responses ++ [respond (x :: data)]).
    destruct (write_all_rest (respond (x :: data))) as [Hrest Hd].
    split; cbn; unfold written; rewrite ?Es, ?Em, ?Er, ?concat_app, ?Hr, ?He, ?Hrest; cbn; rewrite ?app_nil_r; try done.
    + apply Forall2_app; [done|]. by repeat constructor.
    + by apply prefix_app_r.
    + apply write_all_pending. by rewrite Ep.
  - exists chunks, responses. rewrite app_nil_r in Er.
    split; cbn; unfold written; rewrite ?Es, ?Em, ?Er, ?Ep; try done. intros _. by rewrite He, app_nil_r.
Qed.

Lemma answering_write t rest tr fut chunks responses :
  answering (t, Writing rest) chunks responses →
  answering (poll_client hc id Pending tr fut (t, Writing rest)) chunks responses.
Proof.
  intros [Hm Hr Ha Hw He [Hne Hwr]]. specialize (He ltac:(done)). cbn in *. unfold written in *.
  pose proof (poll_write_chunk rest tr fut (t_stream t) Hm Hwr) as Hc. cbn zeta in Hc.
  set (chunk := take _ rest) in Hc.
  assert (Hchunk : len chunk = Z.min (len rest) (k_mss (t_stream t))).
  { unfold chunk. rewrite len_take. pose proof (len_nonneg rest). lia. }
  assert (Hpos : 0 < len rest) by (destruct rest; [done|]; unfold len; cbn; lia).
  destruct (poll_write rest tr fut (t_stream t)) as [[[x|n]|] k].
  - destruct Hc as [Em Es]. split; cbn; unfold written; cbn; rewrite ?Em, ?Es; done.
  - destruct Hc as (Em & -> & Es & Ep). destruct (Z.eqb_spec (len chunk) 0); [lia|].
    destruct (write_all_rest (drop (Z.to_nat (len chunk)) rest)) as [Hrest Hd].
    assert (Hsplit : chunk ++ drop (Z.to_nat (len chunk)) rest = rest).
    { rewrite Hchunk. apply take_drop. }
    split; cbn; unfold written; cbn; rewrite ?Em, ?Es, ?concat_app; cbn; rewrite ?app_nil_r; try done.
    + rewrite He. apply prefix_app. rewrite <- Hsplit at 1. by apply prefix_app_r.
    + intros _. by rewrite Hrest, He, <- (assoc (++)), Hsplit.
    + by apply write_all_pending.
  - destruct Hc as (Em & Es & Ep). split; cbn; unfold written; cbn; rewrite ?Em, ?Es; try done.
    split; [done|]. unfold writing. by rewrite Ep, Em.
Qed.

Lemma answering_flush t fut chunks responses :
  answering (t, Flushing) chunks responses →
  answering (poll_client hc id Pending TryOk fut (t, Flushing)) chunks responses.
Proof.
  intros [Hm Hr Ha Hw He Hp]. specialize (He ltac:(done)). cbn in *. unfold written in *.
  pose proof (flush_only fut (t_stream t)) as Hf. cbn zeta in Hf.
  destruct (poll_flush fut (t_stream t)) as [r k]. destruct Hf as (Es & Ep & Em). cbn in *.
  split; cbn; unfold written; cbn; rewrite ?Em, ?Es; try done.
  - intros _. by destruct r as [[?|?]|]; rewrite He.
  - by destruct r as [[?|?]|]; rewrite ?Ep.
Qed.

Lemma client_step_answering h net e e' chunks responses :
  answering e chunks responses → client_step h net e e' →
  ∃ chunks' responses', answering e' chunks' responses'.
Proof.
  intros He Hs. destruct Hs as [a a' k n r ph Ha Hk|respond chan tr fut t ph Hy Hresp].
  - destruct He as [? ? ? ? ? ?]. exists chunks, responses. by split.
  - destruct ph as [|rest| |].
    + by eapply (answering_read t (hc_room hc) chan chunks responses respond).
    + exists chunks, responses. by apply (answering_write t rest tr fut).
    + exists chunks, responses. by apply (answering_flush t fut).
    + by exists chunks, responses.
Qed.
End Client.

(** * A client talks to it *)

Section Conversation.
Context {api : BytesApi} {f32 : Type} (conf_a conf_b : KcpConfig (f32 := f32)) (ha hb : Host).
Context (hc : handle_client) (answer : bytes → bytes → Prop).

(** The server's application has not done anything yet. *)
Definition untouched (t : Station) : Prop :=
  t_read t = [] ∧ k_sent (t_stream t) = [] ∧ k_pending_write (t_stream t) = None.

(** Two connected streams; the client's application does as it likes, the
    server's is [handle_client]. *)
Inductive conversing : Pair → phase → Prop :=
  | conversing_start p : connected ha hb conf_a conf_b p → untouched (end_b p) → conversing p Reading
  | conversing_client a a' b ph :
      conversing (Build_Pair a b) ph → station_step ha (a_wire (t_actor b)) a a' → conversing (Build_Pair a' b) ph
  | conversing_server a b b' ph ph' :
      conversing (Build_Pair a b) ph → client_step hc answer hb (a_wire (t_actor a)) (b, ph) (b', ph') →
      conversing (Build_Pair a b') ph'.
End Conversation.

Section ConversationFacts.
Context {api : BytesApi} {spec : BytesApiSpec api} {f32 : Type} (conf_a conf_b : KcpConfig (f32 := f32)) (ha hb : Host).
Context (hc : handle_client) (answer : bytes → bytes → Prop).
Abbreviation conversing := (conversing conf_a conf_b ha hb hc answer).

Lemma conversing_connected p ph : conversing p ph → connected ha hb conf_a conf_b p.
Proof.
  induction 1 as [p Hp _|a a' b ph _ IH Hs|a b b' ph ph' _ IH Hs]; [done| |].
  - eapply connected_step; [exact IH|]. by apply pair_a.
  - destruct (client_station _ _ _ _ _ _ Hs) as [Hst|Heq]; cbn in *; [|by rewrite Heq].
    eapply connected_step; [exact IH|]. by apply pair_b.
Qed.

Lemma conversing_answering p ph :
  conversing p ph → ∃ chunks responses, answering answer (end_b p, ph) chunks responses.
Proof.
  induction 1 as [p Hp (Hr & Hs & Hk)|a a' b ph _ IH _|a b b' ph ph' _ (c & r & IH) Hs]; [|done|].
  - destruct (connected_ok _ _ _ _ _ Hp) as [_ [Hv Hc] _ _ Pb].
    exists [], []. split; cbn; unfold written; rewrite ?Hs; try done.
    rewrite (so_mss _ _ Pb). unfold stream_mss. lia.
  - eapply client_step_answering; [exact IH|exact Hs].
Qed.

(** What a stream has been given stays given. *)
Lemma station_step_written h net conf t t' :
  validate conf = inr () → core_config_ok (KcpCoreConfig_from conf) → station_ok (f32 := f32) conf t →
  station_step h net t t' → written t `prefix_of` written t'.
Proof.
  intros Hv Hc Ht Hs. unfold written. destruct Hs as [a a' k n r _ _|a k k' n r Hcall|n chan t _|next t _ _]; [done| | |done].
  - destruct (call_called (stream_mss conf) (stream_max_msg conf) k k' Hcall (so_mss _ _ Ht) (so_max _ _ Ht)
      (mss_below_max conf Hv Hc) (so_pending _ _ Ht)) as [_ _ _ _ (l & Hl & _)]. cbn. rewrite Hl, concat_app. by apply prefix_app_r.
  - destruct (read_only t n chan) as (-> & _). done.
Qed.

Lemma connected_modest_prefix p :
  connected ha hb conf_a conf_b p → modest_writes p →
  t_read (end_b p) `prefix_of` written (end_a p) ∧
  t_read (end_a p) ++ k_read_buf (t_stream (end_a p)) `prefix_of` written (end_b p).
Proof.
  intros Hp Hm. split.
  - pose proof (path_prefix _ _ _ _ p _ _ Hp Hm (or_introl (conj eq_refl eq_refl))) as H.
    etrans; [|exact H]. by apply prefix_app_r.
  - by apply (path_prefix _ _ _ _ p _ _ Hp Hm (or_intror (conj eq_refl eq_refl))).
Qed.

(** A server that answers with no more than it reads stays within what the
    sequence numbers can tell apart when the client does. *)
Lemma echo_modest p ph :
  (∀ data response, answer data response → len response ≤ len data) →
  conversing p ph → len (written (end_a p)) ≤ H31 → len (written (end_b p)) ≤ H31.
Proof.
  intros Hle Hp. assert (Hlen : ∀ chunks responses, Forall2 answer chunks responses → len (concat responses) ≤ len (concat chunks)).
  { induction 1 as [|c r cs rs Hcr _ IH]; [done|]. cbn. rewrite !len_app. specialize (Hle _ _ Hcr). lia. }
  assert (Hread : ∀ p ph, conversing p ph → len (written (end_b p)) ≤ len (t_read (end_b p))).
  { intros q qh Hq. destruct (conversing_answering q qh Hq) as (c & r & [_ Hr Ha Hw _ _]). cbn in *.
    rewrite Hr. specialize (Hlen _ _ Ha). destruct Hw as [l Hl]. rewrite Hl, len_app in Hlen. pose proof (len_nonneg l). lia. }
  induction Hp as [p Hp (_ & Hs & _)|a a' b ph Hq IH Hs|a b b' ph ph' Hq IH Hs]; cbn in *; intros Hl.
  - unfold written. by rewrite Hs.
  - apply IH. pose proof (conversing_connected _ _ Hq) as Hc. destruct (connected_ok _ _ _ _ _ Hc) as [[Va Ca] _ _ Pa _].
    destruct (station_step_written _ _ _ _ _ Va Ca Pa Hs) as [l Hw]. rewrite Hw, len_app in Hl. cbn in Hl. pose proof (len_nonneg l). lia.
  - specialize (IH Hl). pose proof (conversing_connected _ _ Hq) as Hc.
    destruct (connected_modest_prefix _ Hc (conj Hl IH)) as [[l Hr] _]. cbn in Hr.
    pose proof (Hread _ _ (conversing_server _ _ _ _ _ _ _ _ _ _ _ Hq Hs)) as Hb. cbn in Hb.
    rewrite Hr, len_app in Hl. pose proof (len_nonneg l).
    destruct (read_or_written _ _ _ _ _ _ Hs) as [Heq|Heq]; cbn in Heq; [by rewrite Heq|].
    rewrite Heq in Hb. lia.
Qed.
End ConversationFacts.

(** * Theorems *)

Section EchoTheorems.
Context {api : BytesApi} {spec : BytesApiSpec api} {f32 : Type} (conf_a conf_b : KcpConfig (f32 := f32)) (ha hb : Host).

(** C8: whatever the network does and however the client reads and writes, what it
    reads back from [handle_client] of simple_echo.rs is the beginning of what it
    wrote; the server never writes what it has not read. *)
Theorem echo_round_trip p ph :
  conversing conf_a conf_b ha hb echo_client echo_answer p ph → len (written (end_a p)) ≤ H31 →
  t_read (end_a p) ++ k_read_buf (t_stream (end_a p)) `prefix_of` written (end_a p) ∧
  written (end_b p) `prefix_of` t_read (end_b p) ∧
  (ph ≠ Done → t_read (end_b p) = written (end_b p) ++ unwritten ph).
Proof.
  intros Hp Hl. destruct (conversing_answering _ _ _ _ _ _ _ _ Hp) as (chunks & responses & [_ Hr Ha Hw He _]).
  assert (Heq : responses = chunks).
  { clear - Ha. induction Ha as [|c r cs rs -> _ IH]; [done|]. by rewrite IH. }
  subst responses. cbn in Hr, Hw, He. rewrite <- Hr in Hw, He.
  assert (Hm : len (written (end_b p)) ≤ H31).
  { eapply (echo_modest _ _ _ _ echo_client echo_answer); [|exact Hp|done]. by intros ? ? ->. }
  destruct (connected_modest_prefix _ _ _ _ _ (conversing_connected _ _ _ _ _ _ _ _ Hp) (conj Hl Hm)) as [H1 H2].
  split_and!; [|done..]. etrans; [exact H2|]. by etrans; [exact Hw|].
Qed.

(** Any such loop: the client reads the answers to what it wrote, one after
    another. *)
Theorem answers_in_order hc answer p ph :
  conversing conf_a conf_b ha hb hc answer p ph → modest_writes p →
  ∃ chunks responses, Forall2 answer chunks responses ∧
    concat chunks `prefix_of` written (end_a p) ∧
    t_read (end_a p) ++ k_read_buf (t_stream (end_a p)) `prefix_of` concat responses.
Proof.
  intros Hp Hm. destruct (conversing_answering _ _ _ _ _ _ _ _ Hp) as (chunks & responses & [_ Hr Ha Hw _ _]).
  destruct (connected_modest_prefix _ _ _ _ _ (conversing_connected _ _ _ _ _ _ _ _ Hp) Hm) as [H1 H2].
  exists chunks, responses. cbn in Hr, Hw. rewrite <- Hr. split_and!; [done..|]. by etrans.
Qed.
End EchoTheorems.

(** * A run *)

Module EchoSample.
Import PathSample.
Abbreviation api := bytes_le.

(** The server's task is polled, with its channels open, or its actor sees an
    event. *)
Inductive served := Polled | Seen (ev : event) | Arrived (i permits : nat).
Definition serve (hc : handle_client) (respond : bytes → bytes) (net : list bytes) (e : Station * phase) (x : served)
    : option (Station * phase) :=
  match x with
  | Polled =>
      let chan := match a_data (t_actor e.1) !! t_next e.1 with Some d => Ready (Some d) | None => Pending end in
      Some (poll_client hc respond chan TryOk (Ready (inr tt)) e)
  | Seen (EvPacket (Some _) _) => None
  | Seen ev => t ← turned host_b e.1 ev; Some (t, e.2)
  | Arrived i permits => d ← net !! i; t ← turned host_b e.1 (EvPacket (Some d) permits); Some (t, e.2)
  end.

Lemma turned_client hc answer net ev e t :
  (∀ d permits, ev = EvPacket (Some d) permits → d ∈ net) → turned host_b e.1 ev = Some t →
  client_step (api := api) hc answer host_b net e (t, e.2).
Proof.
  unfold turned. intros Hev H. destruct (run_actor _ _ _) as [[fl|?|?] a'] eqn:Hr; [|done..].
  case_decide; [|done]. injection H as <-. destruct e as [[a k n r] ph]. apply client_actor; [|done].
  eapply (actor_turn _ _ ev fl); [|exact Hr]. intros d permits ->. left. by eapply Hev.
Qed.

Lemma serve_step hc (answer : bytes → bytes → Prop) respond net e x e' :
  (∀ data, answer data (respond data)) → serve hc respond net e x = Some e' →
  client_step (api := api) hc answer host_b net e e'.
Proof.
  intros Hresp H. destruct x as [|ev|i permits]; cbn in H.
  - injection H as <-. destruct e as [t ph]. apply client_polled; [|done]. cbn. unfold yields. by destruct (a_data (t_actor t) !! t_next t) eqn:E.
  - assert (Hev : ∃ t, turned host_b e.1 ev = Some t ∧ e' = (t, e.2) ∧ ∀ d permits, ev = EvPacket (Some d) permits → d ∈ net).
    { destruct ev as [| |[d|] permits|]; try done;
        (destruct (turned host_b e.1 _) as [t|] eqn:Ht; [|done]; injection H as <-; by exists t). }
    destruct Hev as (t & Ht & -> & Hev). by eapply turned_client.
  - destruct (net !! i) as [d|] eqn:Hi; [|done]. cbn in H.
    destruct (turned host_b e.1 _) as [t|] eqn:Ht; [|done]. injection H as <-. eapply turned_client; [|exact Ht].
    intros d' permits' [= <- <-]. by eapply list_elem_of_lookup_2.
Qed.

Definition move (hc : handle_client) (respond : bytes → bytes) (c : Pair * phase) (x : act + served) : option (Pair * phase) :=
  match x with
  | inl x => a ← acted host_a (a_wire (t_actor (end_b c.1))) (end_a c.1) x; Some (Build_Pair a (end_b c.1), c.2)
  | inr x => '(b, ph) ← serve hc respond (a_wire (t_actor (end_a c.1))) (end_b c.1, c.2) x; Some (Build_Pair (end_a c.1) b, ph)
  end.
Fixpoint moves (hc : handle_client) (respond : bytes → bytes) (c : Pair * phase) (xs : list (act + served)) : option (Pair * phase) :=
  match xs with [] => Some c | x :: xs => c ← move hc respond c x; moves hc respond c xs end.

Lemma moves_conversing hc (answer : bytes → bytes → Prop) respond xs : (∀ data, answer data (respond data)) → ∀ c c',
  conversing (api := api) conf conf host_a host_b hc answer c.1 c.2 → moves hc respond c xs = Some c' →
  conversing (api := api) conf conf host_a host_b hc answer c'.1 c'.2.
Proof.
  intros Hresp. induction xs as [|x xs IH]; intros c c' Hc Hm; cbn in Hm; [by injection Hm as <-|].
  destruct (move hc respond c x) as [c1|] eqn:H1; [|done]. apply (IH c1); [|done].
  destruct c as [[a b] ph], x as [x|x]; unfold move in H1; cbn in H1.
  - destruct (acted host_a _ a x) as [a'|] eqn:Ha; [|done]. injection H1 as <-.
    eapply conversing_client; [exact Hc|]. by eapply acted_step.
  - destruct (serve hc respond _ (b, ph) x) as [[b' ph']|] eqn:Hb; [|done]. injection H1 as <-.
    eapply conversing_server; [exact Hc|]. by eapply serve_step.
Qed.

Definition ping : bytes := [x70; x69; x6e; x67].
Definition pair0 : Pair := reached [].
(** The client writes, the server reads, answers and flushes, the client reads. *)
Definition exchange (answer : bytes) : list (act + served) :=
  [inl (Write ping); inl (Turn (EvSend (Some ping) [])); inr (Arrived 0 4); inr Polled; inr Polled; inr Polled;
   inr (Seen (EvSend (Some answer) [])); inl (Packet 0 4); inl (Packet 1 4); inl (Read 100)].
Definition echoed : Pair * phase := default (pair0, Done) (moves echo_client id (pair0, Reading) (exchange ping)).
Definition timed_ping : bytes := perf_response 1700000000000 ping.
Definition measured : Pair * phase :=
  default (pair0, Done) (moves perf_client (perf_response 1700000000000) (pair0, Reading) (exchange timed_ping)).

Lemma pair0_start hc answer : conversing (api := api) conf conf host_a host_b hc answer pair0 Reading.
Proof.
  apply conversing_start; [apply reached_connected; vm_compute; reflexivity|]. by split_and!; vm_compute.
Qed.
Lemma echoed_conversing : conversing (api := api) conf conf host_a host_b echo_client echo_answer echoed.1 echoed.2.
Proof.
  apply (moves_conversing echo_client echo_answer id (exchange ping) ltac:(done) (pair0, Reading)); [apply pair0_start|].
  vm_compute. reflexivity.
Qed.
Lemma measured_conversing : conversing (api := api) conf conf host_a host_b perf_client perf_answer measured.1 measured.2.
Proof.
  refine (moves_conversing perf_client perf_answer (perf_response 1700000000000) (exchange timed_ping) _ (pair0, Reading) _ (pair0_start _ _) _).
  - intros data. exists 1700000000000. split; [vm_compute; split; congruence|done].
  - vm_compute. reflexivity.
Qed.
End EchoSample.

Lemma echo_round_trip_witness :
  t_read (end_a EchoSample.echoed.1) `prefix_of` written (end_a EchoSample.echoed.1) ∧
  t_read (end_a EchoSample.echoed.1) = EchoSample.ping.
Proof.
  destruct (echo_round_trip (api := bytes_le) PathSample.conf PathSample.conf PathSample.host_a PathSample.host_b
    EchoSample.echoed.1 EchoSample.echoed.2 EchoSample.echoed_conversing ltac:(vm_compute; congruence)) as [H _].
  split; [etrans; [|exact H]; by apply prefix_app_r|vm_compute; reflexivity].
Defined.

Lemma answers_in_order_witness :
  (∃ chunks responses, Forall2 perf_answer chunks responses ∧
     t_read (end_a EchoSample.measured.1) `prefix_of` concat responses) ∧
  t_read (end_a EchoSample.measured.1) = EchoSample.timed_ping.
Proof.
  destruct (answers_in_order (api := bytes_le) PathSample.conf PathSample.conf PathSample.host_a PathSample.host_b
    perf_client perf_answer EchoSample.measured.1 EchoSample.measured.2 EchoSample.measured_conversing
    ltac:(split; vm_compute; congruence)) as (chunks & responses & H1 & _ & H2).
  split; [exists chunks, responses; split; [exact H1|etrans; [|exact H2]; by apply prefix_app_r]|vm_compute; reflexivity].
Defined.
