(* ===== verification/Perf.v ===== *)
(** examples/perf_test_client.rs and perf_test_server.rs: what the measuring tools
    count.

    The [f64] figures they print (averages, rates, jitter) and the start times these
    are computed from are not modelled; the counters behind them, the percentiles
    and what a latency sample is made of are. *)
From S2P Require Import Prelude Monad Protocol Error Config Echo.

(** * [LatencyStats] *)

Record LatencyStats := {
  ls_samples : list Z;
  ls_min : Z;
  ls_max : Z;
  ls_sum : Z;
  ls_count : Z;
}.
#[export] Instance LatencyStats_eta : Eta LatencyStats := λ s,
  Build_LatencyStats (ls_samples s) (ls_min s) (ls_max s) (ls_sum s) (ls_count s).

Definition u32_MAX : Z := 2 ^ 32 - 1.
Definition LatencyStats_new : LatencyStats := Build_LatencyStats [] u32_MAX 0 0 0.

(** How many samples are kept. *)
Definition WINDOW : Z := 10000.

Section Latency.
Context {prof : Profile}.
Abbreviation LM := (M LatencyStats Empty_set).

(** The latest sample goes into the totals. *)
Definition add_tail (latency : Z) : LM () :=
  sum ← gets ls_sum; sum ← uadd 64 sum latency; modify (λ s, s <| ls_sum := sum |>);;
  count ← gets ls_count; count ← uadd 64 count 1; modify (λ s, s <| ls_count := count |>);;
  modify (λ s, s <| ls_min ::= λ m, Z.min m latency |> <| ls_max ::= λ m, Z.max m latency |>).

Definition add_sample (latency : Z) : LM () :=
  modify (λ s, s <| ls_samples ::= λ l, l ++ [latency] |>);;
  samples ← gets ls_samples;
  whenM (WINDOW <? len samples)
    (match samples with
     | [] => mret tt
     | old :: rest =>
         modify (λ s, s <| ls_samples := rest |>);;
         sum ← gets ls_sum; sum ← usub 64 sum old; modify (λ s, s <| ls_sum := sum |>);;
         count ← gets ls_count; count ← usub 64 count 1; modify (λ s, s <| ls_count := count |>)
     end);;
  add_tail latency.

(** [rank n] is [((n as f64 - 1.0) * p / 100.0) as usize]. *)
Definition percentile (rank : Z → nat) : LM Z :=
  samples ← gets ls_samples;
  if is_empty samples then mret 0
  else
    let sorted := merge_sort Z.le samples in
    last ← usub 64 (len sorted) 1;
    index sorted (Nat.min (rank (len sorted)) (Z.to_nat last)).
End Latency.

(** * [ClientStats] and what [latency_test] does to it *)

Record ClientStats := {
  cs_messages_sent : Z;
  cs_messages_received : Z;
  cs_bytes_sent : Z;
  cs_bytes_received : Z;
  cs_latency : LatencyStats;
  cs_errors : Z;
}.
#[export] Instance ClientStats_eta : Eta ClientStats := λ s,
  Build_ClientStats (cs_messages_sent s) (cs_messages_received s) (cs_bytes_sent s) (cs_bytes_received s)
    (cs_latency s) (cs_errors s).
Definition ClientStats_new : ClientStats := Build_ClientStats 0 0 0 0 LatencyStats_new 0.

(** [field += n] on a [u64]. *)
Definition bump {prof : Profile} {S} (get : S → Z) (set : Z → S → S) (n : Z) : M S Empty_set () :=
  v ← gets get; v ← uadd 64 v n; modify (set v).

Section ClientTest.
Context {prof : Profile}.
Abbreviation CM := (M ClientStats Empty_set).

Definition on_latency {A} (m : M LatencyStats Empty_set A) : CM A := λ s,
  let '(r, l) := m (cs_latency s) in (r, s <| cs_latency := l |>).

(** The message of a tick: the time, and the test data. *)
Definition test_message (timestamp : Z) (test_data : bytes) : bytes := le_bytes 8 timestamp ++ test_data.

Definition count_error : CM () := bump cs_errors (λ v s, s <| cs_errors := v |>) 1.

(** The result of [write_all]. *)
Definition on_written (r : io_error_kind + ()) (message : bytes) : CM () :=
  match r with
  | inr _ =>
      bump cs_messages_sent (λ v s, s <| cs_messages_sent := v |>) 1;;
      bump cs_bytes_sent (λ v s, s <| cs_bytes_sent := v |>) (len message)
  | inl _ => count_error
  end.

(** [u64::from_le_bytes] of the first eight bytes. *)
Definition sent_timestamp (receive_buffer : bytes) : Z := le_val (take 8 receive_buffer).

Definition count_answer (data : bytes) : CM () :=
  bump cs_messages_received (λ v s, s <| cs_messages_received := v |>) 1;;
  bump cs_bytes_received (λ v s, s <| cs_bytes_received := v |>) (len data).

(** An answer that was read at the time [recv_timestamp]: a sample. *)
Definition take_sample (data : bytes) (recv_timestamp : Z) : CM () :=
  rtt ← usub 64 recv_timestamp (sent_timestamp data);
  on_latency (add_sample (as_u32 rtt));;
  count_answer data.

(** The result of [read]; the buffer starts with what was read. *)
Definition on_received (r : io_error_kind + bytes) (recv_timestamp : Z) : CM () :=
  match r with
  | inr data => if 8 <=? len data then take_sample data recv_timestamp else count_error
  | inl _ => count_error
  end.
(** In the grace period, where [None] is a timeout; whether it goes on. *)
Definition on_grace (r : option (io_error_kind + bytes)) (recv_timestamp : Z) : CM bool :=
  match r with
  | Some (inr data) =>
      if 8 <=? len data then take_sample data recv_timestamp;; mret true else mret false
  | _ => mret false
  end.
(** In [throughput_test]. *)
Definition on_throughput (r : option (io_error_kind + bytes)) : CM () :=
  match r with
  | Some (inr data) => if 8 <=? len data then count_answer data else count_error
  | Some (inl _) => count_error
  | None => mret tt
  end.
End ClientTest.

(** The configuration [main] picks, in the client and in the server. *)
Definition config_of_mode {f32 : Type} (mode : string) : KcpConfig (f32 := f32) :=
  if decide (mode = "normal") then KcpConfig_default
  else if decide (mode = "fast") then window_size 128 128 (fast_mode KcpConfig_default)
  else if decide (mode = "turbo") then window_size 256 256 (turbo_mode KcpConfig_default)
  else if decide (mode = "gaming") then KcpConfig_gaming
  else if decide (mode = "file_transfer") then KcpConfig_file_transfer
  else KcpConfig_gaming.
Definition server_config_of_mode {f32 : Type} (mode : string) : KcpConfig (f32 := f32) := config_of_mode mode.

(** * What the server counts *)

(** The counters of [handle_client], and what it has sent to the monitor. *)
Record SessionStats := {
  sn_messages : Z;
  sn_bytes : Z;
  sn_reports : list (Z * Z);
}.
#[export] Instance SessionStats_eta : Eta SessionStats := λ s,
  Build_SessionStats (sn_messages s) (sn_bytes s) (sn_reports s).

Record ServerStats := { total_messages : Z; total_bytes : Z }.
#[export] Instance ServerStats_eta : Eta ServerStats := λ s, Build_ServerStats (total_messages s) (total_bytes s).
Definition ServerStats_new : ServerStats := Build_ServerStats 0 0.

Section Counting.
Context {prof : Profile}.

Definition send_report : M SessionStats Empty_set () :=
  modify (λ s, s <| sn_reports ::= λ l, l ++ [(sn_messages s, sn_bytes s)] |>).

(** A message of [n] bytes; [echoed] is whether it could be written back. *)
Definition count_message (n : Z) : M SessionStats Empty_set () :=
  bump sn_messages (λ v s, s <| sn_messages := v |>) 1;;
  bump sn_bytes (λ v s, s <| sn_bytes := v |>) n.
Definition report_progress : M SessionStats Empty_set () :=
  messages ← gets sn_messages;
  whenM (messages mod 1000 =? 0) send_report.

(** A session that reads messages of these sizes and echoes all of them, the last
    one perhaps excepted, whose failed write ends it. *)
Definition session_counts (sizes : list Z) (failed : option Z) : M SessionStats Empty_set () :=
  forM sizes (λ n, count_message n;; report_progress);;
  match failed with Some n => count_message n | None => mret tt end;;
  send_report.

(** [stats_monitor], over the reports it gets. *)
Definition stats_monitor (reports : list (Z * Z)) : M ServerStats Empty_set () :=
  forM reports (λ '(msgs, bytes),
    bump total_messages (λ v s, s <| total_messages := v |>) msgs;;
    bump total_bytes (λ v s, s <| total_bytes := v |>) bytes).
End Counting.

(** * Facts *)

Definition sum_of (l : list Z) : Z := foldr Z.add 0 l.
Lemma sum_of_app l l' : sum_of (l ++ l') = sum_of l + sum_of l'.
Proof. induction l as [|x l IH]; cbn; [done|]. unfold sum_of in *. lia. Qed.
Lemma sum_of_bounds w l : Forall (in_u w) l → 0 ≤ sum_of l ≤ len l * (2 ^ w - 1).
Proof.
  induction 1 as [|x l Hx _ IH]; [unfold len; cbn; lia|]. unfold in_u in Hx.
  change (sum_of (x :: l)) with (x + sum_of l). unfold len in *. cbn [length]. rewrite Nat2Z.inj_succ. nia.
Qed.

Arguments sum_of : simpl never.

(** The latest [n] of a list. *)
Definition latest {A} (n : nat) (l : list A) : list A := drop (length l - n) l.
Lemma latest_snoc {A} n (l : list A) x :
  latest n (l ++ [x]) = if decide (length l < n)%nat then latest n l ++ [x] else drop 1 (latest n l ++ [x]).
Proof.
  unfold latest. rewrite length_app. cbn. case_decide.
  - replace (length l + 1 - n)%nat with 0%nat by lia. by replace (length l - n)%nat with 0%nat by lia.
  - rewrite <- (drop_app_le l [x]) by lia. rewrite drop_drop. f_equal. lia.
Qed.

(** What the statistics say after the samples [all]: the sum, the count and the
    samples kept are of the latest ones, the extremes of all. *)
Record latency_ok (all : list Z) (s : LatencyStats) : Prop := {
  lo_range : Forall (in_u 32) all;
  lo_samples : ls_samples s = latest (Z.to_nat WINDOW) all;
  lo_sum : ls_sum s = sum_of (ls_samples s);
  lo_count : ls_count s = len (ls_samples s);
  lo_bounds : Forall (λ x, ls_min s ≤ x ≤ ls_max s) all;
  lo_attained : if is_empty all then ls_min s = u32_MAX ∧ ls_max s = 0 else ls_min s ∈ all ∧ ls_max s ∈ all;
}.

Lemma latest_sub {A} n (l : list A) x : x ∈ latest n l → x ∈ l.
Proof. unfold latest. intros H. rewrite <- (take_drop (length l - n) l). apply elem_of_app. by right. Qed.
Lemma latest_length {A} n (l : list A) : (length (latest n l) = Nat.min n (length l))%nat.
Proof. unfold latest. rewrite length_drop. lia. Qed.

Lemma latency_new : latency_ok [] LatencyStats_new.
Proof. by split; try constructor. Qed.

Lemma extremes all (m M x : Z) :
  Forall (in_u 32) all → in_u 32 x → Forall (λ y, m ≤ y ≤ M) all →
  (if is_empty all then m = u32_MAX ∧ M = 0 else m ∈ all ∧ M ∈ all) →
  Forall (λ y, Z.min m x ≤ y ≤ Z.max M x) (all ++ [x]) ∧ Z.min m x ∈ all ++ [x] ∧ Z.max M x ∈ all ++ [x].
Proof.
  intros Hr Hx Hb Ha. split.
  - apply Forall_app. split; [eapply Forall_impl; [exact Hb|cbn; lia]|]. apply Forall_singleton. lia.
  - rewrite !elem_of_app, !list_elem_of_singleton. unfold in_u, u32_MAX in *. destruct all as [|y all]; cbn in Ha.
    + destruct Ha as [-> ->]. split; right; lia.
    + destruct Ha as [Hm HM]. split.
      * destruct (Z.min_spec m x) as [[_ ->]|[_ ->]]; [by left|by right].
      * destruct (Z.max_spec M x) as [[_ ->]|[_ ->]]; [by right|by left].
Qed.

Section PerfFacts.
Context {prof : Profile}.

Lemma wp_bump {S} (get : S → Z) (set : Z → S → S) n (Q : () → S → Prop) (s : S) :
  in_u 64 (get s + n) → Q tt (set (get s + n) s) → wp no_panic (bump get set n) Q (λ _ _, False) s.
Proof. intros Hr HQ. unfold bump. do 2 wp_step. wp_step. apply wp_arith_exact; [done|]. by wp_step. Qed.

(** The totals after a sample, when those of the samples kept so far are right
    but for it. *)
Lemma add_tail_spec all x mn mx smp sum count :
  Forall (in_u 32) (all ++ [x]) → smp = latest (Z.to_nat WINDOW) (all ++ [x]) →
  Forall (λ y, Z.min mn x ≤ y ≤ Z.max mx x) (all ++ [x]) → Z.min mn x ∈ all ++ [x] → Z.max mx x ∈ all ++ [x] →
  0 ≤ sum → sum + x = sum_of smp → 0 ≤ count → count + 1 = len smp →
  wp no_panic (add_tail x) (λ _ s', latency_ok (all ++ [x]) s') (λ _ _, False) (Build_LatencyStats smp mn mx sum count).
Proof.
  intros Hall Hs Hb Hmin Hmax H1 E1 H2 E2.
  assert (Hle : len smp ≤ WINDOW) by (unfold len; rewrite Hs, latest_length; unfold WINDOW; lia).
  assert (Hf : Forall (in_u 32) smp).
  { rewrite Hs. apply Forall_forall. intros y Hy%latest_sub. rewrite Forall_forall in Hall. by apply Hall. }
  pose proof (sum_of_bounds 32 _ Hf). unfold add_tail, WINDOW in *.
  do 3 wp_step. apply wp_arith_exact; [unfold in_u in *; cbn in *; lia|]. do 5 wp_step.
  apply wp_arith_exact; [unfold in_u in *; cbn in *; lia|]. do 3 wp_step. cbn. rewrite E1, E2.
  split; cbn; try done. by destruct all.
Qed.

Lemma sum_of_snoc l x : sum_of (l ++ [x]) = sum_of l + x.
Proof. rewrite sum_of_app. change (sum_of [x]) with (x + 0). lia. Qed.
Lemma len_snoc {A} (l : list A) x : len (l ++ [x]) = len l + 1.
Proof. by rewrite len_app. Qed.

Lemma add_sample_spec all x s :
  latency_ok all s → in_u 32 x →
  wp no_panic (add_sample x) (λ _ s', latency_ok (all ++ [x]) s') (λ _ _, False) s.
Proof.
  intros [Hr Hs Hsum Hc Hb Ha] Hx. set (n := Z.to_nat WINDOW) in *.
  assert (Hn : Z.of_nat n = WINDOW) by (unfold n, WINDOW; lia).
  assert (Hk : Forall (in_u 32) (latest n all)).
  { apply Forall_forall. intros y Hy%latest_sub. rewrite Forall_forall in Hr. by apply Hr. }
  pose proof (sum_of_bounds 32 _ Hk) as Hsb. pose proof (len_nonneg (latest n all)) as Hl0.
  destruct (extremes all (ls_min s) (ls_max s) x Hr Hx Hb Ha) as (Hb' & Hmin & Hmax).
  assert (Hall : Forall (in_u 32) (all ++ [x])) by (apply Forall_app; split; [done|by apply Forall_singleton]).
  pose proof (latest_snoc n all x) as Hsnoc. pose proof (latest_length n all) as Hll.
  destruct s as [smp mn mx sm ct]. cbn in Hs, Hsum, Hc, Hb', Hmin, Hmax. subst smp sm ct.
  unfold add_sample. do 5 wp_step. cbn -[WINDOW Z.sub Z.pow].
  pose proof (sum_of_snoc (latest n all) x). apply wp_when; intros Hfull; rewrite len_snoc in Hfull.
  - apply Z.ltb_lt in Hfull. destruct (decide (length all < n)%nat) as [Hlt|Hge]; [unfold len in *; lia|].
    destruct (latest n all) as [|old kept] eqn:Hlat; [unfold len in *; cbn in *; unfold WINDOW in *; lia|].
    cbn [app drop] in *. apply Forall_cons in Hk as [Ho Hkept].
    pose proof (sum_of_bounds 32 _ Hkept) as Hks. pose proof (sum_of_snoc kept x). pose proof (len_snoc kept x).
    change (sum_of (old :: kept)) with (old + sum_of kept) in *.
    assert (len (old :: kept) = len kept + 1) by (unfold len; cbn [length]; lia).
    assert (len kept ≤ WINDOW) by (unfold len in *; cbn in Hll; lia). unfold in_u in Ho, Hx.
    do 5 wp_step. apply wp_arith_exact; [unfold in_u; cbn -[Z.pow]; unfold WINDOW in *; lia|]. do 5 wp_step.
    apply wp_arith_exact; [unfold in_u; cbn -[Z.pow]; unfold WINDOW in *; lia|]. do 1 wp_step. cbn -[Z.pow].
    apply add_tail_spec; [done|done|done|done|done|..]; cbn -[Z.pow]; lia.
  - apply Z.ltb_ge in Hfull. destruct (decide (length all < n)%nat) as [Hlt|Hge]; [|unfold len in *; lia].
    apply add_tail_spec; [done|done|done|done|done|..]; cbn -[Z.pow]; rewrite ?len_snoc; lia.
Qed.

(** A percentile is a sample of the window, by its rank. *)
Lemma percentile_spec rank all s :
  latency_ok all s → all ≠ [] →
  wp no_panic (percentile rank) (λ v s', s' = s ∧ ∃ sorted,
    sorted ≡ₚ latest (Z.to_nat WINDOW) all ∧ Sorted Z.le sorted ∧
    sorted !! Nat.min (rank (len sorted)) (length sorted - 1) = Some v) (λ _ _, False) s.
Proof.
  intros [_ Hs _ _ _ _] Hne. set (n := Z.to_nat WINDOW) in *. assert (Hn : (0 < n)%nat) by (unfold n, WINDOW; lia).
  assert (Hpos : (0 < length (ls_samples s))%nat).
  { rewrite Hs, latest_length. destruct all; [done|]. cbn. lia. }
  unfold percentile. do 2 wp_step. destruct (ls_samples s) as [|y l] eqn:Hy; [cbn in Hpos; lia|]. cbn [is_empty].
  set (sorted := merge_sort Z.le (y :: l)).
  assert (Hp : sorted ≡ₚ y :: l) by apply merge_sort_Permutation.
  assert (Hl : length sorted = S (length l)) by (by rewrite Hp).
  assert (Hle : Z.of_nat (length sorted) ≤ WINDOW).
  { rewrite Hl. change (S (length l)) with (length (y :: l)). rewrite Hs, latest_length. unfold n, WINDOW. lia. }
  wp_step. apply wp_arith_exact; [unfold in_u, len, WINDOW in *; lia|].
  destruct (lookup_lt_is_Some_2 sorted (Nat.min (rank (len sorted)) (length sorted - 1))) as [v Hv]; [lia|].
  replace (Z.to_nat (len sorted - 1)) with (length sorted - 1)%nat by (unfold len; lia).
  apply (wp_index _ _ _ v); [done|]. split; [done|]. exists sorted. rewrite <- Hs.
  split_and!; [done|apply Sorted_merge_sort, _|done].
Qed.

(** ** The monitor *)

Fixpoint reports_from (messages bytes : Z) (sizes : list Z) : list (Z * Z) :=
  match sizes with
  | [] => []
  | n :: sizes =>
      (if (messages + 1) mod 1000 =? 0 then [(messages + 1, bytes + n)] else []) ++
      reports_from (messages + 1) (bytes + n) sizes
  end.

(** What whole thousands up to [z] add up to. *)
Definition thousands (z : Z) : Z := 500 * (z / 1000) * (z / 1000 + 1).
Lemma thousands_succ z :
  0 ≤ z → thousands (z + 1) = thousands z + if (z + 1) mod 1000 =? 0 then z + 1 else 0.
Proof.
  intros Hz. unfold thousands. destruct (Z.eqb_spec ((z + 1) mod 1000) 0) as [H|H].
  - replace ((z + 1) / 1000) with (z / 1000 + 1) by (Z.div_mod_to_equations; lia).
    assert (z + 1 = 1000 * (z / 1000 + 1)) by (Z.div_mod_to_equations; lia). nia.
  - replace ((z + 1) / 1000) with (z / 1000) by (Z.div_mod_to_equations; lia). lia.
Qed.

Lemma reports_messages sizes : ∀ messages bytes,
  0 ≤ messages →
  sum_of (map fst (reports_from messages bytes sizes)) = thousands (messages + len sizes) - thousands messages.
Proof.
  induction sizes as [|n sizes IH]; intros messages bytes Hm; cbn [reports_from map].
  - unfold len. cbn. rewrite Z.add_0_r, Z.sub_diag. done.
  - rewrite map_app, sum_of_app, IH by lia. rewrite (thousands_succ messages) by done.
    replace (len (n :: sizes)) with (1 + len sizes) by (unfold len; cbn [length]; lia).
    rewrite (Z.add_assoc messages 1). destruct (_ =? 0); cbn [map]; unfold sum_of; cbn [foldr fst]; lia.
Qed.

(** A session's counters and reports, as long as nothing overflows. *)
Definition SIZE_MAX : Z := 8192.
Definition MESSAGES_MAX : Z := 2 ^ 24.

Lemma reports_snoc sizes n : ∀ m b,
  reports_from m b (sizes ++ [n]) = reports_from m b sizes ++
    if (m + len sizes + 1) mod 1000 =? 0 then [(m + len sizes + 1, b + sum_of sizes + n)] else [].
Proof.
  induction sizes as [|k sizes IH]; intros m b; cbn [reports_from app].
  - unfold len, sum_of. cbn [length foldr]. rewrite !Z.add_0_r. by destruct (_ =? 0).
  - rewrite IH, <- (assoc (++)). f_equal. f_equal.
    replace (len (k :: sizes)) with (1 + len sizes) by (unfold len; cbn [length]; lia).
    change (sum_of (k :: sizes)) with (k + sum_of sizes). rewrite !Z.add_assoc. done.
Qed.

Lemma sizes_bound sizes : Forall (λ n, 0 ≤ n ≤ SIZE_MAX) sizes → 0 ≤ sum_of sizes ≤ SIZE_MAX * len sizes.
Proof.
  induction 1 as [|n l Hn _ IH]; [done|]. change (sum_of (n :: l)) with (n + sum_of l).
  replace (len (n :: l)) with (1 + len l) by (unfold len; cbn [length]; lia). lia.
Qed.

Lemma session_spec sizes failed :
  let all := sizes ++ option_list failed in
  Forall (λ n, 0 ≤ n ≤ SIZE_MAX) all → len all ≤ MESSAGES_MAX →
  wp no_panic (session_counts sizes failed) (λ _ s',
    sn_reports s' = reports_from 0 0 sizes ++ [(len all, sum_of all)]) (λ _ _, False) (Build_SessionStats 0 0 []).
Proof.
  intros all Hs Hl. assert (Hcount : ∀ done n (Q : () → SessionStats → Prop) r,
    (∃ rest, all = done ++ n :: rest) →
    Q tt (Build_SessionStats (len done + 1) (sum_of done + n) r) →
    wp no_panic (count_message n) Q (λ _ _, False) (Build_SessionStats (len done) (sum_of done) r)).
  { intros done n Q r [rest Heq] HQ. rewrite Heq in Hs, Hl. rewrite Forall_app in Hs. destruct Hs as [Hd Hn].
    apply Forall_cons in Hn as [Hn _]. pose proof (sizes_bound _ Hd). rewrite len_app in Hl. pose proof (len_nonneg done).
    pose proof (len_nonneg (n :: rest)). unfold SIZE_MAX, MESSAGES_MAX in *. unfold count_message. wp_step.
    apply wp_bump; [unfold in_u; cbn -[Z.pow]; lia|]. apply wp_bump; [unfold in_u; cbn -[Z.pow]; nia|]. exact HQ. }
  unfold session_counts, forM. wp_step.
  apply (wp_foldM _ _ (λ done _ s, s = Build_SessionStats (len done) (sum_of done) (reports_from 0 0 done))); [done| |].
  - intros done n [] s -> [rest Heq]. wp_step. apply Hcount; [exists (rest ++ option_list failed); unfold all; by rewrite Heq, <- (assoc (++))|].
    unfold report_progress. do 2 wp_step. cbn [sn_messages].
    rewrite reports_snoc, sum_of_snoc, len_snoc, !Z.add_0_l. apply wp_when; intros ->.
    + done.
    + by rewrite app_nil_r.
  - intros [] s ->. wp_step. unfold all. destruct failed as [n|]; cbn [option_list].
    + apply Hcount; [by exists []|]. unfold send_report. wp_step. cbn.
      rewrite sum_of_app, len_app. change (sum_of [n]) with (n + 0). by rewrite Z.add_0_r.
    + wp_step. unfold send_report. wp_step. cbn. by rewrite app_nil_r.
Qed.

Lemma monitor_spec reports :
  Forall (λ r, 0 ≤ r.1 ∧ 0 ≤ r.2) reports → sum_of (map fst reports) < 2 ^ 64 → sum_of (map snd reports) < 2 ^ 64 →
  wp no_panic (stats_monitor reports) (λ _ s',
    s' = Build_ServerStats (sum_of (map fst reports)) (sum_of (map snd reports))) (λ _ _, False) ServerStats_new.
Proof.
  intros Hr H1 H2. unfold stats_monitor, forM.
  apply (wp_foldM _ _ (λ done _ s, s = Build_ServerStats (sum_of (map fst done)) (sum_of (map snd done)))); [done| |by intros [] s ->].
  intros done [m b] [] s -> [rest ->].
  assert (Hpos : ∀ l, Forall (λ r : Z * Z, 0 ≤ r.1 ∧ 0 ≤ r.2) l → 0 ≤ sum_of (map fst l) ∧ 0 ≤ sum_of (map snd l)).
  { induction 1 as [|[x y] l [Hx Hy] _ IH]; [done|]. cbn [map fst snd] in *.
    change (sum_of (x :: map fst l)) with (x + sum_of (map fst l)). change (sum_of (y :: map snd l)) with (y + sum_of (map snd l)). lia. }
  apply Forall_app in Hr as [Hd Hr]. apply Forall_cons in Hr as [Hmb Hr]. cbn in Hmb.
  destruct (Hpos _ Hd), (Hpos _ Hr).
  rewrite !map_app, !sum_of_app in *. cbn [map fst snd] in *.
  change (sum_of (m :: map fst rest)) with (m + sum_of (map fst rest)) in H1.
  change (sum_of (b :: map snd rest)) with (b + sum_of (map snd rest)) in H2.
  wp_step. apply wp_bump; [unfold in_u; cbn -[Z.pow]; lia|]. apply wp_bump; [unfold in_u; cbn -[Z.pow]; lia|].
  change (sum_of [m]) with (m + 0). change (sum_of [b]) with (b + 0). by rewrite !Z.add_0_r.
Qed.

Lemma reports_range sizes : ∀ m b,
  Forall (λ n, 0 ≤ n) sizes → 0 ≤ m → 0 ≤ b →
  Forall (λ r, 0 ≤ r.1 ∧ 0 ≤ r.2 ≤ b + sum_of sizes) (reports_from m b sizes) ∧
  (length (reports_from m b sizes) ≤ length sizes)%nat.
Proof.
  induction sizes as [|n sizes IH]; intros m b Hs Hm Hb; [by split|]. apply Forall_cons in Hs as [Hn Hs].
  cbn [reports_from]. change (sum_of (n :: sizes)) with (n + sum_of sizes).
  destruct (IH (m + 1) (b + n) Hs) as [IH1 IH2]; [lia..|]. rewrite length_app, Forall_app. cbn [length].
  assert (0 ≤ sum_of sizes).
  { clear - Hs. induction Hs as [|x l Hx _ IH]; [done|]. change (sum_of (x :: l)) with (x + sum_of l). lia. }
  split; [split; [|eapply Forall_impl; [exact IH1|cbn; lia]]|]; destruct (_ =? 0); cbn [length]; try lia; [|by constructor].
  apply Forall_singleton. cbn. lia.
Qed.

Lemma sum_map_le {A} (f : A → Z) k l : Forall (λ a, 0 ≤ f a ≤ k) l → 0 ≤ sum_of (map f l) ≤ k * len l.
Proof.
  induction 1 as [|a l Ha _ IH]; [change (0 ≤ 0 ≤ k * 0); lia|]. cbn [map].
  change (sum_of (f a :: map f l)) with (f a + sum_of (map f l)).
  replace (len (a :: l)) with (1 + len l) by (unfold len; cbn [length]; lia). lia.
Qed.
End PerfFacts.

(** Whatever the mode, the library takes the configuration. *)
Lemma modes_validate {f32 : Type} mode : validate (config_of_mode (f32 := f32) mode) = inr ().
Proof. unfold config_of_mode. repeat case_decide; done. Qed.

(** * Theorems *)

Section PerfTheorems.
Context {prof : Profile}.

(** The latency figures, without overflow for any samples: the sum, the count and
    the percentiles are those of the latest 10000 samples, the extremes those of
    all; a percentile is the sample of its rank among the sorted ones. *)
Theorem latency_figures rank xs :
  Forall (in_u 32) xs → xs ≠ [] →
  wp no_panic (forM xs add_sample;; percentile rank)
    (λ v s, latency_ok xs s ∧ ∃ sorted,
       sorted ≡ₚ latest (Z.to_nat WINDOW) xs ∧ Sorted Z.le sorted ∧
       sorted !! Nat.min (rank (len sorted)) (length sorted - 1) = Some v)
    (λ _ _, False) LatencyStats_new.
Proof.
  intros Hx Hne. wp_step. unfold forM. apply (wp_foldM _ _ (λ done _ s, latency_ok done s)); [apply latency_new| |].
  - intros done x [] s Hs [rest ->]. apply add_sample_spec; [done|].
    apply Forall_app in Hx as [_ Hx]. by apply Forall_cons in Hx as [Hx _].
  - intros [] s Hs. eapply wp_post; [by apply percentile_spec|]. by intros v s' [-> H].
Qed.

(** [stats_monitor] adds up reports that are totals already: of a session of [m]
    messages it counts, besides [m], every whole thousand up to what was echoed
    again, so from 1000 messages on its totals are too large. *)
Theorem monitor_total sizes failed :
  let all := sizes ++ option_list failed in
  Forall (λ n, 0 ≤ n ≤ SIZE_MAX) all → len all ≤ MESSAGES_MAX →
  wp no_panic (session_counts sizes failed)
    (λ _ s, wp no_panic (stats_monitor (sn_reports s))
       (λ _ s', total_messages s' = len all + thousands (len sizes)) (λ _ _, False) ServerStats_new)
    (λ _ _, False) (Build_SessionStats 0 0 []).
Proof.
  intros all Hs Hl. eapply wp_post; [by apply session_spec|]. intros [] s Hr. cbv beta. fold all in Hr. rewrite Hr.
  pose proof (sizes_bound _ Hs) as Hb. pose proof (len_nonneg sizes) as Hn.
  assert (Hs' : Forall (λ n, 0 ≤ n ≤ SIZE_MAX) sizes) by (by apply Forall_app in Hs as [? _]).
  pose proof (sizes_bound _ Hs') as Hb'.
  assert (Hla : len all = len sizes + len (option_list failed)) by (unfold all; by rewrite len_app).
  pose proof (len_nonneg (option_list failed)).
  destruct (reports_range sizes 0 0) as [Hf Hcount]; [by eapply Forall_impl; [exact Hs'|cbn; lia]|done..|].
  assert (Hsumf : sum_of (map fst (reports_from 0 0 sizes ++ [(len all, sum_of all)])) = len all + thousands (len sizes)).
  { rewrite map_app, sum_of_app, reports_messages by done. change (thousands 0) with 0. cbn [map fst].
    change (sum_of [len all]) with (len all + 0). rewrite Z.add_0_l. lia. }
  eapply wp_post; [apply monitor_spec|].
  - apply Forall_app. split; [eapply Forall_impl; [exact Hf|cbn; lia]|]. apply Forall_singleton. cbn. lia.
  - rewrite Hsumf. unfold thousands, MESSAGES_MAX in *.
    assert (len sizes / 1000 ≤ 2 ^ 24) by (Z.div_mod_to_equations; lia).
    assert (0 ≤ len sizes / 1000) by (Z.div_mod_to_equations; lia). nia.
  - rewrite map_app, sum_of_app. cbn [map snd]. change (sum_of [sum_of all]) with (sum_of all + 0).
    destruct (sum_map_le snd (sum_of sizes) (reports_from 0 0 sizes)) as [_ Hle].
    { eapply Forall_impl; [exact Hf|cbn; lia]. }
    assert (len (reports_from 0 0 sizes) ≤ len sizes) by (unfold len; lia).
    pose proof (len_nonneg (reports_from 0 0 sizes)). unfold SIZE_MAX, MESSAGES_MAX in *. nia.
  - intros [] s' ->. exact Hsumf.
Qed.

(** What [latency_test] records as a round trip is the time since the server
    stamped its answer: the client's own stamp comes after it in the message and
    is not looked at.  With the server's clock ahead, the subtraction overflows. *)
Theorem sample_ignores_own_stamp timestamp own test_data now s :
  in_u 64 timestamp → in_u 64 now →
  let data := perf_response timestamp (test_message own test_data) in
  sent_timestamp data = timestamp ∧
  (now < timestamp → overflow_checks = true → (on_received (inr data) now s).1 = Panicked OverflowPanic).
Proof.
  intros Ht Hn data.
  assert (Hstamp : sent_timestamp data = timestamp).
  { unfold sent_timestamp, data, perf_response. rewrite take_app_length' by (by rewrite length_le_bytes).
    by apply le_val_le_bytes. }
  split; [done|]. intros Hlt Hov. unfold on_received.
  assert (Hlen : 8 ≤ len data).
  { unfold data, perf_response. rewrite len_app. unfold len at 1. rewrite length_le_bytes. pose proof (len_nonneg (test_message own test_data)). lia. }
  destruct (Z.leb_spec 8 (len data)); [|lia]. unfold take_sample. rewrite Hstamp. unfold mbind, M_bind, usub, arith.
  destruct (Z.leb_spec 0 (now - timestamp)); [lia|]. cbn. by rewrite Hov.
Qed.
End PerfTheorems.

Lemma latency_figures_witness :
  ∃ s, (forM [5; 3; 9] (add_sample (prof := debug_build));; percentile (prof := debug_build) (λ n, 1%nat)) LatencyStats_new = (Ok 5, s) ∧
    latency_ok [5; 3; 9] s.
Proof.
  pose proof (latency_figures (prof := debug_build) (λ n, 1%nat) [5; 3; 9]
    ltac:(repeat constructor; vm_compute; congruence) ltac:(discriminate)) as H.
  eexists. split; [vm_compute; reflexivity|]. exact (proj1 (wp_ok _ _ _ _ _ _ _ H ltac:(vm_compute; reflexivity))).
Defined.

(** 2000 messages are counted as 5000. *)
Lemma monitor_total_witness :
  ∃ s s', session_counts (prof := debug_build) (repeat 100 2000) None (Build_SessionStats 0 0 []) = (Ok tt, s) ∧
    stats_monitor (prof := debug_build) (sn_reports s) ServerStats_new = (Ok tt, s') ∧ total_messages s' = 5000.
Proof.
  pose proof (monitor_total (prof := debug_build) (repeat 100 2000) None) as H. cbv zeta in H.
  assert (H1 : Forall (λ n, 0 ≤ n ≤ SIZE_MAX) (repeat 100 2000 ++ option_list None)).
  { rewrite app_nil_r. apply Forall_forall. intros x Hx. apply list_elem_of_In, repeat_spec in Hx as ->. unfold SIZE_MAX. lia. }
  specialize (H H1 ltac:(vm_compute; congruence)).
  eexists _, _. split; [vm_compute; reflexivity|]. split; [vm_compute; reflexivity|].
  pose proof (wp_ok _ _ _ _ _ _ _ H ltac:(vm_compute; reflexivity)) as H2. cbv beta in H2.
  exact (wp_ok _ _ _ _ _ _ _ H2 ltac:(vm_compute; reflexivity)).
Defined.

Lemma sample_ignores_own_stamp_witness :
  sent_timestamp (perf_response 2000 (test_message 1000 [x61])) = 2000 ∧
  (on_received (prof := debug_build) (inr (perf_response 2000 (test_message 1000 [x61]))) 1990 ClientStats_new).1 = Panicked OverflowPanic.
Proof.
  destruct (sample_ignores_own_stamp (prof := debug_build) 2000 1000 [x61] 1990 ClientStats_new
    ltac:(split; vm_compute; congruence) ltac:(split; vm_compute; congruence)) as [H1 H2].
  split; [exact H1|]. apply H2; [vm_compute|]; reflexivity.
Defined.
