(* ===== verification/Client.v ===== *)
(** examples/simple_echo.rs, [run_client], and the client in examples/issue5_repro.rs: a client that
    sends a message, reads the answer and compares the two, over and over.

    Like [handle_client] ([Echo]) it is a state machine over the polls of its
    stream.  The stream is read once for each message, so the check relies on
    messages arriving as they were sent, neither split nor joined: the theorem
    is that between the two programs, in message mode, it never fails. *)
From S2P Require Import Prelude Monad Protocol Error Config Engine Output Send Recv Ack Input Flush Frame Safety Actor Stream History Link Duplex EndToEnd Echo.

(** * The clients *)

(** What the clients send; an ASCII string is its bytes. *)
Definition messages : list bytes := map String.list_byte_of_string
  ["Hello, KCP!"; "This is a test message"; "How are you doing?"; "KCP is working great!"; "Final test message"]%string.

(** The size of the read buffer. *)
Definition ROOM : Z := 1024.

(** simple_echo.rs logs a mismatch and goes on; issue5_repro.rs returns on one, and
    also when an answer takes more than five seconds. *)
Inductive program := SimpleEcho | Issue5.
Definition gives_up (p : program) : bool := match p with SimpleEcho => false | Issue5 => true end.

(** The configurations they connect with. *)
Section Configs.
Context {f32 : Type}.
Definition client_config (p : program) : KcpConfig (f32 := f32) :=
  set_mtu 1400 (window_size 128 128
    match p with
    | SimpleEcho => fast_mode KcpConfig_default
    | Issue5 => nodelay_config (NodeDelayConfig_custom false 100 0 false) KcpConfig_default
    end).
End Configs.

(** Where the program is in its [for] loop: in [write_all] with what is left to
    write, in [flush], in [read], in [sleep], or it has returned, with an error or
    not. *)
Inductive stage := Sending (rest : bytes) | Draining | Receiving | Sleeping | Ended (ok : bool).

(** The messages still to be answered, and those that were, with their answers. *)
Record ClientTask := { ct_todo : list bytes; ct_stage : stage; ct_log : list (bytes * bytes) }.
#[export] Instance ClientTask_eta : Eta ClientTask := λ c, Build_ClientTask (ct_todo c) (ct_stage c) (ct_log c).

(** The next turn of the [for] loop. *)
Definition next_message (todo : list bytes) : stage :=
  match todo with
  | [] => Ended true
  | [] :: _ => Draining
  | m :: _ => Sending m
  end.
Definition run_client (todo : list bytes) : ClientTask := Build_ClientTask todo (next_message todo) [].

(** The answer to the first message of [todo] was read. *)
Definition answered (p : program) (response : bytes) (c : ClientTask) : ClientTask :=
  match ct_todo c with
  | [] => c
  | m :: todo =>
      Build_ClientTask todo (if gives_up p && bool_decide (response ≠ m) then Ended true else Sleeping)
        (ct_log c ++ [(m, response)])
  end.

(** The task is polled; [elapsed]: the timer it waits for, if any, has gone off.
    The other arguments are how the stream's channels answer. *)
Definition poll_task (p : program) (chan : poll (option bytes)) (tr : try_result) (fut : poll (io_error_kind + ()))
    (elapsed : bool) (e : Station * ClientTask) : Station * ClientTask :=
  let '(t, c) := e in
  match ct_stage c with
  | Sending rest =>
      let '(r, k) := poll_write rest tr fut (t_stream t) in
      (set_stream t k,
       match r with
       | Pending => c
       | Ready (inl _) => c <| ct_stage := Ended false |>
       | Ready (inr n) =>
           if n =? 0 then c <| ct_stage := Ended false |>
           else if is_empty (drop (Z.to_nat n) rest) then c <| ct_stage := Draining |>
           else c <| ct_stage := Sending (drop (Z.to_nat n) rest) |>
       end)
  | Draining =>
      let '(r, k) := poll_flush fut (t_stream t) in
      (set_stream t k,
       match r with
       | Pending => c
       | Ready (inl _) => c <| ct_stage := Ended false |>
       | Ready (inr _) => c <| ct_stage := Receiving |>
       end)
  | Receiving =>
      (read_into t ROOM chan,
       match (poll_read ROOM chan (t_stream t)).1 with
       | Ready response => answered p response c
       | Pending => if gives_up p && elapsed then c <| ct_stage := Ended true |> else c
       end)
  | Sleeping => (t, if elapsed then c <| ct_stage := next_message (ct_todo c) |> else c)
  | Ended _ => e
  end.

(** Up to the end of the stream, which reads as an empty answer, every answer is
    the message. *)
Fixpoint verified (log : list (bytes * bytes)) : Prop :=
  match log with
  | [] => True
  | (m, r) :: log => r = [] ∨ r = m ∧ verified log
  end.

(** * A client and its server *)

Section Talking.
Context {api : BytesApi} {f32 : Type} (conf_a conf_b : KcpConfig (f32 := f32)) (ha hb : Host).
Context (p : program) (all : list bytes).

Inductive task_step (h : Host) (net : list bytes) : Station * ClientTask → Station * ClientTask → Prop :=
  | task_actor a a' k n r c :
      actor_step h net a a' → a_taken a' `prefix_of` k_sent k →
      task_step h net (Build_Station a k n r, c) (Build_Station a' k n r, c)
  | task_polled chan tr fut elapsed t c :
      yields t chan → task_step h net (t, c) (poll_task p chan tr fut elapsed (t, c)).

(** The stream's application has not done anything yet. *)
Definition unused (t : Station) : Prop := untouched t ∧ k_read_buf (t_stream t) = [] ∧ t_next t = 0%nat.

(** Two connected streams, with this client at one end and [handle_client] at the
    other. *)
Inductive talking : Pair → ClientTask → phase → Prop :=
  | talking_start pr :
      connected ha hb conf_a conf_b pr → unused (end_a pr) → unused (end_b pr) → talking pr (run_client all) Reading
  | talking_client a a' b c c' ph :
      talking (Build_Pair a b) c ph → task_step ha (a_wire (t_actor b)) (a, c) (a', c') →
      talking (Build_Pair a' b) c' ph
  | talking_server a b b' c ph ph' :
      talking (Build_Pair a b) c ph → client_step echo_client echo_answer hb (a_wire (t_actor a)) (b, ph) (b', ph') →
      talking (Build_Pair a b') c ph'.
End Talking.

(** * What each end has done *)

(** Every read takes a whole message. *)
Record whole (t : Station) (reads : list bytes) : Prop := {
  wh_reads : reads = take (t_next t) (a_data (t_actor t));
  wh_buf : k_read_buf (t_stream t) = [];
}.

Lemma whole_length t reads : (t_next t ≤ length (a_data (t_actor t)))%nat → whole t reads → length reads = t_next t.
Proof. intros Hn [-> _]. rewrite length_take. lia. Qed.

Lemma whole_actor a a' k n r reads :
  (n ≤ length (a_data a))%nat → a_data a `prefix_of` a_data a' →
  whole (Build_Station a k n r) reads → whole (Build_Station a' k n r) reads.
Proof. intros Hn [l Hl] [Hr Hb]. split; [|done]. cbn in *. by rewrite Hl, take_app_le. Qed.

(** A read of a message that fits the buffer. *)
Lemma whole_read t room chan reads :
  whole t reads → yields t chan →
  (∀ d, a_data (t_actor t) !! t_next t = Some d → d ≠ [] ∧ len d ≤ room) →
  match (poll_read room chan (t_stream t)).1 with
  | Ready (x :: l) => a_data (t_actor t) !! t_next t = Some (x :: l) ∧ whole (read_into t room chan) (reads ++ [x :: l])
  | _ => whole (read_into t room chan) reads
  end.
Proof.
  intros [Hr Hb] Hy Hfits. unfold read_into, poll_read, takes, copy_out. rewrite Hb. cbn [is_empty negb andb].
  destruct (k_closed (t_stream t)); cbn [negb andb]; [by split|]. destruct chan as [[d|]|]; cbn in *; [|by split..].
  destruct (Hfits d Hy) as [Hne Hl]. rewrite Hb. cbn [app].
  replace (Z.to_nat (Z.min room (len d))) with (length d) by (unfold len in *; lia). rewrite firstn_all.
  destruct d as [|x d]; [done|]. split; [done|]. split; cbn [t_next t_actor t_stream].
  - by rewrite (take_S_r _ _ _ Hy), Hr.
  - cbn -[drop]. rewrite Hb. by apply (drop_all (x :: d)).
Qed.

Lemma write_buf rest tr fut k : k_read_buf (poll_write rest tr fut k).2 = k_read_buf k.
Proof. unfold poll_write. by repeat case_match. Qed.
Lemma flush_buf fut k : k_read_buf (poll_flush fut k).2 = k_read_buf k.
Proof. unfold poll_flush. by repeat case_match. Qed.
Lemma whole_stream t k reads : k_read_buf k = k_read_buf (t_stream t) → whole t reads → whole (set_stream t k) reads.
Proof. intros Hb [Hr Hn]. split; cbn; [done|by rewrite Hb]. Qed.

(** ** The client *)

(** How far the client is: what it has put in its channel, and what it is
    waiting for. *)
Record tasking (all : list bytes) (t : Station) (c : ClientTask) : Prop := {
  ts_all : all = map fst (ct_log c) ++ ct_todo c;
  ts_mss : 0 < k_mss (t_stream t);
  ts_sent : match ct_stage c with
    | Sending rest =>
        k_sent (t_stream t) = map fst (ct_log c) ∧ head (ct_todo c) = Some rest ∧ writing rest (t_stream t)
    | Draining | Receiving =>
        k_sent (t_stream t) = map fst (ct_log c) ++ take 1 (ct_todo c) ∧ ct_todo c ≠ [] ∧ k_pending_write (t_stream t) = None
    | Sleeping => k_sent (t_stream t) = map fst (ct_log c) ∧ k_pending_write (t_stream t) = None
    | Ended _ => k_sent (t_stream t) `prefix_of` all
    end;
  ts_verified : verified (ct_log c);
}.

(** The stream has not ended yet. *)
Definition clean (c : ClientTask) : Prop := Forall (λ e, e.2 ≠ []) (ct_log c).

Lemma verified_snoc log m r :
  verified log → (Forall (λ e, e.2 ≠ []) log → r = [] ∨ r = m) → verified (log ++ [(m, r)]).
Proof.
  induction log as [|[m' r'] log IH]; cbn; intros Hv H.
  - destruct (H (Forall_nil_2 _)) as [-> | ->]; auto.
  - destruct Hv as [-> | [-> Hv]]; [by left|]. destruct (decide (m' = [])) as [->|Hm]; [by left|]. right. split; [done|].
    apply IH; [done|]. intros Hf. apply H. by constructor.
Qed.

Lemma tasking_sent all t c : tasking all t c → k_sent (t_stream t) `prefix_of` all.
Proof.
  intros [-> _ Hs _]. destruct (ct_stage c) as [rest| | | |ok].
  - destruct Hs as [-> _]. by apply prefix_app_r.
  - destruct Hs as [-> _]. apply prefix_app. exists (drop 1 (ct_todo c)). by rewrite take_drop.
  - destruct Hs as [-> _]. apply prefix_app. exists (drop 1 (ct_todo c)). by rewrite take_drop.
  - destruct Hs as [-> _]. by apply prefix_app_r.
  - done.
Qed.

Section Clients.
Context (p : program) (all : list bytes) (Hsizes : Forall (λ m, m ≠ [] ∧ len m ≤ ROOM) all).

Lemma tasking_next todo log t c :
  all = log ++ todo → k_sent (t_stream t) = log → k_pending_write (t_stream t) = None → 0 < k_mss (t_stream t) →
  ct_todo c = todo → map fst (ct_log c) = log → verified (ct_log c) → ct_stage c = next_message todo → tasking all t c.
Proof.
  intros Ha Hs Hp Hm Ht Hl Hv Hst. split; [by rewrite Hl, Ht|done| |done]. rewrite Hst, Ht, Hl, Hs.
  destruct todo as [|m todo]; cbn; [by rewrite Ha, app_nil_r|].
  assert (Hne : m ≠ []). { rewrite Ha in Hsizes. apply Forall_app in Hsizes as [_ Hf]. by apply Forall_cons in Hf as [[? _] _]. }
  destruct m; [done|]. split_and!; [done..|]. unfold writing. by rewrite Hp.
Qed.

Lemma tasking_write t c rest chan tr fut elapsed :
  tasking all t c → ct_stage c = Sending rest → len rest ≤ k_mss (t_stream t) →
  let e := poll_task p chan tr fut elapsed (t, c) in tasking all e.1 e.2.
Proof.
  intros [Ha Hm Hs Hv] Hst Hl. unfold poll_task. rewrite Hst in *. destruct Hs as (Hs & Hh & Hw).
  pose proof (poll_write_chunk rest tr fut (t_stream t) Hm Hw) as Hc. cbn zeta in Hc.
  assert (Hchunk : take (Z.to_nat (Z.min (len rest) (k_mss (t_stream t)))) rest = rest) by (apply take_ge; unfold len in *; lia).
  rewrite Hchunk in Hc. destruct (ct_todo c) as [|m todo] eqn:Htodo; [done|]. injection Hh as ->.
  assert (Hne : 0 < len rest).
  { rewrite Ha in Hsizes. apply Forall_app in Hsizes as [_ Hf]. apply Forall_cons in Hf as [[Hne _] _]. destruct rest; [done|]. unfold len. cbn. lia. }
  assert (Hpre : map fst (ct_log c) `prefix_of` all) by (rewrite Ha; by apply prefix_app_r).
  destruct (poll_write rest tr fut (t_stream t)) as [[[x|n]|] k]; cbn.
  - destruct Hc as [Em Es]. split; cbn; rewrite ?Em, ?Es, ?Htodo, ?Hs; done.
  - destruct Hc as (Em & -> & Es & Ep). destruct (Z.eqb_spec (len rest) 0); [lia|].
    replace (Z.to_nat (len rest)) with (length rest) by (unfold len; lia). rewrite drop_all. cbn.
    split; cbn; rewrite ?Em, ?Es, ?Htodo, ?Hs; done.
  - destruct Hc as (Em & Es & Ep). split; cbn; rewrite ?Em, ?Es, ?Htodo, ?Hs, ?Hst; try done.
    split_and!; [done..|]. unfold writing. by rewrite Ep, Em, Hchunk.
Qed.

Lemma tasking_flush t c chan tr fut elapsed :
  tasking all t c → ct_stage c = Draining →
  let e := poll_task p chan tr fut elapsed (t, c) in tasking all e.1 e.2.
Proof.
  intros Ht Hst. pose proof (tasking_sent all _ _ Ht) as Hpre. destruct Ht as [Ha Hm Hs Hv]. unfold poll_task. rewrite Hst in *.
  pose proof (flush_only fut (t_stream t)) as Hf. cbn zeta in Hf.
  destruct (poll_flush fut (t_stream t)) as [r k]. destruct Hf as (Es & Ep & Em). cbn in *.
  split; [by destruct r as [[]|]|cbn; by rewrite Em| |by destruct r as [[]|]].
  destruct r as [[?|?]|]; cbn; rewrite ?Hst, ?Es, ?Ep; done.
Qed.

(** An answer: empty at the end of the stream, and otherwise the message. *)
Lemma tasking_read t c chan tr fut elapsed :
  tasking all t c → ct_stage c = Receiving → 
  (∀ x l, (poll_read ROOM chan (t_stream t)).1 = Ready (x :: l) → clean c → head (ct_todo c) = Some (x :: l)) →
  let e := poll_task p chan tr fut elapsed (t, c) in tasking all e.1 e.2.
Proof.
  intros Ht Hst Hans. pose proof (tasking_sent all _ _ Ht) as Hpre. destruct Ht as [Ha Hm Hs Hv]. unfold poll_task. rewrite Hst in *.
  destruct (read_only t ROOM chan) as (Es & Ep & Em & _). destruct Hs as (Hs & Hne & Hp).
  destruct (poll_read ROOM chan (t_stream t)).1 as [r|] eqn:Hr.
  - unfold answered. destruct (ct_todo c) as [|m todo] eqn:Htodo; [done|]. cbn in Hs.
    assert (Hv' : verified (ct_log c ++ [(m, r)])).
    { apply verified_snoc; [done|]. intros Hc. destruct r as [|x l]; [by left|right].
      specialize (Hans x l eq_refl Hc). by injection Hans. }
    split; cbn; rewrite ?map_app, ?Es, ?Ep, ?Em; cbn; [by rewrite <- (assoc (++))|done| |done].
    destruct (_ && _); cbn; [done|]. by rewrite Hs.
  - destruct (_ && _); (split; cbn; rewrite ?Hst, ?Es, ?Ep, ?Em; done).
Qed.

(** Each message on the way to the client fits its buffer. *)
Lemma data_fits t c :
  tasking all t c → a_data (t_actor t) `prefix_of` k_sent (t_stream t) →
  ∀ d, a_data (t_actor t) !! t_next t = Some d → d ≠ [] ∧ len d ≤ ROOM.
Proof.
  intros Ht Hd d Hl. rewrite Forall_forall in Hsizes. apply Hsizes.
  eapply (list_elem_of_lookup_2 _ (t_next t)), prefix_lookup_Some; [|by eapply tasking_sent].
  by eapply prefix_lookup_Some.
Qed.

(** Reading does not touch what was put in the channel, and writing not what was
    read. *)
Lemma polled_whole t c chan tr fut elapsed :
  tasking all t c → (clean c → whole t (map snd (ct_log c))) → yields t chan →
  a_data (t_actor t) `prefix_of` k_sent (t_stream t) →
  let e := poll_task p chan tr fut elapsed (t, c) in clean e.2 → whole e.1 (map snd (ct_log e.2)).
Proof.
  intros Ht Hw Hy Hd. unfold poll_task. destruct (ct_stage c) as [rest| | | |ok] eqn:Hst.
  - pose proof (whole_stream t _ (map snd (ct_log c)) (write_buf rest tr fut (t_stream t))) as Hk.
    destruct (poll_write rest tr fut (t_stream t)) as [r k].
    assert (Hlog : ∀ c', ct_log c' = ct_log c → clean c' → whole (set_stream t k) (map snd (ct_log c'))).
    { unfold clean. intros c' ->. auto. }
    destruct r as [[?|?]|]; [|repeat case_match|]; by refine (Hlog _ eq_refl).
  - pose proof (whole_stream t _ (map snd (ct_log c)) (flush_buf fut (t_stream t))) as Hk.
    destruct (poll_flush fut (t_stream t)) as [r k].
    destruct r as [[?|?]|]; unfold clean in *; cbn; auto.
  - pose proof (data_fits t c Ht Hd) as Hfits.
    pose proof (ts_sent _ _ _ Ht) as Hs. rewrite Hst in Hs. destruct Hs as (_ & Hne & _).
    intros Hcl. cbn [fst snd] in *.
    destruct (poll_read ROOM chan (t_stream t)).1 as [r|] eqn:Hr.
    + unfold answered, clean in *. destruct (ct_todo c) as [|m todo]; [done|]. cbn in *.
      apply Forall_app in Hcl as [Hcl Hrne]. apply Forall_cons in Hrne as [Hrne _].
      pose proof (whole_read t ROOM chan _ (Hw Hcl) Hy Hfits) as Hwr. rewrite Hr in Hwr.
      rewrite map_app. by destruct r as [|x l]; [|apply Hwr].
    + assert (Hlog : clean c ∧ ct_log (if gives_up p && elapsed then c <| ct_stage := Ended true |> else c) = ct_log c).
      { unfold clean in *. by destruct (_ && _). }
      destruct Hlog as [Hc ->]. pose proof (whole_read t ROOM chan _ (Hw Hc) Hy Hfits) as Hwr. by rewrite Hr in Hwr.
  - unfold clean in *. destruct elapsed; cbn; auto.
  - done.
Qed.

Lemma tasking_polled t c chan tr fut elapsed :
  tasking all t c → (clean c → whole t (map snd (ct_log c))) → yields t chan →
  (t_next t ≤ length (a_data (t_actor t)))%nat → Forall (λ m, len m ≤ k_mss (t_stream t)) all →
  a_data (t_actor t) `prefix_of` k_sent (t_stream t) →
  let e := poll_task p chan tr fut elapsed (t, c) in tasking all e.1 e.2.
Proof.
  intros Ht Hw Hy Hn Hm Hd. destruct (ct_stage c) as [rest| | | |ok] eqn:Hst.
  - eapply tasking_write; [done..|]. destruct Ht as [Ha _ Hs _]. rewrite Hst in Hs. destruct Hs as (_ & Hh & _).
    rewrite Ha in Hm. apply Forall_app in Hm as [_ Hm]. destruct (ct_todo c); [done|]. injection Hh as ->. by apply Forall_cons in Hm as [? _].
  - by apply tasking_flush.
  - apply tasking_read; [done..|]. intros x l Hr Hc.
    pose proof (data_fits t c Ht Hd) as Hfits.
    pose proof (whole_read t ROOM chan _ (Hw Hc) Hy Hfits) as Hwr. rewrite Hr in Hwr. destruct Hwr as [Hl _].
    rewrite <- (whole_length _ _ Hn (Hw Hc)), length_map in Hl. eapply prefix_lookup_Some in Hl; [|exact Hd].
    pose proof (ts_sent _ _ _ Ht) as Hs. rewrite Hst in Hs. destruct Hs as (Hs & _).
    rewrite Hs, lookup_app_r in Hl by (by rewrite length_map). rewrite length_map, Nat.sub_diag in Hl.
    by destruct (ct_todo c).
  - unfold poll_task. rewrite Hst. destruct elapsed; [|done]. destruct Ht as [Ha Hmss Hs Hv]. rewrite Hst in Hs.
    destruct Hs as [Hs Hp]. by apply (tasking_next (ct_todo c) (map fst (ct_log c))).
  - unfold poll_task. by rewrite Hst.
Qed.
End Clients.

(** ** The server *)

(** What [handle_client] has written is what it has read, message by message. *)
Record echoing (t : Station) (ph : phase) (chunks : list bytes) : Prop := {
  ec_whole : whole t chunks;
  ec_sent : match ph with
    | Writing rest => ∃ done, chunks = done ++ [rest] ∧ k_sent (t_stream t) = done ∧ writing rest (t_stream t)
    | Done => k_sent (t_stream t) `prefix_of` chunks
    | _ => k_sent (t_stream t) = chunks ∧ k_pending_write (t_stream t) = None
    end;
}.

Lemma echoing_sent t ph chunks : echoing t ph chunks → k_sent (t_stream t) `prefix_of` chunks.
Proof.
  intros [_ Hs]. destruct ph as [|rest| |]; [by destruct Hs as [-> _]| |by destruct Hs as [-> _]|done].
  destruct Hs as (d & -> & -> & _). by apply prefix_app_r.
Qed.

Lemma echoing_read respond chan t chunks :
  echoing t Reading chunks → yields t chan → (∀ data, respond data = data) →
  (∀ d, a_data (t_actor t) !! t_next t = Some d → d ≠ [] ∧ len d ≤ ROOM) →
  let e := poll_client echo_client respond chan TryOk Pending (t, Reading) in ∃ chunks', echoing e.1 e.2 chunks'.
Proof.
  intros [Hw [Hs Hp]] Hy Hresp Hfits. destruct (read_only t (hc_room echo_client) chan) as (Es & Ep & Em & _).
  pose proof (whole_read t ROOM chan chunks Hw Hy Hfits) as Hr. cbn [poll_client]. change (hc_room echo_client) with ROOM in *.
  destruct (poll_read ROOM chan (t_stream t)).1 as [[|x l]|]; cbn.
  - exists chunks. split; [done|]. cbn. by rewrite Es, Hs.
  - destruct Hr as [_ Hr]. rewrite Hresp. exists (chunks ++ [x :: l]). split; [done|]. cbn. exists chunks.
    rewrite Es, Hs. split_and!; [done..|]. unfold writing. by rewrite Ep, Hp.
  - exists chunks. split; [done|]. cbn. by rewrite Es, Ep, Hs.
Qed.

Lemma echoing_write respond tr fut t rest chunks :
  echoing t (Writing rest) chunks → 0 < k_mss (t_stream t) → rest ≠ [] → len rest ≤ k_mss (t_stream t) →
  let e := poll_client echo_client respond Pending tr fut (t, Writing rest) in echoing e.1 e.2 chunks.
Proof.
  intros [Hw (sent & Hc & Hs & Hwr)] Hm Hne Hl. cbn [poll_client].
  pose proof (poll_write_chunk rest tr fut (t_stream t) Hm Hwr) as Hk. cbn zeta in Hk.
  assert (Hchunk : take (Z.to_nat (Z.min (len rest) (k_mss (t_stream t)))) rest = rest) by (apply take_ge; unfold len in *; lia).
  assert (Hpos : 0 < len rest) by (destruct rest; [done|unfold len; cbn; lia]). rewrite Hchunk in Hk.
  pose proof (whole_stream t _ chunks (write_buf rest tr fut (t_stream t)) Hw) as Hw'.
  destruct (poll_write rest tr fut (t_stream t)) as [[[x|n]|] k]; cbn in Hw' |- *.
  - destruct Hk as [Em Es]. split; [done|]. cbn. rewrite Es, Hs, Hc. by apply prefix_app_r.
  - destruct Hk as (Em & -> & Es & Ep). destruct (Z.eqb_spec (len rest) 0); [lia|].
    replace (Z.to_nat (len rest)) with (length rest) by (unfold len; lia). rewrite drop_all. cbn.
    split; [done|]. cbn. by rewrite Es, Ep, Hs, Hc.
  - destruct Hk as (Em & Es & Ep). split; [done|]. cbn. exists sent.
    rewrite Es. split_and!; [done..|]. unfold writing. by rewrite Ep, Em, Hchunk.
Qed.

Lemma echoing_flush respond fut t chunks :
  echoing t Flushing chunks →
  let e := poll_client echo_client respond Pending TryOk fut (t, Flushing) in echoing e.1 e.2 chunks.
Proof.
  intros [Hw [Hs Hp]]. cbn [poll_client]. pose proof (flush_only fut (t_stream t)) as Hf. cbn zeta in Hf.
  pose proof (whole_stream t _ chunks (flush_buf fut (t_stream t)) Hw) as Hw'.
  destruct (poll_flush fut (t_stream t)) as [r k]. destruct Hf as (Es & Ep & _). cbn in *.
  split; [done|]. destruct r as [[?|?]|]; cbn; rewrite ?Es, ?Ep, ?Hs; done.
Qed.

Lemma echoing_polled respond chan tr fut t ph chunks :
  echoing t ph chunks → yields t chan → (∀ data, respond data = data) → 0 < k_mss (t_stream t) →
  Forall (λ d, d ≠ [] ∧ len d ≤ ROOM ∧ len d ≤ k_mss (t_stream t)) (a_data (t_actor t)) →
  let e := poll_client echo_client respond chan tr fut (t, ph) in ∃ chunks', echoing e.1 e.2 chunks'.
Proof.
  intros He Hy Hresp Hm Hd. rewrite Forall_forall in Hd. destruct ph as [|rest| |].
  - apply (echoing_read respond chan t chunks); [done..|]. intros d Hl.
    destruct (Hd d) as (? & ? & _); [by eapply list_elem_of_lookup_2|done].
  - exists chunks. destruct (Hd rest) as (? & _ & ?); [|by apply (echoing_write respond tr fut t rest chunks)].
    destruct He as [[Hr _] (sent & Hc & _)]. apply (subseteq_take (t_next t)).
    rewrite <- Hr, Hc. apply elem_of_app. right. by apply list_elem_of_singleton.
  - exists chunks. by apply (echoing_flush respond fut t chunks).
  - by exists chunks.
Qed.

(** ** Together *)

Section TalkingFacts.
Context {api : BytesApi} {spec : BytesApiSpec api} {f32 : Type} (conf_a conf_b : KcpConfig (f32 := f32)) (ha hb : Host).
Context (p : program) (all : list bytes).

(** The messages fit everything they go through, and the connection keeps them
    apart. *)
Record fitting : Prop := {
  ft_sizes : Forall (λ m, m ≠ [] ∧ len m ≤ ROOM ∧ len m ≤ stream_mss conf_a ∧ len m ≤ stream_mss conf_b) all;
  ft_total : len (concat all) ≤ H31;
  ft_mode : stream_mode conf_a = false ∧ stream_mode conf_b = false;
}.
Context (Hfit : fitting).
Abbreviation talking := (talking conf_a conf_b ha hb p all).

Lemma task_station h net e e' : task_step p h net e e' → station_step h net e.1 e'.1 ∨ e'.1 = e.1.
Proof.
  intros [a a' k n r c Ha Hk|chan tr fut elapsed t c Hy]; [left; by apply station_actor|].
  unfold poll_task. destruct (ct_stage c) as [rest| | | |ok].
  - left. pose proof (call_write rest tr fut (t_stream t)) as Hc. destruct (poll_write rest tr fut (t_stream t)) as [r k].
    destruct t. by apply station_call.
  - left. pose proof (call_flush fut (t_stream t)) as Hc. destruct (poll_flush fut (t_stream t)) as [r k].
    destruct t. by apply station_call.
  - left. by apply station_read.
  - by right.
  - by right.
Qed.

Lemma talking_conversing pr c ph : talking pr c ph → conversing conf_a conf_b ha hb echo_client echo_answer pr ph.
Proof.
  induction 1 as [pr Hp _ [Hb _]|a a' b c c' ph _ IH Hs|a b b' c ph ph' _ IH Hs].
  - by apply conversing_start.
  - destruct (task_station _ _ _ _ Hs) as [Hst|Heq]; cbn in *; [by eapply conversing_client|by rewrite Heq].
  - by eapply conversing_server.
Qed.

(** Both ends have done what they should. *)
Record agreed (pr : Pair) (c : ClientTask) (ph : phase) : Prop := {
  ag_client : tasking all (end_a pr) c;
  ag_reads : clean c → whole (end_a pr) (map snd (ct_log c));
  ag_server : ∃ chunks, echoing (end_b pr) ph chunks;
}.

Lemma talking_modest pr c ph : talking pr c ph → agreed pr c ph → modest_writes pr.
Proof.
  intros Ht [Hc _ _]. pose proof (talking_conversing _ _ _ Ht) as Hcv.
  assert (Ha : len (written (end_a pr)) ≤ H31).
  { destruct (tasking_sent all _ _ Hc) as [l Hl]. pose proof (ft_total Hfit) as Hl'. rewrite Hl, concat_app, len_app in Hl'.
    unfold written. pose proof (len_nonneg (concat l)). lia. }
  split; [done|]. eapply (echo_modest _ _ _ _ echo_client echo_answer); [|exact Hcv|done]. by intros ? ? ->.
Qed.

(** What is in the server's channel was sent by the client, and what is in the
    client's by the server. *)
Lemma nonempty_all l : l `prefix_of` all → nonempty l = l.
Proof.
  intros [l' Hl]. pose proof (ft_sizes Hfit) as Hs. rewrite Hl in Hs. apply Forall_app in Hs as [Hs _].
  clear Hl. induction Hs as [|m l (Hne & _) _ IH]; [done|]. rewrite filter_cons_True by done. by f_equal.
Qed.

Lemma data_at_server pr c ph : talking pr c ph → agreed pr c ph → a_data (t_actor (end_b pr)) `prefix_of` k_sent (t_stream (end_a pr)).
Proof.
  intros Ht Hg. pose proof (talking_conversing _ _ _ Ht) as Hc%conversing_connected.
  pose proof (path_messages _ _ _ _ pr _ _ conf_a Hc (talking_modest _ _ _ Ht Hg) (or_introl (conj eq_refl eq_refl))
    (pk_a _ _ _ _ _ (connected_ok _ _ _ _ _ Hc)) (proj1 (ft_mode Hfit))) as H.
  rewrite nonempty_all in H; [done|]. eapply tasking_sent, Hg.
Qed.

Lemma data_at_client pr c ph : talking pr c ph → agreed pr c ph → a_data (t_actor (end_a pr)) `prefix_of` k_sent (t_stream (end_a pr)).
Proof.
  intros Ht Hg. pose proof (data_at_server _ _ _ Ht Hg) as Hb. pose proof (tasking_sent all _ _ (ag_client _ _ _ Hg)) as Ha.
  pose proof (talking_conversing _ _ _ Ht) as Hc%conversing_connected.
  pose proof (path_messages _ _ _ _ pr _ _ conf_b Hc (talking_modest _ _ _ Ht Hg) (or_intror (conj eq_refl eq_refl))
    (pk_b _ _ _ _ _ (connected_ok _ _ _ _ _ Hc)) (proj2 (ft_mode Hfit))) as H.
  destruct (ag_server _ _ _ Hg) as [chunks He]. pose proof (echoing_sent _ _ _ He) as Hs.
  assert (Hch : chunks `prefix_of` a_data (t_actor (end_b pr))).
  { destruct He as [[-> _] _]. eexists. by rewrite take_drop. }
  assert (Hsb : k_sent (t_stream (end_b pr)) `prefix_of` k_sent (t_stream (end_a pr))) by (by etrans; [|etrans]).
  rewrite nonempty_all in H by (by etrans). by etrans.
Qed.

(** ** It stays so *)

Lemma fitting_prefix l : l `prefix_of` all →
  Forall (λ m, m ≠ [] ∧ len m ≤ ROOM ∧ len m ≤ stream_mss conf_a ∧ len m ≤ stream_mss conf_b) l.
Proof. intros [k Hk]. pose proof (ft_sizes Hfit) as Hs. rewrite Hk in Hs. by apply Forall_app in Hs as [? _]. Qed.

Lemma agreed_server a c e e' :
  client_step echo_client echo_answer hb (a_wire (t_actor a)) e e' →
  talking (Build_Pair a e.1) c e.2 → agreed (Build_Pair a e.1) c e.2 → agreed (Build_Pair a e'.1) c e'.2.
Proof.
  intros Hs Ht Hg. pose proof (data_at_server _ _ _ Ht Hg) as Hd. pose proof Hg as [Hc Hr [chunks He]]. cbn in *. split; [done..|].
  pose proof (connected_ok _ _ _ _ _ (conversing_connected _ _ _ _ _ _ _ _ (talking_conversing _ _ _ Ht))) as [_ [Vb Cb] Hdu _ Pb].
  pose proof (duplex_good _ _ _ Hdu) as [_ Gb _].
  destruct Hs as [a0 a' k n r ph Ha Hk|respond chan tr fut b ph Hy Hresp]; cbn in *.
  - exists chunks. destruct He as [Hw He]. split; [|done].
    apply (whole_actor a0); [apply Pb| |done]. by eapply station_data.
  - assert (Hm : k_mss (t_stream b) = stream_mss conf_b) by apply Pb.
    apply (echoing_polled respond chan tr fut b ph chunks He Hy Hresp).
    + rewrite Hm. unfold stream_mss. lia.
    + rewrite Hm. eapply Forall_impl; [apply fitting_prefix; etrans; [exact Hd|by eapply tasking_sent]|].
      cbn. intros m (? & ? & ? & ?). by split_and!.
Qed.

Lemma agreed_client b ph e e' :
  task_step p ha (a_wire (t_actor b)) e e' →
  talking (Build_Pair e.1 b) e.2 ph → agreed (Build_Pair e.1 b) e.2 ph → agreed (Build_Pair e'.1 b) e'.2 ph.
Proof.
  intros Hs Ht Hg. pose proof (data_at_client _ _ _ Ht Hg) as Hd. pose proof Hg as [Hc Hr He].
  pose proof (connected_ok _ _ _ _ _ (conversing_connected _ _ _ _ _ _ _ _ (talking_conversing _ _ _ Ht))) as [[Va Ca] _ Hdu Pa _].
  pose proof (duplex_good _ _ _ Hdu) as [Ga _ _].
  pose proof (ft_sizes Hfit) as Hsz. destruct Hs as [a0 a' k n r c Ha Hk|chan tr fut elapsed a c Hy]; cbn [fst snd end_a end_b] in *.
  - destruct Hc as [H1 H2 H3 H4]. split; [by split|intros Hcl|done].
    apply (whole_actor a0); [apply Pa|by eapply station_data|by apply Hr].
  - assert (Hm : k_mss (t_stream a) = stream_mss conf_a) by apply Pa.
    assert (Hroom : Forall (λ m, m ≠ [] ∧ len m ≤ ROOM) all) by (eapply Forall_impl; [exact Hsz|]; by intros ? (? & ? & _)).
    split; [|by apply (polled_whole p all Hroom)|done].
    apply (tasking_polled p all Hroom); [done..|apply Pa| |done].
    rewrite Hm. eapply Forall_impl; [exact Hsz|]. by intros ? (_ & _ & ? & _).
Qed.

Lemma talking_agreed pr c ph : talking pr c ph → agreed pr c ph.
Proof.
  intros Ht. enough (talking pr c ph ∧ agreed pr c ph) by tauto.
  induction Ht as [pr Hp Ua Ub|a a' b c c' ph _ [Ht Hg] Hs|a b b' c ph ph' _ [Ht Hg] Hs].
  - split; [by apply talking_start|]. pose proof (connected_ok _ _ _ _ _ Hp) as [_ _ _ Pa Pb].
    destruct Ua as ((Ra & Sa & Ka) & Ba & Na), Ub as ((Rb & Sb & Kb) & Bb & Nb). split.
    + apply (tasking_next all ltac:(eapply Forall_impl; [apply (ft_sizes Hfit)|]; by intros ? (? & ? & _)) all []); try done.
      rewrite (so_mss _ _ Pa). unfold stream_mss. lia.
    + intros _. split; [by rewrite Na|done].
    + exists []. split; [split; [by rewrite Nb|done]|done].
  - split; [by eapply talking_client|]. by apply (agreed_client b ph (a, c) (a', c')).
  - split; [by eapply talking_server|]. by apply (agreed_server a c (b, ph) (b', ph')).
Qed.
End TalkingFacts.

(** * Theorems *)

Lemma verified_clean log : verified log → Forall (λ e, e.2 ≠ []) log → map snd log = map fst log.
Proof.
  intros Hv Hc. induction Hc as [|[m r] log Hr _ IH]; [done|]. cbn in *. destruct Hv as [?|[-> Hv]]; [done|]. by rewrite IH.
Qed.

(** The programs' own messages fit any valid configuration, and neither program
    asks for stream mode. *)
Lemma messages_fitting {f32} (conf_a conf_b : KcpConfig (f32 := f32)) :
  validate conf_a = inr () → validate conf_b = inr () → core_config_ok (KcpCoreConfig_from conf_a) →
  core_config_ok (KcpCoreConfig_from conf_b) → stream_mode conf_a = false → stream_mode conf_b = false →
  fitting conf_a conf_b messages.
Proof.
  intros Va Vb Ca Cb Ma Mb. apply validate_ok in Va; [|done]. apply validate_ok in Vb; [|done].
  pose proof (v_mtu _ Va) as Ha. pose proof (v_mtu _ Vb) as Hb. cbn in Ha, Hb. split; [|vm_compute; congruence|done].
  assert (Hl : Forall (λ m, m ≠ [] ∧ len m ≤ 40) messages) by (repeat constructor; done || (vm_compute; congruence)).
  eapply Forall_impl; [exact Hl|]. intros m [Hne Hm]. unfold ROOM, stream_mss, saturating_sub, IKCP_OVERHEAD. split_and!; [done|lia..].
Qed.
Lemma client_configs {f32} (p : program) :
  validate (client_config (f32 := f32) p) = inr () ∧ stream_mode (client_config (f32 := f32) p) = false ∧
  stream_mode (KcpConfig_realtime (f32 := f32)) = false.
Proof. by destruct p. Qed.

Section ClientTheorems.
Context {api : BytesApi} {spec : BytesApiSpec api} {f32 : Type} (conf_a conf_b : KcpConfig (f32 := f32)) (ha hb : Host).

(** C9: the check the clients of simple_echo.rs and issue5_repro.rs make never
    fails: between either of them and [handle_client], over any network, every
    answer is the message it answers, up to the end of the stream, and nothing
    else has been read.  It rests on messages being neither split nor joined, so
    the connection must not be in stream mode. *)
Theorem echo_verified p all pr c ph :
  fitting conf_a conf_b all → talking conf_a conf_b ha hb p all pr c ph →
  verified (ct_log c) ∧ map fst (ct_log c) ++ ct_todo c = all ∧
  (Forall (λ e, e.2 ≠ []) (ct_log c) → t_read (end_a pr) = concat (map fst (ct_log c))).
Proof.
  intros Hf Ht. pose proof (talking_agreed _ _ _ _ _ _ Hf _ _ _ Ht) as [Hc Hr _].
  split_and!; [apply Hc|symmetry; apply Hc|]. intros Hcl. rewrite <- (verified_clean _ (ts_verified _ _ _ Hc) Hcl).
  destruct (Hr Hcl) as [-> Hb].
  pose proof (connected_ok _ _ _ _ _ (conversing_connected _ _ _ _ _ _ _ _ (talking_conversing _ _ _ _ _ _ _ _ _ Ht))) as Hok.
  pose proof (so_read _ _ (pk_a _ _ _ _ _ Hok)) as Hread. by rewrite Hb, app_nil_r in Hread.
Qed.
End ClientTheorems.

(** * A run *)

Module ClientSample.
Import PathSample EchoSample.

(** The client's task is polled, with its channels open, or its actor sees an
    event. *)
Definition task_does (p : program) (net : list bytes) (e : Station * ClientTask) (x : served) : option (Station * ClientTask) :=
  match x with
  | Polled =>
      let chan := match a_data (t_actor e.1) !! t_next e.1 with Some d => Ready (Some d) | None => Pending end in
      Some (poll_task p chan TryOk (Ready (inr tt)) true e)
  | Seen (EvPacket (Some _) _) => None
  | Seen ev => t ← turned host_a e.1 ev; Some (t, e.2)
  | Arrived i permits => d ← net !! i; t ← turned host_a e.1 (EvPacket (Some d) permits); Some (t, e.2)
  end.

Lemma turned_task p net ev e t :
  (∀ d permits, ev = EvPacket (Some d) permits → d ∈ net) → turned host_a e.1 ev = Some t →
  task_step (api := bytes_le) p host_a net e (t, e.2).
Proof.
  unfold turned. intros Hev H. destruct (run_actor _ _ _) as [[fl|?|?] a'] eqn:Hr; [|done..].
  case_decide; [|done]. injection H as <-. destruct e as [[a k n r] c]. apply task_actor; [|done].
  eapply (actor_turn _ _ ev fl); [|exact Hr]. intros d permits ->. left. by eapply Hev.
Qed.

Lemma task_does_step p net e x e' : task_does p net e x = Some e' → task_step (api := bytes_le) p host_a net e e'.
Proof.
  destruct x as [|ev|i permits]; cbn; intros H.
  - injection H as <-. destruct e as [t c]. apply task_polled. cbn. unfold yields. by destruct (a_data (t_actor t) !! t_next t) eqn:E.
  - assert (Hev : ∃ t, turned host_a e.1 ev = Some t ∧ e' = (t, e.2) ∧ ∀ d permits, ev = EvPacket (Some d) permits → d ∈ net).
    { destruct ev as [| |[d|] permits|]; try done;
        (destruct (turned host_a e.1 _) as [t|] eqn:Ht; [|done]; injection H as <-; by exists t). }
    destruct Hev as (t & Ht & -> & Hev). by eapply turned_task.
  - destruct (net !! i) as [d|] eqn:Hi; [|done]. cbn in H.
    destruct (turned host_a e.1 _) as [t|] eqn:Ht; [|done]. injection H as <-. eapply turned_task; [|exact Ht].
    intros d' permits' [= <- <-]. by eapply list_elem_of_lookup_2.
Qed.

Definition world : Type := Pair * ClientTask * phase.
Definition does (p : program) (w : world) (x : served + served) : option world :=
  let '(pr, c, ph) := w in
  match x with
  | inl x => '(a, c) ← task_does p (a_wire (t_actor (end_b pr))) (end_a pr, c) x; Some (Build_Pair a (end_b pr), c, ph)
  | inr x => '(b, ph) ← serve echo_client id (a_wire (t_actor (end_a pr))) (end_b pr, ph) x; Some (Build_Pair (end_a pr) b, c, ph)
  end.
Fixpoint runs (p : program) (w : world) (xs : list (served + served)) : option world :=
  match xs with [] => Some w | x :: xs => w ← does p w x; runs p w xs end.

Abbreviation talks p all w := (talking (api := bytes_le) conf conf host_a host_b p all w.1.1 w.1.2 w.2).
Lemma runs_talking p all xs : ∀ w w', talks p all w → runs p w xs = Some w' → talks p all w'.
Proof.
  induction xs as [|x xs IH]; intros w w' Hw Hr; cbn in Hr; [by injection Hr as <-|].
  destruct (does p w x) as [w1|] eqn:H1; [|done]. apply (IH w1); [|done].
  destruct w as [[[a b] c] ph], x as [x|x]; unfold does in H1; cbn in H1.
  - destruct (task_does p _ (a, c) x) as [[a' c']|] eqn:Ha; [|done]. injection H1 as <-.
    eapply talking_client; [exact Hw|]. by eapply task_does_step.
  - destruct (serve echo_client id _ (b, ph) x) as [[b' ph']|] eqn:Hb; [|done]. injection H1 as <-.
    eapply talking_server; [exact Hw|]. by eapply (serve_step _ _ id).
Qed.

(** The client writes and flushes, the server reads, answers and flushes, the
    client reads. *)
Definition start : world := (pair0, run_client messages, Reading).
Definition first : bytes := default [] (head messages).
Definition script : list (served + served) :=
  [inl Polled; inl Polled; inl (Seen (EvSend (Some first) [])); inr (Arrived 0 4); inr Polled; inr Polled; inr Polled;
   inr (Seen (EvSend (Some first) [])); inl (Arrived 0 4); inl (Arrived 1 4); inl Polled].
Definition finished : world := default start (runs Issue5 start script).

Lemma start_talking p : talks p messages start.
Proof.
  apply talking_start; [apply reached_connected; vm_compute; reflexivity|by split_and!; vm_compute..].
Qed.
Lemma finished_talking : talks Issue5 messages finished.
Proof. apply (runs_talking Issue5 messages script start); [apply start_talking|vm_compute; reflexivity]. Qed.
Lemma sample_fitting : fitting conf conf messages.
Proof. apply messages_fitting; try reflexivity; exact StreamSample.stream_config_ok. Qed.
End ClientSample.

Lemma echo_verified_witness :
  verified (ct_log ClientSample.finished.1.2) ∧ ct_log ClientSample.finished.1.2 = [(ClientSample.first, ClientSample.first)].
Proof.
  destruct (echo_verified (api := bytes_le) PathSample.conf PathSample.conf PathSample.host_a PathSample.host_b
    Issue5 messages _ _ _ ClientSample.sample_fitting ClientSample.finished_talking) as [H _].
  split; [exact H|vm_compute; reflexivity].
Defined.
