(* ===== verification/Bench.v ===== *)
(** benches/kcp_bench.rs: two engines in one thread, the datagrams of one handed to the
    other without loss.

    A benchmark sends its messages, runs rounds of updates, flushes and
    transfers, reads what has arrived, and asserts that it was everything.  The
    two engines form a link ([Link]), so what they count is bounded by what was
    sent, and is all of it as soon as the sender has nothing outstanding. *)
From S2P Require Import Prelude Monad Protocol Error Config Engine Output Send Recv Ack Input Flush Frame Safety History Link Progress.

(** * The benchmark *)

(** The two engines, each with its readings of the clock. *)
Record Bench := { kcp1 : St; kcp2 : St }.

Section Benchmark.
Context {prof : Profile} {api : BytesApi}.

(** The clock, as each engine reads it, and a computation on both engines. *)
Context (clk1 clk2 : Clock).
Abbreviation BM := (M Bench KcpCoreError).
Inductive side := First | Second.
Definition other (i : side) : side := match i with First => Second | Second => First end.
Definition clk_of (i : side) : Clock := match i with First => clk1 | Second => clk2 end.
Definition kcp (i : side) (b : Bench) : St := match i with First => kcp1 b | Second => kcp2 b end.
Definition with_kcp (i : side) (s : St) (b : Bench) : Bench :=
  match i with First => Build_Bench s (kcp2 b) | Second => Build_Bench (kcp1 b) s end.

(** A call of one of the engines. *)
Definition on {A} (i : side) (m : T A) : BM A := λ b,
  let '(r, s) := m (kcp i b) in (r, with_kcp i s b).

(** [let _ = m] and [m.unwrap()]. *)
Definition ignore {A} (m : BM A) : BM () := λ b,
  match m b with
  | (Panicked p, b') => (Panicked p, b')
  | (_, b') => (Ok tt, b')
  end.
Definition unwrap {A} (m : BM A) : BM A := λ b,
  match m b with
  | (Err _, b') => (Panicked AssertPanic, b')
  | r => r
  end.

(** [m.ok().flatten()], for [recv]. *)
Definition try_recv (i : side) : BM (option bytes) := λ b,
  match on i recv b with
  | (Err _, b') => (Ok None, b')
  | r => r
  end.

Definition transfer (src : side) : BM () :=
  packets ← on src drain_output;
  forM packets (λ packet, ignore (on (other src) (input (clk := clk_of (other src)) packet))).

(** [while m.is_some() { count += 1 }]; also [drain_recv]. *)
Definition drain_recv (fuel : nat) (i : side) (count : Z) : BM Z :=
  iterM fuel (λ count,
    r ← try_recv i;
    match r with
    | Some _ => c ← uadd 64 count 1; mret (inl c)
    | None => mret (inr count)
    end) count.

Definition run_round (fuel : nat) (received : Z) : BM Z :=
  ignore (on First (update (clk := clk1)));;
  ignore (on First (flush (clk := clk1)));;
  transfer First;;
  received ← drain_recv fuel Second received;
  ignore (on Second (update (clk := clk2)));;
  ignore (on Second (flush (clk := clk2)));;
  transfer Second;;
  mret received.

Definition run_rounds (fuel rounds : nat) : BM Z :=
  foldM (λ received _, run_round fuel received) 0 (seq 0 rounds).

(** The body of a benchmark, from the new engines on: what it measures is
    [assert_eq!]ed with the number of messages by its caller. *)
Definition bench_body (fuel : nat) (payloads : list bytes) (rounds : nat) : BM Z :=
  unwrap (on First (start));;
  unwrap (on Second (start));;
  forM payloads (λ payload, unwrap (on First (send (clk := clk1) payload)));;
  unwrap (on First (flush (clk := clk1)));;
  received ← run_rounds fuel rounds;
  more ← drain_recv fuel Second 0;
  uadd 64 received more.
End Benchmark.

(** The benchmarks: the conversation and the configuration of their engines, what
    is sent, and for how many rounds they run. *)
Record benchmark := { bm_conv : Z; bm_config : KcpCoreConfig; bm_payloads : list bytes; bm_rounds : nat }.

Definition bench_config (window : Z) : KcpCoreConfig :=
  KcpCoreConfig_from (window_size window window (fast_mode (KcpConfig_default (f32 := ())))).
Definition engine_throughput (count : nat) : benchmark :=
  Build_benchmark 0xBEEF0001 (bench_config 128) (repeat (repeat xab 1024) count) (count * 2).
Definition engine_small_messages : benchmark :=
  Build_benchmark 0xBEEF0002 (bench_config 128) (repeat (repeat xcd 64) 1000) (1000 * 2).
Definition engine_large_message (size_kb : Z) : benchmark :=
  Build_benchmark 0xBEEF0003 (bench_config 256) [map byte_of_Z (seqZ 0 (size_kb * 1024))] 200.
Definition benchmarks : list benchmark :=
  map engine_throughput [10%nat; 100%nat; 500%nat] ++ [engine_small_messages] ++ map engine_large_message [16; 64].

(** * The engines are a link *)

Section BenchFacts.
Context {prof : Profile} {api : BytesApi} {spec : BytesApiSpec api} (clk1 clk2 : Clock).
Context (c : KcpCoreConfig) (Hmode : c_stream_mode c = false).
Abbreviation clk_of := (clk_of clk1 clk2).
Abbreviation linked := (linked prof prof clk1 clk2).

Definition end_of (i : side) (l : Link) : Peer := match i with First => side_a l | Second => side_b l end.
Definition with_end (i : side) (x : Peer) (l : Link) : Link :=
  match i with First => Build_Link x (side_b l) | Second => Build_Link (side_a l) x end.

(** The link behind the engines: [sent] was sent by the first, [n] messages were
    got by the second. *)
Record models (sent : list bytes) (n : Z) (b : Bench) (l : Link) : Prop := {
  mo_linked : linked l;
  mo_ends i : pe_st (end_of i l) = kcp i b;
  mo_config i : e_config (eng (end_of i l)) = c;
  mo_sent : pe_sent (side_a l) = sent;
  mo_silent : concat (pe_sent (side_b l)) = [];
  mo_got : len (pe_got (side_b l)) = n;
}.

(** A call that [perform] makes is a step of the link. *)
Lemma on_models i o {A} (m : T A) (f : A → reply) sent n b l :
  perform (clk := clk_of i) o = (a ← m; mret (f a)) → op_ok o → (∀ d, o = OpInput d → d ∈ pe_net (end_of (other i) l)) →
  models sent n b l →
  let x r s := after (end_of i l) o r s in
  wp checked_overflow (on i m)
    (λ a b', b' = with_kcp i (kcp i b') b ∧ linked (with_end i (x (Ok (f a)) (kcp i b')) l) ∧ e_config (inner (kcp i b')) = c ∧
       m (kcp i b) = (Ok a, kcp i b'))
    (λ e b', b' = with_kcp i (kcp i b') b ∧ linked (with_end i (x (Err e) (kcp i b')) l) ∧ e_config (inner (kcp i b')) = c ∧
       m (kcp i b) = (Err e, kcp i b')) b.
Proof.
  intros Hp Ho Hin [Hl He Hc _ _ _] x. unfold wp, on.
  assert (Hgood : good (inner (kcp i b))).
  { rewrite <- He. destruct (linked_good _ _ _ _ _ Hl), i; done. }
  pose proof (perform_good (clk := clk_of i) o (kcp i b) Ho Hgood) as Hg.
  pose proof (keeps_perform (clk := clk_of i) o (kcp i b)) as Hk. rewrite <- He, Hc, He in Hk.
  unfold wp in Hg. rewrite Hp in Hg, Hk. unfold mbind, M_bind in Hg, Hk.
  assert (Hstep : ∀ r s', perform (clk := clk_of i) o (kcp i b) = (r, s') → (∀ q, r ≠ Panicked q) → linked (with_end i (x r s') l)).
  { intros r s' Hr Hq. eapply linked_step; [exact Hl|]. rewrite <- He in Hr. destruct l as [a a'], i; cbn in *.
    - apply step_a. apply (peer_call _ _ _ _ o r s'); try done. intros d ->. left. by apply Hin.
    - apply step_b. apply (peer_call _ _ _ _ o r s'); try done. intros d ->. left. by apply Hin. }
  specialize (Hstep (perform (clk := clk_of i) o (kcp i b)).1 (perform (clk := clk_of i) o (kcp i b)).2 (surjective_pairing _)).
  rewrite Hp in Hstep. unfold mbind, M_bind in Hstep.
  destruct (m (kcp i b)) as [[a|e|q] s1]; cbn in *; [| |done].
  - assert (Hs : kcp i (with_kcp i s1 b) = s1) by (by destruct i). rewrite Hs. split_and!; [by destruct b, i|by apply Hstep|done|done].
  - assert (Hs : kcp i (with_kcp i s1 b) = s1) by (by destruct i). rewrite Hs. split_and!; [by destruct b, i|by apply Hstep|done|done].
Qed.

Lemma with_end_models i o r s sent n b b' l :
  models sent n b l → b' = with_kcp i (kcp i b') b → s = kcp i b' → linked (with_end i (after (end_of i l) o r s) l) →
  e_config (inner s) = c → match o with OpSend _ => False | _ => True end →
  match r with Ok (RData (Some _)) => False | _ => True end →
  models sent n b' (with_end i (after (end_of i l) o r s) l).
Proof.
  intros [Hl He Hc Hs Hsi Hg] Hb -> Hl' Hc' Ho Hr.
  assert (Hsent : pe_sent (after (end_of i l) o r (kcp i b')) = pe_sent (end_of i l)).
  { cbn. destruct o; [|done|..]; by rewrite app_nil_r. }
  assert (Hgot : pe_got (after (end_of i l) o r (kcp i b')) = pe_got (end_of i l)).
  { cbn. destruct r as [[|[|]|]| |]; try done; by rewrite app_nil_r. }
  assert (Hother : kcp (other i) b' = kcp (other i) b) by (rewrite Hb; by destruct i).
  clear Hb. pose proof (He (other i)) as Heo. pose proof (Hc (other i)) as Hco. rewrite <- Hother in Heo.
  split; [done|..].
  - intros j. destruct i, j; done.
  - intros j. destruct i, j; done.
  - destruct i; cbn in *; [by rewrite Hsent|done].
  - destruct i; cbn in *; [done|by rewrite Hsent].
  - destruct i; cbn in *; [done|by rewrite Hgot].
Qed.

(** The engines behind a link, whatever the link. *)
Definition running (sent : list bytes) (n : Z) (b : Bench) : Prop := ∃ l, models sent n b l.

Lemma wp_quiet i o (m : T ()) sent n b :
  perform (clk := clk_of i) o = (m;; mret RUnit) → op_ok o →
  match o with OpSend _ | OpInput _ => False | _ => True end → running sent n b →
  wp checked_overflow (on i m) (λ _, running sent n) (λ _, running sent n) b.
Proof.
  intros Hp Hop Ho [l Hm].
  eapply wp_mono; [apply (on_models i o m (λ _, RUnit) sent n b l Hp Hop); [by intros d ->|done]|..].
  - intros [] b' (Hb & Hl & Hc & _). eexists. eapply with_end_models; try done. by destruct o.
  - intros e b' (Hb & Hl & Hc & _). eexists. eapply with_end_models; try done. by destruct o.
Qed.

Lemma wp_ignore {A} (K : panic → Prop) (m : M Bench KcpCoreError A) (Q : Bench → Prop) b :
  wp K m (λ _, Q) (λ _, Q) b → wp K (ignore m) (λ _, Q) (λ _ _, False) b.
Proof. unfold wp, ignore. by destruct (m b) as [[]]. Qed.
Lemma wp_unwrap {A} (m : M Bench KcpCoreError A) (Q : A → Bench → Prop) R b :
  wp checked_overflow m Q R b → wp (λ p, checked_overflow p ∨ p = AssertPanic) (unwrap m) Q (λ _ _, False) b.
Proof. unfold wp, unwrap. destruct (m b) as [[]]; auto. Qed.

(** Handing over what an engine has put out. *)
Lemma wp_transfer src sent n b :
  running sent n b → wp checked_overflow (transfer clk1 clk2 src) (λ _, running sent n) (λ _ _, False) b.
Proof.
  intros [l Hm]. unfold transfer. wp_step.
  eapply wp_mono; [by apply (on_models src OpDrainOutput drain_output RDatagrams sent n b l)| |].
  2: { intros e b' (_ & _ & _ & Hrun). done. }
  intros packets b1 (Hb & Hl & Hc & _). set (l1 := with_end _ _ _) in Hl.
  assert (Hm1 : models sent n b1 l1) by (by eapply with_end_models).
  assert (Hnet : packets ⊆ pe_net (end_of src l1)).
  { intros d Hd. destruct src; cbn; apply elem_of_app; by right. }
  eapply wp_post; [apply (wp_forM _ _ (λ b, ∃ l, models sent n b l ∧ packets ⊆ pe_net (end_of src l)))|].
  - by exists l1.
  - clear - spec. intros d b Hd (l & Hm & Hn). apply (wp_ignore _ _ (λ b, ∃ l, models sent n b l ∧ packets ⊆ pe_net (end_of src l))).
    assert (Hsame : ∀ x, end_of src (with_end (other src) x l) = end_of src l) by (by destruct src).
    eapply wp_mono; [apply (on_models (other src) (OpInput d) (input (clk := clk_of (other src)) d) (λ _, RUnit) sent n b l); [done|done| |done]|..].
    + intros d' [= <-]. replace (other (other src)) with src by (by destruct src). by apply Hn.
    + intros [] b' (Hb & Hl & Hc & _). eexists. split; [by eapply with_end_models|by rewrite Hsame].
    + intros e b' (Hb & Hl & Hc & _). eexists. split; [by eapply with_end_models|by rewrite Hsame].
  - intros [] b' (l' & Hm' & _). by exists l'.
Qed.

(** What is got was sent, so there is an end to it. *)
Lemma got_sent sent n b l : models sent n b l → len (concat sent) ≤ H31 → 0 ≤ n ≤ len (nonempty sent).
Proof.
  intros [Hl _ Hc Hs Hsi Hg] Hb. assert (Hbd : bounded l) by (eapply (linked_bytes prof prof clk1 clk2); [exact Hl|by rewrite Hs|by rewrite Hsi]).
  destruct (ends_ok prof prof clk1 clk2 l _ _ Hl Hbd (or_introl (conj eq_refl eq_refl))) as ([d Hy] & Hso & _).
  pose proof (messages_prefix Hy Hso) as Hp. rewrite Hs in Hp. apply prefix_length in Hp; [unfold len in *; lia|].
  specialize (Hc First). cbn in Hc. unfold stream_of. by rewrite Hc.
Qed.

(** A read that finds nothing, with nothing outstanding: all was got. *)
Lemma wp_try_recv sent n b :
  running sent n b → len (concat sent) ≤ H31 →
  wp checked_overflow (try_recv Second)
    (λ r b', match r with
      | Some _ => running sent (n + 1) b'
      | None => running sent n b' ∧ (has_unsent_data_of (inner (kcp1 b')) = false → n = len (nonempty sent))
      end) (λ _ _, False) b.
Proof.
  intros [l Hm] Hbound. pose proof (on_models Second OpRecv recv RData sent n b l eq_refl I ltac:(done) Hm) as H.
  unfold wp, try_recv in *. destruct (on Second recv b) as [[[m|]|e|q] b'] eqn:Hr; [..|done].
  - destruct H as (Hb & Hl & Hc & _). eexists (with_end Second _ l).
    assert (Hother : kcp1 b' = kcp1 b) by (by rewrite Hb). destruct Hm as [_ He Hcf Hs Hsi Hg].
    split; [exact Hl|intros []; [cbn; rewrite Hother; apply (He First)|done]|intros []; [apply (Hcf First)|done]|done| |].
    + cbn. by rewrite app_nil_r.
    + cbn in *. rewrite len_app, Hg. done.
  - destruct H as (Hb & Hl & Hc & Hrun). split; [eexists; by eapply with_end_models|]. intros Hu.
    assert (Hother : kcp1 b' = kcp1 b) by (by rewrite Hb). destruct Hm as [L He Hcf Hs Hsi Hg].
    assert (Hbd : bounded l) by (eapply (linked_bytes prof prof clk1 clk2); [exact L|by rewrite Hs|by rewrite Hsi]).
    pose proof (He First) as He1. pose proof (He Second) as He2. pose proof (Hcf First) as Hc1. pose proof (Hcf Second) as Hc2. cbn in *.
    destruct (ends_ok prof prof clk1 clk2 l _ _ L Hbd (or_introl (conj eq_refl eq_refl))) as ([d Hy] & Hso & HIx & Hh).
    pose proof (wp_ok _ _ _ _ _ _ _ (recv_spec (prof := prof) _ (ep_inv _ _ _ _ (po_end _ _ _ Hy))) ltac:(by rewrite He2)) as [_ Hp].
    destruct (all_got Hy Hso HIx (inner (kcp2 b')) Hh) as [_ Hall]; [by rewrite He1, <- Hother|exact Hp|by rewrite Hc1, Hc2|].
    rewrite <- Hg, Hall, Hs; [done|by rewrite Hc1].
  - destruct H as (_ & _ & _ & Hrun). pose proof (linked_good _ _ _ _ _ (mo_linked _ _ _ _ Hm)) as [_ [HI _]].
    pose proof (mo_ends _ _ _ _ Hm Second) as He. cbn in He, Hrun. rewrite He in HI.
    pose proof (recv_spec (prof := prof) (kcp2 b) HI) as Hs. unfold wp in Hs. by rewrite Hrun in Hs.
Qed.

Lemma nonempty_bytes (l : list bytes) : len (nonempty l) ≤ len (concat l).
Proof.
  induction l as [|m l IH]; [done|]. cbn [concat]. rewrite len_app. destruct (decide (m = [])) as [->|Hne].
  - rewrite filter_cons_False by naive_solver. unfold len in *. cbn. lia.
  - rewrite filter_cons_True by done. rewrite len_cons. destruct m; [done|]. rewrite len_cons. pose proof (len_nonneg m). lia.
Qed.

(** The loop that reads: what it counts is got, and then there is nothing more. *)
Lemma wp_drain_recv sent n count fuel b :
  running sent (n + count) b → len (concat sent) ≤ H31 → (length sent < fuel)%nat → 0 ≤ n → 0 ≤ count →
  wp checked_overflow (drain_recv fuel Second count)
    (λ r b', running sent (n + r) b' ∧ 0 ≤ r ∧
       (has_unsent_data_of (inner (kcp1 b')) = false → n + r = len (nonempty sent))) (λ _ _, False) b.
Proof.
  intros Hr Hb Hfuel Hn Hcount. unfold drain_recv. pose proof (nonempty_bytes sent) as Hne.
  apply (wp_iterM _ _ (λ k b, running sent (n + k) b ∧ 0 ≤ k) (λ k b, Z.to_nat (len (nonempty sent) - n - k))); [|done|].
  - clear - Hb Hn Hne Hmode spec. intros k b [Hr Hk]. wp_step. eapply wp_post; [by apply wp_try_recv|]. intros [m|] b' Hr'; cbv beta.
    + destruct Hr as [l Hm], Hr' as [l' Hm']. pose proof (got_sent _ _ _ _ Hm Hb). pose proof (got_sent _ _ _ _ Hm' Hb).
      wp_step. apply wp_arith_exact; [zlia|]. wp_step. split; [split; [exists l'; by rewrite (Z.add_assoc n)|lia]|lia].
    + wp_step. by destruct Hr'.
  - destruct Hr as [l Hm]. pose proof (got_sent _ _ _ _ Hm Hb). 
    assert (length (nonempty sent) ≤ length sent)%nat by apply length_filter. unfold len in *. lia.
Qed.

(** ** The rounds *)

Lemma wp_ignored i o (m : T ()) sent n b :
  perform (clk := clk_of i) o = (m;; mret RUnit) → op_ok o →
  match o with OpSend _ | OpInput _ => False | _ => True end → running sent n b →
  wp checked_overflow (ignore (on i m)) (λ _, running sent n) (λ _ _, False) b.
Proof. intros Hp Ho Hq Hrun. apply wp_ignore. by apply (wp_quiet i o). Qed.

Lemma wp_run_round sent n received fuel b :
  running sent (n + received) b → len (concat sent) ≤ H31 → (length sent < fuel)%nat → 0 ≤ n → 0 ≤ received →
  wp checked_overflow (run_round clk1 clk2 fuel received) (λ r b', running sent (n + r) b' ∧ 0 ≤ r) (λ _ _, False) b.
Proof.
  intros Hr Hb Hf Hn Hrec. unfold run_round.
  wp_step. eapply wp_post; [by apply (wp_ignored First OpUpdate)|]. intros [] b1 R1. cbv beta.
  wp_step. eapply wp_post; [by apply (wp_ignored First OpFlush)|]. intros [] b2 R2. cbv beta.
  wp_step. eapply wp_post; [by apply wp_transfer|]. intros [] b3 R3. cbv beta.
  wp_step. eapply wp_post; [by apply wp_drain_recv|]. intros r b4 (R4 & H4 & _). cbv beta.
  wp_step. eapply wp_post; [by apply (wp_ignored Second OpUpdate)|]. intros [] b5 R5. cbv beta.
  wp_step. eapply wp_post; [by apply (wp_ignored Second OpFlush)|]. intros [] b6 R6. cbv beta.
  wp_step. eapply wp_post; [by apply wp_transfer|]. intros [] b7 R7. cbv beta. by wp_step.
Qed.

Lemma wp_run_rounds sent fuel rounds b :
  running sent 0 b → len (concat sent) ≤ H31 → (length sent < fuel)%nat →
  wp checked_overflow (run_rounds clk1 clk2 fuel rounds) (λ r b', running sent r b' ∧ 0 ≤ r) (λ _ _, False) b.
Proof.
  intros Hr Hb Hf. unfold run_rounds. apply (wp_foldM _ _ (λ _ r b, running sent r b ∧ 0 ≤ r)); [done| |done].
  intros done k r b' [Hrun Hr0] _. by apply (wp_run_round sent 0).
Qed.

(** ** The whole benchmark *)

Abbreviation may_fail := (λ p, checked_overflow p ∨ p = AssertPanic).

Lemma wp_send_one payload sent b :
  running sent 0 b → wp may_fail (unwrap (on First (send (clk := clk1) payload))) (λ _, running (sent ++ [payload]) 0) (λ _ _, False) b.
Proof.
  intros [l Hm]. eapply wp_mono; [eapply wp_unwrap, (on_models First (OpSend payload) (send (clk := clk1) payload) (λ _, RUnit) sent 0 b l eq_refl I ltac:(done) Hm)| |done].
  intros [] b' (Hb & Hl & Hc & _). eexists (with_end First _ l). assert (Hother : kcp2 b' = kcp2 b) by (by rewrite Hb).
  destruct Hm as [_ He Hcf Hs Hsi Hg].
  split; [exact Hl|intros []; [done|cbn; rewrite Hother; apply (He Second)]|intros []; [done|apply (Hcf Second)]| |done|done].
  cbn. by rewrite Hs.
Qed.

Lemma wp_body_call i o (m : T ()) sent n b :
  perform (clk := clk_of i) o = (m;; mret RUnit) → op_ok o →
  match o with OpSend _ | OpInput _ => False | _ => True end → running sent n b →
  wp may_fail (unwrap (on i m)) (λ _, running sent n) (λ _ _, False) b.
Proof. intros Hp Ho Hq Hrun. by eapply wp_unwrap, (wp_quiet i o). Qed.

Lemma wp_bench_body fuel payloads rounds b :
  running [] 0 b → len (concat payloads) ≤ H31 → (length payloads < fuel)%nat →
  wp may_fail (bench_body clk1 clk2 fuel payloads rounds)
    (λ received b', running payloads received b' ∧ 
       (has_unsent_data_of (inner (kcp1 b')) = false → received = len (nonempty payloads))) (λ _ _, False) b.
Proof.
  intros Hr Hb Hf. unfold bench_body. assert (Hk : ∀ q, checked_overflow q → may_fail q) by auto.
  wp_step. eapply wp_post; [by apply (wp_body_call First OpStart)|]. intros [] b1 R1. cbv beta.
  wp_step. eapply wp_post; [by apply (wp_body_call Second OpStart)|]. intros [] b2 R2. cbv beta.
  wp_step. unfold forM. apply (wp_foldM _ _ (λ done _ b, running done 0 b)); [exact R2| |].
  { intros done payload [] b3 R3 _. by apply wp_send_one. }
  intros [] b3 R3. wp_step. eapply wp_post; [by apply (wp_body_call First OpFlush)|]. intros [] b4 R4. cbv beta.
  wp_step. eapply wp_post; [eapply (wp_weaken_K _ checked_overflow); [exact Hk|]; by apply wp_run_rounds|]. intros r b5 [R5 H5]. cbv beta.
  wp_step. eapply wp_post; [eapply (wp_weaken_K _ checked_overflow); [exact Hk|]; apply (wp_drain_recv payloads r); try done; by rewrite Z.add_0_r|].
  intros more b6 (R6 & H6 & Hall). cbv beta. destruct R6 as [l Hm]. pose proof (got_sent _ _ _ _ Hm Hb). pose proof (nonempty_bytes payloads).
  apply wp_arith_exact; [zlia|]. split; [by exists l|done].
Qed.
End BenchFacts.

(** * Theorems *)

Section BenchTheorems.
Context {prof : Profile} {api : BytesApi} {spec : BytesApiSpec api} (clk1 clk2 : Clock).

(** C40: what a benchmark counts: with new engines of the same configuration, in
    message mode, it never counts more than was sent, and what it asserts, that
    everything was received, holds whenever the sender has nothing unsent or
    unacknowledged left; its loops end.  (Its calls may fail: an [unwrap] of a
    message that is too large, or of a lost connection, is its only panic.) *)
Theorem benchmark_counts conv conf fuel payloads rounds s1 s2 e1 e2 s1' s2' :
  in_u 32 conv → core_config_ok conf → validated conf → c_stream_mode conf = false →
  new (clk := clk1) (S := ()) (E := KcpCoreError) conv conf s1 = (Ok e1, s1') →
  new (clk := clk2) (S := ()) (E := KcpCoreError) conv conf s2 = (Ok e2, s2') →
  len (concat payloads) ≤ H31 → (length payloads < fuel)%nat →
  wp (λ p, checked_overflow p ∨ p = AssertPanic) (bench_body clk1 clk2 fuel payloads rounds)
    (λ received b, 0 ≤ received ≤ len (nonempty payloads) ∧
       (has_unsent_data_of (inner (kcp1 b)) = false → received = len (nonempty payloads)))
    (λ _ _, False) (Build_Bench (Timed e1 (ticks s1')) (Timed e2 (ticks s2'))).
Proof.
  intros Hconv Hc [[Hm1 Hm2] Hs Hr _ _] Hmode H1 H2 Hb Hf.
  eapply wp_post; [apply (wp_bench_body clk1 clk2 conf Hmode); [|exact Hb|exact Hf]|].
  - exists (Build_Link (Build_Peer (Timed e1 (ticks s1')) [] [] [] []) (Build_Peer (Timed e2 (ticks s2')) [] [] [] [])).
    split; try done.
    + apply linked_start; [exists conv, conf, s1, e1, s1'|exists conv, conf, s2, e2, s2']; split_and!; try done; lia.
    + by intros [].
    + assert (Hsame : conf <| c_mtu ::= λ m, Z.max m (IKCP_OVERHEAD + 1) |> = conf).
      { destruct conf; unfold set_field; cbn -[Z.max] in *. by rewrite Z.max_l by (unfold IKCP_OVERHEAD; lia). }
      unfold new in H1, H2. cbn in H1, H2. injection H1 as <- _. injection H2 as <- _. intros []; exact Hsame.
  - intros r b [[l Hm] Hall]. split; [by eapply (got_sent clk1 clk2 conf Hmode)|exact Hall].
Qed.
End BenchTheorems.

Lemma large_payload k : 0 < k ≤ H31 →
  len (concat [map byte_of_Z (seqZ 0 k)]) ≤ H31 ∧ len (nonempty [map byte_of_Z (seqZ 0 k)]) = 1.
Proof.
  intros Hk. assert (Hl : len (map byte_of_Z (seqZ 0 k)) = k) by (unfold len; rewrite length_map, length_seqZ; lia).
  cbn [concat]. rewrite app_nil_r, Hl. split; [lia|]. rewrite filter_cons_True; [done|]. intros He. rewrite He, len_nil in Hl. lia.
Qed.

(** It applies to each of the benchmarks. *)
Lemma benchmarks_fit bm : bm ∈ benchmarks →
  in_u 32 (bm_conv bm) ∧ core_config_ok (bm_config bm) ∧ validated (bm_config bm) ∧ c_stream_mode (bm_config bm) = false ∧
  len (concat (bm_payloads bm)) ≤ H31 ∧ len (nonempty (bm_payloads bm)) = len (bm_payloads bm).
Proof.
  assert (Hc : ∀ w, 0 < w < 2 ^ 16 → core_config_ok (bench_config w) ∧ validated (bench_config w) ∧ c_stream_mode (bench_config w) = false).
  { intros w Hw. split_and!; [|split; cbn; try lia; done|done]. split; cbn; unfold in_u; lia || done. }
  unfold benchmarks. intros Hb. repeat (apply elem_of_cons in Hb as [-> | Hb]); try by apply elem_of_nil in Hb.
  all: cbn [bm_conv bm_config bm_payloads engine_throughput engine_small_messages engine_large_message].
  all: split; [vm_compute; split; congruence|]; (split; [by apply Hc|]); (split; [by apply Hc|]); (split; [done|]).
  5-6: by apply large_payload.
  all: split; [vm_compute; congruence|vm_compute; reflexivity].
Qed.

Module BenchSample.
(** [engine_throughput], with ten messages. *)
Definition conf : KcpCoreConfig := KcpCoreConfig_from (window_size 128 128 (fast_mode (KcpConfig_default (f32 := Z)))).
Definition payloads : list bytes := repeat (repeat xab 1024) 10.
Definition clk : Clock := λ n, 1000 + Z.of_nat n.
Definition made : outcome KcpCoreError KcpEngine * timed () :=
  new (clk := clk) (S := ()) (E := KcpCoreError) 0xBEEF0001 conf (Timed tt 0).
Definition kcp0 : KcpEngine := match made.1 with Ok e => e | _ => inner Sample.state end.
Abbreviation result := (bench_body (prof := release_build) (api := bytes_le) clk clk 11 payloads 20
  (Build_Bench (Timed kcp0 (ticks made.2)) (Timed kcp0 (ticks made.2)))).
End BenchSample.

Lemma benchmark_counts_witness : BenchSample.result.1 = Ok 10 ∧ 0 ≤ 10 ≤ len (nonempty BenchSample.payloads).
Proof.
  assert (Hnew : BenchSample.made = (Ok BenchSample.kcp0, BenchSample.made.2)) by (vm_compute; reflexivity).
  pose proof (benchmark_counts (prof := release_build) (api := bytes_le) BenchSample.clk BenchSample.clk 0xBEEF0001 BenchSample.conf
    11 BenchSample.payloads 20 (Timed tt 0) (Timed tt 0) _ _ _ _
    ltac:(vm_compute; split; congruence) ltac:(split; vm_compute; split; congruence) ltac:(split; vm_compute; split; congruence || congruence)
    eq_refl Hnew Hnew ltac:(vm_compute; congruence) ltac:(vm_compute; lia)) as H.
  assert (Hr : BenchSample.result.1 = Ok 10) by (vm_compute; reflexivity). split; [exact Hr|].
  pose proof (surjective_pairing BenchSample.result) as Hp. rewrite Hr in Hp. exact (proj1 (wp_ok _ _ _ _ _ _ _ H Hp)).
Defined.
