(* ===== verification/Interop.v ===== *)
(** examples/interop_client_simple.rs: a client of a server in C, on the engine itself.

    Three tasks share the engine under a lock: one takes datagrams in, one
    updates the engine every ten milliseconds, and the main task sends a message,
    polls for the answer, and goes on to the next.  A turn of a task, from one
    [await] that waits to the next, is a function; the tasks are interleaved as a
    step relation.  The engine is an end of a link ([Link]), so what the main
    task reads are the messages of the server. *)
From S2P Require Import Prelude Monad Protocol Error Config Engine Output Send Recv Ack Input Flush Frame Safety History Link.

(** What the main task finds an answer to be. *)
Inductive verdict := Verified | ContentMismatch | FormatMismatch.

Definition ascii (s : string) : bytes := String.list_byte_of_string s.
Definition test_messages : list bytes := map ascii
  ["Hello from Rust!"; "KCP interoperability test"; "Message #3"; "Testing UTF-8"; "Final message"]%string.
Definition echo_prefix : bytes := ascii "C_ECHO: ".

(** [response.strip_prefix("C_ECHO: ")], and the comparison of the rest; for ASCII
    text, [from_utf8_lossy] is the identity where it matters. *)
Definition verify (message data : bytes) : verdict :=
  if bool_decide (take (length echo_prefix) data = echo_prefix) then
    if bool_decide (drop (length echo_prefix) data = message) then Verified else ContentMismatch
  else FormatMismatch.

(** Where the main task is: in its first [sleep], polling for the answer to the
    first message to do, in the [sleep] after that, or at the end. *)
Inductive main_stage := Warmup | Waiting (attempts : Z) | Pausing | Finished.

Record Interop := {
  ic_engine : St;
  ic_wire : list bytes;          (** what was sent on the socket *)
  ic_receiving : bool;           (** the receiving task is alive *)
  ic_stage : main_stage;
  ic_todo : list bytes;          (** the messages still to send, after the current one *)
  ic_current : bytes;
  ic_answers : list (bytes * bytes);   (** what was read, with the message it was taken for *)
}.
#[export] Instance Interop_eta : Eta Interop := λ i,
  Build_Interop (ic_engine i) (ic_wire i) (ic_receiving i) (ic_stage i) (ic_todo i) (ic_current i) (ic_answers i).

Section Tasks.
Context {prof : Profile} {clk : Clock} {api : BytesApi}.
Abbreviation IM := (M Interop KcpCoreError).

(** A call of the engine, with the lock held; an error is a value. *)
Definition locked {A} (m : T A) : IM (KcpCoreError + A) := λ i,
  match m (ic_engine i) with
  | (Ok a, s) => (Ok (inr a), i <| ic_engine := s |>)
  | (Err e, s) => (Ok (inl e), i <| ic_engine := s |>)
  | (Panicked p, s) => (Panicked p, i <| ic_engine := s |>)
  end.

(** [for out in engine.drain_output() { let _ = socket.send(&out).await; }]. *)
Definition send_out : IM () :=
  out ← locked drain_output;
  match out with
  | inr out => modify (λ i, i <| ic_wire ::= λ w, w ++ out |>)
  | inl _ => mret tt
  end.

(** The receiving task, when a datagram or an error comes. *)
Definition recv_task (packet : io_error_kind + bytes) : IM () :=
  alive ← gets ic_receiving;
  whenM alive
    match packet with
    | inr data => locked (input data);; send_out
    | inl _ => modify (λ i, i <| ic_receiving := false |>)
    end.

(** The updating task, when its interval ticks. *)
Definition update_task : IM () :=
  stage ← gets ic_stage;
  match stage with
  | Finished => mret tt
  | _ => locked update;; send_out
  end.

(** The turn of the main task's [for] loop that sends: a message that is refused
    is left out. *)
Fixpoint send_next (todo : list bytes) : IM () :=
  match todo with
  | [] => modify (λ i, i <| ic_stage := Finished |> <| ic_todo := [] |> <| ic_receiving := false |>)
  | message :: todo =>
      r ← locked (send message);
      match r with
      | inr _ =>
          send_out;;
          modify (λ i, i <| ic_stage := Waiting 0 |> <| ic_todo := todo |> <| ic_current := message |>)
      | inl _ => send_next todo
      end
  end.

Definition max_attempts : Z := 50.

(** The main task, when the timer it sleeps on goes off. *)
Definition main_task : IM () :=
  stage ← gets ic_stage;
  todo ← gets ic_todo;
  match stage with
  | Warmup | Pausing => send_next todo
  | Waiting attempts =>
      let attempts := attempts + 1 in
      r ← locked recv;
      match r with
      | inr (Some data) =>
          modify (λ i, i <| ic_answers ::= λ l, l ++ [(ic_current i, data)] |> <| ic_stage := Pausing |>)
      | inr None =>
          if max_attempts <=? attempts then modify (λ i, i <| ic_stage := Pausing |>)
          else modify (λ i, i <| ic_stage := Waiting attempts |>)
      | inl _ => modify (λ i, i <| ic_stage := Pausing |>)
      end
  | Finished => mret tt
  end.

Inductive turn := Datagram (packet : io_error_kind + bytes) | Tick | Woken.
Definition take_turn (t : turn) : IM () :=
  match t with
  | Datagram packet => recv_task packet
  | Tick => update_task
  | Woken => main_task
  end.

(** The client when its tasks have been spawned. *)
Definition spawned (s : St) : Interop := Build_Interop s [] true Warmup test_messages [] [].
End Tasks.

(** The client's configuration and conversation. *)
Definition interop_config {f32 : Type} : KcpConfig (f32 := f32) := set_mtu 1400 (window_size 128 128 (fast_mode KcpConfig_default)).
Definition interop_conv : Z := 0x12345678.

(** * With a server *)

Section Interoperation.
Context {api : BytesApi} (prof_a prof_b : Profile) (clk_a clk_b : Clock).

(** The client takes a turn, or the server's engine is called. *)
Inductive interop_step : Interop * Peer → Interop * Peer → Prop :=
  | interop_client t i i' y :
      (∀ d, t = Datagram (inr d) → d ∈ pe_net y ∨
         Forall (λ z, h_conv (s_header z.1) ≠ e_conv (inner (ic_engine i))) (parse_all (S (length d)) d)) →
      take_turn (prof := prof_a) (clk := clk_a) t i = (Ok tt, i') → interop_step (i, y) (i', y)
  | interop_server i y y' : peer_step prof_b clk_b (ic_wire i) y y' → interop_step (i, y) (i, y').

(** From new engines; the client has called [start] on its own. *)
Inductive interop : Interop * Peer → Prop :=
  | interop_start x s y :
      fresh clk_a x → start (pe_st x) = (Ok tt, s) → fresh clk_b y → interop (spawned s, y)
  | interop_next w w' : interop w → interop_step w w' → interop w'.
End Interoperation.

(** * The client is an end of a link *)

Section InteropFacts.
Context {api : BytesApi} {spec : BytesApiSpec api} (prof_a prof_b : Profile) (clk_a clk_b : Clock).
Abbreviation linked := (linked prof_a prof_b clk_a clk_b).
Abbreviation run := (take_turn (prof := prof_a) (clk := clk_a)).
Abbreviation overflows := (@checked_overflow prof_a).

(** The end of the link behind the client, when [todo] is to be sent yet. *)
Record tracked (y : Peer) (todo : list bytes) (i : Interop) (x : Peer) : Prop := {
  tk_linked : linked (Build_Link x y);
  tk_engine : pe_st x = ic_engine i;
  tk_wire : pe_net x = ic_wire i;
  tk_got : pe_got x = map snd (ic_answers i);
  tk_sent : len (concat (pe_sent x)) + len (concat todo) ≤ H31;
}.
Definition simulated (y : Peer) (todo : list bytes) (i : Interop) : Prop := ∃ x, tracked y todo i x.

Lemma locked_call o {A} (m : T A) (f : A → reply) y todo i x :
  perform (prof := prof_a) (clk := clk_a) o = (a ← m; mret (f a)) → op_ok o → (∀ d, o = OpInput d → may_arrive (pe_net y) x d) →
  tracked y todo i x →
  wp overflows (locked m)
    (λ r i', i' = i <| ic_engine := ic_engine i' |> ∧
       linked (Build_Link (after x o (match r with inr a => Ok (f a) | inl e => Err e end) (ic_engine i')) y))
    (λ _ _, False) i.
Proof.
  intros Hp Ho Hin [Hl He _ _ _]. unfold wp, locked.
  pose proof (linked_good _ _ _ _ _ Hl) as [Hg _]. cbn in Hg.
  pose proof (perform_good (prof := prof_a) (clk := clk_a) o (pe_st x) Ho Hg) as Hpg. unfold wp in Hpg.
  assert (Hstep : ∀ r s', perform (prof := prof_a) (clk := clk_a) o (pe_st x) = (r, s') → (∀ q, r ≠ Panicked q) →
    linked (Build_Link (after x o r s') y)).
  { intros r s' Hr Hq. eapply linked_step; [exact Hl|]. apply step_a. by apply peer_call. }
  rewrite Hp in Hpg, Hstep. unfold mbind, M_bind in Hpg, Hstep. rewrite <- He.
  destruct (m (pe_st x)) as [[a|e|q] s1]; [| |done]; (split; [by destruct i|]); by apply Hstep.
Qed.

(** The main task is where it was. *)
Definition undisturbed (i i' : Interop) : Prop := ic_stage i' = ic_stage i ∧ ic_todo i' = ic_todo i.

(** A call that queues no data and reads none. *)
Lemma locked_quiet o (m : T ()) y todo i x :
  perform (prof := prof_a) (clk := clk_a) o = (m;; mret RUnit) → op_ok o → (∀ d, o = OpInput d → may_arrive (pe_net y) x d) →
  match o with OpSend _ => False | _ => True end → tracked y todo i x →
  wp overflows (locked m) (λ _ i', simulated y todo i' ∧ undisturbed i i') (λ _ _, False) i.
Proof.
  intros Hp Ho Hin Hq Ht. eapply wp_post; [by apply (locked_call o m (λ _, RUnit) y todo i x)|].
  intros r i' [Hi Hl]. split; [|by rewrite Hi]. eexists. destruct Ht as [_ He Hw Hg Hs].
  assert (Hn : pe_net (after x o (match r with inr _ => Ok RUnit | inl e => Err e end) (ic_engine i')) = pe_net x)
    by (cbn; by destruct r; rewrite app_nil_r).
  assert (Hgot : pe_got (after x o (match r with inr _ => Ok RUnit | inl e => Err e end) (ic_engine i')) = pe_got x)
    by (cbn; by destruct r; rewrite app_nil_r).
  assert (Hsent : pe_sent (after x o (match r with inr _ => Ok RUnit | inl e => Err e end) (ic_engine i')) = pe_sent x)
    by (cbn; by destruct o, r; rewrite ?app_nil_r).
  split; [exact Hl|done|rewrite Hn, Hw; by rewrite Hi|rewrite Hgot, Hg; by rewrite Hi|by rewrite Hsent].
Qed.

Lemma wp_send_out y todo i :
  simulated y todo i → wp overflows send_out (λ _ i', simulated y todo i' ∧ undisturbed i i') (λ _ _, False) i.
Proof.
  intros [x Hx]. unfold send_out. wp_step.
  eapply wp_post; [by apply (locked_call OpDrainOutput drain_output RDatagrams y todo i x)|].
  intros r i' [Hi Hl]. destruct Hx as [_ He Hw Hg Hs]. cbv beta. destruct r as [e|out]; wp_step.
  - split; [|by rewrite Hi]. eexists. split; [exact Hl|done|..]; cbn; rewrite ?app_nil_r; [rewrite Hw; by rewrite Hi|rewrite Hg; by rewrite Hi|done].
  - split; [|by rewrite Hi]. eexists. split; [exact Hl|done|..]; cbn; rewrite ?app_nil_r; [rewrite Hw; by rewrite Hi|rewrite Hg; by rewrite Hi|done].
Qed.

(** ** The turns *)

(** What is left of the main task: the times it wakes up at most. *)
Definition effort (i : Interop) : Z :=
  match ic_stage i with
  | Warmup | Pausing => 1 + 51 * len (ic_todo i)
  | Waiting attempts => 51 - attempts + 51 * len (ic_todo i)
  | Finished => 0
  end.
Definition polling (i : Interop) : Prop :=
  match ic_stage i with Waiting attempts => 0 ≤ attempts < max_attempts | _ => True end.

Lemma simulated_same y todo i i' :
  ic_engine i' = ic_engine i → ic_wire i' = ic_wire i → ic_answers i' = ic_answers i → simulated y todo i → simulated y todo i'.
Proof. intros He Hw Ha [x []]. exists x. split; rewrite ?He, ?Hw, ?Ha; done. Qed.

Lemma wp_send_next y todo : ∀ i,
  simulated y todo i →
  wp overflows (send_next (prof := prof_a) (clk := clk_a) todo)
    (λ _ i', simulated y (ic_todo i') i' ∧ effort i' ≤ 51 * len todo ∧ polling i') (λ _ _, False) i.
Proof.
  induction todo as [|m todo IH]; intros i Hs; cbn [send_next].
  - wp_step. split; [by eapply simulated_same; [..|exact Hs]|done].
  - destruct Hs as [x Hx]. wp_step.
    eapply wp_post; [by apply (locked_call (OpSend m) (send (clk := clk_a) m) (λ _, RUnit) y (m :: todo) i x)|].
    intros r i' [Hi Hl]. cbv beta.
    assert (Hsim : simulated y todo i').
    { eexists. destruct Hx as [_ He Hw Hg Hs]. cbn [concat] in Hs. rewrite len_app in Hs.
      split; [exact Hl|done|destruct r; cbn; rewrite app_nil_r, Hw; by rewrite Hi|destruct r; cbn; rewrite app_nil_r, Hg; by rewrite Hi|].
      destruct r as [e|[]]; cbn [after pe_sent]; rewrite concat_app, len_app; cbn [concat]; rewrite app_nil_r; [|lia].
      enough (len (queued m (eng x) (inner (ic_engine i'))) ≤ len m) by lia.
      unfold queued, len. rewrite length_take. lia. }
    destruct r as [e|[]].
    + eapply wp_post; [by apply IH|]. intros [] i'' (H1 & H2 & H3). split_and!; [done| |done]. rewrite len_cons. lia.
    + wp_step. eapply wp_post; [by apply wp_send_out|]. intros [] i'' [H2 _]. wp_step.
      split_and!; [by eapply simulated_same; [..|exact H2]|cbn; rewrite len_cons; lia|cbn; unfold max_attempts; lia].
Qed.

Lemma effort_nonneg i : polling i → 0 ≤ effort i.
Proof. unfold polling, effort, max_attempts. pose proof (len_nonneg (ic_todo i)). destruct (ic_stage i); lia. Qed.

Lemma wp_main_task y i :
  simulated y (ic_todo i) i → polling i →
  wp overflows (main_task (prof := prof_a) (clk := clk_a))
    (λ _ i', simulated y (ic_todo i') i' ∧ polling i' ∧ (ic_stage i ≠ Finished → effort i' < effort i) ∧ effort i' ≤ effort i)
    (λ _ _, False) i.
Proof.
  intros Hs Hp. unfold main_task. do 4 wp_step. unfold effort at 2 4. unfold polling in Hp. destruct (ic_stage i) as [|k| |] eqn:Hst.
  - eapply wp_post; [by apply wp_send_next|]. intros [] i' (H1 & H2 & H3). split_and!; [done..|lia|lia].
  - destruct Hs as [x Hx]. wp_step. eapply wp_post; [by apply (locked_call OpRecv recv RData y (ic_todo i) i x)|].
    intros r i' [Hi Hl]. cbv beta.
    assert (Htodo : ic_todo i' = ic_todo i) by (by rewrite Hi). pose proof (len_nonneg (ic_todo i)).
    destruct Hx as [_ He Hw Hg Hsn].
    assert (Hnone : match r with inr (Some _) => False | _ => True end → simulated y (ic_todo i) i').
    { intros Hr. eexists. split; [exact Hl|done| | |]; destruct r as [e|[d|]]; try done; cbn; rewrite ?app_nil_r; try done;
        rewrite ?Hw, ?Hg; by rewrite Hi. }
    destruct r as [e|[d|]].
    + wp_step. split_and!; [cbn; rewrite Htodo; by eapply simulated_same; [..|by apply Hnone]|done|unfold effort; cbn; rewrite Htodo; unfold max_attempts in *; lia..].
    + wp_step. split_and!; [|done|unfold effort; cbn; rewrite Htodo; unfold max_attempts in *; lia..].
      eexists. split; [exact Hl|done|cbn; rewrite app_nil_r, Hw; by rewrite Hi| |cbn; by rewrite app_nil_r, Htodo].
      cbn. rewrite map_app, Hg. cbn. by rewrite Hi.
    + apply wp_if; intros Hk; wp_step.
      * split_and!; [cbn; rewrite Htodo; by eapply simulated_same; [..|by apply Hnone]|done|unfold effort; cbn; rewrite Htodo; unfold max_attempts in *; lia..].
      * apply Z.leb_gt in Hk. split_and!; [cbn; rewrite Htodo; by eapply simulated_same; [..|by apply Hnone]|cbn; lia|unfold effort; cbn; rewrite Htodo; unfold max_attempts in *; lia..].
  - eapply wp_post; [by apply wp_send_next|]. intros [] i' (H1 & H2 & H3). split_and!; [done..|lia|lia].
  - wp_step. unfold polling, effort. rewrite Hst. split_and!; done.
Qed.

(** A turn of one of the other tasks. *)
Lemma wp_background o (m : T ()) y i :
  perform (prof := prof_a) (clk := clk_a) o = (m;; mret RUnit) → op_ok o →
  (∀ d, o = OpInput d → d ∈ pe_net y ∨ Forall (λ z, h_conv (s_header z.1) ≠ e_conv (inner (ic_engine i))) (parse_all (S (length d)) d)) →
  match o with OpSend _ => False | _ => True end → simulated y (ic_todo i) i →
  wp overflows (locked m;; send_out) (λ _ i', simulated y (ic_todo i') i' ∧ undisturbed i i') (λ _ _, False) i.
Proof.
  intros Hp Ho Hin Hq [x Hx]. wp_step. eapply wp_post; [apply (locked_quiet o m y (ic_todo i) i x); try done|].
  - intros d Hd. unfold may_arrive. rewrite (tk_engine _ _ _ _ Hx). by apply Hin.
  - intros _ i1 [H1 [S1 T1]]. cbv beta. rewrite <- T1 in H1. eapply wp_post; [by apply wp_send_out|].
    intros [] i2 [H2 [S2 T2]]. split; [by rewrite T2|]. split; congruence.
Qed.

Lemma wp_turn t y i :
  simulated y (ic_todo i) i → polling i →
  (∀ d, t = Datagram (inr d) → d ∈ pe_net y ∨
     Forall (λ z, h_conv (s_header z.1) ≠ e_conv (inner (ic_engine i))) (parse_all (S (length d)) d)) →
  wp overflows (run t)
    (λ _ i', simulated y (ic_todo i') i' ∧ polling i' ∧ (t = Woken → ic_stage i ≠ Finished → effort i' < effort i) ∧ effort i' ≤ effort i)
    (λ _ _, False) i.
Proof.
  intros Hs Hp Hd.
  assert (Hstay : ∀ i', simulated y (ic_todo i') i' ∧ undisturbed i i' → t ≠ Woken →
    simulated y (ic_todo i') i' ∧ polling i' ∧ (t = Woken → ic_stage i ≠ Finished → effort i' < effort i) ∧ effort i' ≤ effort i).
  { intros i' [H1 [S1 T1]] Ht. unfold polling, effort in *. rewrite S1, T1 in *. by split_and!. }
  destruct t as [[e|d]| |]; cbn [take_turn].
  - unfold recv_task. do 2 wp_step. apply wp_when; intros _; [wp_step|]; apply Hstay; try done;
      (split; [by eapply simulated_same; [..|exact Hs]|done]).
  - unfold recv_task. do 2 wp_step. apply wp_when; intros _; [|by apply Hstay].
    eapply wp_post; [apply (wp_background (OpInput d) (input (clk := clk_a) d) y i); try done|].
    + intros d' [= <-]. by apply Hd.
    + intros [] i' H. by apply Hstay.
  - unfold update_task. do 2 wp_step. destruct (ic_stage i) eqn:Hst; [..|wp_step; by apply Hstay];
      (eapply wp_post; [by apply (wp_background OpUpdate (update (clk := clk_a)) y i)|]; intros [] i' H; by apply Hstay).
  - eapply wp_post; [by apply wp_main_task|]. intros [] i' (H1 & H2 & H3 & H4). by split_and!.
Qed.

(** ** Always *)

Lemma interop_simulated w :
  interop prof_a prof_b clk_a clk_b w →
  simulated w.2 (ic_todo w.1) w.1 ∧ polling w.1 ∧ effort w.1 ≤ 1 + 51 * len test_messages.
Proof.
  induction 1 as [x s y Hx Hst Hy|w w' _ (IHs & IHp & IHe) Hs].
  - split; [|split; [done|vm_compute; congruence]]. exists (after x OpStart (Ok RUnit) s). assert (Hf := Hx). destruct Hf as (conv & c & s0 & e & s' & _ & _ & _ & _ & _ & _ & ->).
    split; cbn; try done. eapply linked_step; [by apply linked_start|]. apply step_a. apply peer_call; [done|done| |done].
    cbn [perform]. unfold mbind, M_bind. by rewrite Hst.
  - destruct Hs as [t i i' y Hd Hrun|i y y' Hy]; cbn in *.
    + pose proof (wp_ok _ _ _ _ _ _ _ (wp_turn t y i IHs IHp Hd) Hrun) as (H1 & H2 & _ & H4). split_and!; [done..|lia].
    + split; [|done]. destruct IHs as [x [Hl He Hw Hg Hsn]]. exists x. split; try done.
      eapply linked_step; [exact Hl|]. apply step_b. by rewrite Hw.
Qed.
End InteropFacts.

(** * Theorems *)

Section InteropTheorems.
Context {api : BytesApi} {spec : BytesApiSpec api} (prof_a prof_b : Profile) (clk_a clk_b : Clock).

(** C39: whatever the network does and however its tasks are interleaved, what
    interop_client_simple.rs reads are the server's messages, in order, none
    missing or repeated, when the server is an engine of this library in message
    mode; a turn of a task panics only for an overflow in a build that checks it;
    and the main task ends, after at most 51 wake-ups per message and one. *)
Theorem interop_answers i y :
  interop prof_a prof_b clk_a clk_b (i, y) → len (concat (pe_sent y)) ≤ H31 → stream_of y = false →
  map snd (ic_answers i) `prefix_of` nonempty (pe_sent y) ∧ 0 ≤ effort i ≤ 1 + 51 * len test_messages ∧
  ∀ t, (∀ d, t = Datagram (inr d) → d ∈ pe_net y) →
    wp (@checked_overflow prof_a) (take_turn (prof := prof_a) (clk := clk_a) t)
      (λ _ i', effort i' ≤ effort i ∧ (t = Woken → ic_stage i ≠ Finished → effort i' < effort i)) (λ _ _, False) i.
Proof.
  intros Hi Hy Hm. destruct (interop_simulated prof_a prof_b clk_a clk_b _ Hi) as (Hs & Hp & He). cbn in Hs, Hp, He. split_and!.
  - destruct Hs as [x [Hl _ Hw Hg Hsn]].
    assert (Hb : bounded (Build_Link x y)).
    { eapply (linked_bytes prof_a prof_b clk_a clk_b); [exact Hl| |done]. cbn. pose proof (len_nonneg (concat (ic_todo i))). lia. }
    destruct (ends_ok prof_a prof_b clk_a clk_b (Build_Link x y) y x Hl Hb) as ([d Hx] & Hso & _); [by right|].
    rewrite <- Hg. by eapply messages_prefix.
  - by apply effort_nonneg.
  - exact He.
  - intros t Ht. eapply wp_post; [apply (wp_turn prof_a prof_b clk_a clk_b t y i Hs Hp)|].
    + intros d Hd. left. by apply Ht.
    + intros [] i' (_ & _ & H1 & H2). by split.
Qed.

(** The check succeeds exactly on the answer it is written for. *)
Lemma verify_spec message data : verify message data = Verified ↔ data = echo_prefix ++ message.
Proof.
  unfold verify. split.
  - case_bool_decide as H1; [|done]. case_bool_decide as H2; [|done]. intros _.
    by rewrite <- (take_drop (length echo_prefix) data), H1, H2.
  - intros ->. by rewrite take_app_length, drop_app_length, !bool_decide_true.
Qed.
End InteropTheorems.

(** * A run *)

Module InteropSample.
Import LinkSample.
Inductive move := Client (t : turn) | Gets (k : nat) | Server (o : op) | ServerGets (k : nat).

Definition client_does (t : turn) (w : Interop * Peer) : option (Interop * Peer) :=
  match take_turn (prof := prof_a) (clk := clk_a) (api := bytes_le) t w.1 with
  | (Ok _, i) => Some (i, w.2)
  | _ => None
  end.
Definition server_does (o : op) (w : Interop * Peer) : option (Interop * Peer) :=
  y ← did prof_b clk_b w.2 o; Some (w.1, y).
Definition moved (w : Interop * Peer) (m : move) : option (Interop * Peer) :=
  match m with
  | Client (Datagram _) => None
  | Client t => client_does t w
  | Gets k => d ← pe_net w.2 !! k; client_does (Datagram (inr d)) w
  | Server (OpInput _ | OpSetConv _) => None
  | Server o => server_does o w
  | ServerGets k => d ← ic_wire w.1 !! k; server_does (OpInput d) w
  end.
Fixpoint moves (w : Interop * Peer) (ms : list move) : option (Interop * Peer) :=
  match ms with [] => Some w | m :: ms => w ← moved w m; moves w ms end.

Abbreviation ok := (interop (api := bytes_le) prof_a prof_b clk_a clk_b).
Lemma client_does_ok t w w' :
  ok w → (∀ d, t = Datagram (inr d) → d ∈ pe_net w.2) → client_does t w = Some w' → ok w'.
Proof.
  unfold client_does. intros Hw Hd H. destruct (take_turn t w.1) as [[[]|?|?] i] eqn:Hr; [|done..]. injection H as <-.
  destruct w as [i0 y]. eapply interop_next; [exact Hw|]. eapply interop_client; [|exact Hr]. intros d ->. left. by apply Hd.
Qed.
Lemma server_does_ok o w w' :
  ok w → op_ok o → (∀ d, o = OpInput d → d ∈ ic_wire w.1) → server_does o w = Some w' → ok w'.
Proof.
  unfold server_does, did. intros Hw Ho Hd H. destruct (perform o (pe_st w.2)) as [r s'] eqn:Hr.
  assert (w' = (w.1, after w.2 o r s') ∧ ∀ q, r ≠ Panicked q) as [-> Hq] by (by destruct r; cbn in H; simplify_eq).
  destruct w as [i y]. eapply interop_next; [exact Hw|]. apply interop_server. apply peer_call; try done. intros d ->. left. by apply Hd.
Qed.
Lemma moves_ok ms : ∀ w w', ok w → moves w ms = Some w' → ok w'.
Proof.
  induction ms as [|m ms IH]; intros w w' Hw H; cbn in H; [by injection H as <-|].
  destruct (moved w m) as [w1|] eqn:H1; [|done]. apply (IH w1); [|done].
  destruct m as [[]|k|[]|k]; unfold moved in H1; try done; try (by eapply client_does_ok; [..|exact H1]); try (by eapply server_does_ok; [..|exact H1]).
  - destruct (pe_net w.2 !! k) as [d|] eqn:Hk; [|done]. cbn -[client_does] in H1. eapply client_does_ok; [exact Hw| |exact H1].
    intros d' [= <-]. by eapply list_elem_of_lookup_2.
  - destruct (ic_wire w.1 !! k) as [d|] eqn:Hk; [|done]. cbn -[server_does] in H1. refine (server_does_ok (OpInput d) w w1 Hw I _ H1).
    intros d' [= <-]. by eapply list_elem_of_lookup_2.
Qed.

Definition none : Peer := Build_Peer Sample.state [] [] [] [].
Definition a0 : Peer := default none (made clk_a).
Definition b0 : Peer := default none (made clk_b).
Definition hello : bytes := default [] (head test_messages).
Definition start : Interop * Peer := (spawned (pe_st a0), b0).
Definition script : list move :=
  [Client Woken; Client Tick; ServerGets 0; Server OpRecv; Server (OpSend (echo_prefix ++ hello)); Server OpFlush;
   Server OpDrainOutput; Gets 0; Gets 1; Client Woken].
Definition finished : Interop * Peer := default start (moves start script).

Lemma start_ok : ok start.
Proof. apply (interop_start _ _ _ _ a0 (pe_st a0) b0); [apply made_fresh; vm_compute; reflexivity|reflexivity|apply made_fresh; vm_compute; reflexivity]. Qed.
Lemma finished_ok : ok finished.
Proof. apply (moves_ok script start); [apply start_ok|vm_compute; reflexivity]. Qed.
End InteropSample.

Lemma interop_answers_witness :
  map snd (ic_answers InteropSample.finished.1) `prefix_of` nonempty (pe_sent InteropSample.finished.2) ∧
  ic_answers InteropSample.finished.1 = [(InteropSample.hello, echo_prefix ++ InteropSample.hello)].
Proof.
  destruct (interop_answers (api := bytes_le) LinkSample.prof_a LinkSample.prof_b LinkSample.clk_a LinkSample.clk_b
    InteropSample.finished.1 InteropSample.finished.2) as [H _].
  - rewrite <- (surjective_pairing InteropSample.finished). exact InteropSample.finished_ok.
  - vm_compute. congruence.
  - vm_compute. reflexivity.
  - split; [exact H|vm_compute; reflexivity].
Defined.
