(* ===== verification/Measure.v ===== *)
(** examples/perf_test_client.rs and perf_test_server.rs: the tests the client runs, and
    the server's accept loop ([run_server] of simple_echo.rs too).

    A test is a loop over what its stream and its timers do; what they do in one
    turn is the argument of the turn, and a run is a list of turns.  [Perf] has
    what is done with each thing written and read; here it is shown that the
    figures of a whole test add up. *)
From S2P Require Import Prelude Monad Protocol Error Config Stream Echo Perf.

(** [loop { body }], over what its turns meet: whether it goes on after them. *)
Fixpoint loop {S E X} (body : X → M S E bool) (xs : list X) : M S E bool :=
  match xs with
  | [] => mret true
  | x :: xs => more ← body x; if (more : bool) then loop body xs else mret false
  end.

(** * [latency_test] *)

(** The branch of the [select!] that is taken: the interval ticks, at the time
    [timestamp], and writing the message ends with [written]; or [read] returns. *)
Inductive latency_branch :=
  | SendTick (timestamp : Z) (written : io_error_kind + ())
  | Response (result : io_error_kind + bytes) (recv_timestamp : Z).

Record LatencyTest := { lt_stats : ClientStats; pending_timestamps : list Z }.
#[export] Instance LatencyTest_eta : Eta LatencyTest := λ t, Build_LatencyTest (lt_stats t) (pending_timestamps t).

(** What [interval] is given, in milliseconds. *)
Definition send_period {S E} (message_rate : Z) : M S E Z := udiv 1000 message_rate.

Definition GRACE_PERIOD : Z := 100.

Section Tests.
Context {prof : Profile}.
Abbreviation LT := (M LatencyTest Empty_set).

Definition on_stats {A} (m : M ClientStats Empty_set A) : LT A := λ t,
  let '(r, s) := m (lt_stats t) in (r, t <| lt_stats := s |>).

(** One turn of the loop, which starts at [now]. *)
Definition latency_turn (end_time : Z) (test_data : bytes) (x : Z * latency_branch) : LT bool :=
  let '(now, branch) := x in
  if end_time <=? now then mret false
  else
    match branch with
    | SendTick timestamp written =>
        modify (λ t, t <| pending_timestamps ::= λ l, l ++ [timestamp] |>);;
        on_stats (on_written written (test_message timestamp test_data))
    | Response result recv_timestamp => on_stats (on_received result recv_timestamp)
    end;;
    mret true.

(** One turn of the loop that waits for the remaining responses; [None] is a
    timeout. *)
Definition grace_turn (grace_end : Z) (x : Z * option (io_error_kind + bytes) * Z) : LT bool :=
  let '(now, result, recv_timestamp) := x in
  if now <? grace_end then on_stats (on_grace result recv_timestamp) else mret false.

(** From the connected stream on; [None]: it has not returned yet. *)
Definition latency_test (start duration message_size : Z) (turns : list (Z * latency_branch)) (grace_start : Z)
    (graces : list (Z * option (io_error_kind + bytes) * Z)) : LT (option ClientStats) :=
  let end_time := start + duration in
  let test_data := repeat xaa (Z.to_nat message_size) in
  running ← loop (latency_turn end_time test_data) turns;
  if (running : bool) then mret None
  else
    waiting ← loop (grace_turn (grace_start + GRACE_PERIOD)) graces;
    if (waiting : bool) then mret None else stats ← gets lt_stats; mret (Some stats).

(** * [throughput_test] *)

Record ThroughputTest := { tt_stats : ClientStats; last_stats_print : Z; tt_prints : list Z }.
#[export] Instance ThroughputTest_eta : Eta ThroughputTest := λ t,
  Build_ThroughputTest (tt_stats t) (last_stats_print t) (tt_prints t).

Definition on_test {A} (m : M ClientStats Empty_set A) : M ThroughputTest Empty_set A := λ t,
  let '(r, s) := m (tt_stats t) in (r, t <| tt_stats := s |>).

(** What a turn meets: the time at its start, the time stamp, how [write_all]
    ends, and how the [read] after it does, where [None] is a timeout. *)
Record throughput_branch := {
  tb_now : Z;
  tb_timestamp : Z;
  tb_written : io_error_kind + ();
  tb_result : option (io_error_kind + bytes);
}.

Definition PRINT_PERIOD : Z := 2000.

(** The progress report every two seconds. *)
Definition print_progress (now : Z) : M ThroughputTest Empty_set () :=
  last ← gets last_stats_print;
  whenM (PRINT_PERIOD <=? saturating_sub now last)
    (modify (λ t, t <| tt_prints ::= λ l, l ++ [now] |> <| last_stats_print := now |>)).

Definition throughput_turn (end_time : Z) (test_data : bytes) (x : throughput_branch) : M ThroughputTest Empty_set bool :=
  if end_time <=? tb_now x then mret false
  else
    on_test (on_written (tb_written x) (test_message (tb_timestamp x) test_data));;
    match tb_written x with
    | inl _ => mret true
    | inr _ =>
        on_test (on_throughput (tb_result x));;
        print_progress (tb_now x);;
        mret true
    end.

Definition throughput_test (start duration message_size : Z) (turns : list throughput_branch) :
    M ThroughputTest Empty_set (option ClientStats) :=
  running ← loop (throughput_turn (start + duration) (repeat xbb (Z.to_nat message_size))) turns;
  if (running : bool) then mret None else stats ← gets tt_stats; mret (Some stats).
End Tests.

(** * The tests [main] runs *)

Inductive test :=
  | Latency (duration message_size message_rate : Z)
  | Throughput (duration message_size : Z).

Definition planned_tests (test_type : string) : list test :=
  if decide (test_type = "latency") then [Latency (secs 10) 64 20; Latency (secs 10) 512 60]
  else if decide (test_type = "throughput") then [Throughput (secs 10) 64; Throughput (secs 10) 1024]
  else if decide (test_type = "mixed") then [Latency (secs 5) 64 20; Throughput (secs 5) 512]
  else [].

Definition message_size (t : test) : Z := match t with Latency _ n _ | Throughput _ n => n end.
Definition message_rate (t : test) : option Z := match t with Latency _ _ r => Some r | Throughput _ _ => None end.

(** * The accept loops of the servers *)

(** The clients handled so far, each with the number it was given. *)
Record PerfServer {stream : Type} := { client_id : Z; ps_spawned : list (Z * stream) }.
Arguments PerfServer : clear implicits.
Arguments Build_PerfServer {stream} _ _.
#[export] Instance PerfServer_eta {stream} : Eta (PerfServer stream) := λ s, Build_PerfServer (client_id s) (ps_spawned s).

Section Servers.
Context {prof : Profile} {stream : Type}.

(** A turn of the [select!] loop; [None] is the shutdown signal. *)
Definition perf_server_turn (result : option (KcpError + stream)) : M (PerfServer stream) Empty_set bool :=
  match result with
  | Some (inr s) =>
      id ← gets client_id; id ← uadd 32 id 1; modify (λ s, s <| client_id := id |>);;
      modify (λ p, p <| ps_spawned ::= λ l, l ++ [(id, s)] |>);;
      mret true
  | Some (inl _) => mret true
  | None => mret false
  end.
Definition perf_run_server (results : list (option (KcpError + stream))) : M (PerfServer stream) Empty_set bool :=
  loop perf_server_turn results.

(** simple_echo.rs: the loop has no end. *)
Definition echo_run_server (results : list (KcpError + stream)) : M (list stream) Empty_set bool :=
  loop (λ result,
    match result with
    | inr s => modify (λ l, l ++ [s])
    | inl _ => mret tt
    end;;
    mret true) results.

(** issue5_repro.rs: a failure ends it. *)
Definition issue5_server (results : list (KcpError + stream)) : M (list stream) Empty_set bool :=
  loop (λ result,
    match result with
    | inr s => modify (λ l, l ++ [s]);; mret true
    | inl _ => mret false
    end) results.
End Servers.

(** The streams that were accepted before the shutdown. *)
Fixpoint accepted {stream} (results : list (option (KcpError + stream))) : list stream :=
  match results with
  | Some (inr s) :: results => s :: accepted results
  | Some (inl _) :: results => accepted results
  | _ => []
  end.

(** * What a run has counted *)

(** The turns of a run that got as far as their [select!]. *)
Fixpoint before {X} (now : X → Z) (end_time : Z) (turns : list X) : list X :=
  match turns with
  | [] => []
  | x :: turns => if end_time <=? now x then [] else x :: before now end_time turns
  end.
(** The stamps of the ticks, which of them were written, the answers, and which
    turns are errors. *)
Definition stamp (b : latency_branch) : option Z := match b with SendTick t _ => Some t | Response _ _ => None end.
Definition is_sent (b : latency_branch) : bool := match b with SendTick _ (inr _) => true | _ => false end.
Definition answer_in (b : latency_branch) : option bytes :=
  match b with Response (inr data) _ => if 8 <=? len data then Some data else None | _ => None end.
Definition is_error (b : latency_branch) : bool :=
  match b with
  | SendTick _ (inr _) => false
  | SendTick _ (inl _) | Response (inl _) _ => true
  | Response (inr data) _ => len data <? 8
  end.
(** The answers of the grace period. *)
Fixpoint late (grace_end : Z) (graces : list (Z * option (io_error_kind + bytes) * Z)) : list bytes :=
  match graces with
  | (now, Some (inr data), _) :: graces =>
      if (now <? grace_end) && (8 <=? len data) then data :: late grace_end graces else []
  | _ => []
  end.

Definition count {X} (p : X → bool) (l : list X) : Z := len (List.filter p l).
Lemma count_bounds {X} (p : X → bool) l : 0 ≤ count p l ≤ len l.
Proof.
  unfold count. split; [apply len_nonneg|]. induction l as [|x l IH]; [done|]. cbn. destruct (p x); rewrite ?len_cons; lia.
Qed.
Lemma count_snoc {X} (p : X → bool) l x : count p (l ++ [x]) = count p l + if p x then 1 else 0.
Proof. unfold count. rewrite List.filter_app, len_app. cbn. by destruct (p x). Qed.
Lemma omap_snoc {X Y} (f : X → option Y) l x : omap f (l ++ [x]) = omap f l ++ option_list (f x).
Proof. rewrite omap_app. cbn. by destruct (f x). Qed.
Lemma count_split l : count is_sent l + len (omap answer_in l) + count is_error l = len l.
Proof.
  induction l as [|b l IH] using rev_ind; [done|]. rewrite !count_snoc, omap_snoc, !len_app, <- IH.
  destruct b as [t [e|[]]|[e|d] t]; cbn -[Z.leb Z.ltb]; autorewrite with kcp_len; try lia.
  destruct (Z.leb_spec 8 (len d)), (Z.ltb_spec (len d) 8); cbn; autorewrite with kcp_len; lia.
Qed.

(** The size of the read buffer. *)
Definition RECEIVE_BUFFER : Z := 16384.

(** Counters that say this of messages of [size] bytes. *)
Record counted (size sent errors : Z) (samples answers : list Z) (s : ClientStats) : Prop := {
  co_sent : cs_messages_sent s = sent;
  co_bytes_sent : cs_bytes_sent s = sent * size;
  co_received : cs_messages_received s = len answers;
  co_bytes_received : cs_bytes_received s = sum_of answers;
  co_errors : cs_errors s = errors;
  co_latency : latency_ok samples (cs_latency s);
}.

Definition TURNS_MAX : Z := 2 ^ 40.
Definition MESSAGE_MAX : Z := 2 ^ 20.

Section Counts.
Context {prof : Profile}.
Abbreviation wpc m Q s := (wp checked_overflow m Q (λ _ _, False) s).

Lemma wpc_bump {S} (get : S → Z) (set : Z → S → S) n (Q : () → S → Prop) (s : S) :
  in_u 64 (get s + n) → Q tt (set (get s + n) s) → wpc (bump get set n) Q s.
Proof. intros H HQ. eapply wp_weaken_K; [|by apply wp_bump]. done. Qed.

Lemma wp_on_latency {A} (m : M LatencyStats Empty_set A) (Q : A → ClientStats → Prop) s :
  wpc m (λ a l, Q a (s <| cs_latency := l |>)) (cs_latency s) → wpc (on_latency m) Q s.
Proof. unfold wp, on_latency. by destruct (m _) as [[] ?]. Qed.
Lemma wp_on_stats {A} (m : M ClientStats Empty_set A) (Q : A → LatencyTest → Prop) t :
  wpc m (λ a s, Q a (t <| lt_stats := s |>)) (lt_stats t) → wpc (on_stats m) Q t.
Proof. unfold wp, on_stats. by destruct (m _) as [[] ?]. Qed.
Lemma wp_on_test {A} (m : M ClientStats Empty_set A) (Q : A → ThroughputTest → Prop) t :
  wpc m (λ a s, Q a (t <| tt_stats := s |>)) (tt_stats t) → wpc (on_test m) Q t.
Proof. unfold wp, on_test. by destruct (m _) as [[] ?]. Qed.

Context (size sent errors : Z) (answers : list Z).
Context (Hsize : 0 ≤ size < MESSAGE_MAX) (Hsent : 0 ≤ sent < TURNS_MAX) (Herr : 0 ≤ errors < TURNS_MAX).
Context (Hans : Forall (λ n, 0 ≤ n ≤ RECEIVE_BUFFER) answers) (Hnum : len answers < TURNS_MAX).

Lemma counted_sent samples message s :
  counted size sent errors samples answers s → len message = size →
  wpc (on_written (inr ()) message) (λ _ s', counted size (sent + 1) errors samples answers s') s.
Proof.
  intros [Es Eb Er Ebr Ee El] Hm. unfold on_written, TURNS_MAX, MESSAGE_MAX in *. wp_step.
  apply wpc_bump; [rewrite Es; unfold in_u; cbn -[Z.pow]; lia|].
  apply wpc_bump; [cbn -[Z.pow]; rewrite Eb, Hm; unfold in_u; nia|].
  split; cbn -[Z.pow]; rewrite ?Es, ?Eb, ?Hm; [lia..|done|done|done|done].
Qed.

Lemma counted_error samples s :
  counted size sent errors samples answers s →
  wpc count_error (λ _ s', counted size sent (errors + 1) samples answers s') s.
Proof.
  intros [Es Eb Er Ebr Ee El]. unfold count_error, TURNS_MAX in *.
  apply wpc_bump; [rewrite Ee; unfold in_u; cbn -[Z.pow]; lia|]. split; cbn; rewrite ?Ee; done.
Qed.

Lemma counted_answer samples data s :
  counted size sent errors samples answers s → len data ≤ RECEIVE_BUFFER →
  wpc (count_answer data) (λ _ s', counted size sent errors samples (answers ++ [len data]) s') s.
Proof.
  intros [Es Eb Er Ebr Ee El] Hd. unfold count_answer, TURNS_MAX in *. wp_step.
  pose proof (len_nonneg answers). pose proof (len_nonneg data).
  pose proof (sum_map_le id RECEIVE_BUFFER answers Hans) as Hsum. rewrite map_id in Hsum. unfold RECEIVE_BUFFER in *.
  apply wpc_bump; [rewrite Er; unfold in_u; cbn -[Z.pow]; lia|].
  apply wpc_bump; [cbn -[Z.pow]; rewrite Ebr; unfold in_u; lia|].
  split; cbn; rewrite ?Er, ?Ebr, ?len_snoc, ?sum_of_snoc; done.
Qed.

Lemma counted_sample samples data now s :
  counted size sent errors samples answers s → len data ≤ RECEIVE_BUFFER →
  wpc (take_sample data now) (λ _ s', ∃ x, counted size sent errors (samples ++ [x]) (answers ++ [len data]) s') s.
Proof.
  intros [Es Eb Er Ebr Ee El] Hd. unfold take_sample. do 3 wp_step. apply wp_on_latency.
  apply (wp_weaken_K _ no_panic); [done|]. eapply wp_post; [apply add_sample_spec; [exact El|apply as_u32_range]|].
  intros [] l Hl. cbv beta. eapply wp_post; [by apply counted_answer|]. intros [] s' H. eexists. exact H.
Qed.
End Counts.

Section Loops.
Context {prof : Profile} {S X : Type} (body : X → M S Empty_set bool) (now : X → Z) (end_time : Z) (I : list X → S → Prop).

(** A loop with a deadline. *)
Lemma wp_loop all :
  (∀ x s, end_time ≤ now x → body x s = (Ok false, s)) →
  (∀ done x s, done ++ [x] `prefix_of` all → now x < end_time → I done s →
     wp checked_overflow (body x) (λ more s', more = true ∧ I (done ++ [x]) s') (λ _ _, False) s) →
  ∀ s, I [] s →
  wp checked_overflow (loop body all)
    (λ more s', more = forallb (λ x, now x <? end_time) all ∧ I (before now end_time all) s') (λ _ _, False) s.
Proof.
  intros Hend Hstep.
  enough (∀ rest done s, all = done ++ rest → I done s →
    wp checked_overflow (loop body rest)
      (λ more s', more = forallb (λ x, now x <? end_time) rest ∧ I (done ++ before now end_time rest) s') (λ _ _, False) s).
  { intros s Hs. by apply (H all [] s). }
  induction rest as [|x rest IH]; intros done s Hall Hs; cbn [loop forallb before].
  - wp_step. by rewrite app_nil_r.
  - destruct (Z.ltb_spec (now x) end_time) as [Hlt|Hge]; destruct (Z.leb_spec end_time (now x)); try lia; cbn [andb].
    + wp_step. eapply wp_post; [apply Hstep; [|done|exact Hs]|].
      { exists rest. by rewrite Hall, <- (assoc (++)). }
      intros more s' [-> Hs']. eapply wp_post; [apply (IH (done ++ [x])); [by rewrite <- (assoc (++))|done]|].
      intros more s'' [-> Hs'']. by rewrite <- (assoc (++)) in Hs''.
    + wp_step. unfold wp at 1. rewrite Hend by done. wp_step. by rewrite app_nil_r.
Qed.
End Loops.

(** ** The latency test *)

Definition fits_buffer (data : bytes) : Prop := len data ≤ RECEIVE_BUFFER.
Definition branch_fits (b : latency_branch) : Prop := match b with Response (inr data) _ => fits_buffer data | _ => True end.
Definition grace_fits (x : Z * option (io_error_kind + bytes) * Z) : Prop :=
  match x with (_, Some (inr data), _) => fits_buffer data | _ => True end.

(** After the turns [bs], and [lates] in the grace period. *)
Record latency_counts (size : Z) (bs : list latency_branch) (lates : list bytes) (t : LatencyTest) : Prop := {
  lc_stats : ∃ samples, len samples = len (omap answer_in bs ++ lates) ∧
    counted size (count is_sent bs) (count is_error bs) samples (map len (omap answer_in bs ++ lates)) (lt_stats t);
  lc_pending : pending_timestamps t = omap stamp bs;
}.

Lemma len_map {A B} (f : A → B) l : len (map f l) = len l.
Proof. unfold len. by rewrite length_map. Qed.
Lemma answers_fit bs lates :
  Forall branch_fits bs → Forall fits_buffer lates →
  Forall (λ n, 0 ≤ n ≤ RECEIVE_BUFFER) (map len (omap answer_in bs ++ lates)).
Proof.
  intros Hb Hl. apply Forall_map, Forall_app. split; [|eapply Forall_impl; [exact Hl|]; unfold fits_buffer; cbn; intros d; pose proof (len_nonneg d); lia].
  induction Hb as [|b l Hb _ IH]; [constructor|]. destruct b as [?|[?|d] t]; cbn -[Z.leb]; try exact IH.
  cbn in Hb. pose proof (len_nonneg d). destruct (8 <=? len d); [|exact IH]. constructor; [|exact IH]. unfold fits_buffer in Hb. cbn. lia.
Qed.
Lemma len_test_message timestamp data : len (test_message timestamp data) = 8 + len data.
Proof. unfold test_message. rewrite len_app. unfold len at 1. by rewrite length_le_bytes. Qed.

Section LatencyFacts.
Context {prof : Profile} (data : bytes) (Hdata : 8 + len data < MESSAGE_MAX).
Abbreviation size := (8 + len data).
Abbreviation wpc m Q s := (wp checked_overflow m Q (λ _ _, False) s).

Lemma latency_step end_time now b bs t :
  Forall branch_fits (bs ++ [b]) → len bs < TURNS_MAX → now < end_time → latency_counts size bs [] t →
  wpc (latency_turn end_time data (now, b)) (λ more t', more = true ∧ latency_counts size (bs ++ [b]) [] t') t.
Proof.
  intros Hf Hlen Hnow [(samples & Hs & Hc) Hp]. rewrite !app_nil_r in *. apply Forall_app in Hf as [Hf [Hb _]%Forall_cons].
  pose proof (count_bounds is_sent bs). pose proof (count_bounds is_error bs). pose proof (count_split bs).
  pose proof (answers_fit bs [] Hf (Forall_nil_2 _)) as Ha. rewrite app_nil_r in Ha.
  pose proof (len_nonneg data). pose proof (len_nonneg (omap answer_in bs)).
  assert (Hn : len (map len (omap answer_in bs)) < TURNS_MAX) by (rewrite len_map; lia).
  unfold latency_turn. destruct (Z.leb_spec end_time now); [lia|]. wp_step.
  destruct b as [timestamp [e|[]]|[e|d] rt].
  - do 2 wp_step. apply wp_on_stats. eapply wp_post; [eapply counted_error; [..|exact Hc]; done || lia|]. intros [] s Hc'. wp_step.
    split; [done|]. split; cbn; rewrite ?Hp, ?omap_snoc; [|done]. exists samples. rewrite !app_nil_r, !count_snoc, Z.add_0_r. by split.
  - do 2 wp_step. apply wp_on_stats. eapply wp_post.
    { eapply counted_sent; [..|exact Hc|by apply len_test_message]; done || lia. }
    intros [] s Hc'. wp_step.
    split; [done|]. split; cbn; rewrite ?Hp, ?omap_snoc; [|done]. exists samples. rewrite !app_nil_r, !count_snoc, Z.add_0_r. by split.
  - apply wp_on_stats. eapply wp_post; [eapply counted_error; [..|exact Hc]; done || lia|]. intros [] s Hc'. wp_step.
    split; [done|]. split; cbn; rewrite ?Hp, ?omap_snoc; cbn; rewrite ?app_nil_r; [|done].
    exists samples. rewrite !count_snoc, Z.add_0_r. by split.
  - apply wp_on_stats. unfold on_received. apply wp_if; intros H8.
    + eapply wp_post; [eapply counted_sample; [..|exact Hc|exact Hb]; done || lia|]. intros [] s [x Hc']. wp_step.
      split; [done|]. split; cbn -[Z.leb]; rewrite ?Hp, ?omap_snoc; cbn -[Z.leb]; [|by rewrite app_nil_r].
      exists (samples ++ [x]). rewrite H8. cbn. rewrite app_nil_r, map_app, !len_snoc, Hs. split; [done|].
      rewrite !count_snoc. cbn -[Z.ltb]. apply Z.leb_le in H8. destruct (Z.ltb_spec (len d) 8); [lia|]. by rewrite !Z.add_0_r.
    + eapply wp_post; [eapply counted_error; [..|exact Hc]; done || lia|]. intros [] s Hc'. wp_step.
      split; [done|]. split; cbn -[Z.leb]; rewrite ?Hp, ?omap_snoc; cbn -[Z.leb]; [|by rewrite app_nil_r].
      exists samples. rewrite H8. cbn. rewrite !app_nil_r. split; [done|].
      rewrite !count_snoc. cbn -[Z.ltb]. apply Z.leb_gt in H8. destruct (Z.ltb_spec (len d) 8); [|lia]. by rewrite !Z.add_0_r.
Qed.

Lemma grace_loop grace_end bs graces : ∀ lates t,
  Forall branch_fits bs → Forall fits_buffer lates → Forall grace_fits graces →
  len bs + len lates + len graces < TURNS_MAX → latency_counts size bs lates t →
  wpc (loop (grace_turn grace_end) graces)
    (λ more t', latency_counts size bs (lates ++ late grace_end graces) t' ∧ (more = true → Forall (λ x, x.1.1 < grace_end) graces)) t.
Proof.
  induction graces as [|[[now r] rt] graces IH]; intros lates t Hf Hl Hg Hlen Hc; cbn [loop late].
  { wp_step. rewrite app_nil_r. split; [done|constructor]. }
  apply Forall_cons in Hg as [Hr Hg]. rewrite len_cons in Hlen. pose proof (len_nonneg graces).
  assert (Hstop : latency_counts size bs (lates ++ []) t) by (by rewrite app_nil_r).
  wp_step. unfold grace_turn at 1. apply wp_if; intros Hnow.
  2: { wp_step. wp_step. split; [|done]. destruct r as [[e|d]|]; [done| |done]. by rewrite Hnow. }
  apply wp_on_stats. destruct r as [[e|d]|]; cbn [on_grace]; [by do 2 wp_step; destruct t| |by do 2 wp_step; destruct t].
  rewrite Hnow. apply Z.ltb_lt in Hnow. apply wp_if; intros H8.
  2: { do 2 wp_step. rewrite andb_comm, H8. by destruct t. }
  destruct Hc as [(samples & Hs & Hc) Hp]. pose proof (answers_fit bs lates Hf Hl) as Ha. wp_step.
  pose proof (count_bounds is_sent bs). pose proof (count_bounds is_error bs). pose proof (count_split bs).
  pose proof (len_nonneg data). pose proof (len_nonneg (omap answer_in bs)). pose proof (len_nonneg lates).
  eapply wp_post; [eapply counted_sample; [..|exact Hc|exact Hr]; try done; rewrite ?len_map, ?len_app; lia|].
  intros [] s [x Hc']. wp_step. eapply wp_post; [apply (IH (lates ++ [d]))|].
  - done.
  - apply Forall_app. split; [done|by constructor].
  - done.
  - rewrite len_snoc. lia.
  - split; cbn; [|done]. exists (samples ++ [x]). rewrite (assoc (++)), map_app, !len_snoc, Hs. by split.
  - intros more t' [Hl' Hm']. rewrite <- (assoc (++)) in Hl'. rewrite andb_comm, H8. split; [done|].
    intros Hm. constructor; [done|by apply Hm'].
Qed.
End LatencyFacts.

(** ** The throughput test *)

Definition tb_sent (x : throughput_branch) : bool := match tb_written x with inr _ => true | inl _ => false end.
Definition tb_answer (x : throughput_branch) : option bytes :=
  match tb_written x, tb_result x with
  | inr _, Some (inr data) => if 8 <=? len data then Some data else None
  | _, _ => None
  end.
Definition tb_error (x : throughput_branch) : bool :=
  match tb_written x, tb_result x with
  | inl _, _ | inr _, Some (inl _) => true
  | inr _, Some (inr data) => len data <? 8
  | inr _, None => false
  end.
Definition tb_fits (x : throughput_branch) : Prop := match tb_result x with Some (inr data) => fits_buffer data | _ => True end.

(** Progress is printed at times at least [PRINT_PERIOD] apart, the first of them
    that long after [start]. *)
Fixpoint spaced (last : Z) (prints : list Z) : Prop :=
  match prints with [] => True | p :: prints => last + PRINT_PERIOD ≤ p ∧ spaced p prints end.
Lemma last_shift {A} (l : list A) : ∀ q d, List.last (q :: l) d = List.last l q.
Proof. induction l as [|x l IH]; intros q d; [done|]. change (List.last (x :: l) d = List.last (x :: l) q). by rewrite !IH. Qed.
Lemma spaced_snoc prints : ∀ start p,
  spaced start prints → List.last prints start + PRINT_PERIOD ≤ p → spaced start (prints ++ [p]).
Proof.
  induction prints as [|q prints IH]; intros start p; cbn [spaced app]; [by intros _ H|]. intros [H1 H2] Hp. split; [done|].
  apply IH; [done|]. by rewrite last_shift in Hp.
Qed.

Record throughput_counts (start size : Z) (xs : list throughput_branch) (t : ThroughputTest) : Prop := {
  tc_stats : counted size (count tb_sent xs) (count tb_error xs) [] (map len (omap tb_answer xs)) (tt_stats t);
  tc_last : last_stats_print t = List.last (tt_prints t) start;
  tc_spaced : spaced start (tt_prints t);
}.

Lemma tb_answers_fit xs : Forall tb_fits xs → Forall (λ n, 0 ≤ n ≤ RECEIVE_BUFFER) (map len (omap tb_answer xs)).
Proof.
  induction 1 as [|x l Hx _ IH]; [constructor|].
  change (omap tb_answer (x :: l)) with (match tb_answer x with Some y => y :: omap tb_answer l | None => omap tb_answer l end).
  unfold tb_fits, fits_buffer in Hx. unfold tb_answer at 1.
  destruct (tb_written x), (tb_result x) as [[?|d]|]; try exact IH. destruct (8 <=? len d); [|exact IH].
  pose proof (len_nonneg d). constructor; [cbn; lia|exact IH].
Qed.

Section ThroughputFacts.
Context {prof : Profile} (data : bytes) (Hdata : 8 + len data < MESSAGE_MAX).
Abbreviation size := (8 + len data).
Abbreviation wpc m Q s := (wp checked_overflow m Q (λ _ _, False) s).

Lemma tb_count_bounds xs : 0 ≤ count tb_sent xs ∧ 0 ≤ count tb_error xs ∧ count tb_sent xs ≤ len xs ∧ count tb_error xs ≤ len xs ∧
  len (omap tb_answer xs) ≤ len xs.
Proof.
  pose proof (count_bounds tb_sent xs). pose proof (count_bounds tb_error xs). split_and!; try lia.
  clear. induction xs as [|x l IH]; [done|].
  change (omap tb_answer (x :: l)) with (match tb_answer x with Some y => y :: omap tb_answer l | None => omap tb_answer l end).
  destruct (tb_answer x); rewrite ?len_cons; lia.
Qed.

Lemma wp_print_progress start xs now t :
  throughput_counts start size xs t → wpc (print_progress now) (λ _ t', throughput_counts start size xs t') t.
Proof.
  intros [Hc Hl Hp]. unfold print_progress. do 2 wp_step. apply wp_when; intros H; [|by split].
  wp_step. split; cbn; [done|by rewrite last_last|]. apply spaced_snoc; [done|].
  rewrite <- Hl. apply Z.leb_le in H. unfold PRINT_PERIOD, saturating_sub in *. lia.
Qed.

Lemma throughput_step start end_time x xs t :
  Forall tb_fits (xs ++ [x]) → len (xs ++ [x]) < TURNS_MAX → tb_now x < end_time → throughput_counts start size xs t →
  wpc (throughput_turn end_time data x) (λ more t', more = true ∧ throughput_counts start size (xs ++ [x]) t') t.
Proof.
  intros Hf Hlen Hnow [Hc Hl Hp]. apply Forall_app in Hf as [Hf [Hb _]%Forall_cons]. rewrite len_snoc in Hlen.
  destruct (tb_count_bounds xs) as (H1 & H2 & H3 & H4 & H5). pose proof (tb_answers_fit xs Hf) as Ha. pose proof (len_nonneg data).
  assert (Hn : len (map len (omap tb_answer xs)) < TURNS_MAX) by (rewrite len_map; lia).
  assert (Hwith : ∀ s, counted size (count tb_sent (xs ++ [x])) (count tb_error (xs ++ [x])) [] (map len (omap tb_answer (xs ++ [x]))) s →
    throughput_counts start size (xs ++ [x]) (t <| tt_stats := s |>)) by done.
  rewrite !count_snoc, omap_snoc, map_app in Hwith. unfold tb_sent at 2, tb_error at 2, tb_answer at 2 in Hwith.
  unfold throughput_turn. destruct (Z.leb_spec end_time (tb_now x)); [lia|]. wp_step. apply wp_on_test.
  unfold tb_fits, fits_buffer in Hb. destruct (tb_written x) as [e|[]].
  { eapply wp_post; [eapply counted_error; [..|exact Hc]; done || lia|]. intros [] s Hc'. wp_step. split; [done|].
    apply Hwith. by rewrite app_nil_r, Z.add_0_r. }
  eapply wp_post; [eapply counted_sent; [..|exact Hc|by apply len_test_message]; done || lia|]. intros [] s Hc'.
  wp_step. apply wp_on_test. apply (wp_post _ _ (λ _ s, throughput_counts start size (xs ++ [x]) (t <| tt_stats := s |>))).
  2: { intros [] s' Hs. wp_step. eapply wp_post; [by apply (wp_print_progress start (xs ++ [x]))|]. intros [] t' Ht. by wp_step. }
  eapply wp_post; [|intros u s' Hs'; apply Hwith; exact Hs']. unfold on_throughput. cbn [tt_stats set_field].
  destruct (tb_result x) as [[e|d]|].
  - rewrite app_nil_r. eapply counted_error; [..|exact Hc']; done || lia.
  - apply wp_if; intros H8.
    + rewrite H8. apply Z.leb_le in H8. destruct (Z.ltb_spec (len d) 8); [lia|]. rewrite Z.add_0_r.
      eapply counted_answer; [..|exact Hc'|exact Hb]; done || lia.
    + rewrite H8. apply Z.leb_gt in H8. destruct (Z.ltb_spec (len d) 8); [|lia]. rewrite app_nil_r.
      eapply counted_error; [..|exact Hc']; done || lia.
  - wp_step. by rewrite app_nil_r, Z.add_0_r.
Qed.
End ThroughputFacts.

(** * Theorems *)

Section MeasureTheorems.
Context {prof : Profile}.

(** The figures of a latency test add up: of the turns before its end each is a
    message sent, an answer or an error; the bytes are those of what was written
    and of the answers; there is a sample for each answer; and the test returns
    as soon as a turn starts after its end and one after the grace period.  The
    one panic there can be is the subtraction of time stamps. *)
Theorem latency_test_adds_up start duration size turns grace_start graces :
  0 ≤ size < MESSAGE_MAX - 8 → len turns + len graces < TURNS_MAX →
  Forall (λ x, branch_fits x.2) turns → Forall grace_fits graces →
  wp checked_overflow (latency_test start duration size turns grace_start graces)
    (λ r t,
       (∀ st, r = Some st →
          let bs := map snd (before fst (start + duration) turns) in
          let lates := late (grace_start + GRACE_PERIOD) graces in
          let answers := omap answer_in bs ++ lates in
          cs_messages_sent st + cs_messages_received st + cs_errors st = len bs + len lates ∧
          cs_messages_sent st = count is_sent bs ∧ cs_bytes_sent st = cs_messages_sent st * (8 + size) ∧
          cs_messages_received st = len answers ∧ cs_bytes_received st = sum_of (map len answers) ∧
          pending_timestamps t = omap stamp bs ∧
          ∃ samples, len samples = len answers ∧ latency_ok samples (cs_latency st)) ∧
       (Exists (λ x, start + duration ≤ x.1) turns → Exists (λ x, grace_start + GRACE_PERIOD ≤ x.1.1) graces → r ≠ None))
    (λ _ _, False) (Build_LatencyTest ClientStats_new []).
Proof.
  intros Hs Hlen Ht Hg. unfold latency_test. cbv zeta. set (data := repeat xaa (Z.to_nat size)).
  assert (Hd : len data = size) by (unfold data, len; rewrite repeat_length; lia). pose proof (len_nonneg graces).
  wp_step. eapply wp_post.
  { apply (wp_loop _ fst (start + duration) (λ done, latency_counts (8 + len data) (map snd done) [])).
    - intros [now b] s Hnow. cbn in *. by rewrite (proj2 (Z.leb_le _ _) Hnow).
    - intros done [now b] s Hp Hnow Hc. rewrite map_app. apply latency_step; [rewrite Hd; lia| | |done|done].
      + destruct Hp as [rest Hp]. rewrite Hp in Ht. apply Forall_app in Ht as [Ht _].
        change [b] with (map snd [(now, b)]). rewrite <- map_app. by apply Forall_map.
      + apply prefix_length in Hp. rewrite length_app in Hp. rewrite len_map. unfold len in *. cbn in Hp. lia.
    - split; [|done]. exists []. split; [done|]. by split; try apply latency_new. }
  intros more t [Hmore Hc]. cbn beta in Hc.
  set (bs := map snd (before fst (start + duration) turns)) in *.
  assert (Hbs : Forall branch_fits bs ∧ len bs ≤ len turns).
  { unfold bs. rewrite len_map. clear - Ht. induction Ht as [|x l Hx _ [IH1 IH2]]; cbn [before]; [by split|].
    destruct (_ <=? _); [split; [constructor|apply len_nonneg]|]. rewrite !len_cons. split; [by constructor|lia]. }
  destruct Hbs as [Hbs Hl]. destruct more.
  - wp_step. split; [done|]. intros He _. symmetry in Hmore. rewrite forallb_forall in Hmore. apply List.Exists_exists in He as (x & Hx & Hge).
    specialize (Hmore x Hx). cbn in Hmore. apply Z.ltb_lt in Hmore. lia.
  - wp_step. eapply wp_post.
    { apply (grace_loop data (grace_start + GRACE_PERIOD) bs graces []); [done|constructor|done|rewrite len_nil; lia|exact Hc]. }
    intros more t' [Hc' Hm]. rewrite app_nil_l in Hc'. destruct more; wp_step.
    + split; [done|]. intros _ He. specialize (Hm eq_refl). rewrite Forall_forall in Hm. apply Exists_exists in He as (x & Hx & Hge).
      specialize (Hm x Hx). cbn in Hm, Hge. lia.
    + wp_step. wp_step. split; [|done]. intros st [= <-]. destruct Hc' as [(samples & Hsm & [E1 E2 E3 E4 E5 E6]) Hp].
      rewrite E1, E2, E3, E4, E5, len_map, Hd. pose proof (count_split bs). split_and!; [rewrite len_app; lia|done..|by exists samples].
Qed.

(** So do those of a throughput test, where a turn sends a message, or fails to,
    and may have an answer or an error as well; progress is printed at most every
    two seconds.  Nothing overflows. *)
Theorem throughput_test_adds_up start duration size turns :
  0 ≤ size < MESSAGE_MAX - 8 → len turns < TURNS_MAX → Forall tb_fits turns →
  wp checked_overflow (throughput_test start duration size turns)
    (λ r t,
       (∀ st, r = Some st →
          let xs := before tb_now (start + duration) turns in
          let answers := omap tb_answer xs in
          cs_messages_sent st = count tb_sent xs ∧ cs_bytes_sent st = cs_messages_sent st * (8 + size) ∧
          cs_messages_received st = len answers ∧ cs_bytes_received st = sum_of (map len answers) ∧
          cs_errors st = count tb_error xs ∧ spaced start (tt_prints t)) ∧
       (Exists (λ x, start + duration ≤ tb_now x) turns → r ≠ None))
    (λ _ _, False) (Build_ThroughputTest ClientStats_new start []).
Proof.
  intros Hs Hlen Ht. unfold throughput_test. set (data := repeat xbb (Z.to_nat size)).
  assert (Hd : len data = size) by (unfold data, len; rewrite repeat_length; lia).
  wp_step. eapply wp_post.
  { apply (wp_loop _ tb_now (start + duration) (λ done, throughput_counts start (8 + len data) done)).
    - intros x s Hnow. unfold throughput_turn. by rewrite (proj2 (Z.leb_le _ _) Hnow).
    - intros done x s Hp Hnow Hc. apply (throughput_step data ltac:(lia) start); [..|done|done].
      + destruct Hp as [rest Hp]. rewrite Hp in Ht. by apply Forall_app in Ht as [Ht _].
      + apply prefix_length in Hp. unfold len in *. lia.
    - split; [|done..]. by split; try apply latency_new. }
  intros more t [Hmore [[E1 E2 E3 E4 E5 _] _ Hp]]. destruct more; wp_step.
  - split; [done|]. intros He. symmetry in Hmore. rewrite forallb_forall in Hmore. apply List.Exists_exists in He as (x & Hx & Hge).
    specialize (Hmore x Hx). cbn in Hmore. apply Z.ltb_lt in Hmore. lia.
  - wp_step. wp_step. split; [|done]. intros st [= <-]. rewrite E1, E2, E3, E4, E5, len_map, Hd. by split_and!.
Qed.

(** The tests [main] runs are in order whatever the mode: a message and its answer
    are each one segment and fit the buffer, and the interval is given a period.
    Only the mode [file_transfer] is a byte stream, where a read is not an answer. *)
Theorem planned_tests_fit {f32 : Type} mode test_type t :
  t ∈ planned_tests test_type →
  let conf := config_of_mode (f32 := f32) mode in
  stream_mode conf = bool_decide (mode = "file_transfer") ∧
  0 ≤ message_size t < MESSAGE_MAX - 8 ∧
  8 + (8 + message_size t) ≤ Z.min (stream_mss conf) RECEIVE_BUFFER ∧
  match message_rate t with Some r => ∀ s, ∃ p, send_period (S := ()) (E := Empty_set) r s = (Ok p, s) ∧ 0 < p | None => True end.
Proof.
  intros Ht conf.
  assert (Hc : stream_mode conf = bool_decide (mode = "file_transfer") ∧ 1176 ≤ stream_mss conf).
  { unfold conf, config_of_mode.
    repeat (match goal with |- context [decide (mode = ?m)] => destruct (decide (mode = m)) as [->|?] end; [split; [reflexivity|vm_compute; congruence]|]).
    split; [symmetry; by apply bool_decide_eq_false_2|vm_compute; congruence]. }
  destruct Hc as [Hmode Hm]. split; [done|]. clear Hmode. unfold planned_tests, MESSAGE_MAX, RECEIVE_BUFFER in *.
  repeat case_decide; repeat (apply elem_of_cons in Ht as [-> | Ht]); try by apply elem_of_nil in Ht.
  all: cbn [message_size message_rate]; split_and!; try lia; try done; intros s; eexists; (split; [reflexivity|vm_compute; congruence]).
Qed.
End MeasureTheorems.

(** ** The servers *)

Section ServerFacts.
Context {prof : Profile} {stream : Type}.

Lemma perf_server_loop (results : list (option (KcpError + stream))) : ∀ p,
  0 ≤ client_id p → client_id p + len results < 2 ^ 32 →
  wp no_panic (perf_run_server results)
    (λ more p', ps_spawned p' = ps_spawned p ++ zip (seqZ (client_id p + 1) (len (accepted results))) (accepted results) ∧
       (more = false ↔ None ∈ results)) (λ _ _, False) p.
Proof.
  unfold perf_run_server. induction results as [|r results IH]; intros p Hp Hl; cbn [loop accepted].
  { wp_step. rewrite app_nil_r. split; [done|]. by rewrite elem_of_nil. }
  rewrite len_cons in Hl. pose proof (len_nonneg results). wp_step. destruct r as [[e|s]|]; cbn [perf_server_turn].
  - wp_step. eapply wp_post; [apply IH; lia|]. intros more p' [H1 ->]. split; [done|]. rewrite elem_of_cons. split; [by right|by intros [|]].
  - do 3 wp_step. apply wp_arith_exact; [unfold in_u; lia|]. do 5 wp_step.
    eapply wp_post; [apply IH; cbn; lia|]. intros more p' [H1 H2]. cbn in H1.
    split; [|rewrite H2, elem_of_cons; split; [by right|by intros [|]]].
    rewrite H1, len_cons, <- (assoc (++)). f_equal. pose proof (len_nonneg (accepted results)).
    rewrite (seqZ_cons _ (len (accepted results) + 1)) by lia. cbn [zip zip_with app]. f_equal. f_equal. f_equal; lia.
  - do 2 wp_step. rewrite app_nil_r. split; [done|]. rewrite elem_of_cons. split; [by left|done].
Qed.

Lemma echo_server_loop (results : list (KcpError + stream)) : ∀ l,
  wp no_panic (echo_run_server results)
    (λ more l', more = true ∧ l' = l ++ omap (λ r, match r with inr s => Some s | inl _ => None end) results) (λ _ _, False) l.
Proof.
  unfold echo_run_server. induction results as [|r results IH]; intros l; cbn [loop].
  { wp_step. by rewrite app_nil_r. }
  wp_step. destruct r as [e|s]; do 3 wp_step; [apply IH|]. eapply wp_post; [apply IH|]. intros more l' [H ->].
  split; [done|]. by rewrite <- (assoc (++)).
Qed.

Lemma issue5_server_loop (results : list (KcpError + stream)) : ∀ l,
  wp no_panic (issue5_server results)
    (λ more l', ∃ served, l' = l ++ served ∧ map inr served `prefix_of` results ∧ (more = true → results = map inr served))
    (λ _ _, False) l.
Proof.
  unfold issue5_server. induction results as [|r results IH]; intros l; cbn [loop].
  { wp_step. exists []. rewrite app_nil_r. by split_and!. }
  wp_step. destruct r as [e|s].
  - do 2 wp_step. exists []. rewrite app_nil_r. split_and!; [done|apply prefix_nil|done].
  - do 3 wp_step. eapply wp_post; [apply IH|]. intros more l' (served & -> & Hp & Hm). exists (s :: served).
    split_and!; [by rewrite <- (assoc (++))|by apply prefix_cons|]. intros H. cbn. by rewrite <- (Hm H).
Qed.
End ServerFacts.

(** Every connection the servers accept is given to a handler, in order, whatever
    [accept] fails with in between; the handlers of the measuring server are
    numbered from 1, and it ends exactly at a shutdown.  After 2^32 - 1 of them the
    number overflows. *)
Theorem servers_serve_all {prof : Profile} {stream : Type} (results : list (option (KcpError + stream))) :
  len results < 2 ^ 32 - 1 →
  wp no_panic (perf_run_server results)
    (λ more p, map snd (ps_spawned p) = accepted results ∧
       map fst (ps_spawned p) = seqZ 1 (len (accepted results)) ∧ (more = false ↔ None ∈ results))
    (λ _ _, False) (Build_PerfServer 0 []) ∧
  ∀ s, (perf_server_turn (stream := stream) (Some (inr s)) (Build_PerfServer (2 ^ 32 - 1) [])).1 =
    if overflow_checks then Panicked OverflowPanic else Ok true.
Proof.
  intros Hl. split.
  - eapply wp_post; [apply perf_server_loop; cbn -[Z.pow]; lia|]. intros more p [-> Hm]. cbn [ps_spawned client_id app].
    assert (He : length (seqZ (0 + 1) (len (accepted results))) = length (accepted results)).
    { rewrite length_seqZ. unfold len. lia. }
    split_and!; [apply snd_zip, Nat.eq_le_incl; symmetry; exact He|apply fst_zip, Nat.eq_le_incl; exact He|done].
  - intros s. unfold perf_server_turn, uadd, arith. cbn -[overflow_checks]. by destruct overflow_checks.
Qed.

Lemma servers_serve_all_witness :
  len [Some (inr 7); Some (inl (KInternal "")); Some (inr 8); None] < 2 ^ 32 - 1 ∧
  wp no_panic (perf_run_server (prof := debug_build) [Some (inr 7); Some (inl (KInternal "")); Some (inr 8); None])
    (λ more p, map snd (ps_spawned p) = [7; 8] ∧ map fst (ps_spawned p) = [1; 2] ∧ (more = false ↔ True))
    (λ _ _, False) (Build_PerfServer 0 []).
Proof.
  split; [vm_compute; reflexivity|].
  eapply wp_post; [apply (servers_serve_all (prof := debug_build) [Some (inr 7); Some (inl (KInternal "")); Some (inr 8); None]); vm_compute; reflexivity|].
  intros more p (H1 & H2 & H3). split_and!; [exact H1|exact H2|]. rewrite H3. split; [done|]. intros _. by repeat (apply elem_of_cons; (by left) || right).
Defined.

(** A tick that is written, one that is not, an answer, a short one; then a late
    answer and a timeout. *)
Lemma latency_test_adds_up_witness :
  ∃ st t, latency_test (prof := debug_build) 0 10 4
      [(1, SendTick 100 (inr ())); (3, SendTick 101 (inl BrokenPipe)); (4, Response (inr (le_bytes 8 100)) 103);
       (5, Response (inr [x00]) 104); (10, SendTick 105 (inr ()))] 11
      [(11, Some (inr (le_bytes 8 104)), 106); (12, None, 0)]
      (Build_LatencyTest ClientStats_new []) = (Ok (Some st), t) ∧
    cs_messages_sent st + cs_messages_received st + cs_errors st = 5 ∧ ls_count (cs_latency st) = 2.
Proof.
  pose proof (latency_test_adds_up (prof := debug_build) 0 10 4
      [(1, SendTick 100 (inr ())); (3, SendTick 101 (inl BrokenPipe)); (4, Response (inr (le_bytes 8 100)) 103);
       (5, Response (inr [x00]) 104); (10, SendTick 105 (inr ()))] 11
      [(11, Some (inr (le_bytes 8 104)), 106); (12, None, 0)]) as H.
  specialize (H ltac:(unfold MESSAGE_MAX; lia) ltac:(vm_compute; reflexivity)
    ltac:(repeat constructor; vm_compute; congruence) ltac:(repeat constructor; vm_compute; congruence)).
  eexists _, _. split; [vm_compute; reflexivity|]. split; [|vm_compute; reflexivity].
  destruct (wp_ok _ _ _ _ _ _ _ H ltac:(vm_compute; reflexivity)) as [H1 _]. exact (proj1 (H1 _ eq_refl)).
Defined.

Lemma throughput_test_adds_up_witness :
  ∃ st t, throughput_test (prof := debug_build) 0 5000 4
      [Build_throughput_branch 1 100 (inr ()) (Some (inr (le_bytes 8 100)));
       Build_throughput_branch 2500 101 (inr ()) None; Build_throughput_branch 6000 102 (inr ()) None]
      (Build_ThroughputTest ClientStats_new 0 []) = (Ok (Some st), t) ∧
    cs_messages_sent st = 2 ∧ cs_bytes_received st = 8 ∧ tt_prints t = [2500].
Proof.
  pose proof (throughput_test_adds_up (prof := debug_build) 0 5000 4
      [Build_throughput_branch 1 100 (inr ()) (Some (inr (le_bytes 8 100)));
       Build_throughput_branch 2500 101 (inr ()) None; Build_throughput_branch 6000 102 (inr ()) None]) as H.
  specialize (H ltac:(unfold MESSAGE_MAX; lia) ltac:(vm_compute; reflexivity) ltac:(repeat constructor; vm_compute; congruence)).
  eexists _, _. split; [vm_compute; reflexivity|].
  destruct (wp_ok _ _ _ _ _ _ _ H ltac:(vm_compute; reflexivity)) as [H1 _].
  destruct (H1 _ eq_refl) as (E1 & _ & _ & E4 & _). split; [exact E1|]. split; [exact E4|vm_compute; reflexivity].
Defined.

Lemma planned_tests_fit_witness :
  Latency 10000 512 60 ∈ planned_tests "latency" ∧
  8 + (8 + 512) ≤ Z.min (stream_mss (config_of_mode (f32 := ()) "gaming")) RECEIVE_BUFFER.
Proof.
  assert (H : Latency 10000 512 60 ∈ planned_tests "latency") by (apply list_elem_of_In; right; left; reflexivity).
  split; [exact H|]. exact (proj1 (proj2 (proj2 (planned_tests_fit (f32 := ()) "gaming" "latency" _ H)))).
Defined.
